(* ===== verification/_CoqProject ===== *)
-Q . S2P
Prelude.v
KString.v
Cpio.v
KList.v
Lock.v
Pmm.v
PmmInit.v
PageAlloc.v
Pmap.v
PageTable.v
PmapSpec.v
PmapUnmap.v
PmapRange.v
PmapCreate.v
PmapExamples.v
Mem.v
Tlsf.v
TlsfBits.v
TlsfLists.v
TlsfBlocks.v
TlsfSpec.v
TlsfFree.v
TlsfExamples.v
Task.v
Sched.v
SchedSpec.v
Ipc.v
IpcAbs.v
IpcSpec.v
IpcRefine.v
TaskExamples.v
HeapSpec.v
Kmem.v
KmemTlsf.v
KmemSpec.v
KernelPages.v
KmemExamples.v
ThreadCreate.v
Futex.v
Grant.v
GrantSpec.v
Syscall.v
SyscallSpec.v
GrantExamples.v
RbTree.v
RbNode.v
RbSpec.v
RbInsert.v
RbSearch.v
Vma.v
VmaSpec.v
Elf.v
ElfSpec.v
ElfExamples.v
Init.v
Cpu.v
Descriptors.v
Acpi.v
Uart.v
Hhdm.v
HhdmSpec.v
Boot.v
Pager.v
PagerSpec.v
