(* ===== verification/Prelude.v ===== *)
(** * Koharu: a verification development for the koharu microkernel

    Koharu is a microkernel for x86-64: it allocates frames, keeps page tables,
    schedules threads, and lets threads exchange messages, sleep on futexes and
    grant frames to each other; memory policy is in user space.  This library
    models the kernel's own code, and the data structures of the root server, as
    executable functions on explicit states, and proves what they compute.

    ** How the code is modelled

    A kernel routine is a function of the monad [K S]: from a state it returns a
    value and a state, halts ([for (;;) arch_halt();], a failed assertion), spins
    on a lock nobody will release, or reaches undefined behaviour of C ([Undef]: a
    null or dangling pointer, an index out of bounds).  A theorem that a routine
    is [Done] therefore also says that it does none of the latter.  Integers are
    [Z] with the wrap-around of their width written out; pointers are addresses;
    linked structures are finite maps from addresses to their fields, so sharing
    and dangling links are as in C.  The kernel runs with interrupts masked and
    the state is that of one processor: a routine is only left in the middle by
    [switch_to], and the rest of a suspended system call is the thread's
    continuation ([kcont] of Task.v).  The one place where several processors
    matter by themselves, the spinlock, is also modelled as a step relation.

    ** The files

    - Prelude.v (this file): machine integers, the monad, its lemmas and tactics.
    - KList.v: include/koharu/list.h, and the abstraction of a store of links to
      disjoint circular lists ([lists]), which the clients below use.
    - Lock.v: kernel/misc/lock.c; the ticket lock under contention refines a
      queue, excludes, and makes progress.
    - Mem.v: byte accesses on the words of memory.  KString.v: kernel/lib/string.c.
      Cpio.v: user/cpio.c and the reader of boot/loader.c.
    - Pmm.v, PmmInit.v: kernel/mm/pmm.c, the buddy allocator: allocation and
      freeing against the set of free frames, boot-time initialisation.
    - PageAlloc.v: the interface [PageAllocator] which page tables are verified
      against.
    - Pmap.v: kernel/arch/x86_64/pmap.c.  PageTable.v: the tree of tables and the
      translation it stands for; PmapSpec.v, PmapUnmap.v, PmapRange.v,
      PmapCreate.v: each operation computes the intended translation, keeps the
      tree well formed, flushes the TLB and does not touch other address spaces;
      PmapExamples.v: the theorems at a concrete machine.
    - Tlsf.v: kernel/lib/tlsf.c.  TlsfBits.v: size classes; TlsfLists.v: free
      lists; TlsfBlocks.v: physical blocks; TlsfSpec.v, TlsfFree.v: malloc, free,
      pools and remote frees against the set of live blocks; TlsfExamples.v.
    - HeapSpec.v: the interface [HeapLaws], what the kernel heap promises to its
      clients.  Kmem.v: kernel/mm/kmem.c over the interface [TlsfHeap]; KmemTlsf.v
      implements the interface with Tlsf.v; KmemSpec.v proves the laws of the heap
      from those of TLSF and of the page allocator; KernelPages.v: the kernel's
      page allocator with the owners of pages and the heaps of the processors;
      KmemExamples.v: a small machine.
    - Task.v: threads and kernel/task/thread.c.  Sched.v, SchedSpec.v:
      kernel/task/sched.c and its effect on the contents of the run queues.
    - Ipc.v: kernel/task/ipc.c.  IpcAbs.v: the protocol as functions of the
      endpoints and message registers, its invariant over all reachable states
      and what it promises; IpcSpec.v, IpcRefine.v: the code refines it;
      TaskExamples.v: three threads on a concrete machine.
    - ThreadCreate.v: kernel/arch/x86_64/thread.c.  Futex.v: kernel/task/futex.c.
      Grant.v: kernel/task/grant.c; GrantSpec.v: the grant lists as tables of
      rights, with the entries on any heap that keeps [HeapLaws], and the
      reference counters.  Syscall.v: kernel/task/syscall.c; SyscallSpec.v: what
      [SYS_MAP] lets a pager map; GrantExamples.v.
      Elf.v: the loaders of ELF images; ElfSpec.v: what [elf_load] leaves in an address
      space; ElfExamples.v: an image.  Init.v: kernel/task/init.c and
      kernel/generic.c.
    - RbTree.v: the functions of RB_GENERATE in user/include/tree.h.  RbNode.v: the
      packed parent field; RbSpec.v: trees and zippers in the store, rotations;
      RbInsert.v: ranks and insertion; RbSearch.v: searches and walks.
      Vma.v: user/vma.c; VmaSpec.v: the set of disjoint ranges it implements.
    - Pager.v: user/main.c, user/pager.c, user/console.c and user/elf.c over the
      interface [UserWorld] of memory and system calls; PagerSpec.v: the frame
      pool.
    - Cpu.v: kernel/arch/x86_64/cpu.c and lapic.c; Descriptors.v: gdt.c and idt.c;
      Acpi.v: kernel/dev/acpi.c; Uart.v: uart.c and kernel/misc/kprintf.c.
    - Hhdm.v: boot/arch/x86_64/hhdm.c over the interface [BootPages] of the
      firmware's pages; HhdmSpec.v: what its tables translate.  Boot.v: boot/main.c
      and boot/loader.c over the interface [Firmware].

    ** What the theorems show

    Page allocator: an allocation fails only when no free block is large enough,
    and returns frames that were free; freeing returns exactly the block, when
    its buddies are whole; initialisation makes the free set of the memory map.
    Address spaces: the translation after every operation, on success and on
    failure, round trip and isolation.  Heap: a pointer of [tlsf_malloc] belongs
    to nobody else and no live byte ever changes; frees, remote frees and new
    pools keep the invariant.  Scheduler: what each operation does to the run
    queues.  Messages: refinement of the abstract protocol, its invariant in every
    reachable state, and delivery of exactly the words that were sent.  Locks:
    refinement of a queue.  Kernel heap: [kmalloc] and [kfree] over all layers.
    Grants: tables of rights with exact reference counts; [SYS_MAP] maps nothing
    the caller was not granted.  Images: what is mapped where
    after [elf_load].  Boot loader: the translation of the first page tables.  Root
    server: rank-balanced insertion keeps order, ranks and pointers; the address
    ranges stay disjoint and are found again; the frame pool.  Strings: the functions
    of the C library.

    ** Fuel

    A loop of the code that is not structural takes fuel that its caller computes
    from the state: 64 for a shift of a 64-bit word; the number of nodes of the
    store for a walk of a list; the number of words of memory for walks of blocks
    and strings; the number of pages of a range.  Every theorem states the result
    of the routine itself ([= Done ...]), so the fuel is shown to be enough where
    the theorem applies; a loop of the monad that runs out of fuel is [Spins] or
    [Undef], never a result.

    ** Not modelled

    The save and restore of registers in assembly (irq.S, syscall.S, switch.S, the
    jumps of init.c and of boot/arch/x86_64/jump.c), whose meaning is the processor's;
    the firmware, which is an interface; nanoprintf.h, a third-party header: the
    console takes the characters it makes; the messages the routines print; the splay
    trees of tree.h, which the program does not use.  Preemption inside the kernel and
    weak memory do not occur in the model. *)

From Stdlib Require Export ZArith Lia.
From stdpp Require Export gmap list fin_maps.

#[global] Open Scope Z_scope.
#[global] Set Default Goal Selector "!".

(** ** Machine integers

    An n-bit C integer is a [Z] kept in range by the wrap-around functions
    below, which are written out wherever the C code can overflow. *)

Definition U64 : Z := 0x10000000000000000.
Definition U32 : Z := 0x100000000.

Definition wrap64 (x : Z) : Z := x mod U64.
Definition wrap32 (x : Z) : Z := x mod U32.
Definition wrap16 (x : Z) : Z := x mod 0x10000.
Definition wrap8 (x : Z) : Z := x mod 0x100.

(** [~x] on a [uint64_t]. *)
Definition bnot64 (x : Z) : Z := wrap64 (Z.lnot x).

(** [1ULL << n]. *)
Definition bit (n : Z) : Z := Z.shiftl 1 n.

(** [(x & (1ULL << n)) != 0], the C idiom for a flag test. *)
Definition has_flag (x f : Z) : bool := negb (Z.land x f =? 0).

(** ** The kernel monad

    A kernel routine reads and writes a state.  It returns a value, stops in
    [for (;;) arch_halt();], spins forever on a lock nobody will release, or
    runs into undefined behaviour of C (a null or dangling dereference, an
    index out of bounds). *)

Inductive outcome (S A : Type) : Type :=
| Done (a : A) (s : S)
| Halted (s : S)
| Spins (s : S)
| Undef.
Arguments Done {S A} _ _.
Arguments Halted {S A} _.
Arguments Spins {S A} _.
Arguments Undef {S A}.

Definition K (S A : Type) : Type := S → outcome S A.

#[export] Instance K_ret {S} : MRet (K S) := λ A a s, Done a s.
#[export] Instance K_bind {S} : MBind (K S) := λ A B f m s,
  match m s with
  | Done a s' => f a s'
  | Halted s' => Halted s'
  | Spins s' => Spins s'
  | Undef => Undef
  end.

Definition kget {S A} (f : S → A) : K S A := λ s, Done (f s) s.
Definition kput {S} (s' : S) : K S unit := λ _, Done tt s'.
Definition kmodify {S} (f : S → S) : K S unit := λ s, Done tt (f s).
Definition khalt {S A} : K S A := λ s, Halted s.
Definition kspin {S A} : K S A := λ s, Spins s.
Definition kundef {S A} : K S A := λ _, Undef.

(** A read that is undefined behaviour when there is nothing to read. *)
Definition kread {S A} (f : S → option A) : K S A := λ s,
  match f s with Some a => Done a s | None => Undef end.

(** An update that is undefined behaviour when the target does not exist. *)
Definition kupdate {S} (f : S → option S) : K S unit := λ s,
  match f s with Some s' => Done tt s' | None => Undef end.

(** Runs a routine of a component on the part [get]/[put] of a larger state. *)
Definition klift {S T A} (get : S → T) (put : T → S → S) (m : K T A) : K S A := λ s,
  match m (get s) with
  | Done a t => Done a (put t s)
  | Halted t => Halted (put t s)
  | Spins t => Spins (put t s)
  | Undef => Undef
  end.

(** The state and the value of a run that returns. *)
Definition state_of {S A} (d : S) (r : outcome S A) : S := match r with Done _ s => s | _ => d end.
Definition value_of {S A} (r : outcome S A) : option A := match r with Done a _ => Some a | _ => None end.

Lemma done_inj {S A} (a b : A) (s t : S) : Done a s = Done b t → a = b ∧ s = t.
Proof. by intros [=]. Qed.
Lemma value_run {S A} (d : S) (r : outcome S A) a : value_of r = Some a → r = Done a (state_of d r).
Proof. destruct r; simpl; congruence. Qed.

(** [for (i = 0; i < n; i++) body(i)], the state threaded through. *)
Fixpoint kfor {S} (n : nat) (i : Z) (body : Z → K S unit) : K S unit :=
  match n with
  | O => mret tt
  | S n' => body i ;; kfor n' (i + 1) body
  end.

(** ** Facts about the monad *)

Section monad.
Context {S A B : Type}.
Implicit Types (m : K S A) (s : S).

Lemma bind_done m (k : A → K S B) s a s' :
  m s = Done a s' → (m ≫= k) s = k a s'.
Proof. intros E. unfold mbind, K_bind. by rewrite E. Qed.

Lemma bind_seq {C} m (k : A → K S B) (g : B → K S C) s b s' :
  (m ≫= k) s = Done b s' → (m ≫= λ a, k a ≫= g) s = g b s'.
Proof. unfold mbind, K_bind. destruct (m s) as [a t|t|t|]; try done. by intros ->. Qed.

Lemma bind_halted m (k : A → K S B) s s' :
  m s = Halted s' → (m ≫= k) s = Halted s'.
Proof. intros E. unfold mbind, K_bind. by rewrite E. Qed.

Lemma bind_undef m (k : A → K S B) s :
  m s = Undef → (m ≫= k) s = Undef.
Proof. intros E. unfold mbind, K_bind. by rewrite E. Qed.

Lemma bind_inv m (k : A → K S B) s b s'' :
  (m ≫= k) s = Done b s'' → ∃ a s', m s = Done a s' ∧ k a s' = Done b s''.
Proof. unfold mbind, K_bind. destruct (m s); naive_solver. Qed.

Lemma kread_done (f : S → option A) s a :
  f s = Some a → kread f s = Done a s.
Proof. intros E. unfold kread. by rewrite E. Qed.

Lemma kupdate_done (f : S → option S) s s' :
  f s = Some s' → kupdate f s = Done tt s'.
Proof. intros E. unfold kupdate. by rewrite E. Qed.

Lemma klift_done {T} (get : S → T) put (m : K T A) s a t :
  m (get s) = Done a t → klift get put m s = Done a (put t s).
Proof. intros E. unfold klift. by rewrite E. Qed.
End monad.

(** A loop invariant for [kfor]. *)
Lemma kfor_inv {S} n i (body : Z → K S unit) (I : Z → S → Prop) s :
  I i s → (∀ j s, i ≤ j < i + Z.of_nat n → I j s → ∃ s', body j s = Done tt s' ∧ I (j + 1) s') →
  ∃ s', kfor n i body s = Done tt s' ∧ I (i + Z.of_nat n) s'.
Proof.
  revert i s. induction n as [|n IH]; intros i s Hi Hb.
  { exists s. split; [done|]. by rewrite Z.add_0_r. }
  destruct (Hb i s) as (s1 & E1 & H1); [lia|done|].
  destruct (IH (i + 1) s1) as (s2 & E2 & H2); [done| |].
  { intros j t Hj. apply Hb. lia. }
  exists s2. split.
  - simpl. erewrite bind_done by done. exact E2.
  - by replace (i + Z.of_nat (Datatypes.S n)) with (i + 1 + Z.of_nat n) by lia.
Qed.

(** [kstep] runs the monadic program of the goal through the next binding
    whose outcome is a hypothesis or computes. *)
Ltac kstep :=
  first
    [ erewrite bind_done; [| eassumption ]
    | erewrite bind_done; [| apply kread_done; eassumption ]
    | erewrite bind_done; [| apply kupdate_done; eassumption ]
    | erewrite bind_done; [| reflexivity ] ].
Ltac ksteps := repeat (kstep; cbn beta iota).

(** [mlia] is [lia] with the quotients and remainders of the goal spelt out. *)
Ltac mlia := intros; Z.div_mod_to_equations; lia.

(** ** Bits *)

Lemma bit_pow n : 0 ≤ n → bit n = 2 ^ n.
Proof. intros ?. unfold bit. rewrite Z.shiftl_mul_pow2 by done. lia. Qed.

Lemma wrap64_small x : 0 ≤ x < U64 → wrap64 x = x.
Proof. intros. unfold wrap64. by apply Z.mod_small. Qed.

Lemma wrap64_range x : 0 ≤ wrap64 x < U64.
Proof. unfold wrap64. apply Z.mod_pos_bound. done. Qed.

Lemma wrap32_small x : 0 ≤ x < U32 → wrap32 x = x.
Proof. intros. unfold wrap32. by apply Z.mod_small. Qed.

Lemma wrap32_range x : 0 ≤ wrap32 x < U32.
Proof. unfold wrap32. apply Z.mod_pos_bound. done. Qed.

Lemma bnot64_ones n x :
  0 ≤ n ≤ 64 → 0 ≤ x < U64 →
  Z.land x (bnot64 (Z.ones n)) = x - x mod 2 ^ n.
Proof.
  intros Hn Hx. rewrite <- Z.land_ones by lia.
  assert (Hl : Z.land x (bnot64 (Z.ones n)) = Z.ldiff x (Z.ones n)).
  { apply Z.bits_inj'. intros i Hi. unfold bnot64, wrap64.
    rewrite Z.land_spec, Z.ldiff_spec. change U64 with (2 ^ 64).
    destruct (decide (i < 64)).
    - rewrite Z.mod_pow2_bits_low, Z.lnot_spec by lia. done.
    - rewrite Z.mod_pow2_bits_high by lia.
      rewrite (Z.bits_above_log2 x i); [done|lia|].
      destruct (decide (x = 0)) as [->|]; [simpl; lia|].
      apply Z.log2_lt_pow2; [lia|]. change U64 with (2 ^ 64) in Hx.
      assert (2 ^ 64 ≤ 2 ^ i) by (apply Z.pow_le_mono_r; lia). lia. }
  rewrite Hl. pose proof (Z.land_ldiff x (Z.ones n)) as Hd.
  pose proof (Z.add_lor_land (Z.land x (Z.ones n)) (Z.ldiff x (Z.ones n))) as Ha.
  assert (H0 : Z.land (Z.land x (Z.ones n)) (Z.ldiff x (Z.ones n)) = 0).
  { apply Z.bits_inj'. intros i Hi.
    rewrite !Z.land_spec, Z.ldiff_spec, Z.bits_0. destruct (Z.testbit x i), (Z.testbit (Z.ones n) i); done. }
  assert (H1 : Z.lor (Z.land x (Z.ones n)) (Z.ldiff x (Z.ones n)) = x).
  { apply Z.bits_inj'. intros i Hi.
    rewrite Z.lor_spec, Z.land_spec, Z.ldiff_spec. destruct (Z.testbit x i), (Z.testbit (Z.ones n) i); done. }
  rewrite H0, H1 in Ha. lia.
Qed.

(** Flipping bit [o] of a multiple of [2^o] moves to the sibling block. *)
Lemma lxor_one k : Z.lxor k 1 = if Z.even k then k + 1 else k - 1.
Proof.
  destruct (Z.even k) eqn:E.
  - assert (Hk : k = 2 * (k / 2)) by (rewrite Z.even_spec in E; destruct E as [q ->]; rewrite Z.mul_comm, Z.div_mul; lia).
    rewrite <- Z.add_nocarry_lxor; [done|].
    apply Z.bits_inj'. intros i Hi. rewrite Z.land_spec, Z.bits_0.
    destruct (decide (i = 0)) as [->|].
    + rewrite Z.bit0_odd, <- Z.negb_even, E. done.
    + change 1 with (2 ^ 0). rewrite Z.pow2_bits_false by lia. by rewrite andb_false_r.
  - rewrite Z.sub_nocarry_ldiff.
    + apply Z.bits_inj'. intros i Hi. rewrite Z.lxor_spec, Z.ldiff_spec.
      destruct (decide (i = 0)) as [->|].
      * rewrite Z.bit0_odd, <- Z.negb_even, E. done.
      * change 1 with (2 ^ 0). rewrite Z.pow2_bits_false by lia. by rewrite xorb_false_r, andb_true_r.
    + apply Z.bits_inj'. intros i Hi. rewrite Z.ldiff_spec, Z.bits_0.
      destruct (decide (i = 0)) as [->|].
      * rewrite (Z.bit0_odd k), <- Z.negb_even, E. done.
      * change 1 with (2 ^ 0). rewrite Z.pow2_bits_false by lia. done.
Qed.

Lemma land_pair k : Z.land k (Z.lxor k 1) = 2 * (k / 2).
Proof.
  apply Z.bits_inj'. intros i Hi. rewrite Z.land_spec, Z.lxor_spec.
  destruct (decide (i = 0)) as [->|].
  - rewrite Z.testbit_even_0. change (Z.testbit 1 0) with true.
    by destruct (Z.testbit k 0).
  - change 1 with (2 ^ 0) at 1. rewrite Z.pow2_bits_false by lia.
    rewrite xorb_false_r, andb_diag.
    replace i with (Z.succ (Z.pred i)) at 2 by lia.
    rewrite Z.testbit_even_succ, <- Z.div2_div, Z.div2_spec, Z.shiftr_spec by lia.
    f_equal. lia.
Qed.

(** The buddy of a block: sibling halves of the enclosing block of order [o+1]. *)
Lemma lxor_buddy b o :
  0 ≤ o → b mod 2 ^ o = 0 →
  Z.lxor b (bit o) = if Z.even (b / 2 ^ o) then b + 2 ^ o else b - 2 ^ o.
Proof.
  intros Ho Hb. assert (0 < 2 ^ o) by (apply Z.pow_pos_nonneg; lia).
  assert (E : b = Z.shiftl (b / 2 ^ o) o).
  { rewrite Z.shiftl_mul_pow2 by done. mlia. }
  rewrite E at 1. unfold bit. rewrite <- Z.shiftl_lxor, lxor_one, Z.shiftl_mul_pow2 by done.
  destruct (Z.even _); mlia.
Qed.

Lemma land_buddy b o :
  0 ≤ o → b mod 2 ^ o = 0 → Z.land b (Z.lxor b (bit o)) = 2 ^ (o + 1) * (b / 2 ^ (o + 1)).
Proof.
  intros Ho Hb. assert (0 < 2 ^ o) by (apply Z.pow_pos_nonneg; lia).
  assert (E : b = Z.shiftl (b / 2 ^ o) o).
  { rewrite Z.shiftl_mul_pow2 by done. mlia. }
  unfold bit. rewrite E at 1 2. rewrite <- Z.shiftl_lxor, <- Z.shiftl_land, land_pair by done.
  rewrite Z.shiftl_mul_pow2, Z.pow_add_r, <- Z.div_div by lia. change (2 ^ 1) with 2. lia.
Qed.

(** [ALIGN_UP] and [ALIGN_DOWN] of mmu.h, on [uint64_t]. *)
Definition ALIGN_UP (addr align : Z) : Z :=
  Z.land (wrap64 (wrap64 (addr + align) - 1)) (bnot64 (wrap64 (align - 1))).
Definition ALIGN_DOWN (addr align : Z) : Z :=
  Z.land addr (bnot64 (wrap64 (align - 1))).
