(* ===== verification/KString.v ===== *)
(** * Strings and memory blocks (kernel/lib/string.c, user/string.c)

    The two files have the same text.  Memory is a store of bytes; an access
    outside it is undefined behaviour. *)

From S2P Require Export Prelude.

Abbreviation bmem := (gmap Z Z).

(** [*p] and [*p = v] for byte pointers. *)
Definition rdb (a : Z) : K bmem Z := kread (λ m, m !! a).
Definition wrb (a v : Z) : K bmem unit := kupdate (λ m, _ ← m !! a; Some (<[a := v]> m)).

(** The little-endian field of [n] bytes at [a]. *)
Fixpoint ld (n : nat) (a : Z) : K bmem Z :=
  match n with O => mret 0 | S n' => b ← rdb a; v ← ld n' (a + 1); mret (b + Z.shiftl v 8) end.
Fixpoint st (n : nat) (a v : Z) : K bmem unit :=
  match n with O => mret tt | S n' => wrb a (wrap8 v);; st n' (a + 1) (Z.shiftr v 8) end.

(** A bound on the number of bytes a loop over a string can visit. *)
Definition str_fuel (m : bmem) : nat := S (size m).

Definition memset (dest ch count : Z) : K bmem Z :=
  kfor (Z.to_nat count) 0 (λ i, wrb (dest + i) (wrap8 ch));;
  mret dest.

Definition memcpy (dest src count : Z) : K bmem Z :=
  kfor (Z.to_nat count) 0 (λ i, v ← rdb (src + i); wrb (dest + i) v);;
  mret dest.

(** [for (i = count; i > 0; i--) d[i - 1] = s[i - 1]]. *)
Fixpoint copy_down (n : nat) (dest src : Z) : K bmem unit :=
  match n with
  | O => mret tt
  | S n' => v ← rdb (src + Z.of_nat n'); wrb (dest + Z.of_nat n') v;; copy_down n' dest src
  end.

Definition memmove (dest src count : Z) : K bmem Z :=
  (if dest <? src then kfor (Z.to_nat count) 0 (λ i, v ← rdb (src + i); wrb (dest + i) v)
   else if src <? dest then copy_down (Z.to_nat count) dest src
   else mret tt);;
  mret dest.

Fixpoint memcmp_from (n : nat) (s1 s2 : Z) : K bmem Z :=
  match n with
  | O => mret 0
  | S n' =>
      a ← rdb s1; b ← rdb s2;
      if negb (a =? b) then mret (if a <? b then -1 else 1) else memcmp_from n' (s1 + 1) (s2 + 1)
  end.
Definition memcmp (s1 s2 n : Z) : K bmem Z := memcmp_from (Z.to_nat n) s1 s2.

(** The loop of [strlen]. *)
Fixpoint strend (fuel : nat) (p : Z) : K bmem Z :=
  match fuel with
  | O => kspin
  | S fuel' => c ← rdb p; if c =? 0 then mret p else strend fuel' (p + 1)
  end.
Definition strlen (s : Z) : K bmem Z :=
  fuel ← kget str_fuel; p ← strend fuel s; mret (p - s).

(** [for (len = i; len < maxlen && s[len] != 0; len++)]. *)
Fixpoint strnlen_from (n : nat) (s len : Z) : K bmem Z :=
  match n with
  | O => mret len
  | S n' => c ← rdb (s + len); if c =? 0 then mret len else strnlen_from n' s (len + 1)
  end.
Definition strnlen (s maxlen : Z) : K bmem Z := strnlen_from (Z.to_nat maxlen) s 0.

(** The loop of [strcpy]. *)
Fixpoint strcpy_from (fuel : nat) (p src : Z) : K bmem unit :=
  match fuel with
  | O => kspin
  | S fuel' => c ← rdb src; wrb p c;; if c =? 0 then mret tt else strcpy_from fuel' (p + 1) (src + 1)
  end.
Definition strcpy (dest src : Z) : K bmem Z :=
  fuel ← kget str_fuel; strcpy_from fuel dest src;; mret dest.

(** [for (; i < n && src[i] != 0; i++) dest[i] = src[i]], the final [i]. *)
Fixpoint copy_until (n : nat) (dest src i : Z) : K bmem Z :=
  match n with
  | O => mret i
  | S n' => c ← rdb (src + i); if c =? 0 then mret i else wrb (dest + i) c;; copy_until n' dest src (i + 1)
  end.

Definition strncpy (dest src n : Z) : K bmem Z :=
  i ← copy_until (Z.to_nat n) dest src 0;
  kfor (Z.to_nat (n - i)) i (λ i, wrb (dest + i) 0);;
  mret dest.

Definition strlcpy (dest src size : Z) : K bmem Z :=
  if size =? 0 then strlen src else
  i ← copy_until (Z.to_nat (size - 1)) dest src 0;
  wrb (dest + i) 0;;
  strlen src.

Fixpoint strcmp_from (fuel : nat) (s1 s2 : Z) : K bmem Z :=
  match fuel with
  | O => kspin
  | S fuel' =>
      a ← rdb s1;
      if a =? 0 then b ← rdb s2; mret (a - b) else
      b ← rdb s2;
      if a =? b then strcmp_from fuel' (s1 + 1) (s2 + 1) else mret (a - b)
  end.
Definition strcmp (s1 s2 : Z) : K bmem Z := fuel ← kget str_fuel; strcmp_from fuel s1 s2.

(** [while (n-- > 0)]. *)
Fixpoint strncmp_from (n : nat) (s1 s2 : Z) : K bmem Z :=
  match n with
  | O => mret 0
  | S n' =>
      a ← rdb s1; b ← rdb s2;
      if negb (a =? b) then mret (a - b) else
      if a =? 0 then mret 0 else strncmp_from n' (s1 + 1) (s2 + 1)
  end.
Definition strncmp (s1 s2 n : Z) : K bmem Z := strncmp_from (Z.to_nat n) s1 s2.

(** The loop of [strrchr], which also looks at the terminator; [0] is [NULL]. *)
Fixpoint strrchr_from (fuel : nat) (s ch last : Z) : K bmem Z :=
  match fuel with
  | O => kspin
  | S fuel' =>
      c ← rdb s;
      let last := if c =? ch then s else last in
      if c =? 0 then mret last else strrchr_from fuel' (s + 1) ch last
  end.
Definition strrchr (s c : Z) : K bmem Z := fuel ← kget str_fuel; strrchr_from fuel s (wrap8 c) 0.

(** ** Blocks of memory *)

(** The bytes [bs] are at [a]. *)
Fixpoint holds (m : bmem) (a : Z) (bs : list Z) : Prop :=
  match bs with [] => True | b :: bs' => m !! a = Some b ∧ holds m (a + 1) bs' end.

(** The bytes from [a] on are replaced by [bs]. *)
Fixpoint blit (a : Z) (bs : list Z) (m : bmem) : bmem :=
  match bs with [] => m | b :: bs' => blit (a + 1) bs' (<[a := b]> m) end.

Definition backed (m : bmem) (a n : Z) : Prop := ∀ x, a ≤ x < a + n → is_Some (m !! x).

Lemma holds_lookup m a bs x :
  holds m a bs → a ≤ x < a + Z.of_nat (length bs) → m !! x = Some (bs !!! Z.to_nat (x - a)).
Proof.
  revert a. induction bs as [|b bs IH]; simpl; intros a Hh Hx; [lia|]. destruct Hh as [Hb Hh].
  destruct (decide (x = a)) as [->|].
  - by rewrite Z.sub_diag.
  - rewrite (IH (a + 1)) by (try done; lia). by replace (Z.to_nat (x - a)) with (S (Z.to_nat (x - (a + 1)))) by lia.
Qed.

Lemma blit_lookup a bs m x :
  blit a bs m !! x = if decide (a ≤ x < a + Z.of_nat (length bs)) then Some (bs !!! Z.to_nat (x - a)) else m !! x.
Proof.
  revert a m. induction bs as [|b bs IH]; intros a m; simpl; [by rewrite decide_False by lia|].
  rewrite IH. destruct (decide (x = a)) as [->|].
  - rewrite decide_False, decide_True by lia. by rewrite lookup_insert_eq, Z.sub_diag.
  - rewrite lookup_insert_ne by done. destruct (decide (a + 1 ≤ x < _)).
    + rewrite decide_True by lia. by replace (Z.to_nat (x - a)) with (S (Z.to_nat (x - (a + 1)))) by lia.
    + by rewrite decide_False by lia.
Qed.

Lemma holds_iff m a bs :
  holds m a bs ↔ ∀ x, a ≤ x < a + Z.of_nat (length bs) → m !! x = Some (bs !!! Z.to_nat (x - a)).
Proof.
  split; [intros; by apply holds_lookup|]. revert a. induction bs as [|b bs IH]; intros a Hx; simpl; [done|]. split.
  - rewrite Hx by (simpl; lia). by rewrite Z.sub_diag.
  - apply IH. intros x Hr. rewrite Hx by (simpl; lia). by replace (Z.to_nat (x - a)) with (S (Z.to_nat (x - (a + 1)))) by lia.
Qed.

Lemma blit_snoc a bs b m : blit a (bs ++ [b]) m = <[a + Z.of_nat (length bs) := b]> (blit a bs m).
Proof.
  revert a m. induction bs as [|c bs IH]; intros a m; simpl; [by rewrite Z.add_0_r|].
  rewrite IH. by replace (a + 1 + Z.of_nat (length bs)) with (a + Z.of_nat (S (length bs))) by lia.
Qed.

Lemma rdb_run m a v : m !! a = Some v → rdb a m = Done v m.
Proof. intros E. unfold rdb, kread. by rewrite E. Qed.
Lemma wrb_run m a v : is_Some (m !! a) → wrb a v m = Done tt (<[a := v]> m).
Proof. intros [w E]. unfold wrb, kupdate. by rewrite E. Qed.

(** ** Copying *)

(** The forward copy of bytes that are not overwritten before they are read. *)
Lemma copy_up_run n i dest src bs m m0 :
  holds m0 src bs → (dest ≤ src ∨ src + Z.of_nat (length bs) ≤ dest) →
  backed m0 dest (Z.of_nat (length bs)) → 0 ≤ i → Z.of_nat (length bs) = i + Z.of_nat n →
  m = blit dest (take (Z.to_nat i) bs) m0 →
  kfor n i (λ i, v ← rdb (src + i); wrb (dest + i) v) m = Done tt (blit dest bs m0).
Proof.
  intros Hh Hov Hb. revert i m. induction n as [|n IH]; intros i m Hi Hlen ->; cbn [kfor].
  { rewrite take_ge by lia. done. }
  destruct (lookup_lt_is_Some_2 bs (Z.to_nat i)) as [b Eb]; [lia|].
  assert (Hl : length (take (Z.to_nat i) bs) = Z.to_nat i) by (rewrite length_take; lia).
  assert (Es : blit dest (take (Z.to_nat i) bs) m0 !! (src + i) = Some b).
  { rewrite blit_lookup, Hl, decide_False by lia. rewrite (holds_lookup _ _ _ _ Hh) by lia.
    replace (src + i - src) with i by lia. by rewrite (list_lookup_total_correct _ _ _ Eb). }
  assert (Ed : is_Some (blit dest (take (Z.to_nat i) bs) m0 !! (dest + i))).
  { rewrite blit_lookup, Hl, decide_False by lia. apply Hb. lia. }
  erewrite bind_done; [|erewrite bind_done by (apply rdb_run; exact Es); by apply wrb_run].
  apply IH; [lia|lia|].
  replace (Z.to_nat (i + 1)) with (S (Z.to_nat i)) by lia. rewrite (take_S_r _ _ _ Eb), blit_snoc, Hl.
  by rewrite Z2Nat.id by lia.
Qed.

Lemma memcpy_run dest src bs m :
  holds m src bs → (dest ≤ src ∨ src + Z.of_nat (length bs) ≤ dest) → backed m dest (Z.of_nat (length bs)) →
  memcpy dest src (Z.of_nat (length bs)) m = Done dest (blit dest bs m).
Proof.
  intros Hh Hov Hb. unfold memcpy. rewrite Nat2Z.id.
  erewrite bind_done; [reflexivity|]. by apply (copy_up_run _ 0 _ _ bs _ m).
Qed.

Lemma copy_down_run n dest src bs m :
  holds m src bs → src ≤ dest → backed m dest (Z.of_nat (length bs)) → length bs = n →
  copy_down n dest src m = Done tt (blit dest bs m).
Proof.
  intros Hh Hle Hb. revert bs m Hh Hb. induction n as [|n IH]; intros bs m Hh Hb Hlen; cbn [copy_down].
  { by destruct bs. }
  destruct bs as [|b bs _] using rev_ind; [done|]. rewrite length_app in Hlen. simpl in Hlen.
  assert (Hn : length bs = n) by lia. rewrite length_app in Hb. simpl in Hb.
  assert (Es : m !! (src + Z.of_nat n) = Some b).
  { rewrite (holds_lookup _ _ _ _ Hh) by (rewrite length_app; simpl; lia).
    replace (Z.to_nat (src + Z.of_nat n - src)) with (length bs) by lia. by rewrite lookup_total_app_r, Nat.sub_diag by lia. }
  erewrite bind_done by (apply rdb_run; exact Es).
  erewrite bind_done; [|apply wrb_run, Hb; lia].
  rewrite blit_snoc, Hn. rewrite (IH bs).
  - f_equal. apply map_eq. intros x. rewrite blit_lookup, !lookup_insert, blit_lookup.
    rewrite Hn. repeat case_decide; try done; lia.
  - apply holds_iff. intros x Hx. rewrite lookup_insert_ne by lia. rewrite (holds_lookup _ _ _ _ Hh) by (rewrite length_app; simpl; lia).
    rewrite lookup_total_app_l by lia. done.
  - intros x Hx. rewrite lookup_insert. case_decide; [done|]. apply Hb. lia.
  - done.
Qed.

(** C33: [memmove] moves a block as if it were first read as a whole and then
    written, whatever the overlap of source and destination, changes no other
    byte and returns the destination. *)
Theorem memmove_spec dest src bs m :
  holds m src bs → backed m dest (Z.of_nat (length bs)) →
  memmove dest src (Z.of_nat (length bs)) m = Done dest (blit dest bs m).
Proof.
  intros Hh Hb. unfold memmove. rewrite Nat2Z.id.
  destruct (Z.ltb_spec dest src); [|destruct (Z.ltb_spec src dest)].
  - erewrite bind_done; [reflexivity|]. apply (copy_up_run _ 0 _ _ bs _ m); try done; lia.
  - erewrite bind_done; [reflexivity|]. apply copy_down_run; try done; lia.
  - assert (dest = src) as -> by lia. rewrite (bind_done (mret tt) _ _ tt m) by done.
    unfold mret, K_ret. f_equal. apply map_eq. intros x. rewrite blit_lookup. case_decide; [|done].
    by apply (holds_lookup _ _ _ _ Hh).
Qed.

(** ** Zero-terminated strings *)

(** The string [cs] is at [a]. *)
Definition cstr (m : bmem) (a : Z) (cs : list Z) : Prop := holds m a (cs ++ [0]) ∧ Forall (λ c, 0 < c < 256) cs.

Lemma holds_size m a bs : holds m a bs → (length bs ≤ size m)%nat.
Proof.
  intros Hh.
  assert (Hsub : list_to_set (seqZ a (Z.of_nat (length bs))) ⊆ (dom m : gset Z)).
  { intros x Hx%elem_of_list_to_set%elem_of_seqZ. apply elem_of_dom. rewrite (holds_lookup _ _ _ _ Hh) by lia. eauto. }
  apply subseteq_size in Hsub. rewrite size_list_to_set, length_seqZ, size_dom in Hsub by apply NoDup_seqZ. lia.
Qed.

Lemma cstr_cons m a c cs : cstr m a (c :: cs) ↔ m !! a = Some c ∧ 0 < c < 256 ∧ cstr m (a + 1) cs.
Proof. unfold cstr. simpl. rewrite Forall_cons. tauto. Qed.

Lemma cstr_nil m a : cstr m a [] ↔ m !! a = Some 0.
Proof. unfold cstr. simpl. split; [tauto|]. intros. split; [done|constructor]. Qed.

Lemma cstr_fuel m a cs : cstr m a cs → (length cs < str_fuel m)%nat.
Proof. intros [Hh _]. apply holds_size in Hh. rewrite length_app in Hh. simpl in Hh. unfold str_fuel. lia. Qed.

Lemma strend_run fuel m a cs : cstr m a cs → (length cs < fuel)%nat → strend fuel a m = Done (a + Z.of_nat (length cs)) m.
Proof.
  revert a fuel. induction cs as [|c cs IH]; intros a fuel Hs Hf; (destruct fuel as [|fuel]; [simpl in Hf; lia|]); cbn [strend].
  - apply cstr_nil in Hs. erewrite bind_done by by apply rdb_run. simpl. by rewrite Z.add_0_r.
  - apply cstr_cons in Hs as (Ec & Hc & Hs). erewrite bind_done by by apply rdb_run.
    rewrite (proj2 (Z.eqb_neq c 0)) by lia. simpl length in *. rewrite (IH (a + 1)) by (done || lia). f_equal. lia.
Qed.

(** [strlen] returns, with the number of bytes before the terminator. *)
Lemma strlen_run m a cs : cstr m a cs → strlen a m = Done (Z.of_nat (length cs)) m.
Proof.
  intros Hs. unfold strlen. erewrite bind_done by done. erewrite bind_done by by eapply strend_run, cstr_fuel.
  unfold mret, K_ret. f_equal. lia.
Qed.

(** Comparison of strings as dictionaries order them, by unsigned bytes. *)
Fixpoint str_compare (xs ys : list Z) : comparison :=
  match xs, ys with
  | [], [] => Eq
  | [], _ => Lt
  | _, [] => Gt
  | x :: xs', y :: ys' => match x ?= y with Eq => str_compare xs' ys' | c => c end
  end.

Lemma str_compare_eq xs ys : str_compare xs ys = Eq ↔ xs = ys.
Proof.
  revert ys. induction xs as [|x xs IH]; intros [|y ys]; simpl; try done.
  destruct (Z.compare_spec x y) as [->|H|H]; [rewrite IH; naive_solver|split; [done|intros [= -> ->]; lia]..].
Qed.

Lemma sign_lt r : r < 0 → (r ?= 0) = Lt. Proof. by intros ?%Z.compare_lt_iff. Qed.
Lemma sign_gt r : 0 < r → (r ?= 0) = Gt. Proof. by intros ?%Z.compare_gt_iff. Qed.

Lemma strcmp_from_run fuel m a b xs ys :
  cstr m a xs → cstr m b ys → (length xs < fuel)%nat →
  ∃ r, strcmp_from fuel a b m = Done r m ∧ (r ?= 0) = str_compare xs ys.
Proof.
  revert a b ys fuel. induction xs as [|x xs IH]; intros a b ys fuel Hx Hy Hf;
    (destruct fuel as [|fuel]; [simpl in Hf; lia|]); cbn [strcmp_from].
  - apply cstr_nil in Hx. erewrite bind_done by by apply rdb_run. rewrite Z.eqb_refl.
    destruct ys as [|y ys]; [apply cstr_nil in Hy|apply cstr_cons in Hy as (Hy & Hr & _)];
      erewrite bind_done by (by apply rdb_run); (eexists; split; [reflexivity|]); [done|]. apply sign_lt. lia.
  - apply cstr_cons in Hx as (Ex & Hx & Hxs). erewrite bind_done by by apply rdb_run.
    rewrite (proj2 (Z.eqb_neq x 0)) by lia.
    destruct ys as [|y ys]; [apply cstr_nil in Hy|apply cstr_cons in Hy as (Hy & Hr & Hys)];
      erewrite bind_done by (by apply rdb_run).
    + rewrite (proj2 (Z.eqb_neq x 0)) by lia. eexists. split; [reflexivity|]. apply sign_gt. lia.
    + simpl. destruct (Z.eqb_spec x y) as [->|Hne].
      * rewrite Z.compare_refl. apply IH; [done|done|simpl in Hf; lia].
      * eexists. split; [reflexivity|]. destruct (Z.compare_spec x y) as [?|?|?]; [done|apply sign_lt|apply sign_gt]; lia.
Qed.

(** C34: [strcmp] of two strings returns, and the sign of its result is their
    dictionary order by unsigned bytes; in particular it is 0 exactly for equal
    strings. *)
Theorem strcmp_spec m a b xs ys :
  cstr m a xs → cstr m b ys →
  ∃ r, strcmp a b m = Done r m ∧ (r ?= 0) = str_compare xs ys ∧ (r = 0 ↔ xs = ys).
Proof.
  intros Hx Hy. unfold strcmp. erewrite bind_done by done.
  destruct (strcmp_from_run (str_fuel m) m a b xs ys Hx Hy (cstr_fuel _ _ _ Hx)) as (r & E & Hr).
  exists r. split; [done|]. split; [done|]. rewrite <- str_compare_eq, <- Hr. by rewrite Z.compare_eq_iff.
Qed.

Lemma memcmp_from_run m a b xs ys :
  holds m a xs → holds m b ys → length xs = length ys →
  ∃ r, memcmp_from (length xs) a b m = Done r m ∧ (r ?= 0) = str_compare xs ys.
Proof.
  revert a b ys. induction xs as [|x xs IH]; intros a b [|y ys] Hx Hy Hl; try done; cbn [memcmp_from length].
  { by exists 0. }
  destruct Hx as [Ex Hx], Hy as [Ey Hy]. erewrite bind_done by by apply rdb_run. erewrite bind_done by by apply rdb_run.
  simpl. destruct (Z.eqb_spec x y) as [->|Hne]; cbn [negb].
  - rewrite Z.compare_refl. apply IH; [done|done|by simplify_eq/=].
  - eexists. split; [reflexivity|]. destruct (Z.compare_spec x y) as [?|H|H]; [done| |].
    + by rewrite (proj2 (Z.ltb_lt x y)).
    + by rewrite (proj2 (Z.ltb_ge x y)) by lia.
Qed.

(** ** Bounded copies *)

(** A copy below [dest] leaves the rest of the source alone. *)
Lemma copy_until_run n i dest src cs m m0 :
  cstr m0 src cs → (dest + (i + Z.of_nat n) ≤ src ∨ src + Z.of_nat (length cs) < dest) →
  backed m0 dest (i + Z.of_nat n) → 0 ≤ i → (Z.to_nat i ≤ length cs)%nat →
  m = blit dest (take (Z.to_nat i) cs) m0 →
  let k := Nat.min (Z.to_nat i + n) (length cs) in
  copy_until n dest src i m = Done (Z.of_nat k) (blit dest (take k cs) m0).
Proof.
  intros Hs. revert i m. induction n as [|n IH]; intros i m Hov Hb Hi Hlen ->; cbn [copy_until]; cbv zeta.
  { rewrite Nat.add_0_r, Nat.min_l by done. unfold mret, K_ret. f_equal. lia. }
  assert (Hl : length (take (Z.to_nat i) cs) = Z.to_nat i) by (rewrite length_take; lia).
  assert (Es : blit dest (take (Z.to_nat i) cs) m0 !! (src + i) = Some ((cs ++ [0]) !!! Z.to_nat i)).
  { rewrite blit_lookup, Hl, decide_False by lia. destruct Hs as [Hh _]. rewrite (holds_lookup _ _ _ _ Hh).
    - by replace (Z.to_nat (src + i - src)) with (Z.to_nat i) by lia.
    - rewrite length_app. simpl. lia. }
  erewrite bind_done by (apply rdb_run; exact Es).
  destruct (decide (Z.to_nat i = length cs)) as [Ei|Hne].
  - rewrite Ei, lookup_total_app_r, Nat.sub_diag by lia. simpl.
    rewrite Nat.min_r by lia. unfold mret, K_ret. f_equal. lia.
  - rewrite lookup_total_app_l by lia. destruct (lookup_lt_is_Some_2 cs (Z.to_nat i)) as [c Ec]; [lia|].
    rewrite (list_lookup_total_correct _ _ _ Ec). destruct Hs as [Hh Hnz].
    pose proof (proj1 (Forall_lookup _ _) Hnz _ _ Ec) as Hc. cbv beta in Hc. rewrite (proj2 (Z.eqb_neq c 0)) by lia.
    erewrite bind_done; [|apply wrb_run; rewrite blit_lookup, Hl, decide_False by lia; apply Hb; lia].
    rewrite (IH (i + 1)); [|lia|by replace (i + 1 + Z.of_nat n) with (i + Z.of_nat (S n)) by lia|lia|lia|].
    + by replace (Z.to_nat (i + 1) + n)%nat with (Z.to_nat i + S n)%nat by lia.
    + replace (Z.to_nat (i + 1)) with (S (Z.to_nat i)) by lia. rewrite (take_S_r _ _ _ Ec), blit_snoc, Hl.
      by rewrite Z2Nat.id by lia.
Qed.

(** C35: [strlcpy] into a buffer of [size > 0] bytes that does not overlap the
    source stores the longest prefix that fits and a terminator, nothing else, and
    returns the length of the source, so truncation is detected by a result of at
    least [size]. *)
Theorem strlcpy_spec m dest src cs size :
  cstr m src cs → 0 < size → backed m dest size →
  (dest + size ≤ src ∨ src + Z.of_nat (length cs) < dest) →
  let out := take (Z.to_nat (size - 1)) cs ++ [0] in
  strlcpy dest src size m = Done (Z.of_nat (length cs)) (blit dest out m) ∧ cstr (blit dest out m) dest (take (Z.to_nat (size - 1)) cs).
Proof.
  intros Hs Hsz Hb Hov out. set (n := Z.to_nat (size - 1)) in *. set (k := Nat.min n (length cs)).
  assert (Ek : take n cs = take k cs).
  { unfold k. destruct (Nat.min_spec n (length cs)) as [[? ->]|[? ->]]; [done|]. by rewrite !take_ge by lia. }
  assert (Hlk : length (take k cs) = k) by (rewrite length_take; lia).
  assert (Hkeep : cstr (blit dest out m) src cs).
  { destruct Hs as [Hh Hnz]. split; [|done]. apply holds_iff. intros x Hx. rewrite blit_lookup, decide_False.
    - by apply (holds_lookup _ _ _ _ Hh).
    - unfold out. rewrite length_app, Ek, Hlk in *. simpl in *. lia. }
  split; [|split].
  - unfold strlcpy. rewrite (proj2 (Z.eqb_neq size 0)) by lia. fold n.
    assert (Hb' : backed m dest (0 + Z.of_nat n)) by (intros x Hx; apply Hb; lia).
    erewrite bind_done by (apply (copy_until_run n 0 dest src cs m m); try done; lia).
    change (Z.to_nat 0 + n)%nat with n. fold k.
    erewrite bind_done; [|apply wrb_run; rewrite blit_lookup, Hlk, decide_False by lia; apply Hb; lia].
    pose proof (blit_snoc dest (take k cs) 0 m) as Eb. rewrite Hlk, <- Ek in Eb. fold out in Eb. rewrite <- Ek, <- Eb.
    by apply strlen_run.
  - apply holds_iff. intros x Hx. unfold out in *. rewrite blit_lookup, decide_True by done. done.
  - apply Forall_take. apply Hs.
Qed.

Lemma memmove_spec_witness :
  memmove 101 100 3 {[ 100 := 1; 101 := 2; 102 := 3; 103 := 4 ]} = Done 101 (blit 101 [1; 2; 3] {[ 100 := 1; 101 := 2; 102 := 3; 103 := 4 ]}).
Proof.
  apply (memmove_spec 101 100 [1; 2; 3]).
  - by split_and!.
  - intros x Hx. simpl in Hx. assert (x = 101 ∨ x = 102 ∨ x = 103) as [->|[->| ->]] by lia; by eexists.
Defined.

Lemma strcmp_spec_witness :
  ∃ r, strcmp 10 20 {[ 10 := 97; 11 := 0; 20 := 97; 21 := 200; 22 := 0 ]} =
       Done r {[ 10 := 97; 11 := 0; 20 := 97; 21 := 200; 22 := 0 ]} ∧ (r ?= 0) = Lt.
Proof.
  destruct (strcmp_spec {[ 10 := 97; 11 := 0; 20 := 97; 21 := 200; 22 := 0 ]} 10 20 [97] [97; 200]) as (r & E & Hr & _).
  - split; [by split_and!|]. repeat constructor; lia.
  - split; [by split_and!|]. repeat constructor; lia.
  - exists r. split; [exact E|exact Hr].
Defined.

Lemma strlcpy_spec_witness :
  let m : bmem := {[ 10 := 97; 11 := 98; 12 := 0; 20 := 7; 21 := 7 ]} in
  strlcpy 20 10 2 m = Done 2 (blit 20 [97; 0] m).
Proof.
  apply (strlcpy_spec _ 20 10 [97; 98] 2).
  - split; [by split_and!|]. repeat constructor; lia.
  - done.
  - intros x Hx. assert (x = 20 ∨ x = 21) as [-> | ->] by lia; by eexists.
  - right. simpl. lia.
Defined.
