(* ===== verification/Cpio.v ===== *)
(** * The archive reader (user/cpio.c, boot/loader.c)

    [cpio_extract] on the bytes of an archive.  The copy in the boot loader has
    the same text and returns UEFI status codes. *)

From S2P Require Export KString.

(** [sizeof(cpio_header_t)] and the offsets of the fields that are read. *)
Definition SIZEOF_CPIO_HEADER : Z := 110.
Definition FILESIZE_OFFSET : Z := 54.
Definition NAMESIZE_OFFSET : Z := 94.

(** One step of [parse_hex8]: a digit is shifted in, any other byte shifts in 0. *)
Definition hex_digit (c : Z) : Z :=
  if (48 <=? c) && (c <=? 57) then c - 48
  else if (97 <=? c) && (c <=? 102) then c - 97 + 10
  else if (65 <=? c) && (c <=? 70) then c - 65 + 10
  else 0.
Fixpoint parse_hex (n : nat) (hex val : Z) : K bmem Z :=
  match n with
  | O => mret val
  | S n' => c ← rdb hex; parse_hex n' (hex + 1) (Z.lor (wrap32 (Z.shiftl val 4)) (hex_digit c))
  end.
Definition parse_hex8 (hex : Z) : K bmem Z := parse_hex 8 hex 0.

(** [(x + 3) & ~3] on [size_t]. *)
Definition align4 (x : Z) : Z := Z.land (wrap64 (x + 3)) (bnot64 3).

Section extract.
(** The addresses of the literals ["070701"] and ["TRAILER!!!"]. *)
Variable magic trailer : Z.

(** [while (1)], from [current_offset] on; [None] is [return -1], [Some] the
    values of [*out_base] and [*out_size].  The loop advances by at least one
    header per round, except when [current_offset] wraps around. *)
Fixpoint extract_loop (fuel : nat) (base_addr current_offset target : Z) : K bmem (option (Z * Z)) :=
  match fuel with
  | O => kspin
  | S fuel' =>
      let header := base_addr + current_offset in
      d ← strncmp header magic 6;
      if negb (d =? 0) then mret None else
      filesize ← parse_hex8 (header + FILESIZE_OFFSET);
      namesize ← parse_hex8 (header + NAMESIZE_OFFSET);
      let filename := header + SIZEOF_CPIO_HEADER in
      d ← strncmp filename trailer 10;
      if d =? 0 then mret None else
      let data_offset := align4 (SIZEOF_CPIO_HEADER + namesize) in
      d ← strcmp filename target;
      if d =? 0 then mret (Some (header + data_offset, filesize)) else
      let next_record_offset := align4 (wrap64 (data_offset + filesize)) in
      extract_loop fuel' base_addr (wrap64 (current_offset + next_record_offset)) target
  end.
Definition cpio_extract (base target : Z) : K bmem (option (Z * Z)) :=
  fuel ← kget str_fuel; extract_loop fuel base 0 target.

(** The boot loader's: the two failures have a status each, [inl true] for
    [EFI_LOAD_ERROR] and [inl false] for [EFI_NOT_FOUND]. *)
Fixpoint efi_extract_loop (fuel : nat) (base_addr current_offset target : Z) : K bmem (bool + Z * Z) :=
  match fuel with
  | O => kspin
  | S fuel' =>
      let header := base_addr + current_offset in
      d ← strncmp header magic 6;
      if negb (d =? 0) then mret (inl true) else
      filesize ← parse_hex8 (header + FILESIZE_OFFSET);
      namesize ← parse_hex8 (header + NAMESIZE_OFFSET);
      let filename := header + SIZEOF_CPIO_HEADER in
      d ← strncmp filename trailer 10;
      if d =? 0 then mret (inl false) else
      let data_offset := align4 (SIZEOF_CPIO_HEADER + namesize) in
      d ← strcmp filename target;
      if d =? 0 then mret (inr (header + data_offset, filesize)) else
      let next_record_offset := align4 (wrap64 (data_offset + filesize)) in
      efi_extract_loop fuel' base_addr (wrap64 (current_offset + next_record_offset)) target
  end.
Definition efi_cpio_extract (base target : Z) : K bmem (bool + Z * Z) :=
  fuel ← kget str_fuel; efi_extract_loop fuel base 0 target.

(** Both readers find the same files. *)
Lemma efi_extract_loop_run fuel : ∀ base off target m,
  extract_loop fuel base off target m =
    match efi_extract_loop fuel base off target m with
    | Done r m' => Done (match r with inl _ => None | inr x => Some x end) m'
    | Halted m' => Halted m' | Spins m' => Spins m' | Undef => Undef
    end.
Proof.
  induction fuel as [|fuel IH]; intros base off target m; [done|]. cbn [extract_loop efi_extract_loop]. unfold mbind, K_bind.
  destruct (strncmp (base + off) magic 6 m) as [d1 m1|m1|m1|]; try done. destruct (negb (d1 =? 0)); [done|].
  destruct (parse_hex8 _ m1) as [fs m2|m2|m2|]; try done. destruct (parse_hex8 _ m2) as [ns m3|m3|m3|]; try done.
  destruct (strncmp _ trailer 10 m3) as [d2 m4|m4|m4|]; try done. destruct (d2 =? 0); [done|].
  destruct (strcmp _ target m4) as [d3 m5|m5|m5|]; try done. destruct (d3 =? 0); [done|]. apply IH.
Qed.
Lemma efi_cpio_extract_same base target m :
  cpio_extract base target m =
    match efi_cpio_extract base target m with
    | Done r m' => Done (match r with inl _ => None | inr x => Some x end) m'
    | Halted m' => Halted m' | Spins m' => Spins m' | Undef => Undef
    end.
Proof. unfold cpio_extract, efi_cpio_extract, kget, mbind, K_bind. apply efi_extract_loop_run. Qed.
End extract.
