(* ===== verification/KList.v ===== *)
(** * Intrusive doubly linked lists (include/koharu/list.h)

    The store maps the address of every [list_node]/[list_head] to its two
    pointers, [None] being [NULL].  The operations are the pointer writes of
    the header, in its order, and fail ([None]) on a dereference of [NULL] or
    of an address that holds no node.  [lists] is the abstraction the clients
    use: a family of disjoint circular lists, one per head. *)

From S2P Require Export Prelude.

Section klist.
Context {A : Type} `{Countable A}.

Record link := Link { next : option A; prev : option A }.
Abbreviation lstore := (gmap A link).
Implicit Types (m : lstore) (n h : A) (xs ys : list A).

(** [p->next = v] and [p->prev = v]. *)
Definition set_next (p : A) (v : option A) (m : lstore) : option lstore :=
  l ← m !! p; Some (<[p := Link v (prev l)]> m).
Definition set_prev (p : A) (v : option A) (m : lstore) : option lstore :=
  l ← m !! p; Some (<[p := Link (next l) v]> m).

(** ** The operations of list.h *)

Definition list_init (head : A) (m : lstore) : lstore :=
  <[head := Link (Some head) (Some head)]> m.

Definition list_add_between (new prv nxt : A) (m : lstore) : option lstore :=
  m ← set_prev nxt (Some new) m;
  m ← set_next new (Some nxt) m;
  m ← set_prev new (Some prv) m;
  set_next prv (Some new) m.

Definition list_add (new head : A) (m : lstore) : option lstore :=
  l ← m !! head; nxt ← next l;
  list_add_between new head nxt m.

Definition list_add_tail (new head : A) (m : lstore) : option lstore :=
  l ← m !! head; prv ← prev l;
  list_add_between new prv head m.

Definition list_del_between (prv nxt : A) (m : lstore) : option lstore :=
  m ← set_prev nxt (Some prv) m;
  set_next prv (Some nxt) m.

Definition list_del (node : A) (m : lstore) : option lstore :=
  l ← m !! node; prv ← prev l; nxt ← next l;
  m ← list_del_between prv nxt m;
  m ← set_next node None m;
  set_prev node None m.

Definition list_empty (head : A) (m : lstore) : option bool :=
  l ← m !! head; Some (bool_decide (next l = Some head)).

(** [head->next]. *)
Definition list_first (head : A) (m : lstore) : option A :=
  l ← m !! head; next l.

(** ** One circular list *)

Definition next_of m n : option A := m !! n ≫= next.
Definition prev_of m n : option A := m !! n ≫= prev.

(** [a -> b], with the back pointer. *)
Definition hop m (a b : A) : Prop := next_of m a = Some b ∧ prev_of m b = Some a.

(** The chain [p -> x1 -> ... -> xk] along [xs]. *)
Fixpoint path m (p : A) xs : Prop :=
  match xs with
  | [] => True
  | x :: xs' => hop m p x ∧ path m x xs'
  end.

(** The circular list headed by [h] holds the nodes [xs], in order. *)
Definition dlist m h xs : Prop := NoDup (h :: xs) ∧ path m h (xs ++ [h]).

Lemma path_app m p xs ys :
  path m p (xs ++ ys) ↔ path m p xs ∧ path m (default p (last xs)) ys.
Proof.
  revert p. induction xs as [|x xs IH]; intros p; [simpl; tauto|].
  rewrite last_cons. simpl. rewrite IH. destruct (last xs); simpl; tauto.
Qed.

(** Hops that avoid a set of nodes survive an update that avoids them. *)
Lemma path_mono m m' p xs (P : A → Prop) :
  (∀ a b, P a → P b → hop m a b → hop m' a b) →
  P p → (∀ a, a ∈ xs → P a) → path m p xs → path m' p xs.
Proof.
  intros Hh. revert p. induction xs as [|x xs IH]; intros p Hp Hxs; simpl; [done|].
  intros [??]. split; [apply Hh; [done| |done]; apply Hxs; set_solver|].
  apply IH; [apply Hxs; set_solver|set_solver|done].
Qed.

Lemma hop_frame m m' a b : m' !! a = m !! a → m' !! b = m !! b → hop m a b → hop m' a b.
Proof. unfold hop, next_of, prev_of. by intros -> ->. Qed.

Lemma dlist_frame m m' h xs :
  (∀ a, a ∈ h :: xs → m' !! a = m !! a) → dlist m h xs → dlist m' h xs.
Proof.
  intros Hf [Hnd Hs]. split; [done|].
  apply (path_mono m m' h (xs ++ [h]) (λ a, a ∈ h :: xs)); [|set_solver..|done].
  intros a b Ha Hb. apply hop_frame; auto.
Qed.

Lemma dlist_first m h xs : dlist m h xs → next_of m h = Some (default h (head xs)).
Proof. intros [_ Hp]. destruct xs; simpl in *; by destruct Hp as [[??] _]. Qed.

Lemma dlist_last m h xs : dlist m h xs → prev_of m h = Some (default h (last xs)).
Proof. intros [_ Hp]. apply path_app in Hp as [_ [[_ ?] _]]. done. Qed.

Lemma dlist_empty m h xs : dlist m h xs → list_empty h m = Some (bool_decide (xs = [])).
Proof.
  intros Hl. pose proof (dlist_first _ _ _ Hl) as E. destruct Hl as [Hnd _].
  unfold list_empty, next_of in *.
  destruct (m !! h) as [l|]; simplify_eq/=. f_equal.
  rewrite E. apply bool_decide_ext. destruct xs; simpl; [done|].
  apply NoDup_cons in Hnd as [Hnd _]. set_solver.
Qed.

Lemma dlist_init m h : dlist (list_init h m) h [].
Proof.
  split; [apply NoDup_singleton|]. unfold list_init. simpl.
  unfold hop, next_of, prev_of. by rewrite lookup_insert_eq.
Qed.

Lemma path_dom m p xs a : path m p (xs ++ [p]) → a ∈ p :: xs → is_Some (m !! a).
Proof.
  intros Hp Ha. assert (∃ b, next_of m a = Some b) as [b Hb]; cycle 1.
  { unfold next_of in Hb. destruct (m !! a); [eauto|done]. }
  set (q := p) in Hp at 2. clearbody q. revert p Hp Ha.
  induction xs as [|x xs IH]; intros p Hp Ha; simpl in Hp.
  - assert (a = p) as -> by set_solver. destruct Hp as [[??] _]. eauto.
  - destruct Hp as [[??] Hp]. apply elem_of_cons in Ha as [->|Ha]; [eauto|].
    by apply (IH x).
Qed.

Lemma dlist_dom m h xs a : dlist m h xs → a ∈ h :: xs → is_Some (m !! a).
Proof. intros [_ Hp]. by apply path_dom. Qed.

(** *** Pointer writes *)

Lemma set_next_next p v m m' a :
  set_next p v m = Some m' →
  next_of m' a = if decide (a = p) then v else next_of m a.
Proof.
  unfold set_next, next_of. destruct (m !! p) eqn:E; intros ?; simplify_eq/=.
  rewrite lookup_insert. repeat case_decide; naive_solver.
Qed.
Lemma set_next_prev p v m m' a :
  set_next p v m = Some m' → prev_of m' a = prev_of m a.
Proof.
  unfold set_next, prev_of. destruct (m !! p) eqn:E; intros ?; simplify_eq/=.
  rewrite lookup_insert. case_decide; simplify_eq/=; [by rewrite E|done].
Qed.
Lemma set_prev_prev p v m m' a :
  set_prev p v m = Some m' →
  prev_of m' a = if decide (a = p) then v else prev_of m a.
Proof.
  unfold set_prev, prev_of. destruct (m !! p) eqn:E; intros ?; simplify_eq/=.
  rewrite lookup_insert. repeat case_decide; naive_solver.
Qed.
Lemma set_prev_next p v m m' a :
  set_prev p v m = Some m' → next_of m' a = next_of m a.
Proof.
  unfold set_prev, next_of. destruct (m !! p) eqn:E; intros ?; simplify_eq/=.
  rewrite lookup_insert. case_decide; simplify_eq/=; [by rewrite E|done].
Qed.
Lemma set_next_total p v m : is_Some (m !! p) → ∃ m', set_next p v m = Some m'.
Proof. intros [l E]. unfold set_next. rewrite E. eauto. Qed.
Lemma set_prev_total p v m : is_Some (m !! p) → ∃ m', set_prev p v m = Some m'.
Proof. intros [l E]. unfold set_prev. rewrite E. eauto. Qed.
Lemma set_next_dom p v m m' : set_next p v m = Some m' → dom m' = dom m.
Proof.
  unfold set_next. destruct (m !! p) eqn:E; intros ?; simplify_eq/=.
  rewrite dom_insert_L. apply elem_of_dom_2 in E. set_solver.
Qed.
Lemma set_prev_dom p v m m' : set_prev p v m = Some m' → dom m' = dom m.
Proof.
  unfold set_prev. destruct (m !! p) eqn:E; intros ?; simplify_eq/=.
  rewrite dom_insert_L. apply elem_of_dom_2 in E. set_solver.
Qed.
Lemma set_next_frame p v m m' a : a ≠ p → set_next p v m = Some m' → m' !! a = m !! a.
Proof.
  unfold set_next. intros ?. destruct (m !! p) eqn:E; intros ?; simplify_eq/=.
  by rewrite lookup_insert_ne.
Qed.
Lemma set_prev_frame p v m m' a : a ≠ p → set_prev p v m = Some m' → m' !! a = m !! a.
Proof.
  unfold set_prev. intros ?. destruct (m !! p) eqn:E; intros ?; simplify_eq/=.
  by rewrite lookup_insert_ne.
Qed.


(** *** The operations on a circular list *)

Section add.
Context (m : lstore) (n prv nxt : A).
Hypothesis Hhop : hop m prv nxt.
Hypothesis Hn : is_Some (m !! n).
Hypothesis Hprv : n ≠ prv.
Hypothesis Hnxt : n ≠ nxt.

Lemma list_add_between_spec : ∃ m',
  list_add_between n prv nxt m = Some m' ∧
  (∀ a, next_of m' a = if decide (a = prv) then Some n
                       else if decide (a = n) then Some nxt else next_of m a) ∧
  (∀ a, prev_of m' a = if decide (a = n) then Some prv
                       else if decide (a = nxt) then Some n else prev_of m a) ∧
  dom m' = dom m ∧
  (∀ a, a ≠ n → a ≠ prv → a ≠ nxt → m' !! a = m !! a).
Proof.
  assert (Hp : is_Some (m !! prv)).
  { destruct Hhop as [E _]. unfold next_of in E. destruct (m !! prv); [eauto|done]. }
  assert (Hx : is_Some (m !! nxt)).
  { destruct Hhop as [_ E]. unfold prev_of in E. destruct (m !! nxt); [eauto|done]. }
  apply elem_of_dom in Hn as Hnd, Hp as Hpd, Hx as Hxd.
  destruct (set_prev_total nxt (Some n) m) as [m1 E1]; [done|].
  pose proof (set_prev_dom _ _ _ _ E1) as D1.
  destruct (set_next_total n (Some nxt) m1) as [m2 E2]; [apply elem_of_dom; congruence|].
  pose proof (set_next_dom _ _ _ _ E2) as D2.
  destruct (set_prev_total n (Some prv) m2) as [m3 E3]; [apply elem_of_dom; congruence|].
  pose proof (set_prev_dom _ _ _ _ E3) as D3.
  destruct (set_next_total prv (Some n) m3) as [m4 E4]; [apply elem_of_dom; congruence|].
  pose proof (set_next_dom _ _ _ _ E4) as D4.
  exists m4. unfold list_add_between. rewrite E1; simpl. rewrite E2; simpl.
  rewrite E3; simpl. split_and!; [done| | |congruence|].
  - intros a. rewrite (set_next_next _ _ _ _ a E4), (set_prev_next _ _ _ _ a E3),
      (set_next_next _ _ _ _ a E2), (set_prev_next _ _ _ _ a E1). done.
  - intros a. rewrite (set_next_prev _ _ _ _ a E4), (set_prev_prev _ _ _ _ a E3),
      (set_next_prev _ _ _ _ a E2), (set_prev_prev _ _ _ _ a E1). done.
  - intros a ???. rewrite (set_next_frame _ _ _ _ a) with (2 := E4) by done.
    rewrite (set_prev_frame _ _ _ _ a) with (2 := E3) by done.
    rewrite (set_next_frame _ _ _ _ a) with (2 := E2) by done.
    by apply (set_prev_frame _ _ _ _ a) with (2 := E1).
Qed.
End add.

(** Linking a fresh node between the last of [xs] and the first of [ys]. *)
Lemma dlist_add_between m h xs ys n :
  dlist m h (xs ++ ys) → is_Some (m !! n) → n ∉ h :: xs ++ ys →
  ∃ m', list_add_between n (default h (last xs)) (default h (head ys)) m = Some m' ∧
    dlist m' h (xs ++ n :: ys) ∧ dom m' = dom m ∧
    (∀ a, a ∉ n :: h :: xs ++ ys → m' !! a = m !! a).
Proof.
  intros [Hnd Hp] Hn Hni.
  set (prv := default h (last xs)). set (nxt := default h (head ys)).
  assert (Hprv : prv ∈ h :: xs).
  { subst prv. destruct (last xs) eqn:E; simpl; [|set_solver].
    apply last_Some in E as [? ->]. set_solver. }
  assert (∃ rest, ys ++ [h] = nxt :: rest ∧ nxt ∉ xs ∧ nxt ∉ rest ∧ nxt ∈ h :: ys ∧
            (∀ a, a ∈ rest → a ∈ h :: ys)) as (rest & Er & Hx1 & Hx2 & Hx3 & Hr).
  { subst nxt. destruct ys as [|y ys]; simpl.
    - exists []. rewrite app_nil_r in Hnd. apply NoDup_cons in Hnd as [? _]. set_solver.
    - exists (ys ++ [h]). apply NoDup_cons in Hnd as [? Hnd].
      apply NoDup_app in Hnd as (_ & Hd & Hnd). apply NoDup_cons in Hnd as [? _].
      set_solver. }
  rewrite <- app_assoc in Hp. apply path_app in Hp as [Hp1 Hp2].
  fold prv in Hp2. rewrite Er in Hp2. destruct Hp2 as [Hh Hp2].
  destruct (list_add_between_spec m n prv nxt) as (m' & E & Hnx & Hpv & Hd & Hf);
    [done..|set_solver|set_solver|].
  assert (Hkeep : ∀ a b, b ≠ nxt → a ≠ n → b ≠ n → hop m a b → hop m' a b).
  { intros a b ??? [H1 H2]. split; [rewrite Hnx|rewrite Hpv]; repeat case_decide; try done.
    destruct Hh as [Hh _]. congruence. }
  assert (Hpath : ∀ zs p, nxt ∉ zs → n ∉ p :: zs → path m p zs → path m' p zs).
  { induction zs as [|z zs IH]; intros p ? Hz; simpl; [done|]. intros [??].
    split; [apply Hkeep; set_solver|]. apply IH; set_solver. }
  exists m'. split_and!; [done| |done|].
  - split.
    + apply NoDup_cons in Hnd as [Hnh Hnd]. apply NoDup_cons; split; [set_solver|].
      apply NoDup_app in Hnd as (?&?&?). apply NoDup_app; split_and!; [done|set_solver|].
      apply NoDup_cons; split; [set_solver|done].
    + rewrite <- app_assoc. simpl. apply path_app. fold prv. split.
      * apply Hpath; [done|set_solver|done].
      * rewrite Er. simpl. split; [|split].
        -- split; [rewrite Hnx|rewrite Hpv]; by rewrite decide_True.
        -- split; [rewrite Hnx|rewrite Hpv]; repeat case_decide; set_solver.
        -- apply Hpath; [done|set_solver|done].
  - intros a Ha. apply Hf; set_solver.
Qed.

Lemma list_add_spec m h xs n :
  dlist m h xs → is_Some (m !! n) → n ∉ h :: xs →
  ∃ m', list_add n h m = Some m' ∧ dlist m' h (n :: xs) ∧ dom m' = dom m ∧
    (∀ a, a ∉ n :: h :: xs → m' !! a = m !! a).
Proof.
  intros Hl Hn Hni. pose proof (dlist_first _ _ _ Hl) as E.
  destruct (dlist_add_between m h [] xs n Hl Hn Hni) as (m' & E' & ?).
  exists m'. split; [|done]. unfold list_add, next_of in *. simpl in *.
  destruct (m !! h) as [l|]; simplify_eq/=. by rewrite E.
Qed.

Lemma list_add_tail_spec m h xs n :
  dlist m h xs → is_Some (m !! n) → n ∉ h :: xs →
  ∃ m', list_add_tail n h m = Some m' ∧ dlist m' h (xs ++ [n]) ∧ dom m' = dom m ∧
    (∀ a, a ∉ n :: h :: xs → m' !! a = m !! a).
Proof.
  intros Hl Hn Hni. pose proof (dlist_last _ _ _ Hl) as E.
  rewrite <- (app_nil_r xs) in Hl.
  destruct (dlist_add_between m h xs [] n Hl Hn) as (m' & E' & ?); rewrite ?app_nil_r in *; [done|].
  exists m'. split; [|done]. unfold list_add_tail, prev_of in *. simpl in *.
  destruct (m !! h) as [l|]; simplify_eq/=. by rewrite E.
Qed.

(** Unlinking [n] from between [prv] and [nxt]. *)
Lemma list_del_hops m n prv nxt :
  hop m prv n → hop m n nxt → n ≠ prv → n ≠ nxt →
  ∃ m', list_del n m = Some m' ∧ dom m' = dom m ∧ m' !! n = Some (Link None None) ∧ hop m' prv nxt ∧
    (∀ a b, a ≠ n → b ≠ n → hop m a b → hop m' a b) ∧ (∀ a, a ≠ n → a ≠ prv → a ≠ nxt → m' !! a = m !! a).
Proof.
  intros [Hpn Hnp] [Hnx Hxn] Hnp1 Hnp2.
  assert (Hpd : is_Some (m !! prv)) by (unfold next_of in Hpn; destruct (m !! prv); [eauto|done]).
  assert (Hxd : is_Some (m !! nxt)) by (unfold prev_of in Hxn; destruct (m !! nxt); [eauto|done]).
  destruct (m !! n) as [l|] eqn:El; [|unfold prev_of in Hnp; by rewrite El in Hnp].
  unfold next_of, prev_of in Hnp, Hnx. rewrite El in Hnp, Hnx. simpl in Hnp, Hnx.
  destruct (set_prev_total nxt (Some prv) m) as [m1 E1]; [done|].
  pose proof (set_prev_dom _ _ _ _ E1) as D1.
  destruct (set_next_total prv (Some nxt) m1) as [m2 E2].
  { apply elem_of_dom. rewrite D1. by apply elem_of_dom. }
  pose proof (set_next_dom _ _ _ _ E2) as D2.
  assert (E0 : m2 !! n = Some l).
  { rewrite (set_next_frame _ _ _ _ n) with (2 := E2) by done.
    by rewrite (set_prev_frame _ _ _ _ n) with (2 := E1). }
  assert (Hval : ∀ a b, a ≠ n → b ≠ n →
    next_of (<[n := Link None None]> m2) a = (if decide (a = prv) then Some nxt else next_of m a) ∧
    prev_of (<[n := Link None None]> m2) b = if decide (b = nxt) then Some prv else prev_of m b).
  { intros a b ??. unfold next_of, prev_of. rewrite !lookup_insert_ne by done. fold (next_of m2 a) (prev_of m2 b).
    rewrite (set_next_next _ _ _ _ a E2), (set_prev_next _ _ _ _ a E1).
    by rewrite (set_next_prev _ _ _ _ b E2), (set_prev_prev _ _ _ _ b E1). }
  exists (<[n := Link None None]> m2). split_and!.
  - unfold list_del. rewrite El; simpl. rewrite Hnp; simpl. rewrite Hnx; simpl.
    unfold list_del_between. rewrite E1; simpl. rewrite E2; simpl.
    unfold set_next. rewrite E0. simpl. unfold set_prev. rewrite lookup_insert_eq. simpl. by rewrite insert_insert_eq.
  - rewrite dom_insert_L, D2, D1. assert (n ∈ dom m) by (apply elem_of_dom; eauto). set_solver.
  - apply lookup_insert_eq.
  - destruct (Hval prv nxt) as [V1 V2]; [done..|]. unfold hop. by rewrite V1, V2, !decide_True.
  - intros a b Ha Hb [H1 H2]. destruct (Hval a b Ha Hb) as [V1 V2]. unfold hop. rewrite V1, V2.
    clear V1 V2. split; case_decide; subst; try done; congruence.
  - intros a Ha Hp Hx. rewrite lookup_insert_ne by done.
    rewrite (set_next_frame _ _ _ _ a) with (2 := E2) by done. by apply (set_prev_frame _ _ _ _ a) with (2 := E1).
Qed.

Lemma list_del_spec m h xs ys n :
  dlist m h (xs ++ n :: ys) →
  ∃ m', list_del n m = Some m' ∧ dlist m' h (xs ++ ys) ∧ dom m' = dom m ∧
    m' !! n = Some (Link None None) ∧
    (∀ a, a ∉ h :: xs ++ n :: ys → m' !! a = m !! a).
Proof.
  intros [Hnd Hp]. set (prv := default h (last xs)).
  rewrite <- app_assoc in Hp. apply path_app in Hp as [Hp1 Hp2]. fold prv in Hp2.
  destruct Hp2 as [Hpn Hp2].
  assert (∃ nxt rest, ys ++ [h] = nxt :: rest ∧ nxt ∈ h :: ys ∧ (∀ a, a ∈ rest → a ∈ h :: ys))
    as (nxt & rest & Er & Hx & Hr).
  { destruct ys as [|y ys]; simpl; eexists _, _; split; try done; set_solver. }
  simpl in Hp2. rewrite Er in Hp2. destruct Hp2 as [Hnx Hp2].
  assert (Hprv : prv ∈ h :: xs).
  { subst prv. destruct (last xs) eqn:E; simpl; [|set_solver].
    apply last_Some in E as [? ->]. set_solver. }
  assert (Hnp' : n ≠ prv ∧ n ≠ nxt ∧ n ∉ h :: xs ∧ n ∉ h :: ys).
  { apply NoDup_cons in Hnd as [? Hnd]. apply NoDup_app in Hnd as (?&Hdj&Hnd).
    apply NoDup_cons in Hnd as [? _].
    assert (n ∉ xs) by (intros ?; eapply Hdj; [done|set_solver]). set_solver. }
  destruct Hnp' as (Hnp1 & Hnp2 & Hn1 & Hn2).
  destruct (list_del_hops m n prv nxt) as (m4 & E & Hd & En & Hnew & Hkeep & Hf); [done..|].
  exists m4. split_and!; [done| |done|done|].
  - split.
    { apply NoDup_cons in Hnd as [Hnh Hnd]. apply NoDup_cons; split; [set_solver|].
      apply NoDup_app in Hnd as (?&?&Hys). apply NoDup_cons in Hys as [??].
      apply NoDup_app; set_solver. }
    rewrite <- app_assoc. apply path_app. fold prv. split.
    + eapply (path_mono m m4 h xs (λ a, a ≠ n)); [by eauto|set_solver|set_solver|done].
    + rewrite Er. split; [exact Hnew|].
      eapply (path_mono m m4 nxt rest (λ a, a ≠ n)); [by eauto|set_solver|set_solver|done].
  - intros a Ha. apply Hf; set_solver.
Qed.

(** A list is shorter than the store of nodes. *)
Lemma dlist_size m h xs : dlist m h xs → (length xs < size m)%nat.
Proof.
  intros Hd. pose proof Hd as [Hnd _].
  assert (Hsub : list_to_set (h :: xs) ⊆ (dom m : gset A)).
  { intros n Hn. apply elem_of_list_to_set in Hn. apply elem_of_dom. by eapply dlist_dom. }
  apply subseteq_size in Hsub. rewrite size_list_to_set, size_dom in Hsub by done. simpl in Hsub. lia.
Qed.

(** The successor of a node inside a list. *)
Lemma dlist_next m h xs x ys : dlist m h (xs ++ x :: ys) → list_first x m = Some (default h (head ys)).
Proof.
  intros [_ Hp]. rewrite <- app_assoc in Hp. apply path_app in Hp as [_ [_ Hp]].
  destruct ys; by destruct Hp as [[? _] _].
Qed.

(** ** Families of lists

    [L] gives the contents of every list of a component by its head; the
    lists do not share nodes. *)

Implicit Types (L : gmap A (list A)).

Definition lists m L : Prop :=
  (∀ h xs, L !! h = Some xs → dlist m h xs) ∧
  (∀ h1 h2 xs1 xs2 a, L !! h1 = Some xs1 → L !! h2 = Some xs2 →
     a ∈ h1 :: xs1 → a ∈ h2 :: xs2 → h1 = h2).

(** The node is on none of the lists. *)
Definition unlinked L n : Prop := ∀ h xs, L !! h = Some xs → n ∉ h :: xs.

Lemma lists_dlist m L h xs : lists m L → L !! h = Some xs → dlist m h xs.
Proof. intros [Hl _]. apply Hl. Qed.

Lemma lists_same m L h1 h2 xs1 xs2 a :
  lists m L → L !! h1 = Some xs1 → L !! h2 = Some xs2 →
  a ∈ h1 :: xs1 → a ∈ h2 :: xs2 → h1 = h2 ∧ xs1 = xs2.
Proof.
  intros [_ Hd] E1 E2 H1 H2. assert (h1 = h2) as -> by eauto. by simplify_eq.
Qed.

Lemma lists_empty_spec m L h xs :
  lists m L → L !! h = Some xs → list_empty h m = Some (bool_decide (xs = [])).
Proof. intros ??. eapply dlist_empty, lists_dlist; eauto. Qed.

Lemma lists_first m L h x xs :
  lists m L → L !! h = Some (x :: xs) → list_first h m = Some x.
Proof. intros Hl E. exact (dlist_first _ _ _ (lists_dlist _ _ _ _ Hl E)). Qed.

(** One list changes, by an update confined to it and to an unlinked node. *)
Lemma lists_update m m' L h xs xs' n :
  lists m L → L !! h = Some xs → unlinked L n ∨ n ∈ h :: xs →
  dlist m' h xs' → (∀ a, a ∈ xs' → a ∈ n :: xs) →
  (∀ a, a ∉ n :: h :: xs → m' !! a = m !! a) →
  lists m' (<[h := xs']> L).
Proof.
  intros [Hl Hd] E Hn Hl' Hsub Hf.
  assert (Hn' : ∀ h2 xs2, L !! h2 = Some xs2 → n ∈ h2 :: xs2 → h2 = h).
  { intros h2 xs2 E2 Hin. destruct Hn as [Hn|Hn]; [by destruct (Hn _ _ E2)|eauto]. }
  assert (Hside : ∀ h2 xs2 a, L !! h2 = Some xs2 → a ∈ h :: xs' → a ∈ h2 :: xs2 → h2 = h).
  { intros h2 xs2 a E2 Ha1 Ha2. apply elem_of_cons in Ha1 as [->|Ha1].
    - symmetry. eapply (Hd h h2 xs xs2 h); eauto; set_solver.
    - apply Hsub, elem_of_cons in Ha1 as [->|Ha1]; [eauto|].
      symmetry. eapply (Hd h h2 xs xs2 a); eauto; set_solver. }
  split.
  - intros h2 xs2. rewrite lookup_insert. case_decide as Hc; intros ?; simplify_eq; [done|].
    eapply dlist_frame; [|by apply Hl]. intros a Ha. apply Hf. intros Hin. apply Hc.
    apply elem_of_cons in Hin as [->|Hin]; [symmetry; by eauto|].
    by eapply (Hd h h2 xs xs2 a).
  - intros h1 h2 xs1 xs2 a. rewrite !lookup_insert. repeat case_decide; subst; try done;
      intros ????; simplify_eq; [symmetry; eauto|eauto|]. by eapply (Hd h1 h2).
Qed.

Lemma lists_frame m m' L :
  lists m L → (∀ h xs a, L !! h = Some xs → a ∈ h :: xs → m' !! a = m !! a) → lists m' L.
Proof. intros [Hl Hd] Hf. split; [|done]. intros h xs E. eapply (dlist_frame m); eauto. Qed.

Lemma lists_touch m L n k : lists m L → unlinked L n → lists (<[n := k]> m) L.
Proof.
  intros Hl Hn. eapply lists_frame; [done|]. intros h xs a E Ha.
  rewrite lookup_insert_ne; [done|]. intros ->. by eapply Hn.
Qed.

Lemma lists_add m L h xs n :
  lists m L → L !! h = Some xs → is_Some (m !! n) → unlinked L n →
  ∃ m', list_add n h m = Some m' ∧ lists m' (<[h := n :: xs]> L) ∧ dom m' = dom m ∧
    (∀ a, a ∉ n :: h :: xs → m' !! a = m !! a).
Proof.
  intros Hl E Hn Hu.
  destruct (list_add_spec m h xs n) as (m' & ? & ? & ? & ?); [by eapply lists_dlist|done|by apply Hu|].
  exists m'. split_and!; [done| |done|done]. eapply lists_update; eauto.
Qed.

Lemma lists_add_tail m L h xs n :
  lists m L → L !! h = Some xs → is_Some (m !! n) → unlinked L n →
  ∃ m', list_add_tail n h m = Some m' ∧ lists m' (<[h := xs ++ [n]]> L) ∧ dom m' = dom m ∧
    (∀ a, a ∉ n :: h :: xs → m' !! a = m !! a).
Proof.
  intros Hl E Hn Hu.
  destruct (list_add_tail_spec m h xs n) as (m' & ? & ? & ? & ?); [by eapply lists_dlist|done|by apply Hu|].
  exists m'. split_and!; [done| |done|done]. eapply lists_update; eauto. set_solver.
Qed.

Lemma lists_del m L h xs ys n :
  lists m L → L !! h = Some (xs ++ n :: ys) →
  ∃ m', list_del n m = Some m' ∧ lists m' (<[h := xs ++ ys]> L) ∧ dom m' = dom m ∧
    m' !! n = Some (Link None None) ∧ unlinked (<[h := xs ++ ys]> L) n ∧
    (∀ a, a ∉ h :: xs ++ n :: ys → m' !! a = m !! a).
Proof.
  intros Hl E. pose proof (lists_dlist _ _ _ _ Hl E) as Hdl.
  destruct (list_del_spec m h xs ys n Hdl) as (m' & ? & ? & ? & ? & ?).
  exists m'. split_and!; [done| |done|done| |done].
  - eapply (lists_update _ _ _ _ _ _ n); eauto; set_solver.
  - intros h2 xs2. rewrite lookup_insert. case_decide as Hc; intros ?; simplify_eq.
    + destruct Hdl as [Hnd _]. apply NoDup_cons in Hnd as [? Hnd].
      apply NoDup_app in Hnd as (?&?&Hnd). apply NoDup_cons in Hnd as [? _]. set_solver.
    + intros Hin. destruct Hl as [_ Hd]. apply Hc. eapply (Hd h h2 _ _ n); eauto; set_solver.
Qed.

Lemma lists_init m L h : lists m L → unlinked L h → lists (list_init h m) (<[h := []]> L).
Proof.
  intros [Hl Hd] Hu. assert (Hf : ∀ a, a ≠ h → list_init h m !! a = m !! a).
  { intros a ?. unfold list_init. by rewrite lookup_insert_ne. }
  split.
  - intros h2 xs2. rewrite lookup_insert. case_decide; intros ?; simplify_eq; [apply dlist_init|].
    eapply dlist_frame; [|by apply Hl]. intros a Ha. apply Hf. intros ->. by eapply Hu.
  - intros h1 h2 xs1 xs2 a. rewrite !lookup_insert. repeat case_decide; subst; try done;
      intros ?? Ha1 Ha2; simplify_eq; [| |by eapply (Hd h1 h2)].
    + apply list_elem_of_singleton in Ha1 as ->. exfalso. by eapply Hu.
    + apply list_elem_of_singleton in Ha2 as ->. exfalso. by eapply Hu.
Qed.
End klist.

Arguments link A : clear implicits.
Arguments Link {A} _ _.
Create HintDb klist.
#[export] Hint Resolve lists_dlist : klist.
