(* ===== verification/Lock.v ===== *)
(** * Ticket spinlocks (kernel/misc/lock.c, include/koharu/lock.h)

    First the routines as the other components call them: the kernel runs on
    one processor with interrupts masked, so [spin_lock] either enters at once
    or never returns.  Then the lock under real contention: the atomic
    accesses of [spin_lock] and [spin_unlock] as steps of any number of
    processors, refined to a FIFO queue. *)

From S2P Require Export Prelude.

Record spinlock := Spinlock {
  now_serving : Z;
  next_ticket : Z;
  holder_cpu : Z;
}.

(** ** The routines of lock.c *)

Definition SPINLOCK_INITIALIZER : spinlock := Spinlock 0 0 (-1).

Definition spin_lock_init (_ : spinlock) : spinlock := Spinlock 0 0 (-1).

(** [__sync_fetch_and_add(&lock->next_ticket, 1)]. *)
Definition fetch_ticket : K spinlock Z := λ l,
  Done (next_ticket l) (Spinlock (now_serving l) (wrap32 (next_ticket l + 1)) (holder_cpu l)).

Definition spin_lock : K spinlock unit :=
  ticket ← fetch_ticket;
  serving ← kget now_serving;
  if serving =? ticket then mret tt else kspin.

(** [__sync_bool_compare_and_swap(&lock->next_ticket, old, new)]. *)
Definition cas_ticket (old new : Z) : K spinlock bool := λ l,
  if next_ticket l =? old
  then Done true (Spinlock (now_serving l) new (holder_cpu l))
  else Done false l.

Definition spin_trylock : K spinlock bool :=
  serving ← kget now_serving;
  nxt ← kget next_ticket;
  if negb (nxt =? serving) then mret false
  else cas_ticket serving (wrap32 (serving + 1)).

Definition spin_unlock : K spinlock unit :=
  kmodify (λ l, Spinlock (wrap32 (now_serving l + 1)) (next_ticket l) (holder_cpu l)).

(** The interrupt flag and one lock: what the [_irq] variants touch. *)
Definition arch_irq_save : K (bool * spinlock) bool := λ '(fl, l), Done fl (false, l).
Definition arch_irq_restore (flags : bool) : K (bool * spinlock) unit :=
  λ '(_, l), Done tt (flags, l).

Definition spin_lock_irqsave : K (bool * spinlock) bool :=
  flags ← arch_irq_save;
  klift snd (λ l '(fl, _), (fl, l)) spin_lock;;
  mret flags.

Definition spin_unlock_irqrestore (flags : bool) : K (bool * spinlock) unit :=
  klift snd (λ l '(fl, _), (fl, l)) spin_unlock;;
  arch_irq_restore flags.

(** ** Sequential behaviour *)

Definition lock_free (l : spinlock) : Prop := now_serving l = next_ticket l.
Definition lock_taken (l : spinlock) : Prop :=
  next_ticket l = wrap32 (now_serving l + 1).

(** The lock after one uncontended lock/unlock pair. *)
Definition bump (l : spinlock) : spinlock :=
  Spinlock (wrap32 (now_serving l + 1)) (wrap32 (next_ticket l + 1)) (holder_cpu l).
Definition take (l : spinlock) : spinlock :=
  Spinlock (now_serving l) (wrap32 (next_ticket l + 1)) (holder_cpu l).

Lemma bump_free l : lock_free l → lock_free (bump l).
Proof. unfold lock_free, bump. simpl. congruence. Qed.

Lemma spin_lock_free l : lock_free l → spin_lock l = Done tt (take l).
Proof.
  intros E. unfold spin_lock. repeat (erewrite bind_done; [|reflexivity]).
  cbn. by rewrite (proj2 (Z.eqb_eq _ _) E).
Qed.

Lemma spin_lock_irqsave_free fl l :
  lock_free l → spin_lock_irqsave (fl, l) = Done fl (false, take l).
Proof.
  intros E. unfold spin_lock_irqsave. kstep. cbn beta iota.
  erewrite bind_done; [|by apply klift_done, spin_lock_free]. done.
Qed.

Lemma spin_unlock_irqrestore_take fl l :
  spin_unlock_irqrestore fl (false, take l) = Done tt (fl, bump l).
Proof. done. Qed.

#[export] Hint Resolve bump_free spin_lock_free spin_lock_irqsave_free : locks.

(** [spin_trylock] takes exactly the locks that are free. *)
Lemma spin_trylock_spec l :
  spin_trylock l =
    if next_ticket l =? now_serving l then Done true (take l) else Done false l.
Proof.
  unfold spin_trylock. repeat (erewrite bind_done; [|reflexivity]). cbn beta.
  destruct (next_ticket l =? now_serving l) eqn:E; simpl; [|done].
  unfold cas_ticket. rewrite E. apply Z.eqb_eq in E. unfold take. by rewrite E.
Qed.

(** ** The lock under contention *)

Module Contention.

(** Where a processor stands: outside, spinning on its ticket, in the critical
    section, or inside [lock->now_serving++] with the old value loaded. *)
Inductive pc := Idle | Waiting (ticket : Z) | Critical (ticket : Z) | Storing (ticket loaded : Z).

Record conf := Conf { lk : spinlock; cpus : gmap Z pc }.

Inductive cstep : conf → conf → Prop :=
| step_ticket l cs c :
    cs !! c = Some Idle →
    cstep (Conf l cs) (Conf (take l) (<[c := Waiting (next_ticket l)]> cs))
| step_enter l cs c t :
    cs !! c = Some (Waiting t) → now_serving l = t →
    cstep (Conf l cs) (Conf l (<[c := Critical t]> cs))
| step_load l cs c t :
    cs !! c = Some (Critical t) →
    cstep (Conf l cs) (Conf l (<[c := Storing t (now_serving l)]> cs))
| step_store l cs c t v :
    cs !! c = Some (Storing t v) →
    cstep (Conf l cs)
      (Conf (Spinlock (wrap32 (v + 1)) (next_ticket l) (holder_cpu l)) (<[c := Idle]> cs)).

(** The initial configuration of [ncpu] processors. *)
Definition initial (cf : conf) : Prop :=
  lk cf = SPINLOCK_INITIALIZER ∧ map_Forall (λ _ p, p = Idle) (cpus cf) ∧
  Z.of_nat (size (cpus cf)) < U32.

(** *** The abstract lock: a queue of processors, its head the owner *)

Inductive qstep : list Z → list Z → Prop :=
| q_enter q c : c ∉ q → qstep q (q ++ [c])
| q_leave c q : qstep (c :: q) q
| q_stay q : qstep q q.

(** What the processor at position [i] of the queue is doing. *)
Definition pc_at (now : Z) (i : nat) (p : pc) : Prop :=
  match p with
  | Idle => False
  | Waiting t => t = wrap32 (now + Z.of_nat i)
  | Critical t => i = 0%nat ∧ t = now
  | Storing t v => i = 0%nat ∧ t = now ∧ v = now
  end.

Record rep (cf : conf) (q : list Z) : Prop := Rep {
  rep_range : 0 ≤ now_serving (lk cf) < U32;
  rep_next : next_ticket (lk cf) = wrap32 (now_serving (lk cf) + Z.of_nat (length q));
  rep_nodup : NoDup q;
  rep_size : Z.of_nat (size (cpus cf)) < U32;
  rep_pos : ∀ i c, q !! i = Some c →
    ∃ p, cpus cf !! c = Some p ∧ pc_at (now_serving (lk cf)) i p;
  rep_idle : ∀ c p, cpus cf !! c = Some p → p ≠ Idle → c ∈ q;
}.

Lemma rep_length cf q : rep cf q → Z.of_nat (length q) < U32.
Proof.
  intros [_ _ Hnd Hs Hpos _].
  assert (length q ≤ size (cpus cf))%nat; [|lia].
  rewrite <- (size_dom (cpus cf)), <- (size_list_to_set (C := gset Z)) by done.
  apply subseteq_size. intros c Hc. apply elem_of_list_to_set in Hc.
  apply list_elem_of_lookup in Hc as [i Hi]. destruct (Hpos _ _ Hi) as (p & E & _).
  apply elem_of_dom. eauto.
Qed.

Lemma wrap32_inj now i : 0 ≤ now < U32 → Z.of_nat i < U32 → now = wrap32 (now + Z.of_nat i) → i = 0%nat.
Proof. unfold wrap32, U32. mlia. Qed.

Lemma wrap32_succ a b : wrap32 (wrap32 (a + 1) + b) = wrap32 (a + (1 + b)).
Proof. unfold wrap32. rewrite Zplus_mod_idemp_l. f_equal. lia. Qed.

(** The processor in front of the lock is at the head of the queue. *)
Lemma rep_served cf q c :
  rep cf q → cpus cf !! c = Some (Waiting (now_serving (lk cf))) → ∃ q', q = c :: q'.
Proof.
  intros HR E. pose proof (rep_length _ _ HR). destruct HR as [Hr _ _ _ Hpos Hid].
  assert (c ∈ q) as [i Hi]%list_elem_of_lookup by by eapply Hid.
  destruct (Hpos _ _ Hi) as (p & E' & Hp). simplify_eq/=.
  apply lookup_lt_Some in Hi as Hlt.
  apply wrap32_inj in Hp as ->; [|done|lia]. destruct q; simplify_eq/=. eauto.
Qed.

Definition in_critical (cf : conf) (c : Z) : Prop :=
  match cpus cf !! c with Some (Critical _) | Some (Storing _ _) => True | _ => False end.

Lemma rep_critical cf q c : rep cf q → in_critical cf c → ∃ q', q = c :: q'.
Proof.
  intros HR. unfold in_critical. destruct (cpus cf !! c) as [p|] eqn:E; [|done].
  intros Hp. assert (c ∈ q) as [i Hi]%list_elem_of_lookup.
  { eapply rep_idle; [done..|]. by intros ->. }
  destruct (rep_pos _ _ HR _ _ Hi) as (p' & E' & Hp'). simplify_eq.
  assert (i = 0%nat) as -> by (destruct p; naive_solver).
  destruct q; simplify_eq/=. eauto.
Qed.

(** A step of the processor at the head leaves the others where they are. *)
Lemma rep_head_step l cs c q p p' :
  rep (Conf l cs) (c :: q) → cs !! c = Some p → p' ≠ Idle → pc_at (now_serving l) 0 p' →
  rep (Conf l (<[c := p']> cs)) (c :: q).
Proof.
  intros [Hr Hn Hnd Hs Hpos Hid] E Hp' Hat. split; simpl in *; try done.
  - rewrite map_size_insert_Some; eauto.
  - intros i c' Hi. destruct (Hpos _ _ Hi) as (p0 & E0 & Hp0). rewrite lookup_insert.
    case_decide as Hc; [|eauto]. subst c'.
    assert (i = 0%nat) as -> by (by eapply (NoDup_lookup (c :: q))). eauto.
  - intros c' p0. rewrite lookup_insert. case_decide; [set_solver|]. apply Hid.
Qed.

Lemma rep_ticket l cs c q :
  rep (Conf l cs) q → cs !! c = Some Idle →
  rep (Conf (take l) (<[c := Waiting (next_ticket l)]> cs)) (q ++ [c]) ∧ c ∉ q.
Proof.
  intros [Hr Hn Hnd Hs Hpos Hid] E. simpl in *.
  assert (Hni : c ∉ q).
  { intros [i Hi]%list_elem_of_lookup. destruct (Hpos _ _ Hi) as (p & E' & Hp).
    by simplify_eq. }
  split; [|done]. split; simpl; try done.
  - rewrite Hn, length_app. unfold wrap32. rewrite Zplus_mod_idemp_l. f_equal. simpl. lia.
  - apply NoDup_app. split_and!; [done|set_solver|apply NoDup_singleton].
  - rewrite map_size_insert_Some; eauto.
  - intros i c' Hi. rewrite lookup_insert. apply lookup_app_Some in Hi as [Hi|[Hi1 Hi2]].
    + destruct (Hpos _ _ Hi) as (p & E' & Hp). rewrite decide_False; [eauto|].
      intros ->. apply Hni. by eapply list_elem_of_lookup_2.
    + apply list_lookup_singleton_Some in Hi2 as [Hi2 <-]. rewrite decide_True by done.
      eexists; split; [done|]. simpl. rewrite Hn. do 2 f_equal. lia.
  - intros c' p. rewrite lookup_insert. case_decide; [set_solver|].
    intros Ep Hp. apply elem_of_app. left. by eapply Hid.
Qed.

Lemma rep_store l cs c q t v :
  rep (Conf l cs) q → cs !! c = Some (Storing t v) →
  ∃ q', q = c :: q' ∧
    rep (Conf (Spinlock (wrap32 (v + 1)) (next_ticket l) (holder_cpu l)) (<[c := Idle]> cs)) q'.
Proof.
  intros HR E. destruct (rep_critical _ _ c HR) as [q' ->]; [unfold in_critical; simpl; by rewrite E|].
  exists q'. split; [done|]. destruct HR as [Hr Hn Hnd Hs Hpos Hid]. simpl in *.
  destruct (Hpos 0%nat c) as (p & E' & Hp); [done|]. simplify_eq. destruct Hp as (_ & -> & ->).
  apply NoDup_cons in Hnd as [Hc Hnd]. split; simpl; try done.
  - apply wrap32_range.
  - rewrite Hn, wrap32_succ. f_equal. lia.
  - rewrite map_size_insert_Some; eauto.
  - intros i c' Hi. rewrite lookup_insert_ne.
    2:{ intros ->. apply Hc. by eapply list_elem_of_lookup_2. }
    destruct (Hpos (S i) c') as (p & Ep & Hp); [done|]. exists p. split; [done|].
    destruct p; simpl in *; [done| |naive_solver lia..].
    rewrite wrap32_succ. rewrite Hp. f_equal. lia.
  - intros c' p. rewrite lookup_insert. case_decide; [congruence|].
    intros Ep Hp. assert (c' ∈ c :: q') by eauto. set_solver.
Qed.

(** *** Theorems *)

Lemma rep_initial cf : initial cf → rep cf [].
Proof.
  intros (El & Hid & Hs). split; simpl; try done.
  - by rewrite El.
  - by rewrite El.
  - apply NoDup_nil_2.
  - intros c p E Hp. by apply Hid in E.
Qed.

Lemma rep_step cf cf' q : rep cf q → cstep cf cf' → ∃ q', rep cf' q' ∧ qstep q q'.
Proof.
  intros HR Hst. destruct Hst as [l cs c E|l cs c t E <-|l cs c t E|l cs c t v E].
  - destruct (rep_ticket _ _ _ _ HR E) as [HR' Hni]. eexists. split; [done|by constructor].
  - destruct (rep_served _ _ _ HR E) as [q' ->].
    eexists. split; [by eapply rep_head_step|constructor].
  - destruct (rep_critical _ _ c HR) as [q' ->]; [unfold in_critical; simpl; by rewrite E|].
    destruct (rep_pos _ _ HR 0%nat c) as (p & E' & Hp); [done|]. simplify_eq/=.
    eexists. split; [eapply rep_head_step; naive_solver|constructor].
  - destruct (rep_store _ _ _ _ _ _ HR E) as (q' & -> & HR').
    eexists. split; [done|constructor].
Qed.

Lemma rep_reachable cf cf' q : rep cf q → rtc cstep cf cf' → ∃ q', rep cf' q' ∧ rtc qstep q q'.
Proof.
  intros HR Hr. revert q HR. induction Hr as [cf|cf cf1 cf2 Hst _ IH]; intros q HR.
  - exists q. split; [done|constructor].
  - destruct (rep_step _ _ _ HR Hst) as (q1 & HR1 & Hq).
    destruct (IH _ HR1) as (q2 & ? & ?). eexists. split; [done|]. by econstructor.
Qed.


(** C14: two processors are never both between [spin_lock] and the store of
    [spin_unlock]. *)
Theorem ticket_lock_mutual_exclusion cf0 cf c1 c2 :
  initial cf0 → rtc cstep cf0 cf → in_critical cf c1 → in_critical cf c2 → c1 = c2.
Proof.
  intros Hi Hr H1 H2.
  destruct (rep_reachable _ _ _ (rep_initial _ Hi) Hr) as (q & HR & _).
  destruct (rep_critical _ _ _ HR H1) as [q1 ->].
  by destruct (rep_critical _ _ _ HR H2) as [q2 [=]].
Qed.

(** C15: no deadlock: while some processor wants or holds the lock, a processor
    that wants or holds it can make a step of its own. *)
Theorem ticket_lock_progress cf0 cf c :
  initial cf0 → rtc cstep cf0 cf → (∃ p, cpus cf !! c = Some p ∧ p ≠ Idle) →
  ∃ d cf', cstep cf cf' ∧ cpus cf !! d ≠ cpus cf' !! d ∧ cpus cf !! d ≠ Some Idle.
Proof.
  intros Hi Hr (p & Ec & Hp).
  destruct (rep_reachable _ _ _ (rep_initial _ Hi) Hr) as (q & HR & _).
  pose proof (rep_idle _ _ HR _ _ Ec Hp) as Hq. destruct q as [|d q]; [set_solver|].
  destruct (rep_pos _ _ HR 0%nat d) as (pd & Ed & Hd); [done|].
  destruct cf as [l cs]. simpl in *. exists d.
  destruct pd as [|t|t|t v]; [done|..]; simpl in Hd.
  - eexists. split; [eapply step_enter; [done|]|].
    + rewrite Hd, Z.add_0_r, wrap32_small; [done|]. apply HR.
    + simpl. rewrite lookup_insert_eq, Ed. naive_solver.
  - eexists. split; [by eapply step_load|]. simpl. rewrite lookup_insert_eq, Ed. naive_solver.
  - eexists. split; [by eapply step_store|]. simpl. rewrite lookup_insert_eq, Ed. naive_solver.
Qed.

(** Two processors that take a ticket one after the other. *)
Definition two_cpus : conf := Conf SPINLOCK_INITIALIZER {[ 0 := Idle; 1 := Idle ]}.
Definition one_in : conf :=
  Conf (Spinlock 0 2 (-1)) {[ 0 := Critical 0; 1 := Waiting 1 ]}.

Lemma two_cpus_run : initial two_cpus ∧ rtc cstep two_cpus one_in.
Proof.
  split.
  - split_and!; [done| |by vm_compute]. by repeat (apply map_Forall_insert_2; [done|]); apply map_Forall_empty.
  - eapply rtc_l; [apply (step_ticket _ _ 0); reflexivity|].
    eapply rtc_l; [apply (step_ticket _ _ 1); reflexivity|].
    eapply rtc_l; [apply (step_enter _ _ 0 0); reflexivity|].
    match goal with |- rtc _ ?x _ => change x with one_in end. apply rtc_refl.
Qed.


Lemma ticket_lock_mutual_exclusion_witness : in_critical one_in 0 ∧ 0 = 0.
Proof.
  split; [exact I|].
  exact (ticket_lock_mutual_exclusion two_cpus one_in 0 0
    (proj1 two_cpus_run) (proj2 two_cpus_run) I I).
Defined.

Lemma ticket_lock_progress_witness :
  ∃ d cf', cstep one_in cf' ∧ cpus one_in !! d ≠ cpus cf' !! d ∧ cpus one_in !! d ≠ Some Idle.
Proof.
  apply (ticket_lock_progress two_cpus one_in 1 (proj1 two_cpus_run) (proj2 two_cpus_run)).
  exists (Waiting 1). split; [reflexivity|discriminate].
Defined.

End Contention.
