(* ===== verification/Pmm.v ===== *)
(** * The buddy page allocator (kernel/mm/pmm.c, include/koharu/mmu.h) *)

From S2P Require Export Prelude KList Lock.

(** ** Constants and address conversions of mmu.h *)

Definition PAGE_SHIFT : Z := 12.
Definition PAGE_SIZE : Z := bit PAGE_SHIFT.
Definition PAGE_SHIFT_HUGE : Z := 21.
Definition PAGE_SIZE_HUGE : Z := bit PAGE_SHIFT_HUGE.
Definition MAX_BUDDY_ORDER : Z := 11.
Definition HHDM_OFFSET : Z := 0xFFFF800000000000.
Definition PMM_POOL_START_PFN : Z := 0x8000.

Definition virt_to_phys (addr : Z) : Z := wrap64 (addr - HHDM_OFFSET).
Definition phys_to_virt (phys : Z) : Z := wrap64 (phys + HHDM_OFFSET).
Definition phys_to_pfn (phys : Z) : Z := Z.shiftr phys PAGE_SHIFT.
Definition pfn_to_phys (pfn : Z) : Z := wrap64 (Z.shiftl pfn PAGE_SHIFT).

(** ** State *)

(** [page_t]; its [page_list] node is the [PageNode] of the link store. *)
Record page_t := Page { is_free : bool; owner_cpu_id : Z }.

(** List nodes: [g_pmm.orders[o].free_list] and [g_pmm.mem_map[pfn].page_list]. *)
Inductive pnode := FreeHead (order : Z) | PageNode (pfn : Z).

#[export] Instance pnode_eq_dec : EqDecision pnode.
Proof. solve_decision. Defined.
#[export] Instance pnode_countable : Countable pnode.
Proof.
  apply (inj_countable' (λ n, match n with FreeHead o => inl o | PageNode p => inr p end)
    (λ s, match s with inl o => FreeHead o | inr p => PageNode p end)). by intros [].
Defined.

Record pmm_t := Pmm {
  links : gmap pnode (link pnode);
  free_count : gmap Z Z;
  mem_map : gmap Z page_t;
  mem_map_phys : Z;
  mem_map_size : Z;
  total_pages : Z;
  free_pages : Z;
}.

Definition set_links v p := Pmm v (free_count p) (mem_map p) (mem_map_phys p) (mem_map_size p) (total_pages p) (free_pages p).
Definition set_free_count v p := Pmm (links p) v (mem_map p) (mem_map_phys p) (mem_map_size p) (total_pages p) (free_pages p).
Definition set_mem_map v p := Pmm (links p) (free_count p) v (mem_map_phys p) (mem_map_size p) (total_pages p) (free_pages p).
Definition set_free_pages v p := Pmm (links p) (free_count p) (mem_map p) (mem_map_phys p) (mem_map_size p) (total_pages p) v.

(** [g_pmm], [g_pmm_lock] and the interrupt flag. *)
Record pmm_st := PmmSt { g_pmm : pmm_t; g_pmm_lock : spinlock; irq : bool }.

Definition on_pmm {A} : K pmm_t A → K pmm_st A :=
  klift g_pmm (λ p s, PmmSt p (g_pmm_lock s) (irq s)).
Definition on_lock {A} : K (bool * spinlock) A → K pmm_st A :=
  klift (λ s, (irq s, g_pmm_lock s)) (λ '(fl, l) s, PmmSt (g_pmm s) l fl).

(** ** Accesses *)

(** [&g_pmm.mem_map[pfn]], read: undefined behaviour outside the array. *)
Definition page_is_free (pfn : Z) : K pmm_t bool :=
  kread (λ p, is_free <$> mem_map p !! pfn).
Definition page_set_free (pfn : Z) (b : bool) : K pmm_t unit :=
  kupdate (λ p, pg ← mem_map p !! pfn;
                Some (set_mem_map (<[pfn := Page b (owner_cpu_id pg)]> (mem_map p)) p)).
Definition on_links (f : gmap pnode (link pnode) → option (gmap pnode (link pnode))) : K pmm_t unit :=
  kupdate (λ p, m ← f (links p); Some (set_links m p)).
Definition count_add (o d : Z) : K pmm_t unit :=
  kupdate (λ p, c ← free_count p !! o;
                Some (set_free_count (<[o := wrap64 (c + d)]> (free_count p)) p)).
Definition pages_add (d : Z) : K pmm_t unit :=
  kmodify (λ p, set_free_pages (wrap64 (free_pages p + d)) p).

(** [page_to_pfn((page_t* )node)]: [page_list] is the first field of [page_t]. *)
Definition node_to_pfn (n : pnode) : K pmm_t Z :=
  match n with PageNode pfn => mret pfn | FreeHead _ => kundef end.

(** ** pmm_alloc_pages *)

(** [while (curr_order > order) { ... }]: hand the upper halves back. *)
Fixpoint alloc_split (n : nat) (pfn curr_order : Z) : K pmm_t unit :=
  match n with
  | O => mret tt
  | S n' =>
      let curr_order := curr_order - 1 in
      let buddy_pfn := Z.lxor pfn (bit curr_order) in
      page_set_free buddy_pfn true;;
      on_links (list_add (PageNode buddy_pfn) (FreeHead curr_order));;
      count_add curr_order 1;;
      alloc_split n' pfn curr_order
  end.

(** The body of the [for] loop for a non-empty order: the page frame found. *)
Definition alloc_take (order curr_order : Z) : K pmm_t Z :=
  node ← kread (λ p, list_first (FreeHead curr_order) (links p));
  on_links (list_del node);;
  count_add curr_order (-1);;
  pfn ← node_to_pfn node;
  alloc_split (Z.to_nat (curr_order - order)) pfn curr_order;;
  page_set_free pfn false;;
  pages_add (- bit order);;
  mret (pfn_to_phys pfn).

(** [for (curr_order = order; curr_order < MAX_BUDDY_ORDER; curr_order++)]. *)
Fixpoint alloc_scan (n : nat) (order curr_order : Z) : K pmm_t Z :=
  match n with
  | O => mret 0
  | S n' =>
      empty ← kread (λ p, list_empty (FreeHead curr_order) (links p));
      if (empty : bool) then alloc_scan n' order (curr_order + 1)
      else alloc_take order curr_order
  end.

Definition pmm_alloc_pages (order : Z) : K pmm_st Z :=
  if (order <? 0) || (MAX_BUDDY_ORDER <=? order) then mret 0 else
  flags ← on_lock spin_lock_irqsave;
  r ← on_pmm (alloc_scan (Z.to_nat (MAX_BUDDY_ORDER - order)) order order);
  on_lock (spin_unlock_irqrestore flags);;
  mret r.

(** ** pmm_free_pages *)

(** [while (curr_order < MAX_BUDDY_ORDER - 1) { ... }]: merge with free buddies. *)
Fixpoint free_merge (n : nat) (pfn curr_order : Z) : K pmm_t (Z * Z) :=
  match n with
  | O => mret (pfn, curr_order)
  | S n' =>
      let buddy_pfn := Z.lxor pfn (bit curr_order) in
      f ← page_is_free buddy_pfn;
      if negb f then mret (pfn, curr_order) else
      on_links (list_del (PageNode buddy_pfn));;
      page_set_free buddy_pfn false;;
      count_add curr_order (-1);;
      free_merge n' (Z.land pfn buddy_pfn) (curr_order + 1)
  end.

Definition free_block (pfn order : Z) : K pmm_t unit :=
  '(pfn, curr_order) ← free_merge (Z.to_nat (MAX_BUDDY_ORDER - 1 - order)) pfn order;
  page_set_free pfn true;;
  on_links (list_add_tail (PageNode pfn) (FreeHead curr_order));;
  count_add curr_order 1;;
  pages_add (bit order).

Definition pmm_free_pages (addr order : Z) : K pmm_st unit :=
  if (addr =? 0) || (order <? 0) || (MAX_BUDDY_ORDER <=? order) then mret tt else
  flags ← on_lock spin_lock_irqsave;
  on_pmm (free_block (phys_to_pfn addr) order);;
  on_lock (spin_unlock_irqrestore flags).

(** ** The abstract allocator: a set of free blocks

    [F] lists the first frames of the free blocks of every order. *)

Definition freelists (F : gmap Z (list Z)) : gmap pnode (list pnode) :=
  kmap (M2 := gmap pnode) FreeHead ((λ l : list Z, PageNode <$> l) <$> F).

#[export] Instance FreeHead_inj : Inj (=) (=) FreeHead.
Proof. by intros ?? [=]. Qed.
#[export] Instance PageNode_inj : Inj (=) (=) PageNode.
Proof. by intros ?? [=]. Qed.

(** Frame [x] lies in the block of order [o] that starts at frame [b]. *)
Definition in_block (b o x : Z) : Prop := b ≤ x < b + 2 ^ o.
Definition block (F : gmap Z (list Z)) (b o : Z) : Prop := ∃ l, F !! o = Some l ∧ b ∈ l.
Definition free_frame (F : gmap Z (list Z)) (x : Z) : Prop := ∃ b o, block F b o ∧ in_block b o x.

(** A block the page array covers, naturally aligned, and not frame 0. *)
Record block_ok (p : pmm_t) (b o : Z) : Prop := BlockOk {
  bo_order : 0 ≤ o < MAX_BUDDY_ORDER;
  bo_pos : 0 < b;
  bo_bound : b + 2 ^ o ≤ 2 ^ 40;
  bo_align : b mod 2 ^ o = 0;
  bo_pages : ∀ x, in_block b o x → is_Some (mem_map p !! x);
}.

(** Number of frames in the blocks of [F]. *)
Definition orders : list Z := seqZ 0 MAX_BUDDY_ORDER.
Definition frames_in (F : gmap Z (list Z)) : Z :=
  foldr (λ o acc, 2 ^ o * Z.of_nat (length (F !!! o)) + acc) 0 orders.

(** The invariant; [hole] is a frame whose [is_free] is in flux. *)
Record pmm_inv (p : pmm_t) (F : gmap Z (list Z)) (hole : option Z) : Prop := PmmInv {
  inv_lists : lists (links p) (freelists F);
  inv_orders : ∀ o, is_Some (F !! o) ↔ 0 ≤ o < MAX_BUDDY_ORDER;
  inv_blocks : ∀ b o, block F b o → block_ok p b o;
  inv_disjoint : ∀ b1 o1 b2 o2 x, block F b1 o1 → block F b2 o2 →
    in_block b1 o1 x → in_block b2 o2 x → b1 = b2 ∧ o1 = o2;
  inv_is_free : ∀ x pg, mem_map p !! x = Some pg → hole ≠ Some x →
    is_free pg = true ↔ ∃ o, block F x o;
  inv_hole : ∀ x, hole = Some x → ∀ o, ¬ block F x o;
  inv_nodes : ∀ x, is_Some (mem_map p !! x) → is_Some (links p !! PageNode x);
  inv_count : ∀ o l, F !! o = Some l → free_count p !! o = Some (wrap64 (Z.of_nat (length l)));
}.

(** The invariant, with the count of free frames. *)
Definition pmm_wf (p : pmm_t) (F : gmap Z (list Z)) : Prop :=
  pmm_inv p F None ∧ free_pages p = wrap64 (frames_in F).

(** A block that is owned by nobody's free list. *)
Definition detached (p : pmm_t) (F : gmap Z (list Z)) (b o : Z) : Prop :=
  block_ok p b o ∧ ∀ x, in_block b o x → ¬ free_frame F x.

(** *** Lists and blocks *)

Lemma freelists_lookup F o : freelists F !! FreeHead o = (λ l : list Z, PageNode <$> l) <$> F !! o.
Proof. unfold freelists. by rewrite lookup_kmap, lookup_fmap by apply _. Qed.

Lemma freelists_lookup_Some F h xs :
  freelists F !! h = Some xs → ∃ o l, h = FreeHead o ∧ F !! o = Some l ∧ xs = PageNode <$> l.
Proof.
  unfold freelists. intros (o & -> & E)%lookup_kmap_Some; [|apply _].
  rewrite lookup_fmap in E. destruct (F !! o) eqn:Eo; naive_solver.
Qed.

Lemma freelists_insert F o l : freelists (<[o := l]> F) = <[FreeHead o := PageNode <$> l]> (freelists F).
Proof. unfold freelists. rewrite fmap_insert. apply kmap_insert, _. Qed.

Lemma block_insert F o l b o' :
  block (<[o := l]> F) b o' ↔ if decide (o = o') then b ∈ l else block F b o'.
Proof. unfold block. rewrite lookup_insert. case_decide; subst; naive_solver. Qed.

Lemma block_unlinked F b : (∀ o, ¬ block F b o) → unlinked (freelists F) (PageNode b).
Proof.
  intros Hb h xs (o & l & -> & E & ->)%freelists_lookup_Some.
  intros [[=]|(? & [= <-] & ?)%list_elem_of_fmap]%elem_of_cons. apply (Hb o). by exists l.
Qed.

Lemma pow2_pos o : 0 ≤ o → 0 < 2 ^ o.
Proof. intros. by apply Z.pow_pos_nonneg. Qed.

Lemma in_block_first b o : 0 ≤ o → in_block b o b.
Proof. intros. pose proof (pow2_pos o). unfold in_block. lia. Qed.

Lemma in_block_0 f x : in_block f 0 x ↔ x = f.
Proof. unfold in_block. change (2 ^ 0) with 1. lia. Qed.

Lemma block_free_frame F b o : 0 ≤ o → block F b o → free_frame F b.
Proof. intros. exists b, o. split; [done|]. by apply in_block_first. Qed.

Lemma detached_not_block p F h b o o' : pmm_inv p F h → detached p F b o → ¬ block F b o'.
Proof.
  intros Hinv [Hb Hd] Hbl. destruct Hb as [??]. apply (Hd b); [apply in_block_first; lia|].
  apply (inv_blocks _ _ _ Hinv) in Hbl as Hok. destruct Hok as [??].
  eapply block_free_frame; [|done]. lia.
Qed.

(** Summing over the orders. *)
Lemma frames_in_insert F o l :
  0 ≤ o < MAX_BUDDY_ORDER →
  frames_in (<[o := l]> F) =
    frames_in F + 2 ^ o * (Z.of_nat (length l) - Z.of_nat (length (F !!! o))).
Proof.
  intros Ho. unfold frames_in.
  assert (Hin : o ∈ orders) by (apply elem_of_seqZ; unfold MAX_BUDDY_ORDER in *; lia).
  assert (Hnd : NoDup orders) by apply NoDup_seqZ.
  revert Hin Hnd. generalize orders as os. induction os as [|o' os IH]; [set_solver|].
  intros Hin [Hni Hnd]%NoDup_cons. simpl.
  assert (Hsame : ∀ os, o ∉ os →
    foldr (λ o0 acc, 2 ^ o0 * Z.of_nat (length (<[o:=l]> F !!! o0)) + acc) 0 os =
    foldr (λ o0 acc, 2 ^ o0 * Z.of_nat (length (F !!! o0)) + acc) 0 os).
  { clear. induction os as [|k os IH]; [done|]. intros Hk. simpl.
    rewrite IH, lookup_total_insert_ne by set_solver. done. }
  apply elem_of_cons in Hin as [->|Hin].
  - rewrite Hsame, lookup_total_insert_eq by done. lia.
  - rewrite IH by done. rewrite lookup_total_insert_ne by set_solver. lia.
Qed.

(** *** Moving one block in or out of a free list *)

Definition with_lists (m : gmap pnode (link pnode)) (o d : Z) (p : pmm_t) : pmm_t :=
  set_free_count (<[o := wrap64 (default 0 (free_count p !! o) + d)]> (free_count p)) (set_links m p).

(** [F'] is [F] with block [b] of order [o] added. *)
Definition plus_block (F F' : gmap Z (list Z)) (b o : Z) : Prop :=
  ∃ l l', F !! o = Some l ∧ F' = <[o := l']> F ∧ length l' = S (length l) ∧
          ∀ x, x ∈ l' ↔ x = b ∨ x ∈ l.

Lemma plus_block_block F F' b o c k :
  plus_block F F' b o → block F' c k ↔ (c = b ∧ k = o) ∨ block F c k.
Proof.
  intros (l & l' & E & -> & _ & Hl). rewrite block_insert. unfold block.
  case_decide; subst; [rewrite Hl|]; naive_solver.
Qed.

Lemma plus_block_free F F' b o x :
  plus_block F F' b o → free_frame F' x ↔ in_block b o x ∨ free_frame F x.
Proof.
  intros HP. unfold free_frame. setoid_rewrite (plus_block_block F F' b o) ; [|done].
  naive_solver.
Qed.

Lemma plus_block_frames F F' b o :
  0 ≤ o < MAX_BUDDY_ORDER → plus_block F F' b o → frames_in F' = frames_in F + 2 ^ o.
Proof.
  intros Ho (l & l' & E & -> & Hlen & _). rewrite frames_in_insert by done.
  rewrite (lookup_total_correct _ _ _ E), Hlen. lia.
Qed.

(** The two ways a block enters a free list. *)
Lemma plus_block_cons F o l b : F !! o = Some l → plus_block F (<[o := b :: l]> F) b o.
Proof. intros E. exists l, (b :: l). split_and!; [done..|]. set_solver. Qed.

Lemma plus_block_snoc F o l b : F !! o = Some l → plus_block F (<[o := l ++ [b]]> F) b o.
Proof.
  intros E. exists l, (l ++ [b]). split_and!; [done..| |set_solver].
  rewrite length_app. simpl. lia.
Qed.

Lemma plus_block_del F o l1 b l2 :
  F !! o = Some (l1 ++ b :: l2) → plus_block (<[o := l1 ++ l2]> F) F b o.
Proof.
  intros E. exists (l1 ++ l2), (l1 ++ b :: l2). split_and!.
  - apply lookup_insert_eq.
  - rewrite insert_insert_eq. by rewrite insert_id.
  - rewrite !length_app. simpl. lia.
  - set_solver.
Qed.

Lemma block_ok_ext p p' b o : dom (mem_map p') = dom (mem_map p) → block_ok p b o → block_ok p' b o.
Proof.
  intros Hd [???? Hp]. split; [done..|]. intros x Hx. apply elem_of_dom. rewrite Hd.
  by apply elem_of_dom, Hp.
Qed.

Lemma detached_ext p p' F b o :
  dom (mem_map p') = dom (mem_map p) → detached p F b o → detached p' F b o.
Proof. intros Hd [??]. split; [by eapply block_ok_ext|done]. Qed.

(** Adding a detached block. *)
Lemma inv_attach p F F' h b o pg m :
  pmm_inv p F h → detached p F b o → h ≠ Some b → plus_block F F' b o →
  mem_map p !! b = Some pg →
  lists m (freelists F') → dom m = dom (links p) →
  pmm_inv (with_lists m o 1 (set_mem_map (<[b := Page true (owner_cpu_id pg)]> (mem_map p)) p)) F' h.
Proof.
  intros Hinv Hdet Hh HP Hpg Hm Hdom.
  assert (HB : ∀ c k, block F' c k ↔ (c = b ∧ k = o) ∨ block F c k) by (intros; by apply plus_block_block).
  assert (Hd : dom (<[b := Page true (owner_cpu_id pg)]> (mem_map p)) = dom (mem_map p)).
  { rewrite dom_insert_L. apply elem_of_dom_2 in Hpg. set_solver. }
  destruct HP as (l & l' & El & EF & Hlen & Hl). subst F'.
  assert (HP : plus_block F (<[o := l']> F) b o) by (by exists l, l').
  destruct Hdet as [Hok Hdet]. split; simpl.
  - done.
  - intros k. rewrite lookup_insert_is_Some', (inv_orders _ _ _ Hinv).
    destruct Hok as [? _ _ _]. naive_solver.
  - intros c k [[-> ->]|Hb]%HB; eapply block_ok_ext; try done.
    by apply (inv_blocks _ _ _ Hinv).
  - intros b1 o1 b2 o2 x [[-> ->]|Hb1]%HB [[-> ->]|Hb2]%HB H1 H2; try done.
    + exfalso. apply (Hdet x); [done|]. by exists b2, o2.
    + exfalso. apply (Hdet x); [done|]. by exists b1, o1.
    + by eapply (inv_disjoint _ _ _ Hinv).
  - intros x pg' Ex Hx. setoid_rewrite HB.
    rewrite lookup_insert in Ex. case_decide; simplify_eq/=; [naive_solver|].
    rewrite (inv_is_free _ _ _ Hinv) by done. naive_solver.
  - intros x -> k [[-> ->]|Hb]%HB; [done|]. by eapply (inv_hole _ _ _ Hinv).
  - intros x Hx. apply elem_of_dom. rewrite Hdom. apply elem_of_dom.
    apply (inv_nodes _ _ _ Hinv). apply elem_of_dom. rewrite <- Hd. by apply elem_of_dom.
  - intros k lk. rewrite !lookup_insert.
    case_decide; [subst|by apply (inv_count _ _ _ Hinv)].
    intros [= <-]. rewrite (inv_count _ _ _ Hinv _ _ El). simpl. f_equal.
    rewrite Hlen. unfold wrap64. rewrite Zplus_mod_idemp_l. f_equal. lia.
Qed.

(** Removing a block leaves it detached, its [is_free] still set. *)
Lemma inv_detach p F F' b o m :
  pmm_inv p F' None → plus_block F F' b o → block_ok p b o →
  lists m (freelists F) → dom m = dom (links p) → NoDup (F' !!! o) →
  pmm_inv (with_lists m o (-1) p) F (Some b) ∧ detached (with_lists m o (-1) p) F b o.
Proof.
  intros Hinv HP Hok Hm Hdom Hnd.
  assert (HB : ∀ c k, block F' c k ↔ (c = b ∧ k = o) ∨ block F c k) by (intros; by apply plus_block_block).
  assert (HP' := HP). destruct HP as (l & l' & El & EF & Hlen & Hl).
  assert (El' : F' !! o = Some l') by (rewrite EF; apply lookup_insert_eq).
  assert (Hnb : ∀ k, ¬ block F b k).
  { intros k Hb. assert (block F' b k) as Hb' by (apply HB; by right).
    assert (block F' b o) as Hb'' by (apply HB; by left).
    destruct (inv_disjoint _ _ _ Hinv b k b o b) as [_ ->]; try done.
    { apply in_block_first. by apply (inv_blocks _ _ _ Hinv) in Hb' as [[? _] _ _ _]. }
    { apply in_block_first. by destruct Hok as [[? _] _ _ _]. }
    destruct Hb as (l0 & E0 & Hin). simplify_eq.
    rewrite (lookup_total_correct _ _ _ El') in Hnd.
    assert (length l' ≤ length l)%nat; [|lia].
    apply submseteq_length, NoDup_submseteq; [done|]. intros x. rewrite Hl. naive_solver. }
  split; [split; simpl|split].
  - done.
  - intros k. rewrite <- (inv_orders _ _ _ Hinv), EF, lookup_insert_is_Some'. naive_solver.
  - intros c k Hb. apply (block_ok_ext p); [done|]. apply (inv_blocks _ _ _ Hinv), HB. by right.
  - intros b1 o1 b2 o2 x Hb1 Hb2. apply (inv_disjoint _ _ _ Hinv); apply HB; by right.
  - intros x pg Ex Hx. rewrite (inv_is_free _ _ _ Hinv x pg Ex) by done.
    setoid_rewrite HB. naive_solver.
  - intros x [= <-]. done.
  - intros x Hx. apply elem_of_dom. rewrite Hdom. by apply elem_of_dom, (inv_nodes _ _ _ Hinv).
  - intros k lk Ek. rewrite lookup_insert. case_decide; [subst k; simplify_eq|].
    + rewrite (inv_count _ _ _ Hinv o l') by done. simpl. f_equal.
      rewrite Hlen. unfold wrap64. rewrite Zplus_mod_idemp_l. f_equal. lia.
    + apply (inv_count _ _ _ Hinv). rewrite EF. by rewrite lookup_insert_ne.
  - by apply (block_ok_ext p).
  - intros x Hx (c & k & Hb & Hin). assert (block F' c k) by (apply HB; by right).
    assert (block F' b o) by (apply HB; by left).
    destruct (inv_disjoint _ _ _ Hinv c k b o x) as [-> ->]; try done. by apply (Hnb o).
Qed.

(** Clearing [is_free] of the detached block closes the hole. *)
Lemma inv_close p F b pg :
  pmm_inv p F (Some b) → mem_map p !! b = Some pg →
  pmm_inv (set_mem_map (<[b := Page false (owner_cpu_id pg)]> (mem_map p)) p) F None.
Proof.
  intros Hinv Hpg.
  assert (Hd : dom (<[b := Page false (owner_cpu_id pg)]> (mem_map p)) = dom (mem_map p)).
  { rewrite dom_insert_L. apply elem_of_dom_2 in Hpg. set_solver. }
  split; simpl; try apply Hinv; try done.
  - intros c k Hb. eapply block_ok_ext; [done|]. by apply (inv_blocks _ _ _ Hinv).
  - intros x pg' Ex _. rewrite lookup_insert in Ex. case_decide; simplify_eq/=.
    + split; [done|]. intros [k Hk]. by eapply (inv_hole _ _ _ Hinv) in Hk.
    + apply (inv_is_free _ _ _ Hinv); [done|naive_solver].
  - intros x Hx. apply (inv_nodes _ _ _ Hinv). apply elem_of_dom. rewrite <- Hd. by apply elem_of_dom.
Qed.

Lemma inv_pages p F h v : pmm_inv p F h → pmm_inv (set_free_pages v p) F h.
Proof.
  intros Hinv. split; try apply Hinv. intros b o Hb.
  apply (block_ok_ext p); [done|]. by apply (inv_blocks _ _ _ Hinv).
Qed.

(** ** The operations against the abstract allocator *)

(** What no operation of this file changes. *)
Record stable (p p' : pmm_t) : Prop := Stable {
  st_owner : ∀ x, owner_cpu_id <$> mem_map p' !! x = owner_cpu_id <$> mem_map p !! x;
  st_phys : mem_map_phys p' = mem_map_phys p;
  st_size : mem_map_size p' = mem_map_size p;
  st_total : total_pages p' = total_pages p;
}.

#[export] Instance stable_preorder : PreOrder stable.
Proof.
  split; [done|]. intros p1 p2 p3 [????] [????]. split; [|congruence..].
  intros x. congruence.
Qed.

Lemma stable_dom p p' : stable p p' → dom (mem_map p') = dom (mem_map p).
Proof.
  intros [Ho _ _ _]. apply set_eq. intros x. rewrite !elem_of_dom.
  specialize (Ho x). destruct (mem_map p !! x), (mem_map p' !! x); simpl in *; naive_solver.
Qed.

Lemma stable_with_lists p m o d : stable p (with_lists m o d p).
Proof. by split. Qed.

Lemma stable_set_free p b v pg :
  mem_map p !! b = Some pg →
  stable p (set_mem_map (<[b := Page v (owner_cpu_id pg)]> (mem_map p)) p).
Proof.
  intros E. split; simpl; try done. intros x. rewrite lookup_insert.
  case_decide; subst; [by rewrite E|done].
Qed.

(** The halves of a block. *)
Lemma half_upper b o :
  0 < o → b mod 2 ^ o = 0 → Z.lxor b (bit (o - 1)) = b + 2 ^ (o - 1).
Proof.
  intros Ho Hb. assert (E : 2 ^ o = 2 * 2 ^ (o - 1)).
  { rewrite <- Z.pow_succ_r by lia. f_equal. lia. }
  pose proof (pow2_pos (o - 1) ltac:(lia)).
  assert (Hb' : b = 2 ^ (o - 1) * (2 * (b / 2 ^ o))) by (rewrite E in *; mlia).
  rewrite lxor_buddy; [|lia|].
  - rewrite Hb' at 1. rewrite (Z.mul_comm (2 ^ (o - 1))), Z.div_mul by lia.
    by rewrite Z.even_mul.
  - rewrite Hb', Z.mul_comm. apply Z.mod_mul. lia.
Qed.

Lemma in_block_split b o x :
  0 < o → in_block b o x ↔ in_block b (o - 1) x ∨ in_block (b + 2 ^ (o - 1)) (o - 1) x.
Proof.
  intros Ho. assert (E : 2 ^ o = 2 * 2 ^ (o - 1)).
  { rewrite <- Z.pow_succ_r by lia. f_equal. lia. }
  unfold in_block. pose proof (pow2_pos (o - 1)). lia.
Qed.

Lemma block_ok_halves p b o :
  0 < o → block_ok p b o → block_ok p b (o - 1) ∧ block_ok p (b + 2 ^ (o - 1)) (o - 1).
Proof.
  intros Ho [Hr Hp Hb Ha Hx]. assert (E : 2 ^ o = 2 * 2 ^ (o - 1)).
  { rewrite <- Z.pow_succ_r by lia. f_equal. lia. }
  pose proof (pow2_pos (o - 1) ltac:(lia)).
  assert (b mod 2 ^ (o - 1) = 0).
  { replace b with (2 * (b / 2 ^ o) * 2 ^ (o - 1)) by (rewrite E in *; mlia).
    apply Z.mod_mul. lia. }
  split; split; try lia.
  - intros x Hin. apply Hx. rewrite in_block_split by done. by left.
  - rewrite <- (Z.mul_1_l (2 ^ (o - 1))) at 1. rewrite Z.mod_add by lia. done.
  - intros x Hin. apply Hx. rewrite in_block_split by done. by right.
Qed.

Lemma detached_page p F b o : detached p F b o → ∃ pg, mem_map p !! b = Some pg.
Proof. intros [[Hr _ _ _ Hx] _]. destruct (Hx b); [apply in_block_first; lia|eauto]. Qed.

Lemma inv_order p F h o : pmm_inv p F h → 0 ≤ o < MAX_BUDDY_ORDER →
  ∃ l c, F !! o = Some l ∧ free_count p !! o = Some c ∧
         freelists F !! FreeHead o = Some (PageNode <$> l).
Proof.
  intros Hinv Ho. apply (inv_orders _ _ _ Hinv) in Ho as [l El].
  exists l. eexists. split_and!; [done|by eapply inv_count|].
  by rewrite freelists_lookup, El.
Qed.

(** [page_set_free], the list insertion and [count_add], as a block. *)
Lemma attach_links p F h b o :
  pmm_inv p F h → detached p F b o → ∃ l c pg,
    F !! o = Some l ∧ free_count p !! o = Some c ∧ mem_map p !! b = Some pg ∧
    is_Some (links p !! PageNode b) ∧ unlinked (freelists F) (PageNode b) ∧
    freelists F !! FreeHead o = Some (PageNode <$> l).
Proof.
  intros Hinv Hdet. destruct (detached_page _ _ _ _ Hdet) as [pg Hpg].
  destruct (inv_order p F h o) as (l & c & El & Ec & EL); [done|apply Hdet|].
  exists l, c, pg. split_and!; try done.
  - apply (inv_nodes _ _ _ Hinv). eauto.
  - apply block_unlinked. intros k. by eapply detached_not_block.
Qed.

Lemma with_lists_default p o c d m :
  free_count p !! o = Some c →
  set_free_count (<[o := wrap64 (c + d)]> (free_count p)) (set_links m p) = with_lists m o d p.
Proof. intros E. unfold with_lists. by rewrite E. Qed.

Lemma page_set_free_run p b v pg :
  mem_map p !! b = Some pg →
  page_set_free b v p = Done tt (set_mem_map (<[b := Page v (owner_cpu_id pg)]> (mem_map p)) p).
Proof. intros E. unfold page_set_free, kupdate. by rewrite E. Qed.

Lemma on_links_run p f m : f (links p) = Some m → on_links f p = Done tt (set_links m p).
Proof. intros E. unfold on_links, kupdate. by rewrite E. Qed.

Lemma count_add_run p o d c :
  free_count p !! o = Some c →
  count_add o d p = Done tt (set_free_count (<[o := wrap64 (c + d)]> (free_count p)) p).
Proof. intros E. unfold count_add, kupdate. by rewrite E. Qed.

(** The splitting loop hands back every upper half and keeps the lowest one. *)
Lemma alloc_split_spec n p F b o :
  pmm_inv p F (Some b) → detached p F b o → Z.of_nat n ≤ o →
  ∃ p' F', alloc_split n b o p = Done tt p' ∧
    pmm_inv p' F' (Some b) ∧ detached p' F' b (o - Z.of_nat n) ∧
    (∀ x, free_frame F' x ∨ in_block b (o - Z.of_nat n) x ↔ free_frame F x ∨ in_block b o x) ∧
    frames_in F' + 2 ^ (o - Z.of_nat n) = frames_in F + 2 ^ o ∧
    stable p p' ∧ free_pages p' = free_pages p.
Proof.
  revert p F o. induction n as [|n IH]; intros p F o Hinv Hdet Hn.
  { exists p, F. rewrite Z.sub_0_r. naive_solver. }
  assert (Ho : 0 < o) by lia. destruct Hdet as [Hok Hfr].
  destruct (block_ok_halves p b o Ho Hok) as [Hlo Hhi].
  set (u := b + 2 ^ (o - 1)) in *.
  assert (Hu : detached p F u (o - 1)).
  { split; [done|]. intros x Hx. apply Hfr. rewrite in_block_split by done. by right. }
  destruct (attach_links p F (Some b) u (o - 1)) as (l & c & pg & El & Ec & Epg & Hnode & Hul & EL);
    [done..|].
  destruct (lists_add (links p) (freelists F) (FreeHead (o - 1)) (PageNode <$> l) (PageNode u))
    as (m & Em & Hm & Hdom & _); [apply Hinv|done..|].
  rewrite <- fmap_cons, <- freelists_insert in Hm.
  set (F1 := <[o - 1 := u :: l]> F) in *.
  assert (HP : plus_block F F1 u (o - 1)) by by apply plus_block_cons.
  set (p1 := with_lists m (o - 1) 1 (set_mem_map (<[u := Page true (owner_cpu_id pg)]> (mem_map p)) p)).
  pose proof (pow2_pos (o - 1) ltac:(lia)) as Hpos.
  assert (Hbu : Some b ≠ Some u) by (intros [= E]; unfold u in E; lia).
  assert (Hinv1 : pmm_inv p1 F1 (Some b)) by by eapply inv_attach.
  assert (Hst1 : stable p p1) by (etrans; [by apply stable_set_free|apply stable_with_lists]).
  assert (Hdet1 : detached p1 F1 b (o - 1)).
  { eapply detached_ext; [by apply stable_dom|]. split; [done|].
    intros x Hx. rewrite (plus_block_free F F1 u (o - 1)) by done. intros [Hx'|Hx'].
    - unfold in_block, u in *. lia.
    - apply (Hfr x); [|done]. rewrite in_block_split by done. by left. }
  destruct (IH p1 F1 (o - 1) Hinv1 Hdet1) as (p' & F' & E & Hinv' & Hdet' & Hfree & Hcnt & Hst & Hfp); [lia|].
  replace (o - 1 - Z.of_nat n) with (o - Z.of_nat (S n)) in * by lia.
  exists p', F'. split_and!; try done.
  - simpl. rewrite half_upper by (done || apply Hok). fold u.
    erewrite bind_done; [|by apply page_set_free_run].
    erewrite bind_done; [|by apply on_links_run].
    erewrite bind_done; [|by apply count_add_run]. exact E || (rewrite <- E; f_equal).
    unfold p1, with_lists. simpl. by rewrite Ec.
  - intros x. rewrite Hfree, (plus_block_free F F1 u (o - 1)), (in_block_split b o) by done.
    fold u. tauto.
  - rewrite Hcnt, (plus_block_frames F F1 u (o - 1)) by (done || apply Hhi).
    replace (2 ^ o) with (2 ^ (o - 1) + 2 ^ (o - 1)); [lia|].
    rewrite Z.add_diag, <- Z.pow_succ_r by lia. f_equal. lia.
  - by etrans.
Qed.

Lemma alloc_take_spec p F order o b l :
  pmm_wf p F → 0 ≤ order ≤ o → F !! o = Some (b :: l) →
  ∃ p' F', alloc_take order o p = Done (pfn_to_phys b) p' ∧ pmm_wf p' F' ∧
    block_ok p b order ∧ (∀ x, in_block b order x → free_frame F x) ∧
    (∀ x, free_frame F' x ↔ free_frame F x ∧ ¬ in_block b order x) ∧
    frames_in F' = frames_in F - 2 ^ order ∧ stable p p'.
Proof.
  intros [Hinv Hpages] Ho El.
  assert (Hblk : block F b o) by (exists (b :: l); set_solver).
  pose proof (inv_blocks _ _ _ Hinv _ _ Hblk) as Hok.
  assert (Hmax : 0 ≤ o < MAX_BUDDY_ORDER) by apply Hok.
  destruct (inv_order p F None o Hinv Hmax) as (l' & c & El' & Ec & EL).
  rewrite El in El'. injection El' as <-. simpl in EL.
  pose proof (inv_lists _ _ _ Hinv) as Hls.
  destruct (lists_del (links p) (freelists F) (FreeHead o) [] (PageNode <$> l) (PageNode b) Hls EL)
    as (m & Em & Hm & Hdom & _).
  simpl in Hm. rewrite <- freelists_insert in Hm. set (F1 := <[o := l]> F) in *.
  assert (HP : plus_block F1 F b o) by by apply (plus_block_del F o [] b l).
  set (p1 := with_lists m o (-1) p).
  assert (Hnd : NoDup (F !!! o)).
  { rewrite (lookup_total_correct _ _ _ El). apply (NoDup_fmap_1 PageNode).
    pose proof (lists_dlist _ _ _ _ Hls EL) as [Hnd _]. by apply NoDup_cons in Hnd as [_ ?]. }
  destruct (inv_detach p F1 F b o m) as [Hinv1 Hdet1]; try done.
  destruct (alloc_split_spec (Z.to_nat (o - order)) p1 F1 b o Hinv1 Hdet1)
    as (p2 & F2 & E2 & Hinv2 & Hdet2 & Hfree & Hcnt & Hst & Hfp); [lia|].
  replace (o - Z.of_nat (Z.to_nat (o - order))) with order in * by lia.
  destruct (detached_page _ _ _ _ Hdet2) as [pg Hpg].
  set (p3 := set_mem_map (<[b := Page false (owner_cpu_id pg)]> (mem_map p2)) p2).
  exists (set_free_pages (wrap64 (free_pages p3 + - bit order)) p3), F2.
  assert (Hcnt' : frames_in F2 = frames_in F - 2 ^ order).
  { pose proof (plus_block_frames F1 F b o Hmax HP). lia. }
  assert (Hst' : stable p p3).
  { etrans; [apply (stable_with_lists p m o (-1))|]. etrans; [apply Hst|].
    by apply stable_set_free. }
  destruct Hdet2 as [Hok2 Hfr2].
  split_and!; try done.
  - unfold alloc_take.
    erewrite bind_done; [|apply kread_done; by eapply lists_first].
    erewrite bind_done; [|by apply on_links_run].
    erewrite bind_done; [|by apply count_add_run]. cbn [node_to_pfn].
    erewrite bind_done; [|reflexivity].
    erewrite bind_done; [|unfold set_free_count; simpl; rewrite <- E2; f_equal; unfold p1; by rewrite <- (with_lists_default p o c)].
    erewrite bind_done; [|by apply page_set_free_run].
    erewrite bind_done; [|reflexivity]. done.
  - split; [by apply inv_pages, inv_close|].
    simpl. rewrite Hfp, bit_pow, Hcnt' by lia. simpl. rewrite Hpages.
    unfold wrap64. rewrite Zplus_mod_idemp_l. f_equal.
  - apply (block_ok_ext p2); [|done]. symmetry. apply stable_dom.
    etrans; [apply stable_with_lists|exact Hst].
  - intros x Hx. rewrite (plus_block_free F1 F b o) by done. specialize (Hfree x). tauto.
  - intros x. rewrite (plus_block_free F1 F b o) by done.
    specialize (Hfree x). specialize (Hfr2 x). tauto.
  - destruct Hst'. by split.
Qed.

Lemma list_empty_run p F o l h :
  pmm_inv p F h → F !! o = Some l →
  kread (λ p, list_empty (FreeHead o) (links p)) p = Done (bool_decide (l = [])) p.
Proof.
  intros Hinv El. apply kread_done. erewrite lists_empty_spec; [|apply Hinv|by rewrite freelists_lookup, El].
  f_equal. apply bool_decide_ext. by destruct l.
Qed.

Lemma alloc_scan_spec n p F order o :
  pmm_wf p F → 0 ≤ order ≤ o → o + Z.of_nat n = MAX_BUDDY_ORDER →
  (alloc_scan n order o p = Done 0 p ∧ ∀ k b, o ≤ k → ¬ block F b k) ∨
  ∃ b p' F', alloc_scan n order o p = Done (pfn_to_phys b) p' ∧ pmm_wf p' F' ∧
    block_ok p b order ∧ (∀ x, in_block b order x → free_frame F x) ∧
    (∀ x, free_frame F' x ↔ free_frame F x ∧ ¬ in_block b order x) ∧
    frames_in F' = frames_in F - 2 ^ order ∧ stable p p'.
Proof.
  intros Hwf. assert (Hinv := proj1 Hwf). revert o. induction n as [|n IH]; intros o Ho Hn.
  { left. split; [done|]. intros k b Hk [l [El _]].
    assert (is_Some (F !! k)) as Hs by eauto. apply (inv_orders _ _ _ Hinv) in Hs. lia. }
  destruct (inv_order p F None o Hinv) as (l & _ & El & _ & _); [lia|].
  simpl. erewrite bind_done; [|by eapply list_empty_run].
  case_bool_decide as Hl; subst.
  - destruct (IH (o + 1)) as [[E Hno]|(b & p' & F' & E & H)]; [lia|lia|left|right].
    + split; [done|]. intros k b Hk Hb. destruct (decide (k = o)) as [->|]; [|by eapply (Hno k); [lia|]].
      destruct Hb as (l & El' & Hb). simplify_eq. set_solver.
    + by exists b, p', F'.
  - right. destruct l as [|b l]; [done|].
    destruct (alloc_take_spec p F order o b l) as (p' & F' & H); [done..|]. by exists b, p', F'.
Qed.

(** The lock around the scan. *)
Lemma pmm_alloc_run s order r p' :
  lock_free (g_pmm_lock s) → 0 ≤ order < MAX_BUDDY_ORDER →
  alloc_scan (Z.to_nat (MAX_BUDDY_ORDER - order)) order order (g_pmm s) = Done r p' →
  pmm_alloc_pages order s = Done r (PmmSt p' (bump (g_pmm_lock s)) (irq s)).
Proof.
  intros Hlk Ho E. destruct s as [p lk fl]; simpl in *.
  unfold pmm_alloc_pages. rewrite (proj2 (Z.ltb_ge _ _)), (proj2 (Z.leb_gt _ _)) by lia. simpl.
  erewrite bind_done; [|by apply klift_done, spin_lock_irqsave_free]. simpl.
  erewrite bind_done; [|by apply klift_done].
  erewrite bind_done; [|by apply klift_done, spin_unlock_irqrestore_take]. done.
Qed.

Lemma pfn_to_phys_small b : 0 ≤ b < 2 ^ 52 → pfn_to_phys b = b * PAGE_SIZE.
Proof.
  intros Hb. unfold pfn_to_phys, PAGE_SHIFT. rewrite Z.shiftl_mul_pow2 by lia.
  change (2 ^ 12) with PAGE_SIZE. apply wrap64_small. unfold U64.
  change PAGE_SIZE with 4096. change (2 ^ 52) with 0x10000000000000 in Hb. lia.
Qed.

Lemma block_ok_phys p b o : block_ok p b o → pfn_to_phys b = b * PAGE_SIZE.
Proof.
  intros [Hr ? Hb _ _]. apply pfn_to_phys_small. pose proof (pow2_pos o ltac:(lia)).
  change (2 ^ 40) with 0x10000000000 in Hb. change (2 ^ 52) with 0x10000000000000. lia.
Qed.

(** C1: [pmm_alloc_pages] on every branch, from any state satisfying the
    buddy invariant: it returns NULL exactly when no free block is large enough,
    and then changes nothing; otherwise it returns a naturally aligned block of
    [2^order] frames, none of it allocated before and all of it allocated after,
    leaves every other frame as it was, and re-establishes the invariant. *)
Theorem pmm_alloc_pages_spec s F order :
  pmm_wf (g_pmm s) F → lock_free (g_pmm_lock s) → 0 ≤ order < MAX_BUDDY_ORDER →
  (pmm_alloc_pages order s = Done 0 (PmmSt (g_pmm s) (bump (g_pmm_lock s)) (irq s)) ∧
   ∀ o b, order ≤ o → ¬ block F b o) ∨
  ∃ b p' F',
    pmm_alloc_pages order s =
      Done (pfn_to_phys b) (PmmSt p' (bump (g_pmm_lock s)) (irq s)) ∧
    pfn_to_phys b = b * PAGE_SIZE ∧ 0 < b ∧ b mod 2 ^ order = 0 ∧
    pmm_wf p' F' ∧ stable (g_pmm s) p' ∧
    (∀ x, in_block b order x → free_frame F x) ∧
    (∀ x, free_frame F' x ↔ free_frame F x ∧ ¬ in_block b order x) ∧
    frames_in F' = frames_in F - 2 ^ order.
Proof.
  intros Hwf Hlk Ho.
  destruct (alloc_scan_spec (Z.to_nat (MAX_BUDDY_ORDER - order)) (g_pmm s) F order order Hwf)
    as [[E Hno]|(b & p' & F' & E & Hwf' & Hok & Hin & Hf & Hc & Hst)]; [lia|lia|left|right].
  - split; [by apply pmm_alloc_run|]. intros o b ?. by apply Hno.
  - exists b, p', F'. rewrite <- (block_ok_phys _ _ _ Hok).
    split_and!; try done; [by apply pmm_alloc_run|apply Hok..].
Qed.

(** *** Freeing *)

(** Every buddy that the merging loop of [pmm_free_pages] looks at is a frame
    of the page array, and when its [is_free] is set it starts a free block of
    the order the loop is at.  The code tests only [is_free]: a [page_t] does
    not record the order of its block. *)
Fixpoint merge_safe (n : nat) (p : pmm_t) (F : gmap Z (list Z)) (b o : Z) : Prop :=
  match n with
  | O => True
  | S n' =>
      let u := Z.lxor b (bit o) in
      is_Some (mem_map p !! u) ∧
      ((∃ k, block F u k) → block F u o ∧ merge_safe n' p F (Z.land b u) (o + 1))
  end.

Lemma merge_safe_mono n p p' F F' u o b k :
  plus_block F' F u o → dom (mem_map p') = dom (mem_map p) → o < k →
  merge_safe n p F b k → merge_safe n p' F' b k.
Proof.
  intros HP Hd. revert b k. induction n as [|n IH]; intros b k Hk; [done|]. simpl.
  intros [Hp Hs]. split.
  - apply elem_of_dom. rewrite Hd. by apply elem_of_dom.
  - intros [k' Hb]. destruct Hs as [Hb' Hs].
    { exists k'. rewrite plus_block_block by done. by right. }
    split; [|apply IH; [lia|done]].
    rewrite plus_block_block in Hb' by done. destruct Hb' as [[_ ->]|?]; [lia|done].
Qed.

(** A block and its buddy are the two halves of the enclosing block. *)
Lemma buddy_cases b o :
  0 ≤ o → b mod 2 ^ o = 0 →
  let u := Z.lxor b (bit o) in let m := Z.land b u in
  m mod 2 ^ (o + 1) = 0 ∧ ((b = m ∧ u = m + 2 ^ o) ∨ (b = m + 2 ^ o ∧ u = m)).
Proof.
  intros Ho Hb u m. pose proof (pow2_pos o Ho).
  assert (E2 : 2 ^ (o + 1) = 2 ^ o * 2) by (rewrite Z.pow_add_r by lia; done).
  assert (Em : m = 2 ^ (o + 1) * (b / 2 ^ o / 2)).
  { unfold m, u. rewrite land_buddy, E2, Z.div_div by lia. done. }
  assert (Eb : b = 2 ^ o * (b / 2 ^ o)) by mlia.
  split. { rewrite Em, Z.mul_comm. apply Z.mod_mul. lia. }
  unfold u. rewrite lxor_buddy by done. destruct (Z.even (b / 2 ^ o)) eqn:Ev.
  - left. assert (b / 2 ^ o = 2 * (b / 2 ^ o / 2)).
    { apply Z.even_spec in Ev as [q ->]. rewrite Z.mul_comm, Z.div_mul; lia. }
    rewrite E2 in Em. split; [|f_equal]; nia.
  - right. assert (b / 2 ^ o = 2 * (b / 2 ^ o / 2) + 1).
    { rewrite <- Z.negb_odd, negb_false_iff in Ev. apply Z.odd_spec in Ev as [q ->].
      rewrite Z.mul_comm, Z.div_add_l; [|lia]. change (1 / 2) with 0. lia. }
    rewrite E2 in Em. nia.
Qed.

Lemma block_ok_merge p b o :
  let u := Z.lxor b (bit o) in
  o + 1 < MAX_BUDDY_ORDER → block_ok p b o → block_ok p u o → block_ok p (Z.land b u) (o + 1).
Proof.
  intros u Ho [Hr Hp Hb Ha Hx] [_ Hp' Hb' Ha' Hx'].
  destruct (buddy_cases b o) as [Hm Hc]; [lia|done|]. fold u in Hm, Hc.
  assert (E2 : 2 ^ (o + 1) = 2 ^ o * 2) by (rewrite Z.pow_add_r by lia; done).
  split; [lia|lia|lia|done|]. unfold in_block in *. intros x Hin.
  destruct (decide (b ≤ x < b + 2 ^ o)); [by apply Hx|apply Hx'; lia].
Qed.

Lemma in_block_merge b o x :
  let u := Z.lxor b (bit o) in 0 ≤ o → b mod 2 ^ o = 0 →
  in_block (Z.land b u) (o + 1) x ↔ in_block b o x ∨ in_block u o x.
Proof.
  intros u Ho Hb. destruct (buddy_cases b o) as [_ Hc]; [lia|done|]. fold u in Hc.
  assert (E2 : 2 ^ (o + 1) = 2 ^ o * 2) by (rewrite Z.pow_add_r by lia; done).
  unfold in_block. lia.
Qed.

(** One round of the loop: the buddy leaves its list and joins the block. *)
Lemma free_merge_step p F b o :
  let u := Z.lxor b (bit o) in
  pmm_inv p F None → detached p F b o → block F u o → o + 1 < MAX_BUDDY_ORDER →
  ∃ p' F' pg m c, list_del (PageNode u) (links p) = Some m ∧
    mem_map p !! u = Some pg ∧ free_count p !! o = Some c ∧
    p' = set_mem_map (<[u := Page false (owner_cpu_id pg)]> (mem_map p)) (with_lists m o (-1) p) ∧
    plus_block F' F u o ∧ pmm_inv p' F' None ∧ detached p' F' (Z.land b u) (o + 1) ∧ stable p p'.
Proof.
  intros u Hinv [Hok Hfr] Hblk Ho.
  pose proof (inv_blocks _ _ _ Hinv _ _ Hblk) as Hoku.
  assert (Hr : 0 ≤ o < MAX_BUDDY_ORDER) by apply Hok.
  destruct (inv_order p F None o Hinv Hr) as (l & c & El & Ec & EL).
  destruct Hblk as (l0 & El0 & Hin). rewrite El in El0. injection El0 as <-.
  apply list_elem_of_split in Hin as (l1 & l2 & ->).
  rewrite fmap_app in EL. simpl in EL. pose proof (inv_lists _ _ _ Hinv) as Hls.
  destruct (lists_del _ _ _ _ _ _ Hls EL) as (m & Em & Hm & Hdom & _).
  rewrite <- fmap_app, <- freelists_insert in Hm. set (F1 := <[o := l1 ++ l2]> F) in *.
  assert (HP : plus_block F1 F u o) by by apply (plus_block_del F o l1 u l2).
  destruct (bo_pages _ _ _ Hoku u) as [pg Hpg]; [apply in_block_first; lia|].
  assert (Hnd : NoDup (F !!! o)).
  { rewrite (lookup_total_correct _ _ _ El). apply (NoDup_fmap_1 PageNode). rewrite fmap_app.
    pose proof (lists_dlist _ _ _ _ Hls EL) as [Hnd _]. by apply NoDup_cons in Hnd as [_ ?]. }
  destruct (inv_detach p F1 F u o m) as [Hinv1 [Hok1 Hdet1]]; try done.
  set (p1 := set_mem_map (<[u := Page false (owner_cpu_id pg)]> (mem_map p)) (with_lists m o (-1) p)).
  assert (Hst : stable p p1).
  { etrans; [apply (stable_with_lists p m o (-1))|]. by apply (stable_set_free (with_lists m o (-1) p)). }
  exists p1, F1, pg, m, c. split_and!; try done.
  - by apply (inv_close (with_lists m o (-1) p)).
  - split.
    + apply (block_ok_ext p); [by apply stable_dom|]. by apply block_ok_merge.
    + intros x [Hx|Hx]%in_block_merge; [|by apply Hdet1|lia|apply Hok].
      intros Hf. apply (Hfr x Hx). rewrite (plus_block_free F1 F u o) by done. by right.
Qed.

Lemma free_merge_spec n p F b o :
  pmm_inv p F None → detached p F b o → o + Z.of_nat n = MAX_BUDDY_ORDER - 1 →
  merge_safe n p F b o →
  ∃ p' F' b' o', free_merge n b o p = Done (b', o') p' ∧
    pmm_inv p' F' None ∧ detached p' F' b' o' ∧
    (∀ x, free_frame F' x ∨ in_block b' o' x ↔ free_frame F x ∨ in_block b o x) ∧
    frames_in F' + 2 ^ o' = frames_in F + 2 ^ o ∧ stable p p' ∧ free_pages p' = free_pages p.
Proof.
  revert p F b o. induction n as [|n IH]; intros p F b o Hinv Hdet Hn Hsafe.
  { by exists p, F, b, o. }
  destruct Hsafe as [[pg Hpg] Hsafe]. set (u := Z.lxor b (bit o)) in *.
  assert (Hflag : page_is_free u p = Done (is_free pg) p).
  { unfold page_is_free. apply kread_done. by rewrite Hpg. }
  pose proof (inv_is_free _ _ _ Hinv u pg Hpg ltac:(done)) as Hfree.
  simpl. fold u. erewrite bind_done by done.
  destruct (is_free pg); simpl; cycle 1.
  { by exists p, F, b, o. }
  destruct Hsafe as [Hblk Hsafe]; [by apply Hfree|].
  assert (Ho : 0 ≤ o < MAX_BUDDY_ORDER) by apply Hdet.
  destruct (free_merge_step p F b o Hinv Hdet Hblk)
    as (p1 & F1 & pg' & m & c & Em & Epg & Ec & Ep1 & HP & Hinv1 & Hdet1 & Hst1); [lia|]. fold u in Em, Epg, Ep1, HP, Hdet1.
  destruct (IH p1 F1 (Z.land b u) (o + 1)) as (p' & F' & b' & o' & E & Hi & Hd & Hf & Hc & Hst & Hp);
    [done|done|lia| |].
  { eapply merge_safe_mono; [done|by apply stable_dom| |done]. lia. }
  exists p', F', b', o'. split_and!; try done.
  - erewrite bind_done; [|by apply on_links_run].
    erewrite bind_done; [|by apply page_set_free_run].
    erewrite bind_done; [|by apply count_add_run].
    rewrite <- E, Ep1. f_equal. unfold with_lists. by rewrite Ec.
  - intros x. rewrite Hf, (plus_block_free F1 F u o) by done.
    unfold u. rewrite in_block_merge by (lia || apply Hdet). tauto.
  - rewrite Hc, (plus_block_frames F1 F u o) by done.
    rewrite Z.pow_add_r by lia. change (2 ^ 1) with 2. lia.
  - by etrans.
  - rewrite Hp, Ep1. done.
Qed.

Lemma free_block_spec p F b o :
  pmm_wf p F → detached p F b o →
  merge_safe (Z.to_nat (MAX_BUDDY_ORDER - 1 - o)) p F b o →
  ∃ p' F', free_block b o p = Done tt p' ∧ pmm_wf p' F' ∧
    (∀ x, free_frame F' x ↔ free_frame F x ∨ in_block b o x) ∧
    frames_in F' = frames_in F + 2 ^ o ∧ stable p p'.
Proof.
  intros [Hinv Hpages] Hdet Hsafe. assert (Ho : 0 ≤ o < MAX_BUDDY_ORDER) by apply Hdet.
  destruct (free_merge_spec (Z.to_nat (MAX_BUDDY_ORDER - 1 - o)) p F b o Hinv Hdet) as
    (p1 & F1 & b' & o' & E & Hinv1 & Hdet1 & Hf & Hc & Hst & Hp); [|done|]; [lia|].
  destruct (attach_links p1 F1 None b' o' Hinv1 Hdet1) as (l & c & pg & El & Ec & Epg & Hnode & Hul & EL).
  destruct (lists_add_tail (links p1) (freelists F1) (FreeHead o') (PageNode <$> l) (PageNode b'))
    as (m & Em & Hm & Hdom & _); [apply Hinv1|done..|].
  change [PageNode b'] with (PageNode <$> [b']) in Hm.
  rewrite <- fmap_app, <- freelists_insert in Hm.
  set (F2 := <[o' := l ++ [b']]> F1) in *.
  assert (HP : plus_block F1 F2 b' o') by by apply plus_block_snoc.
  set (p2 := with_lists m o' 1 (set_mem_map (<[b' := Page true (owner_cpu_id pg)]> (mem_map p1)) p1)).
  assert (Hinv2 : pmm_inv p2 F2 None) by by eapply inv_attach.
  assert (Hcnt : frames_in F2 = frames_in F + 2 ^ o).
  { rewrite (plus_block_frames F1 F2 b' o'); [lia| |done]. apply Hdet1. }
  exists (set_free_pages (wrap64 (free_pages p2 + bit o)) p2), F2. split_and!; try done.
  - unfold free_block. erewrite bind_done by done. cbn beta iota.
    erewrite bind_done; [|by apply page_set_free_run].
    erewrite bind_done; [|by apply on_links_run].
    erewrite bind_done; [|by apply count_add_run]. unfold pages_add, kmodify.
    unfold p2, with_lists. simpl. by rewrite Ec.
  - split; [by apply inv_pages|]. simpl. rewrite Hcnt, Hp, Hpages, bit_pow by lia.
    unfold wrap64. by rewrite Zplus_mod_idemp_l.
  - intros x. rewrite (plus_block_free F1 F2 b' o') by done. specialize (Hf x). tauto.
  - assert (Hst2 : stable p p2) by (etrans; [done|etrans; [by apply stable_set_free|apply stable_with_lists]]).
    destruct Hst2. by split.
Qed.

Lemma pmm_free_run s b order p' :
  lock_free (g_pmm_lock s) → block_ok (g_pmm s) b order →
  free_block b order (g_pmm s) = Done tt p' →
  pmm_free_pages (pfn_to_phys b) order s = Done tt (PmmSt p' (bump (g_pmm_lock s)) (irq s)).
Proof.
  intros Hlk Hok E. destruct s as [p lk fl]; simpl in *.
  pose proof (block_ok_phys _ _ _ Hok) as Ephys. destruct Hok as [Ho Hb _ _ _].
  assert (Epfn : phys_to_pfn (pfn_to_phys b) = b).
  { rewrite Ephys. unfold phys_to_pfn, PAGE_SHIFT. rewrite Z.shiftr_div_pow2 by lia.
    by apply Z.div_mul. }
  unfold pmm_free_pages. rewrite Epfn, Ephys. change PAGE_SIZE with 4096.
  rewrite (proj2 (Z.eqb_neq _ _)), (proj2 (Z.ltb_ge _ _)), (proj2 (Z.leb_gt _ _)) by lia. simpl.
  erewrite bind_done; [|by apply klift_done, spin_lock_irqsave_free]. simpl.
  erewrite bind_done; [|by apply klift_done]. reflexivity.
Qed.

(** C4: [pmm_free_pages] of a block that is out of every free list, provided
    the buddies it merges with are free blocks of the order it takes them to be
    ([merge_safe]): exactly the frames of the block become free and the buddy
    invariant holds again. *)
Theorem pmm_free_pages_spec s F b order :
  pmm_wf (g_pmm s) F → lock_free (g_pmm_lock s) → detached (g_pmm s) F b order →
  merge_safe (Z.to_nat (MAX_BUDDY_ORDER - 1 - order)) (g_pmm s) F b order →
  ∃ p' F', pmm_free_pages (pfn_to_phys b) order s =
      Done tt (PmmSt p' (bump (g_pmm_lock s)) (irq s)) ∧
    pmm_wf p' F' ∧ stable (g_pmm s) p' ∧
    (∀ x, free_frame F' x ↔ free_frame F x ∨ in_block b order x) ∧
    frames_in F' = frames_in F + 2 ^ order.
Proof.
  intros Hwf Hlk Hdet Hsafe.
  destruct (free_block_spec (g_pmm s) F b order Hwf Hdet Hsafe) as (p' & F' & E & Hwf' & Hf & Hc & Hst).
  exists p', F'. split_and!; try done. apply pmm_free_run; [done|apply Hdet|done].
Qed.
