(* ===== verification/PmmInit.v ===== *)
(** * Building the page allocator at boot (kernel/mm/pmm.c, include/koharu/bootinfo.h)

    [pmm_init] places the page array in the first usable region that can hold
    it and cuts every usable region, up to [PMM_POOL_START_PFN], into naturally
    aligned blocks.  The memory map of the boot loader ([g_boot_info->memory])
    is an argument. *)

From S2P Require Export Pmm.

(** ** pmm_frame_in_pool and pmm_init *)

Record mmap_entry := MmapEntry { phys_start : Z; me_length : Z; me_type : Z }.
Record mmap_info := MmapInfo { max_phys_addr : Z; entries : list mmap_entry }.
Definition MMAP_TYPE_USABLE : Z := 1.

(** The page-aligned range of a region, without the low megabyte. *)
Definition region_start (e : mmap_entry) : Z :=
  let start := ALIGN_UP (phys_start e) PAGE_SIZE in
  if start <? 0x100000 then 0x100000 else start.
Definition region_end (e : mmap_entry) : Z :=
  ALIGN_DOWN (wrap64 (phys_start e + me_length e)) PAGE_SIZE.

Definition pmm_frame_in_pool (mi : mmap_info) (pfn : Z) (p : pmm_t) : bool :=
  if pfn <? PMM_POOL_START_PFN then false else
  let phys := pfn_to_phys pfn in
  if phys <? 0x100000 then false else
  if (mem_map_phys p <=? phys) && (phys <? wrap64 (mem_map_phys p + mem_map_size p)) then false else
  existsb (λ e, (me_type e =? MMAP_TYPE_USABLE) && (region_start e <? region_end e) &&
                (region_start e <=? phys) && (wrap64 (phys + PAGE_SIZE) <=? region_end e))
    (entries mi).

(** [sizeof(page_t)]. *)
Definition SIZEOF_PAGE_T : Z := 24.

(** [list_init] of every free list and [free_count = 0]. *)
Definition init_orders : K pmm_t unit :=
  kmodify (set_free_pages 0);;
  kfor (Z.to_nat MAX_BUDDY_ORDER) 0 (λ i,
    kmodify (λ p, set_free_count (<[i := 0]> (free_count p)) p);;
    on_links (λ m, Some (list_init (FreeHead i) m))).

(** The first usable region that can hold the page array. *)
Fixpoint find_array (size : Z) (es : list mmap_entry) : Z :=
  match es with
  | [] => 0
  | e :: es' =>
      if me_type e =? MMAP_TYPE_USABLE then
        let start_addr := region_start e in
        let end_addr := ALIGN_UP (wrap64 (phys_start e + me_length e)) PAGE_SIZE in
        if (start_addr <? end_addr) && (size <=? wrap64 (end_addr - start_addr)) then start_addr
        else find_array size es'
      else find_array size es'
  end.

(** [memset(g_pmm.mem_map, 0, array_size)]: every page not free, owner 0, its
    list node [{ NULL, NULL }]. *)
Definition zero_pages (n : Z) : gmap Z page_t :=
  list_to_map ((λ i, (i, Page false 0)) <$> seqZ 0 n).
Definition zero_nodes (n : Z) (m : gmap pnode (link pnode)) : gmap pnode (link pnode) :=
  list_to_map ((λ i, (PageNode i, Link None None)) <$> seqZ 0 n) ∪ m.

(** [for (order = MAX_BUDDY_ORDER - 1; order >= 0; order--)]. *)
Fixpoint target_order (n : nat) (curr remain : Z) : Z :=
  match n with
  | O => 0
  | S n' =>
      let order := Z.of_nat n' in
      let block_size := bit (PAGE_SHIFT + order) in
      if (block_size <=? remain) && (Z.land curr (block_size - 1) =? 0) then order
      else target_order n' curr remain
  end.

(** [while (curr < end) { ... }]; running out of [fuel] counts as spinning. *)
Fixpoint init_region (fuel : nat) (array_phys array_end pool_start curr stop : Z) : K pmm_t unit :=
  match fuel with
  | O => kspin
  | S fuel' =>
      if negb (curr <? stop) then mret tt else
      if pool_start <=? curr then mret tt else
      if (array_phys <=? curr) && (curr <? array_end)
      then init_region fuel' array_phys array_end pool_start array_end stop else
      let limit := if (curr <? array_phys) && (array_phys <? stop) then array_phys else stop in
      let limit := if pool_start <? limit then pool_start else limit in
      let order := target_order (Z.to_nat MAX_BUDDY_ORDER) curr (wrap64 (limit - curr)) in
      let pfn := phys_to_pfn curr in
      page_set_free pfn true;;
      on_links (list_add_tail (PageNode pfn) (FreeHead order));;
      count_add order 1;;
      pages_add (bit order);;
      init_region fuel' array_phys array_end pool_start (wrap64 (curr + bit (PAGE_SHIFT + order))) stop
  end.

Fixpoint init_regions (array_phys array_end pool_start : Z) (es : list mmap_entry) : K pmm_t unit :=
  match es with
  | [] => mret tt
  | e :: es' =>
      (if me_type e =? MMAP_TYPE_USABLE then
         init_region (S (S (Z.to_nat (Z.shiftr (region_end e) PAGE_SHIFT))))
           array_phys array_end pool_start (region_start e) (region_end e)
       else mret tt);;
      init_regions array_phys array_end pool_start es'
  end.

(** [g_pmm.total_pages] and [array_size]. *)
Definition page_count (mi : mmap_info) : Z := ALIGN_UP (max_phys_addr mi) PAGE_SIZE / PAGE_SIZE.
Definition array_bytes (mi : mmap_info) : Z := ALIGN_UP (wrap64 (page_count mi * SIZEOF_PAGE_T)) PAGE_SIZE.

Definition pmm_init (mi : mmap_info) : K pmm_t Z :=
  init_orders;;
  let total := page_count mi in
  let array_size := array_bytes mi in
  kmodify (λ p, Pmm (links p) (free_count p) (mem_map p) (mem_map_phys p) (mem_map_size p) total (free_pages p));;
  let array_phys := find_array array_size (entries mi) in
  if array_phys =? 0 then mret (-1) else
  let n := array_size / SIZEOF_PAGE_T in
  kmodify (λ p, Pmm (zero_nodes n (links p)) (free_count p) (zero_pages n) array_phys array_size
                  (total_pages p) (free_pages p));;
  init_regions array_phys (wrap64 (array_phys + array_size)) (pfn_to_phys PMM_POOL_START_PFN) (entries mi);;
  mret 0.

(** ** What the boot memory map has to satisfy *)

(** Frame [x] lies whole in a usable region, above the low megabyte. *)
Definition in_region (e : mmap_entry) (x : Z) : Prop :=
  me_type e = MMAP_TYPE_USABLE ∧ region_start e ≤ x * PAGE_SIZE ∧ (x + 1) * PAGE_SIZE ≤ region_end e.

(** The frames the kernel's allocator is to own: usable, below the frames left
    to the root server, and outside the page array. *)
Definition kernel_frame (es : list mmap_entry) (A B x : Z) : Prop :=
  x < PMM_POOL_START_PFN ∧ ¬ (A ≤ x < B) ∧ ∃ e, e ∈ es ∧ in_region e x.

Record map_ok (mi : mmap_info) : Prop := MapOk {
  mo_max : 0 ≤ max_phys_addr mi ≤ 2 ^ 52;
  mo_region : ∀ e, e ∈ entries mi → 0 ≤ phys_start e ∧ 0 ≤ me_length e ∧
    phys_start e + me_length e ≤ max_phys_addr mi;
  mo_disjoint : ∀ i j e1 e2 x, entries mi !! i = Some e1 → entries mi !! j = Some e2 →
    in_region e1 x → in_region e2 x → i = j;
}.

(** ** Page arithmetic *)

Lemma ALIGN_DOWN_page a : 0 ≤ a < U64 → ALIGN_DOWN a PAGE_SIZE = PAGE_SIZE * (a / PAGE_SIZE).
Proof.
  intros Ha. unfold ALIGN_DOWN. change (wrap64 (PAGE_SIZE - 1)) with (Z.ones 12).
  rewrite bnot64_ones by lia. change (2 ^ 12) with 4096. change PAGE_SIZE with 4096. mlia.
Qed.

Lemma ALIGN_UP_page a : 0 ≤ a < U64 - PAGE_SIZE →
  ALIGN_UP a PAGE_SIZE = PAGE_SIZE * ((a + (PAGE_SIZE - 1)) / PAGE_SIZE).
Proof.
  change PAGE_SIZE with 4096. unfold U64. intros Ha. rewrite <- ALIGN_DOWN_page by (unfold U64; lia).
  unfold ALIGN_UP, ALIGN_DOWN. change PAGE_SIZE with 4096. f_equal.
  rewrite (wrap64_small (a + 4096)) by (unfold U64; lia). rewrite wrap64_small by (unfold U64; lia). lia.
Qed.

Lemma region_start_page mi e : map_ok mi → e ∈ entries mi →
  ∃ c, region_start e = c * PAGE_SIZE ∧ 256 ≤ c ≤ 2 ^ 40.
Proof.
  intros [Hm Hr _] He. destruct (Hr e He) as (?&?&?). unfold region_start.
  change PAGE_SIZE with 4096 in *. change (2 ^ 52) with 0x10000000000000 in *.
  change (2 ^ 40) with 0x10000000000.
  change (ALIGN_UP (phys_start e) 4096) with (ALIGN_UP (phys_start e) PAGE_SIZE).
  rewrite ALIGN_UP_page by (unfold U64; change PAGE_SIZE with 4096; lia).
  change PAGE_SIZE with 4096. case Z.ltb_spec; intros.
  - exists 256. lia.
  - eexists. split; [apply Z.mul_comm|]. mlia.
Qed.

Lemma region_end_page mi e : map_ok mi → e ∈ entries mi →
  ∃ c, region_end e = c * PAGE_SIZE ∧ 0 ≤ c ∧ c * PAGE_SIZE ≤ max_phys_addr mi.
Proof.
  intros [Hm Hr _] He. destruct (Hr e He) as (?&?&?). unfold region_end.
  change (2 ^ 52) with 0x10000000000000 in *.
  rewrite wrap64_small by (unfold U64; lia). rewrite ALIGN_DOWN_page by (unfold U64; lia).
  change PAGE_SIZE with 4096. eexists. split; [apply Z.mul_comm|]. mlia.
Qed.

(** The order chosen for a block: aligned, and no longer than what remains. *)
Lemma target_order_spec n c d :
  0 ≤ c → 1 ≤ d →
  let o := target_order (S n) (c * PAGE_SIZE) (d * PAGE_SIZE) in
  0 ≤ o ≤ Z.of_nat n ∧ 2 ^ o ≤ d ∧ c mod 2 ^ o = 0.
Proof.
  intros Hc Hd. induction n as [|n IH].
  { cbn [target_order]. change (Z.of_nat 0) with 0. pose proof (Z.mod_1_r c). change (2 ^ 0) with 1.
    cbv zeta. destruct (_ && _); change (2 ^ 0) with 1; lia. }
  cbv zeta in *. remember (S n) as m. cbn [target_order].
  destruct (_ && _) eqn:E; [|split_and!; try apply IH; lia].
  apply andb_true_iff in E as [E1 E2]. apply Z.leb_le in E1. apply Z.eqb_eq in E2.
  assert (Epow : 2 ^ (12 + Z.of_nat m) = PAGE_SIZE * 2 ^ Z.of_nat m) by (rewrite Z.pow_add_r by lia; done).
  unfold PAGE_SHIFT in *. rewrite bit_pow, Epow in E1 by lia.
  rewrite bit_pow, Z.sub_1_r, <- Z.ones_equiv, Z.land_ones, Epow, Z.mul_comm in E2 by lia.
  pose proof (pow2_pos (Z.of_nat m) ltac:(lia)).
  rewrite Zmult_mod_distr_l in E2. change PAGE_SIZE with 4096 in *.
  split_and!; lia.
Qed.

(** ** One region *)

Lemma init_block p F c o :
  pmm_wf p F → detached p F c o → ∃ p' F',
    (∀ A (k : K pmm_t A), (page_set_free c true;;
       on_links (list_add_tail (PageNode c) (FreeHead o));;
       count_add o 1;; pages_add (bit o);; k) p = k p') ∧
    pmm_wf p' F' ∧ stable p p' ∧ (∀ x, free_frame F' x ↔ free_frame F x ∨ in_block c o x).
Proof.
  intros [Hinv Hpages] Hdet.
  destruct (attach_links p F None c o Hinv Hdet) as (l & cnt & pg & El & Ec & Epg & Hnode & Hul & EL).
  destruct (lists_add_tail (links p) (freelists F) (FreeHead o) (PageNode <$> l) (PageNode c))
    as (m & Em & Hm & Hdom & _); [apply Hinv|done..|].
  change [PageNode c] with (PageNode <$> [c]) in Hm. rewrite <- fmap_app, <- freelists_insert in Hm.
  assert (HP : plus_block F (<[o := l ++ [c]]> F) c o) by by apply plus_block_snoc.
  set (p2 := with_lists m o 1 (set_mem_map (<[c := Page true (owner_cpu_id pg)]> (mem_map p)) p)).
  assert (Hinv2 : pmm_inv p2 (<[o := l ++ [c]]> F) None) by by eapply inv_attach.
  assert (Hr : 0 ≤ o < MAX_BUDDY_ORDER) by apply Hdet.
  exists (set_free_pages (wrap64 (free_pages p2 + bit o)) p2), (<[o := l ++ [c]]> F). split_and!.
  - intros A k. erewrite bind_done; [|by apply page_set_free_run].
    erewrite bind_done; [|by apply on_links_run].
    erewrite bind_done; [|by apply count_add_run]. unfold pages_add.
    erewrite bind_done; [|done]. unfold p2, with_lists. simpl. by rewrite Ec.
  - split; [by apply inv_pages|]. simpl. rewrite (plus_block_frames F _ c o), Hpages, bit_pow by (done || lia).
    unfold wrap64. by rewrite Zplus_mod_idemp_l.
  - etrans; [by apply stable_set_free|]. etrans; [apply (stable_with_lists _ m o 1)|]. by split.
  - intros x. rewrite (plus_block_free F (<[o := l ++ [c]]> F) c o) by done. tauto.
Qed.

Lemma pfn_of_page c : phys_to_pfn (c * PAGE_SIZE) = c.
Proof. unfold phys_to_pfn, PAGE_SHIFT. rewrite Z.shiftr_div_pow2 by lia. by apply Z.div_mul. Qed.

(** How far the block at [c] may reach: not into the page array at [A], nor past
    the last frame [P]. *)
Lemma region_limit c e A P : c < e → c < P → ∃ lim,
  (let stop := if (c * 4096 <? A * 4096) && (A * 4096 <? e * 4096) then A * 4096 else e * 4096 in
   if P * 4096 <? stop then P * 4096 else stop) = lim * 4096 ∧
  c < lim ∧ lim ≤ e ∧ lim ≤ P ∧ (c < A → lim ≤ A ∨ e ≤ A).
Proof.
  intros He HP. exists (Z.min (if decide (c < A ∧ A < e) then A else e) P). cbv zeta.
  destruct (decide (c < A ∧ A < e)) as [[]|Hn].
  - rewrite (proj2 (Z.ltb_lt (c * 4096) _)), (proj2 (Z.ltb_lt (A * 4096) _)) by lia. cbn [andb].
    case Z.ltb_spec; lia.
  - destruct ((c * 4096 <? A * 4096) && _) eqn:Eb; [apply andb_true_iff in Eb as [?%Z.ltb_lt ?%Z.ltb_lt]; lia|].
    case Z.ltb_spec; lia.
Qed.

Lemma init_region_spec fuel p F A B P c e :
  pmm_wf p F → 0 < c → 0 < A → 0 < P → A ≤ B → e ≤ 2 ^ 40 → B ≤ 2 ^ 41 →
  (∀ x, c ≤ x < e → is_Some (mem_map p !! x)) → (∀ x, c ≤ x < e → ¬ free_frame F x) →
  Z.max 0 (e - c) + (if decide (c < B) then 1 else 0) < Z.of_nat fuel →
  ∃ p' F', init_region fuel (A * PAGE_SIZE) (B * PAGE_SIZE) (P * PAGE_SIZE) (c * PAGE_SIZE) (e * PAGE_SIZE) p = Done tt p' ∧
    pmm_wf p' F' ∧ stable p p' ∧
    (∀ x, free_frame F' x ↔ free_frame F x ∨ (c ≤ x < e ∧ x < P ∧ ¬ (A ≤ x < B))).
Proof.
  change (2 ^ 40) with 0x10000000000. change (2 ^ 41) with 0x20000000000.
  revert p F c. induction fuel as [|fuel IH]; intros p F c Hwf Hc HA HP HAB He HB Hpg Hfr Hfuel.
  { destruct (decide _); lia. }
  cbn [init_region]. change PAGE_SIZE with 4096 in *.
  case Z.ltb_spec; cbn [negb]; intros H1; cycle 1.
  { exists p, F. split_and!; try done. intros x. split; [tauto|]. intros [?|?]; [done|lia]. }
  case Z.leb_spec; intros H2.
  { exists p, F. split_and!; try done. intros x. split; [tauto|]. intros [?|?]; [done|lia]. }
  destruct (_ && _) eqn:Earr.
  { apply andb_true_iff in Earr as [E1%Z.leb_le E2%Z.ltb_lt].
    destruct (IH p F B) as (p' & F' & E & Hwf' & Hst & Hf); [done|lia..| | | |].
    - intros; apply Hpg; lia.
    - intros; apply Hfr; lia.
    - destruct (decide (c < B)), (decide (B < B)); lia.
    - exists p', F'. split_and!; try done. intros x. rewrite Hf. split; intros [?|?]; try tauto; right; lia. }
  assert (Hout : ¬ (A ≤ c < B)).
  { intros [??]. rewrite (proj2 (Z.leb_le _ _)), (proj2 (Z.ltb_lt _ _)) in Earr by lia. done. }
  destruct (region_limit c e A P) as (lim & Elim & Hlim); [lia..|]. cbv zeta in Elim |- *. rewrite Elim.
  rewrite (wrap64_small (lim * 4096 - c * 4096)) by (unfold U64; lia).
  replace (lim * 4096 - c * 4096) with ((lim - c) * PAGE_SIZE) by (change PAGE_SIZE with 4096; lia).
  change (c * 4096) with (c * PAGE_SIZE).
  change (Z.to_nat MAX_BUDDY_ORDER) with 11%nat.
  destruct (target_order_spec 10 c (lim - c)) as (Ho & Hle & Hal); [lia..|].
  set (o := target_order 11 (c * PAGE_SIZE) ((lim - c) * PAGE_SIZE)) in *.
  pose proof (pow2_pos o ltac:(lia)) as Hpos.
  rewrite pfn_of_page.
  destruct (init_block p F c o) as (p1 & F1 & Erun & Hwf1 & Hst1 & Hf1); [done|split; [split|]|].
  - unfold MAX_BUDDY_ORDER. lia.
  - done.
  - change (2 ^ 40) with 0x10000000000. lia.
  - done.
  - intros x Hx. apply Hpg. unfold in_block in Hx. lia.
  - intros x Hx. apply Hfr. unfold in_block in Hx. lia.
  - rewrite Erun. unfold PAGE_SHIFT. rewrite bit_pow, Z.pow_add_r by lia. change (2 ^ 12) with PAGE_SIZE.
    rewrite (Z.mul_comm PAGE_SIZE), <- Z.mul_add_distr_r.
    change PAGE_SIZE with 4096.
    rewrite wrap64_small by (unfold U64; lia). change 4096 with PAGE_SIZE.
    destruct (IH p1 F1 (c + 2 ^ o)) as (p' & F' & E & Hwf' & Hst & Hf); [done|lia..| | | |].
    + intros x Hx. apply elem_of_dom. rewrite (stable_dom _ _ Hst1). apply elem_of_dom, Hpg. lia.
    + intros x Hx. rewrite Hf1. unfold in_block. intros [?|?]; [|lia]. by apply (Hfr x); [lia|].
    + destruct (decide (c < B)), (decide (c + 2 ^ o < B)); lia.
    + exists p', F'. split_and!; [done|done|by etrans|]. intros x. rewrite Hf, Hf1. unfold in_block.
      split; [intros [[?|?]|?]|intros [?|?]]; try tauto; try (right; lia).
      destruct (decide (x < c + 2 ^ o)); [left; right; lia|right; lia].
Qed.

(** ** The whole map *)

(** No frame lies in two regions of the list. *)
Definition disjoint_regions (es : list mmap_entry) : Prop :=
  ∀ i j e1 e2 x, es !! i = Some e1 → es !! j = Some e2 → in_region e1 x → in_region e2 x → i = j.

Lemma disjoint_regions_cons e es :
  disjoint_regions (e :: es) →
  disjoint_regions es ∧ ∀ e' x, e' ∈ es → in_region e' x → ¬ in_region e x.
Proof.
  intros Hd. split.
  - intros i j e1 e2 x E1 E2 H1 H2. by injection (Hd (S i) (S j) e1 e2 x E1 E2 H1 H2).
  - intros e' x [j Ej]%list_elem_of_lookup H1 H2. by pose proof (Hd O (S j) e e' x eq_refl Ej H2 H1).
Qed.

Lemma in_region_pages e c n x :
  me_type e = MMAP_TYPE_USABLE → region_start e = c * PAGE_SIZE → region_end e = n * PAGE_SIZE →
  in_region e x ↔ c ≤ x < n.
Proof. unfold in_region. intros -> -> ->. change PAGE_SIZE with 4096. lia. Qed.

Lemma kernel_frame_cons e es A B x :
  kernel_frame (e :: es) A B x ↔
  (x < PMM_POOL_START_PFN ∧ ¬ (A ≤ x < B) ∧ in_region e x) ∨ kernel_frame es A B x.
Proof. unfold kernel_frame. setoid_rewrite elem_of_cons. naive_solver. Qed.

Lemma init_regions_spec mi A B es p F :
  map_ok mi → (∀ e, e ∈ es → e ∈ entries mi) → disjoint_regions es →
  0 < A → A ≤ B → B ≤ 2 ^ 41 → pmm_wf p F →
  (∀ x, 0 ≤ x → x * PAGE_SIZE < max_phys_addr mi → is_Some (mem_map p !! x)) →
  (∀ e x, e ∈ es → in_region e x → ¬ free_frame F x) →
  ∃ p' F', init_regions (A * PAGE_SIZE) (B * PAGE_SIZE) (PMM_POOL_START_PFN * PAGE_SIZE) es p = Done tt p' ∧
    pmm_wf p' F' ∧ stable p p' ∧ ∀ x, free_frame F' x ↔ free_frame F x ∨ kernel_frame es A B x.
Proof.
  intros Hmap. revert p F. induction es as [|e es IH]; intros p F Hsub Hdis HA HAB HB Hwf Hpg Hfr.
  { exists p, F. split_and!; try done. intros x. unfold kernel_frame. set_solver. }
  apply disjoint_regions_cons in Hdis as [Hdis Hne]. cbn [init_regions].
  assert (He : e ∈ e :: es) by (apply elem_of_cons; by left).
  assert (Hes : ∀ e', e' ∈ es → e' ∈ e :: es) by (intros; apply elem_of_cons; by right).
  destruct (region_start_page mi e) as (c & Ec & Hc); [done|by apply Hsub|].
  destruct (region_end_page mi e) as (n & En & Hn & Hmax); [done|by apply Hsub|].
  assert (Hn40 : n ≤ 2 ^ 40).
  { destruct Hmap as [Hm _ _]. change (2 ^ 52) with 0x10000000000000 in Hm.
    change (2 ^ 40) with 0x10000000000. change PAGE_SIZE with 4096 in *. lia. }
  case Z.eqb_spec; intros Ht; cycle 1.
  { destruct (IH p F) as (p' & F' & E & Hwf' & Hst & Hf); [set_solver|done..|set_solver|].
    exists p', F'. split_and!; try done. intros x. rewrite Hf, kernel_frame_cons.
    unfold in_region. tauto. }
  destruct (init_region_spec (S (S (Z.to_nat (Z.shiftr (region_end e) PAGE_SHIFT)))) p F A B PMM_POOL_START_PFN c n)
    as (p1 & F1 & E1 & Hwf1 & Hst1 & Hf1); [done|lia|done|done|done|done|done|..].
  - intros x Hx. apply Hpg; [lia|]. change PAGE_SIZE with 4096 in *. lia.
  - intros x Hx. apply (Hfr e); [done|]. by apply (in_region_pages e c n).
  - rewrite En. unfold PAGE_SHIFT. rewrite Z.shiftr_div_pow2 by lia. rewrite Z.div_mul by done.
    destruct (decide (c < B)); lia.
  - destruct (IH p1 F1) as (p' & F' & E & Hwf' & Hst & Hf); [auto|assumption..| | |].
    + intros x H0 Hx. apply elem_of_dom. rewrite (stable_dom _ _ Hst1). by apply elem_of_dom, Hpg.
    + intros e' x He' Hx. rewrite Hf1. intros [H|[H _]].
      * apply (Hfr e' x); auto.
      * apply (Hne e' x He' Hx). by apply (in_region_pages e c n).
    + exists p', F'. split_and!; [|done|by etrans|].
      * rewrite <- Ec, <- En in E1. erewrite bind_done by exact E1. exact E.
      * intros x. rewrite Hf, Hf1, kernel_frame_cons, (in_region_pages e c n) by done. tauto.
Qed.

(** ** The empty allocator *)

Definition no_blocks : gmap Z (list Z) := gset_to_gmap [] (list_to_set orders).

Lemma no_blocks_lookup o l : no_blocks !! o = Some l ↔ 0 ≤ o < MAX_BUDDY_ORDER ∧ l = [].
Proof.
  unfold no_blocks. rewrite lookup_gset_to_gmap_Some, elem_of_list_to_set. unfold orders.
  rewrite elem_of_seqZ. naive_solver.
Qed.

Lemma no_blocks_block b o : ¬ block no_blocks b o.
Proof. intros (l & [_ ->]%no_blocks_lookup & Hl). set_solver. Qed.

Definition order_reset (p : pmm_t) (o : Z) : Prop :=
  free_count p !! o = Some 0 ∧
  links p !! FreeHead o = Some (Link (Some (FreeHead o)) (Some (FreeHead o))).

Lemma init_orders_spec p :
  ∃ p', init_orders p = Done tt p' ∧ free_pages p' = 0 ∧ ∀ o, 0 ≤ o < MAX_BUDDY_ORDER → order_reset p' o.
Proof.
  unfold init_orders. erewrite bind_done; [|done].
  set (body := λ i, _;; _).
  destruct (kfor_inv (Z.to_nat MAX_BUDDY_ORDER) 0 body
    (λ k q, free_pages q = 0 ∧ ∀ o, 0 ≤ o < k → order_reset q o) (set_free_pages 0 p))
    as (p' & E & Hp & Ho).
  - split; [done|]. intros o ?. lia.
  - intros j q Hj [Hp Ho]. eexists. split; [reflexivity|]. simpl. split; [done|].
    intros o Hoj. unfold order_reset, list_init. simpl.
    destruct (decide (o = j)) as [->|]; [by rewrite !lookup_insert_eq|].
    rewrite !lookup_insert_ne by naive_solver. apply Ho. lia.
  - by exists p'.
Qed.

Lemma zero_pages_lookup n x pg : zero_pages n !! x = Some pg ↔ 0 ≤ x < n ∧ pg = Page false 0.
Proof.
  unfold zero_pages. rewrite <- elem_of_list_to_map.
  - rewrite list_elem_of_fmap. setoid_rewrite elem_of_seqZ. naive_solver lia.
  - rewrite <- list_fmap_compose. apply NoDup_fmap_2; [by intros ?? [=]|]. apply NoDup_seqZ.
Qed.

Lemma zero_nodes_head n m o : zero_nodes n m !! FreeHead o = m !! FreeHead o.
Proof.
  unfold zero_nodes. apply lookup_union_r, not_elem_of_list_to_map.
  rewrite <- list_fmap_compose. intros (i & [=] & _)%list_elem_of_fmap.
Qed.

Lemma zero_nodes_page n m x : 0 ≤ x < n → is_Some (zero_nodes n m !! PageNode x).
Proof.
  intros Hx. unfold zero_nodes. apply elem_of_dom. rewrite dom_union_L. apply elem_of_union_l.
  rewrite dom_list_to_map_L, elem_of_list_to_set, <- list_fmap_compose.
  apply list_elem_of_fmap. exists x. split; [done|]. apply elem_of_seqZ. lia.
Qed.

Lemma no_blocks_frames : frames_in no_blocks = 0.
Proof. reflexivity. Qed.

(** After the reset, with the array zeroed, no frame is free. *)
Lemma empty_wf p n a sz tot :
  (∀ o, 0 ≤ o < MAX_BUDDY_ORDER → order_reset p o) →
  pmm_wf (Pmm (zero_nodes n (links p)) (free_count p) (zero_pages n) a sz tot 0) no_blocks.
Proof.
  intros Hreset. split; [split; simpl|by rewrite no_blocks_frames].
  - assert (Hh : ∀ h xs, freelists no_blocks !! h = Some xs → ∃ o, h = FreeHead o ∧ 0 ≤ o < MAX_BUDDY_ORDER ∧ xs = []).
    { intros h xs (o & l & -> & [Ho ->]%no_blocks_lookup & ->)%freelists_lookup_Some. by exists o. }
    split.
    + intros h xs (o & -> & Ho & ->)%Hh. destruct (Hreset o Ho) as [_ El].
      split; [apply NoDup_singleton|]. simpl. unfold hop, next_of, prev_of.
      rewrite zero_nodes_head, El. done.
    + intros h1 h2 xs1 xs2 a' (o1 & -> & _ & ->)%Hh (o2 & -> & _ & ->)%Hh. set_solver.
  - intros o. split.
    + intros [l [? _]%no_blocks_lookup]. done.
    + intros Ho. exists []. by apply no_blocks_lookup.
  - intros b o Hb. by apply no_blocks_block in Hb.
  - intros b1 o1 b2 o2 x Hb. by apply no_blocks_block in Hb.
  - intros x pg [_ ->]%zero_pages_lookup _. split; [done|]. intros [o Hb]. by apply no_blocks_block in Hb.
  - done.
  - intros x [pg [Hx _]%zero_pages_lookup]. by apply zero_nodes_page.
  - intros o l [Ho ->]%no_blocks_lookup. by apply Hreset.
Qed.

Lemma find_array_spec mi size es :
  map_ok mi → (∀ e, e ∈ es → e ∈ entries mi) →
  find_array size es = 0 ∨ ∃ A, find_array size es = A * PAGE_SIZE ∧ 256 ≤ A ≤ 2 ^ 40.
Proof.
  intros Hmap. induction es as [|e es IH]; intros Hsub; [by left|]. simpl.
  assert (Hes : ∀ e', e' ∈ es → e' ∈ entries mi) by (intros; apply Hsub, elem_of_cons; by right).
  destruct (_ =? _); [|by apply IH]. destruct (_ && _); [|by apply IH].
  right. apply (region_start_page mi); [done|]. apply Hsub, elem_of_cons. by left.
Qed.

Lemma page_count_spec mi : map_ok mi →
  max_phys_addr mi ≤ page_count mi * PAGE_SIZE ∧ 0 ≤ page_count mi ≤ 0x10000000000.
Proof.
  intros [Hmax _ _]. change (2 ^ 52) with 0x10000000000000 in Hmax. unfold page_count.
  rewrite ALIGN_UP_page by (unfold U64; change PAGE_SIZE with 4096; lia).
  rewrite (Z.mul_comm PAGE_SIZE), Z.div_mul by done. change PAGE_SIZE with 4096. mlia.
Qed.

Lemma array_bytes_spec mi : map_ok mi →
  ∃ k, array_bytes mi = k * PAGE_SIZE ∧ page_count mi * SIZEOF_PAGE_T ≤ array_bytes mi ∧
       0 ≤ k ≤ 0x200000000.
Proof.
  intros [_ Hc]%page_count_spec. unfold array_bytes, SIZEOF_PAGE_T.
  rewrite wrap64_small by (unfold U64; lia).
  rewrite ALIGN_UP_page by (unfold U64; change PAGE_SIZE with 4096; lia).
  change PAGE_SIZE with 4096. eexists. split; [apply Z.mul_comm|]. mlia.
Qed.

(** The page array placed at [A]: the regions are cut up. *)
Lemma pmm_init_done mi p A :
  map_ok mi → find_array (array_bytes mi) (entries mi) = A * PAGE_SIZE → 256 ≤ A ≤ 2 ^ 40 →
  ∃ p' F B, pmm_init mi p = Done 0 p' ∧ pmm_wf p' F ∧ array_bytes mi = (B - A) * PAGE_SIZE ∧
    mem_map_phys p' = A * PAGE_SIZE ∧ mem_map_size p' = array_bytes mi ∧
    ∀ x, free_frame F x ↔ kernel_frame (entries mi) A B x.
Proof.
  intros Hmap EA HA. destruct (page_count_spec mi Hmap) as [Hmax Hcnt].
  destruct (array_bytes_spec mi Hmap) as (k & Ek & Hk & Hk2).
  destruct (init_orders_spec p) as (p1 & E1 & Hp1 & Hreset).
  unfold pmm_init. erewrite bind_done by done. cbv zeta. erewrite bind_done; [|done].
  change (2 ^ 40) with 0x10000000000 in HA. change PAGE_SIZE with 4096 in *.
  rewrite EA, (proj2 (Z.eqb_neq (A * 4096) 0)) by lia.
  erewrite bind_done; [|done]. cbn [links free_count free_pages total_pages]. rewrite Hp1.
  destruct (init_regions_spec mi A (A + k) (entries mi)
    (Pmm (zero_nodes (array_bytes mi / SIZEOF_PAGE_T) (links p1)) (free_count p1)
      (zero_pages (array_bytes mi / SIZEOF_PAGE_T)) (A * 4096) (array_bytes mi) (page_count mi) 0) no_blocks)
    as (p' & F & E & Hwf & Hst & Hf); [done|by intros|exact (mo_disjoint _ Hmap)|lia|lia| |by apply empty_wf| |..].
  - change (2 ^ 41) with 0x20000000000. lia.
  - intros x Hx0 Hx. simpl. eexists. apply zero_pages_lookup. split; [|done].
    change PAGE_SIZE with 4096 in Hx. unfold SIZEOF_PAGE_T in *. split; [done|].
    apply Z.lt_le_trans with (page_count mi); [lia|]. apply Z.div_le_lower_bound; lia.
  - intros e x _ _ (b & o & Hb & _). by apply no_blocks_block in Hb.
  - exists p', F, (A + k). split_and!; try done; [|lia|apply Hst..|].
    + change PAGE_SIZE with 4096 in E.
      replace (wrap64 (A * 4096 + array_bytes mi)) with ((A + k) * 4096)
        by (rewrite wrap64_small by (unfold U64; lia); lia).
      change (pfn_to_phys PMM_POOL_START_PFN) with (PMM_POOL_START_PFN * 4096).
      erewrite bind_done by exact E. done.
    + intros x. rewrite Hf. split; [|by right]. intros [(b & o & Hb & _)|?]; [|done].
      by apply no_blocks_block in Hb.
Qed.


(** ** Examples: a machine with eight free pages above 1 MiB *)

Definition pmm_zero : pmm_t := Pmm ∅ ∅ ∅ 0 0 0 0.
Definition demo_map : mmap_info := MmapInfo 0x108000 [MmapEntry 0x100000 0x8000 MMAP_TYPE_USABLE].

Lemma demo_map_ok : map_ok demo_map.
Proof.
  split; [done| |].
  - intros e He. simpl in He. apply list_elem_of_singleton in He as ->. done.
  - intros i j e1 e2 x E1 E2 _ _. destruct i, j; by simplify_eq/=.
Qed.


(** The state [pmm_init] builds for [demo_map], and the one after one
    allocation of a single page. *)
Definition demo : pmm_t := state_of pmm_zero (pmm_init demo_map pmm_zero).
Definition demo1 : pmm_t := state_of pmm_zero (alloc_scan 11 0 0 demo).

Lemma demo_wf : ∃ F, pmm_wf demo F ∧ ∀ x, free_frame F x ↔ 0x102 ≤ x < 0x108.
Proof.
  destruct (pmm_init_done demo_map pmm_zero 0x100 demo_map_ok) as (p' & F & B & E & Hwf & HB & _ & _ & Hf);
    [done|done|].
  exists F. unfold demo. rewrite E. split; [done|]. intros x. rewrite Hf.
  assert (B = 0x102) as ->.
  { change (array_bytes demo_map) with 8192 in HB. change PAGE_SIZE with 4096 in HB. lia. }
  change (entries demo_map) with ([MmapEntry 0x100000 0x8000 MMAP_TYPE_USABLE]).
  unfold kernel_frame, PMM_POOL_START_PFN. split.
  - intros (_ & Hn & e & ->%list_elem_of_singleton & _ & Hs & He).
    change (0x100000 ≤ x * 4096) in Hs. change ((x + 1) * 4096 ≤ 0x108000) in He. lia.
  - intros Hx. split_and!; [lia|lia|]. eexists. split; [by apply list_elem_of_singleton|].
    split; [done|]. split.
    + change (0x100000 ≤ x * 4096). lia.
    + change ((x + 1) * 4096 ≤ 0x108000). lia.
Qed.

#[local] Opaque demo.

Lemma pmm_alloc_pages_spec_witness :
  let s := PmmSt demo SPINLOCK_INITIALIZER true in
  ∃ F b p', pmm_wf demo F ∧ pmm_alloc_pages 1 s = Done (pfn_to_phys b) p' ∧ b mod 2 = 0 ∧
    ∀ x, in_block b 1 x → free_frame F x.
Proof.
  destruct demo_wf as (F & Hwf & Hf).
  destruct (pmm_alloc_pages_spec (PmmSt demo SPINLOCK_INITIALIZER true) F 1 Hwf)
    as [[E _]|(b & p' & F' & E & _ & _ & Hal & _ & _ & Hin & _)]; [done|done| |].
  - assert (H : value_of (pmm_alloc_pages 1 (PmmSt demo SPINLOCK_INITIALIZER true)) = Some 0x102000)
      by (vm_compute; reflexivity).
    rewrite E in H. discriminate H.
  - exists F, b. eexists. split_and!; [done|exact E|exact Hal|exact Hin].
Defined.

Lemma demo1_wf : ∃ F, pmm_wf demo1 F ∧ ∀ x, free_frame F x ↔ 0x103 ≤ x < 0x108.
Proof.
  destruct demo_wf as (F & Hwf & Hf).
  assert (H1 : value_of (alloc_scan 11 0 0 demo) = Some 0x102000) by (vm_compute; reflexivity).
  destruct (alloc_scan_spec 11 demo F 0 0 Hwf) as [[E _]|(b & p' & F' & E & Hwf' & Hb & _ & Hf' & _)];
    [lia|reflexivity| |].
  - rewrite E in H1. discriminate H1.
  - rewrite E in H1. injection H1 as Eb. exists F'. unfold demo1. rewrite E. split; [exact Hwf'|].
    assert (b = 0x102) as ->.
    { destruct Hb as [_ ? Hb _ _]. change (2 ^ 0) with 1 in Hb. change (2 ^ 40) with 0x10000000000 in Hb.
      unfold pfn_to_phys, PAGE_SHIFT in Eb. rewrite Z.shiftl_mul_pow2 in Eb by lia. change (2 ^ 12) with 4096 in Eb.
      rewrite wrap64_small in Eb by (unfold U64; lia). lia. }
    intros x. rewrite Hf', Hf. unfold in_block. lia.
Qed.

#[local] Opaque demo1.

Lemma page_flag p x b :
  is_free <$> mem_map p !! x = Some b → ∃ pg, mem_map p !! x = Some pg ∧ b = is_free pg.
Proof. intros (pg & E & Hb)%fmap_Some. by exists pg. Qed.

(** Returning that page merges it with its free neighbour. *)
Lemma demo1_detached F :
  pmm_wf demo1 F → (∀ x, free_frame F x ↔ 0x103 ≤ x < 0x108) →
  detached demo1 F 0x102 0 ∧ merge_safe 10 demo1 F 0x102 0.
Proof.
  intros [Hinv _] Hf.
  destruct (page_flag demo1 0x102 false) as (g2 & E2 & _); [vm_compute; reflexivity|].
  destruct (page_flag demo1 0x103 true) as (g3 & E3 & _); [vm_compute; reflexivity|].
  destruct (page_flag demo1 0x100 false) as (g0 & E0 & F0); [vm_compute; reflexivity|].
  revert Hinv. generalize dependent demo1. intros p1 E2 E3 E0 Hinv.
  split; [split; [split; try done|]|].
  - intros x Hx. unfold in_block in Hx. change (2 ^ 0) with 1 in Hx.
    assert (x = 0x102) as -> by lia. by rewrite E2.
  - intros x Hx. rewrite Hf. unfold in_block in Hx. change (2 ^ 0) with 1 in Hx. lia.
  - cbn [merge_safe]. change (Z.lxor 0x102 (bit 0)) with 0x103.
    change (Z.land 0x102 0x103) with 0x102. change (Z.lxor 0x102 (bit (0 + 1))) with 0x100.
    split; [by rewrite E3|]. intros [k Hk]. split.
    + pose proof (inv_blocks _ _ _ Hinv _ _ Hk) as [Hr _ _ Ha _].
      destruct (decide (k = 0)) as [->|]; [done|]. exfalso.
      assert (2 ^ k = 2 * 2 ^ (k - 1)) as E by (rewrite <- Z.pow_succ_r by lia; f_equal; lia).
      rewrite E in Ha. pose proof (pow2_pos (k - 1) ltac:(lia)).
      assert (0x103 mod 2 = 0); [|done]. rewrite Z.mod_divide in Ha by lia.
      apply Z.mod_divide; [done|]. etrans; [apply Z.divide_factor_l|exact Ha].
    + split; [by rewrite E0|]. intros Hb. apply (inv_is_free _ _ _ Hinv _ _ E0) in Hb; [|done]. congruence.
Qed.

Lemma pmm_free_pages_spec_witness :
  ∃ F p' F', pmm_wf demo1 F ∧ pmm_wf p' F' ∧
    pmm_free_pages 0x102000 0 (PmmSt demo1 SPINLOCK_INITIALIZER true) =
      Done tt (PmmSt p' (bump SPINLOCK_INITIALIZER) true) ∧
    ∀ x, free_frame F' x ↔ 0x102 ≤ x < 0x108.
Proof.
  destruct demo1_wf as (F & Hwf & Hf). destruct (demo1_detached F Hwf Hf) as [Hdet Hsafe].
  destruct (pmm_free_pages_spec (PmmSt demo1 SPINLOCK_INITIALIZER true) F 0x102 0 Hwf)
    as (p' & F' & E & Hwf' & _ & Hf' & _); [reflexivity|exact Hdet|exact Hsafe|].
  exists F, p', F'. split; [exact Hwf|]. split; [exact Hwf'|]. split; [exact E|]. intros x. rewrite Hf', Hf.
  unfold in_block. change (2 ^ 0) with 1. lia.
Defined.

(** Six single pages are taken, three are given back, and a block of four is
    allocated. *)
Definition double_alloc : K pmm_st (Z * Z) :=
  pmm_alloc_pages 0;; pmm_alloc_pages 0;; pmm_alloc_pages 0;;
  pmm_alloc_pages 0;; pmm_alloc_pages 0;;
  last ← pmm_alloc_pages 0;
  pmm_free_pages 0x106000 0;; pmm_free_pages 0x104000 0;; pmm_free_pages 0x105000 0;;
  r ← pmm_alloc_pages 2;
  mret (last, r).

