(* ===== verification/PageAlloc.v ===== *)
(** * What the page allocator promises to the rest of the kernel

    [PageAllocator] is the interface the page tables (Pmap.v) are verified
    against: the two calls, a predicate "the allocator is consistent and its
    free frames are exactly [P]", and the laws of the calls.  The buddy
    allocator of Pmm.v implements it. *)

From S2P Require Export Pmm.

Class PageAllocator (T : Type) := {
  pa_alloc : Z → K T Z;          (* pmm_alloc_pages *)
  pa_free : Z → Z → K T unit;    (* pmm_free_pages *)

  (** The state is consistent, with free frames [P]. *)
  pa_inv : T → (Z → Prop) → Prop;
  (** Returning the block of order [o] at frame [b] is legitimate. *)
  pa_free_ok : T → (Z → Prop) → Z → Z → Prop;

  pa_inv_ext t P Q : (∀ x, P x ↔ Q x) → pa_inv t P → pa_inv t Q;
  pa_alloc_spec t P o :
    pa_inv t P → 0 ≤ o < MAX_BUDDY_ORDER →
    (∃ t', pa_alloc o t = Done 0 t' ∧ pa_inv t' P) ∨
    (∃ b t', pa_alloc o t = Done (b * PAGE_SIZE) t' ∧ 0 < b ∧ b + 2 ^ o ≤ 2 ^ 40 ∧
       (∀ x, in_block b o x → P x) ∧ pa_inv t' (λ x, P x ∧ ¬ in_block b o x));
  pa_free_spec t P b o :
    pa_free_ok t P b o →
    ∃ t', pa_free (b * PAGE_SIZE) o t = Done tt t' ∧ pa_inv t' (λ x, P x ∨ in_block b o x);
}.

(** ** The buddy allocator implements it *)

Definition buddy_inv (s : pmm_st) (P : Z → Prop) : Prop :=
  lock_free (g_pmm_lock s) ∧ ∃ F, pmm_wf (g_pmm s) F ∧ ∀ x, P x ↔ free_frame F x.

Definition buddy_free_ok (s : pmm_st) (P : Z → Prop) (b o : Z) : Prop :=
  lock_free (g_pmm_lock s) ∧ ∃ F, pmm_wf (g_pmm s) F ∧ (∀ x, P x ↔ free_frame F x) ∧
  detached (g_pmm s) F b o ∧
  merge_safe (Z.to_nat (MAX_BUDDY_ORDER - 1 - o)) (g_pmm s) F b o.

Lemma buddy_alloc_spec s P o :
  buddy_inv s P → 0 ≤ o < MAX_BUDDY_ORDER →
  (∃ s', pmm_alloc_pages o s = Done 0 s' ∧ buddy_inv s' P) ∨
  (∃ b s', pmm_alloc_pages o s = Done (b * PAGE_SIZE) s' ∧ 0 < b ∧ b + 2 ^ o ≤ 2 ^ 40 ∧
     (∀ x, in_block b o x → P x) ∧ buddy_inv s' (λ x, P x ∧ ¬ in_block b o x)).
Proof.
  intros [Hlk (F & Hwf & HP)] Ho.
  destruct (alloc_scan_spec (Z.to_nat (MAX_BUDDY_ORDER - o)) (g_pmm s) F o o Hwf)
    as [[E _]|(b & p' & F' & E & Hwf' & Hok & Hin & Hf & _)]; [lia|lia|left|right].
  - eexists. split; [by apply pmm_alloc_run|]. split; [by apply bump_free|]. by exists F.
  - exists b. eexists. rewrite <- (block_ok_phys _ _ _ Hok).
    split_and!; [by apply pmm_alloc_run|apply Hok..| |].
    + intros x Hx. apply HP, Hin, Hx.
    + split; [by apply bump_free|]. exists F'. split; [done|]. intros x. rewrite HP. symmetry. apply Hf.
Qed.

Lemma buddy_free_spec s P b o :
  buddy_free_ok s P b o →
  ∃ s', pmm_free_pages (b * PAGE_SIZE) o s = Done tt s' ∧ buddy_inv s' (λ x, P x ∨ in_block b o x).
Proof.
  intros (Hlk & F & Hwf & HP & Hdet & Hsafe).
  destruct (free_block_spec (g_pmm s) F b o Hwf Hdet Hsafe) as (p' & F' & E & Hwf' & Hf & _).
  eexists. rewrite <- (block_ok_phys (g_pmm s) b o) by apply Hdet.
  split; [apply pmm_free_run; [done|apply Hdet|done]|].
  split; [by apply bump_free|]. exists F'. split; [done|]. intros x. rewrite HP. symmetry. apply Hf.
Qed.

#[export] Instance buddy_allocator : PageAllocator pmm_st.
Proof.
  refine {| pa_alloc := pmm_alloc_pages; pa_free := pmm_free_pages;
            pa_inv := buddy_inv; pa_free_ok := buddy_free_ok;
            pa_alloc_spec := buddy_alloc_spec; pa_free_spec := buddy_free_spec |}.
  intros s P Q HPQ (Hlk & F & Hwf & HP). split; [done|]. exists F. split; [done|].
  intros x. by rewrite <- HPQ.
Defined.
