(* ===== verification/Pmap.v ===== *)
(** * Address spaces: four-level page tables (kernel/arch/x86_64/pmap.c)

    Physical memory is a store of 64-bit words by physical address; the
    kernel reaches a table through its [HHDM_OFFSET] alias.  Pages come from
    any [PageAllocator].  [invlpg] and the global flush are recorded in a log
    of TLB invalidations. *)

From S2P Require Export PageAlloc.

(** ** Bits and indices *)

Definition PROT_READ : Z := 0x01.
Definition PROT_WRITE : Z := 0x02.
Definition PROT_EXEC : Z := 0x04.
Definition PROT_USER : Z := 0x08.
Definition PROT_WC : Z := 0x10.
Definition PROT_GLOBAL : Z := 0x20.
Definition PROT_HUGE : Z := 0x40.

Definition PML4_INDEX (va : Z) : Z := Z.land (Z.shiftr va 39) 0x1FF.
Definition PDPT_INDEX (va : Z) : Z := Z.land (Z.shiftr va 30) 0x1FF.
Definition PD_INDEX (va : Z) : Z := Z.land (Z.shiftr va 21) 0x1FF.
Definition PT_INDEX (va : Z) : Z := Z.land (Z.shiftr va 12) 0x1FF.

Definition PTE_ADDR_MASK : Z := 0x000FFFFFFFFFF000.
Definition PD_ADDR_MASK : Z := 0x000FFFFFFFE00000.
Definition PTE_PRESENT : Z := bit 0.
Definition PTE_WRITABLE : Z := bit 1.
Definition PTE_USER : Z := bit 2.
Definition PTE_PAT : Z := bit 7.
Definition PTE_GLOBAL : Z := bit 8.
Definition PTE_NX : Z := bit 63.
Definition PDE_HUGE : Z := bit 7.
Definition PDE_PAT : Z := bit 12.

(** ** State *)

(** [NULL], [&g_kernel_pmap] and the pmaps that [kmalloc] returned. *)
Inductive pmap_ref := PmapNull | PmapKernel | PmapAt (addr : Z).
#[export] Instance pmap_ref_eq_dec : EqDecision pmap_ref.
Proof. solve_decision. Defined.
#[export] Instance pmap_ref_countable : Countable pmap_ref.
Proof.
  apply (inj_countable' (λ r, match r with PmapNull => inl false | PmapKernel => inl true | PmapAt a => inr a end)
    (λ s, match s with inl false => PmapNull | inl true => PmapKernel | inr a => PmapAt a end)).
  by intros [].
Defined.

Record pmap_t := Pmap { pm_root_virt : Z; pm_root_phys : Z; pm_lock : spinlock }.

(** The nodes of the grant lists: [pmap->grant_list] and [grant_entry.node]. *)
Inductive gnode := GrantList (pm : pmap_ref) | GrantNode (entry : Z).
#[export] Instance gnode_eq_dec : EqDecision gnode.
Proof. solve_decision. Defined.
#[export] Instance gnode_countable : Countable gnode.
Proof.
  apply (inj_countable' (λ n, match n with GrantList p => inl p | GrantNode e => inr e end)
    (λ s, match s with inl p => GrantList p | inr e => GrantNode e end)). by intros [].
Defined.

(** A TLB invalidation: one address of the current address space, or all. *)
Inductive flush := FlushPage (va : Z) | FlushAll.

Record pstate (T : Type) := PState {
  ps_pages : T;
  ps_mem : gmap Z Z;
  ps_cr3 : Z;
  ps_irq : bool;
  ps_tlb : list flush;
  ps_pmaps : gmap pmap_ref pmap_t;
  ps_glinks : gmap gnode (link gnode);
}.
Arguments PState {T} _ _ _ _ _ _ _.
Arguments ps_pages {T} _.
Arguments ps_mem {T} _.
Arguments ps_cr3 {T} _.
Arguments ps_irq {T} _.
Arguments ps_tlb {T} _.
Arguments ps_pmaps {T} _.
Arguments ps_glinks {T} _.

(** The word of physical memory at [a]. *)
Definition rd (m : gmap Z Z) (a : Z) : Z := default 0 (m !! a).

(** [memset(page, 0, PAGE_SIZE)] on the page at physical address [a]. *)
Definition zero_page (a : Z) (m : gmap Z Z) : gmap Z Z :=
  foldr (λ i m, <[a + 8 * i := 0]> m) m (seqZ 0 512).

Section pmap.
Context {T : Type} `{!PageAllocator T}.
Implicit Types (s : pstate T).

Definition set_pages (t : T) s := PState t (ps_mem s) (ps_cr3 s) (ps_irq s) (ps_tlb s) (ps_pmaps s) (ps_glinks s).
Definition set_mem (m : gmap Z Z) s := PState (ps_pages s) m (ps_cr3 s) (ps_irq s) (ps_tlb s) (ps_pmaps s) (ps_glinks s).
Definition set_cr3 (v : Z) s := PState (ps_pages s) (ps_mem s) v (ps_irq s) (ps_tlb s) (ps_pmaps s) (ps_glinks s).
Definition set_irq (v : bool) s := PState (ps_pages s) (ps_mem s) (ps_cr3 s) v (ps_tlb s) (ps_pmaps s) (ps_glinks s).
Definition set_tlb (l : list flush) s := PState (ps_pages s) (ps_mem s) (ps_cr3 s) (ps_irq s) l (ps_pmaps s) (ps_glinks s).
Definition set_pmaps (ps : gmap pmap_ref pmap_t) s := PState (ps_pages s) (ps_mem s) (ps_cr3 s) (ps_irq s) (ps_tlb s) ps (ps_glinks s).
Definition set_glinks (g : gmap gnode (link gnode)) s := PState (ps_pages s) (ps_mem s) (ps_cr3 s) (ps_irq s) (ps_tlb s) (ps_pmaps s) g.

Definition on_pages {A} : K T A → K (pstate T) A := klift ps_pages set_pages.

(** [table[idx]], where [table] is an HHDM address. *)
Definition get_entry (table idx : Z) : K (pstate T) Z :=
  kget (λ s, rd (ps_mem s) (virt_to_phys table + 8 * idx)).
Definition set_entry (table idx e : Z) : K (pstate T) unit :=
  kmodify (λ s, set_mem (<[virt_to_phys table + 8 * idx := e]> (ps_mem s)) s).
Definition memset_page (virt : Z) : K (pstate T) unit :=
  kmodify (λ s, set_mem (zero_page (virt_to_phys virt) (ps_mem s)) s).

(** [*pmap]: undefined behaviour on a dangling or null pointer. *)
Definition the_pmap (p : pmap_ref) : K (pstate T) pmap_t := kread (λ s, ps_pmaps s !! p).
Definition on_pmap_lock {A} (p : pmap_ref) (op : K (bool * spinlock) A) : K (pstate T) A :=
  pm ← the_pmap p;
  klift (λ s, (ps_irq s, pm_lock pm))
    (λ '(fl, l) s, set_irq fl (set_pmaps (<[p := Pmap (pm_root_virt pm) (pm_root_phys pm) l]> (ps_pmaps s)) s)) op.

Definition read_cr3 : K (pstate T) Z := kget ps_cr3.
Definition write_cr3 (phys : Z) : K (pstate T) unit :=
  kmodify (λ s, set_tlb (FlushAll :: ps_tlb s) (set_cr3 phys s)).
Definition flush_tlb (virt : Z) : K (pstate T) unit := kmodify (λ s, set_tlb (FlushPage virt :: ps_tlb s) s).
Definition flush_tlb_all : K (pstate T) unit := kmodify (λ s, set_tlb (FlushAll :: ps_tlb s) s).

(** ** Tables *)

Definition present (e : Z) : bool := has_flag e PTE_PRESENT.
Definition huge (e : Z) : bool := has_flag e PDE_HUGE.

(** The entry of a table below. *)
Definition table_entry (phys : Z) : Z := Z.lor (Z.lor (Z.lor phys PTE_PRESENT) PTE_WRITABLE) PTE_USER.

(** [for (i = 0; i < 512; i++) if (table[i] & PTE_PRESENT) return false;]. *)
Fixpoint table_empty_from (n : nat) (table i : Z) : K (pstate T) bool :=
  match n with
  | O => mret true
  | S n' =>
      e ← get_entry table i;
      if present e then mret false else table_empty_from n' table (i + 1)
  end.
Definition is_table_empty (table : Z) : K (pstate T) bool := table_empty_from 512 table 0.

(** The step [map_page] makes at each level: allocate, clear and enter a table
    when the entry is not present, then follow it; [None] is [return -1]. *)
Definition next_table (table idx : Z) : K (pstate T) (option Z) :=
  e ← get_entry table idx;
  ok ← (if present e then mret true else
        phys ← on_pages (pa_alloc 0);
        if phys =? 0 then mret false else
        memset_page (phys_to_virt phys);;
        set_entry table idx (table_entry phys);;
        mret true);
  if (ok : bool) then
    e ← get_entry table idx;
    mret (Some (phys_to_virt (Z.land e PTE_ADDR_MASK)))
  else mret None.

Definition pte_flags (flags : Z) : Z :=
  let f := PTE_PRESENT in
  let f := if has_flag flags PROT_WRITE then Z.lor f PTE_WRITABLE else f in
  let f := if has_flag flags PROT_USER then Z.lor f PTE_USER else f in
  let f := if has_flag flags PROT_GLOBAL then Z.lor f PTE_GLOBAL else f in
  if negb (has_flag flags PROT_EXEC) then Z.lor f PTE_NX else f.

(** The entries written for a huge and for a normal page. *)
Definition huge_entry (pa flags : Z) : Z :=
  let f := Z.lor (pte_flags flags) PDE_HUGE in
  let f := if has_flag flags PROT_WC then Z.lor f PDE_PAT else f in
  Z.lor (Z.land pa PD_ADDR_MASK) f.
Definition page_entry (pa flags : Z) : Z :=
  let f := pte_flags flags in
  let f := if has_flag flags PROT_WC then Z.lor f PTE_PAT else f in
  Z.lor (Z.land pa PTE_ADDR_MASK) f.

Definition pmap_map_page (pm : pmap_t) (va pa flags : Z) : K (pstate T) Z :=
  let pml4 := pm_root_virt pm in
  r ← next_table pml4 (PML4_INDEX va);
  match r with None => mret (-1) | Some pdpt =>
  r ← next_table pdpt (PDPT_INDEX va);
  match r with None => mret (-1) | Some pd =>
  if has_flag flags PROT_HUGE then
    let idx := PD_INDEX va in
    e ← get_entry pd idx;
    (if present e && negb (huge e) then on_pages (pa_free (Z.land e PTE_ADDR_MASK) 0) else mret tt);;
    set_entry pd idx (huge_entry pa flags);;
    mret 0
  else
    r ← next_table pd (PD_INDEX va);
    match r with None => mret (-1) | Some pt =>
    set_entry pt (PT_INDEX va) (page_entry pa flags);;
    mret 0
    end
  end end.

(** [if (read_cr3() == pmap->pm_root_phys) f]. *)
Definition when_active (pm : pmap_t) (f : K (pstate T) unit) : K (pstate T) unit :=
  cr3 ← read_cr3;
  if cr3 =? pm_root_phys pm then f else mret tt.

(** Freeing a table that is empty and clearing the entry that points to it. *)
Definition teardown (table idx : Z) : K (pstate T) unit :=
  e ← get_entry table idx;
  on_pages (pa_free (Z.land e PTE_ADDR_MASK) 0);;
  set_entry table idx 0.

(** Returns the step and the new value of [*freed]. *)
Definition pmap_unmap_page (pm : pmap_t) (va : Z) (freed : bool) : K (pstate T) (Z * bool) :=
  let pml4 := pm_root_virt pm in
  let l4 := PML4_INDEX va in
  e4 ← get_entry pml4 l4;
  if negb (present e4) then mret (PAGE_SIZE, freed) else
  let pdpt := phys_to_virt (Z.land e4 PTE_ADDR_MASK) in
  let l3 := PDPT_INDEX va in
  e3 ← get_entry pdpt l3;
  if negb (present e3) || huge e3 then mret (PAGE_SIZE, freed) else
  let pd := phys_to_virt (Z.land e3 PTE_ADDR_MASK) in
  let l2 := PD_INDEX va in
  e2 ← get_entry pd l2;
  if negb (present e2) then mret (PAGE_SIZE, freed) else
  if huge e2 then
    set_entry pd l2 0;;
    when_active pm (flush_tlb va);;
    mret (PAGE_SIZE_HUGE, freed)
  else
  let pt := phys_to_virt (Z.land e2 PTE_ADDR_MASK) in
  let l1 := PT_INDEX va in
  e1 ← get_entry pt l1;
  if negb (present e1) then mret (PAGE_SIZE, freed) else
  set_entry pt l1 0;;
  when_active pm (flush_tlb va);;
  empty ← is_table_empty pt;
  if negb empty then mret (PAGE_SIZE, freed) else
  teardown pd l2;;
  empty ← is_table_empty pd;
  (if negb empty then mret tt else
   teardown pdpt l3;;
   empty ← is_table_empty pdpt;
   if negb empty then mret tt else teardown pml4 l4);;
  mret (PAGE_SIZE, true).

(** ** Ranges *)

(** [for (va = va_start; va < va_end; va += step, pa += step)].  The range has
    at most [fuel] steps unless [va + step] wraps around, and then the C loop
    starts over from address 0. *)
Fixpoint map_range (fuel : nat) (pm : pmap_t) (va va_end pa step flags : Z) : K (pstate T) Z :=
  match fuel with
  | O => kspin
  | S fuel' =>
      if negb (va <? va_end) then mret 0 else
      err ← pmap_map_page pm va pa flags;
      if negb (err =? 0) then mret err else
      map_range fuel' pm (wrap64 (va + step)) va_end (wrap64 (pa + step)) step flags
  end.

Definition range_fuel (va va_end step : Z) : nat := S (Z.to_nat ((va_end - va) / step)).

Definition pmap_map (p : pmap_ref) (virt phys size flags : Z) : K (pstate T) Z :=
  if bool_decide (p = PmapNull) || (size =? 0) then mret (-1) else
  f ← on_pmap_lock p spin_lock_irqsave;
  pm ← the_pmap p;
  let step := if has_flag flags PROT_HUGE then PAGE_SIZE_HUGE else PAGE_SIZE in
  let mask := step - 1 in
  let va_start := Z.land virt (bnot64 mask) in
  let va_end := Z.land (wrap64 (virt + size + mask)) (bnot64 mask) in
  let pa := Z.land phys (bnot64 mask) in
  err ← map_range (range_fuel va_start va_end step) pm va_start va_end pa step flags;
  if negb (err =? 0) then on_pmap_lock p (spin_unlock_irqrestore f);; mret err else
  when_active pm flush_tlb_all;;
  on_pmap_lock p (spin_unlock_irqrestore f);;
  mret 0.

Fixpoint unmap_range (fuel : nat) (pm : pmap_t) (va va_end : Z) (freed : bool) : K (pstate T) bool :=
  match fuel with
  | O => kspin
  | S fuel' =>
      if negb (va <? va_end) then mret freed else
      '(step, freed) ← pmap_unmap_page pm va freed;
      unmap_range fuel' pm (wrap64 (va + step)) va_end freed
  end.

Definition pmap_unmap (p : pmap_ref) (virt size : Z) : K (pstate T) unit :=
  if bool_decide (p = PmapNull) || (size =? 0) then mret tt else
  f ← on_pmap_lock p spin_lock_irqsave;
  pm ← the_pmap p;
  let va_start := Z.land virt (bnot64 0xFFF) in
  let va_end := Z.land (wrap64 (virt + size + 0xFFF)) (bnot64 0xFFF) in
  freed ← unmap_range (range_fuel va_start va_end PAGE_SIZE) pm va_start va_end false;
  (if (freed : bool) then when_active pm flush_tlb_all else mret tt);;
  on_pmap_lock p (spin_unlock_irqrestore f).

Definition pmap_extract_walk (pm : pmap_t) (va : Z) : K (pstate T) Z :=
  let pml4 := pm_root_virt pm in
  e4 ← get_entry pml4 (PML4_INDEX va);
  if negb (present e4) then mret 0 else
  let pdpt := phys_to_virt (Z.land e4 PTE_ADDR_MASK) in
  e3 ← get_entry pdpt (PDPT_INDEX va);
  if negb (present e3) then mret 0 else
  let pd := phys_to_virt (Z.land e3 PTE_ADDR_MASK) in
  e2 ← get_entry pd (PD_INDEX va);
  if negb (present e2) then mret 0 else
  if huge e2 then mret (wrap64 (Z.land e2 PD_ADDR_MASK + Z.land va 0x1FFFFF)) else
  let pt := phys_to_virt (Z.land e2 PTE_ADDR_MASK) in
  e1 ← get_entry pt (PT_INDEX va);
  if negb (present e1) then mret 0 else
  mret (wrap64 (Z.land e1 PTE_ADDR_MASK + Z.land va 0xFFF)).

Definition pmap_extract (p : pmap_ref) (va : Z) : K (pstate T) Z :=
  if bool_decide (p = PmapNull) then mret 0 else
  f ← on_pmap_lock p spin_lock_irqsave;
  pm ← the_pmap p;
  r ← pmap_extract_walk pm va;
  on_pmap_lock p (spin_unlock_irqrestore f);;
  mret r.

(** ** Creation, destruction, activation *)

Section heap.
(** The kernel heap (kernel/mm/kmem.c), which itself maps pages. *)
Variable kmalloc : Z → K (pstate T) Z.
Variable kfree : Z → K (pstate T) unit.

(** [sizeof(pmap_t)]. *)
Definition SIZEOF_PMAP_T : Z := 48.

(** [memcpy(&dst[256], &src[256], 256 * sizeof(pml4e_t))]. *)
Definition copy_kernel_half (dst src : Z) : K (pstate T) unit :=
  kfor 256 256 (λ i, e ← get_entry src i; set_entry dst i e).

Definition pmap_create : K (pstate T) pmap_ref :=
  a ← kmalloc SIZEOF_PMAP_T;
  if a =? 0 then mret PmapNull else
  pml4_phys ← on_pages (pa_alloc 0);
  let pml4_virt := phys_to_virt pml4_phys in
  memset_page pml4_virt;;
  kpm ← the_pmap PmapKernel;
  copy_kernel_half pml4_virt (pm_root_virt kpm);;
  kmodify (λ s, set_pmaps (<[PmapAt a := Pmap pml4_virt pml4_phys SPINLOCK_INITIALIZER]> (ps_pmaps s)) s);;
  kmodify (λ s, set_glinks (list_init (GrantList (PmapAt a)) (ps_glinks s)) s);;
  mret (PmapAt a).

(** The three loops of [pmap_destroy]: page tables, page directories, PDPTs. *)
Definition destroy_pd (pd : Z) : K (pstate T) unit :=
  kfor 512 0 (λ k,
    e ← get_entry pd k;
    if negb (present e) || huge e then mret tt else
    on_pages (pa_free (Z.land e PTE_ADDR_MASK) 0)).
Definition destroy_pdpt (pdpt : Z) : K (pstate T) unit :=
  kfor 512 0 (λ j,
    e ← get_entry pdpt j;
    if negb (present e) || huge e then mret tt else
    let pd_phys := Z.land e (bnot64 0xFFF) in
    destroy_pd (phys_to_virt pd_phys);;
    on_pages (pa_free pd_phys 0)).
Definition destroy_pml4 (pml4 : Z) : K (pstate T) unit :=
  kfor 256 0 (λ i,
    e ← get_entry pml4 i;
    if negb (present e) then mret tt else
    let pdpt_phys := Z.land e PTE_ADDR_MASK in
    destroy_pdpt (phys_to_virt pdpt_phys);;
    on_pages (pa_free pdpt_phys 0)).

Definition pmap_destroy (p : pmap_ref) : K (pstate T) unit :=
  match p with
  | PmapNull | PmapKernel => mret tt
  | PmapAt a =>
      pm ← the_pmap p;
      destroy_pml4 (pm_root_virt pm);;
      on_pages (pa_free (pm_root_phys pm) 0);;
      kmodify (λ s, set_pmaps (delete p (ps_pmaps s)) s);;
      kfree a
  end.
End heap.

Definition pmap_activate (p : pmap_ref) : K (pstate T) unit :=
  if bool_decide (p = PmapNull) then mret tt else
  pm ← the_pmap p;
  if pm_root_phys pm =? 0 then mret tt else write_cr3 (pm_root_phys pm).

Definition pmap_init : K (pstate T) Z :=
  pml4_phys ← on_pages (pa_alloc 0);
  if pml4_phys =? 0 then mret (-1) else
  let pml4_virt := phys_to_virt pml4_phys in
  memset_page pml4_virt;;
  kmodify (λ s, set_pmaps (<[PmapKernel := Pmap pml4_virt pml4_phys SPINLOCK_INITIALIZER]> (ps_pmaps s)) s);;
  mret 0.
End pmap.
