(* ===== verification/PageTable.v ===== *)
(** * What a page-table tree means, and how single writes change it

    [tbl m R p] follows the path of indices [p] from the root table [R];
    [leaf m R va] is the entry that translates [va].  [pt_wf] says the tables
    reached by different paths are different pages, none of them free. *)

From S2P Require Export Pmap.

Definition entry (m : gmap Z Z) (t i : Z) : Z := rd m (t + 8 * i).
Definition sub (m : gmap Z Z) (t i : Z) : option Z :=
  let e := entry m t i in
  if present e && negb (huge e) then Some (Z.land e PTE_ADDR_MASK) else None.

Fixpoint tbl (m : gmap Z Z) (t : Z) (p : list Z) : option Z :=
  match p with
  | [] => Some t
  | i :: p' => match sub m t i with Some t' => tbl m t' p' | None => None end
  end.

Definition idx3 (va : Z) : list Z := [PML4_INDEX va; PDPT_INDEX va; PD_INDEX va].
Definition idx2 (va : Z) : list Z := [PML4_INDEX va; PDPT_INDEX va].

(** The translating entry of [va], with [true] for a 2 MiB page. *)
Definition leaf (m : gmap Z Z) (R va : Z) : option (bool * Z) :=
  match tbl m R (idx2 va) with
  | None => None
  | Some pd =>
      let e2 := entry m pd (PD_INDEX va) in
      if present e2 && huge e2 then Some (true, e2) else
      match tbl m R (idx3 va) with
      | None => None
      | Some pt =>
          let e1 := entry m pt (PT_INDEX va) in
          if present e1 then Some (false, e1) else None
      end
  end.

(** The physical address the processor (and [pmap_extract]) computes. *)
Definition translate (m : gmap Z Z) (R va : Z) : option Z :=
  match leaf m R va with
  | None => None
  | Some (true, e) => Some (Z.land e PD_ADDR_MASK + Z.land va 0x1FFFFF)
  | Some (false, e) => Some (Z.land e PTE_ADDR_MASK + Z.land va 0xFFF)
  end.

#[global] Arguments leaf : simpl never.
#[global] Arguments translate : simpl never.

Definition index (i : Z) : Prop := 0 ≤ i < 512.
Definition wf_path (p : list Z) : Prop := (length p ≤ 3)%nat ∧ Forall index p.

(** Frame [f] holds one of the tables on the walk of [va]. *)
Definition path_frame (m : gmap Z Z) (R va f : Z) : Prop :=
  ∃ p, p `prefix_of` idx3 va ∧ tbl m R p = Some (f * PAGE_SIZE).

Record pt_wf (m : gmap Z Z) (R : Z) (P : Z → Prop) : Prop := PtWf {
  wf_page : ∀ p t, wf_path p → tbl m R p = Some t →
    ∃ f, t = f * PAGE_SIZE ∧ 0 < f < 2 ^ 40 ∧ ¬ P f;
  wf_inj : ∀ p q t, wf_path p → wf_path q → tbl m R p = Some t → tbl m R q = Some t → p = q;
  wf_upper : ∀ p t i, (length p ≤ 1)%nat → wf_path p → index i → tbl m R p = Some t →
    present (entry m t i) = true → huge (entry m t i) = false;
}.

(** ** Indices and addresses *)

Lemma land_1FF x : index (Z.land x 0x1FF).
Proof. unfold index. change 0x1FF with (Z.ones 9). rewrite Z.land_ones by lia. by apply Z.mod_pos_bound. Qed.

Lemma idx3_wf va : wf_path (idx3 va).
Proof. split; [simpl; lia|]. repeat (apply Forall_cons; split; [apply land_1FF|]). done. Qed.
Lemma idx2_wf va : wf_path (idx2 va).
Proof. split; [simpl; lia|]. repeat (apply Forall_cons; split; [apply land_1FF|]). done. Qed.
Lemma idx3_snoc va : idx3 va = idx2 va ++ [PD_INDEX va].
Proof. done. Qed.

Lemma wf_path_snoc p i : (length p ≤ 2)%nat → wf_path p → index i → wf_path (p ++ [i]).
Proof.
  intros Hl [_ Hf] Hi. split; [rewrite length_app; simpl; lia|]. apply Forall_app. split; [done|].
  by apply Forall_singleton.
Qed.

Lemma wf_path_prefix p q : p `prefix_of` q → wf_path q → wf_path p.
Proof.
  intros [k ->] [Hl Hf]. rewrite length_app in Hl. split; [lia|]. by apply Forall_app in Hf as [? _].
Qed.

Lemma wf_path_init p i : wf_path (p ++ [i]) → wf_path p ∧ index i.
Proof.
  intros Hw. split; [apply (wf_path_prefix p (p ++ [i])); [by exists [i]|done]|].
  destruct Hw as [_ Hf]. apply Forall_app in Hf as [_ Hi]. by inversion Hi.
Qed.

Lemma virt_phys t : 0 ≤ t < U64 → virt_to_phys (phys_to_virt t) = t.
Proof.
  intros Ht. unfold virt_to_phys, phys_to_virt, wrap64. rewrite Zminus_mod_idemp_l.
  replace (t + HHDM_OFFSET - HHDM_OFFSET) with t by lia. by apply Z.mod_small.
Qed.

Lemma page_virt n : 0 < n < 2 ^ 40 → virt_to_phys (phys_to_virt (n * PAGE_SIZE)) = n * PAGE_SIZE.
Proof.
  intros Hn. apply virt_phys. unfold U64. change (2 ^ 40) with 0x10000000000 in Hn.
  change PAGE_SIZE with 4096. lia.
Qed.

(** Words of different tables, or of different entries, do not overlap. *)
Lemma word_inj f f' i j :
  index i → index j → f * PAGE_SIZE + 8 * i = f' * PAGE_SIZE + 8 * j → f = f' ∧ i = j.
Proof. unfold index. change PAGE_SIZE with 4096. lia. Qed.

Lemma entry_write m f i e f' j :
  index i → index j →
  entry (<[f * PAGE_SIZE + 8 * i := e]> m) (f' * PAGE_SIZE) j =
    if decide (f = f' ∧ i = j) then e else entry m (f' * PAGE_SIZE) j.
Proof.
  intros Hi Hj. unfold entry, rd. rewrite lookup_insert. case_decide as Hc.
  - apply word_inj in Hc as [-> ->]; [|done..]. by rewrite decide_True.
  - rewrite decide_False; [done|]. intros [-> ->]. done.
Qed.

Lemma entry_zero m f f' j :
  index j → entry (zero_page (f * PAGE_SIZE) m) (f' * PAGE_SIZE) j =
    if decide (f = f') then 0 else entry m (f' * PAGE_SIZE) j.
Proof.
  intros Hj. unfold zero_page, entry, rd.
  assert (Hgen : ∀ l, Forall index l →
    (foldr (λ i m, <[f * PAGE_SIZE + 8 * i:=0]> m) m l) !! (f' * PAGE_SIZE + 8 * j) =
      if decide (f = f' ∧ j ∈ l) then Some 0 else m !! (f' * PAGE_SIZE + 8 * j)).
  { induction l as [|i l IH]; intros Hl; simpl.
    - rewrite decide_False; [done|]. intros [_ Hj']. set_solver.
    - apply Forall_cons in Hl as [Hi Hl]. rewrite lookup_insert, IH by done.
      destruct (decide (f * PAGE_SIZE + 8 * i = f' * PAGE_SIZE + 8 * j)) as [Hc|Hc].
      + apply word_inj in Hc as [-> ->]; [|done..]. rewrite decide_True; [done|]. set_solver.
      + destruct (decide (f = f' ∧ j ∈ l)) as [[??]|Hn].
        * rewrite decide_True; [done|]. set_solver.
        * rewrite decide_False; [done|]. intros [-> [->|?]%elem_of_cons]; naive_solver. }
  rewrite Hgen.
  - destruct (decide (f = f')) as [->|]; [|rewrite decide_False; [done|tauto]].
    rewrite decide_True; [done|]. split; [done|]. apply elem_of_seqZ. unfold index in Hj. lia.
  - apply Forall_forall. intros x Hx%elem_of_seqZ. unfold index. lia.
Qed.

(** Clearing a page changes no other page. *)
Lemma zero_page_other m f a : a / PAGE_SIZE ≠ f → zero_page (f * PAGE_SIZE) m !! a = m !! a.
Proof.
  intros Ha. unfold zero_page.
  assert (H : ∀ i, i ∈ seqZ 0 512 → f * PAGE_SIZE + 8 * i ≠ a).
  { intros i Hi%elem_of_seqZ <-. apply Ha. change PAGE_SIZE with 4096. Z.div_mod_to_equations. lia. }
  induction (seqZ 0 512) as [|i l IH]; [done|]. simpl. rewrite lookup_insert_ne by (apply H; set_solver).
  apply IH. intros j Hj. apply H. set_solver.
Qed.

#[global] Opaque zero_page.

(** ** Paths *)

Lemma tbl_app m t p q : tbl m t (p ++ q) = tbl m t p ≫= λ t', tbl m t' q.
Proof. revert t. induction p as [|i p IH]; intros t; [done|]. simpl. destruct (sub m t i); [apply IH|done]. Qed.

Lemma tbl_snoc m t p i : tbl m t (p ++ [i]) = tbl m t p ≫= λ t', sub m t' i.
Proof. rewrite tbl_app. destruct (tbl m t p) as [t'|]; [|done]. simpl. by destruct (sub m t' i). Qed.

Lemma tbl_prefix m t p q t' : p `prefix_of` q → tbl m t q = Some t' → is_Some (tbl m t p).
Proof. intros [k ->]. rewrite tbl_app. destruct (tbl m t p); [eauto|done]. Qed.

Section writes.
Context (m : gmap Z Z) (R : Z) (P : Z → Prop).
Hypothesis Hwf : pt_wf m R P.

Lemma table_page p t : wf_path p → tbl m R p = Some t → ∃ f, t = f * PAGE_SIZE ∧ 0 < f < 2 ^ 40 ∧ ¬ P f.
Proof. apply Hwf. Qed.

(** A memory that agrees on every table has the same tree. *)
Lemma tbl_agree m' :
  (∀ p t i, wf_path p → tbl m R p = Some t → index i → entry m' t i = entry m t i) →
  ∀ p, wf_path p → tbl m' R p = tbl m R p.
Proof.
  intros Heq p. induction p as [|i p IH] using rev_ind; intros Hp; [done|].
  destruct (wf_path_init _ _ Hp) as [Hp' Hi].
  rewrite !tbl_snoc, IH by done. destruct (tbl m R p) as [t|] eqn:E; [|done]. simpl.
  unfold sub. by rewrite (Heq p).
Qed.

Lemma leaf_agree m' :
  (∀ p t i, wf_path p → tbl m R p = Some t → index i → entry m' t i = entry m t i) →
  ∀ va, leaf m' R va = leaf m R va.
Proof.
  intros Heq va. unfold leaf. rewrite !(tbl_agree m') by (done || apply idx2_wf || apply idx3_wf).
  destruct (tbl m R (idx2 va)) as [pd|] eqn:E2; [|done].
  rewrite (Heq (idx2 va)) by (done || apply idx2_wf || apply land_1FF). destruct (_ && _); [done|].
  destruct (tbl m R (idx3 va)) as [pt|] eqn:E3; [|done].
  by rewrite (Heq (idx3 va)) by (done || apply idx3_wf || apply land_1FF).
Qed.

Lemma pt_wf_agree m' :
  (∀ p t i, wf_path p → tbl m R p = Some t → index i → entry m' t i = entry m t i) → pt_wf m' R P.
Proof.
  intros Heq. pose proof (tbl_agree m' Heq) as Ht. split.
  - intros p t Hp. rewrite Ht by done. by apply Hwf.
  - intros p q t Hp Hq. rewrite !Ht by done. by apply Hwf.
  - intros p t i Hl Hp Hi. rewrite Ht by done. intros E. rewrite (Heq p) by done. by eapply Hwf.
Qed.

(** Fewer free pages are free pages. *)
Lemma pt_wf_mono P' : (∀ x, P' x → P x) → pt_wf m R P'.
Proof.
  intros HP. split; [|apply Hwf..]. intros p t Hp Ht. destruct (table_page p t Hp Ht) as (f & E & Hf & Hn). eauto 10.
Qed.

(** Writing entry [i] of the table at path [p0]. *)
Context (p0 : list Z) (f0 i0 e0 : Z).
Hypothesis Hp0 : wf_path p0.
Hypothesis Ht0 : tbl m R p0 = Some (f0 * PAGE_SIZE).
Hypothesis Hi0 : index i0.
Abbreviation m' := (<[f0 * PAGE_SIZE + 8 * i0 := e0]> m).

Lemma entry_write_path p t i :
  wf_path p → tbl m R p = Some t → index i →
  entry m' t i = if decide (p = p0 ∧ i = i0) then e0 else entry m t i.
Proof.
  intros Hp Ht Hi. destruct (table_page p t Hp Ht) as (f & -> & _). rewrite entry_write by done.
  destruct (decide (p = p0 ∧ i = i0)) as [[-> ->]|Hn].
  - rewrite decide_True; [done|]. split; [|done]. rewrite Ht0 in Ht. injection Ht.
    change PAGE_SIZE with 4096. lia.
  - rewrite decide_False; [done|]. intros [-> ->]. apply Hn. split; [|done].
    by apply (wf_inj _ _ _ Hwf p p0 (f * PAGE_SIZE)).
Qed.

Lemma tbl_write_other p :
  wf_path p → ¬ (p0 ++ [i0]) `prefix_of` p → tbl m' R p = tbl m R p.
Proof.
  induction p as [|i p IH] using rev_ind; intros Hp Hn; [done|].
  destruct (wf_path_init _ _ Hp) as [Hp' Hi].
  rewrite !tbl_snoc, IH; [|done|]; cycle 1.
  { intros [k ->]. apply Hn. exists (k ++ [i]). by rewrite app_assoc. }
  destruct (tbl m R p) as [t|] eqn:E; [|done]. simpl. unfold sub.
  rewrite (entry_write_path p) by done. rewrite decide_False; [done|]. intros [-> ->]. by apply Hn.
Qed.

Lemma tbl_write_at : tbl m' R (p0 ++ [i0]) = if present e0 && negb (huge e0) then Some (Z.land e0 PTE_ADDR_MASK) else None.
Proof.
  rewrite tbl_snoc, tbl_write_other, Ht0; [|done|].
  - simpl. unfold sub. by rewrite entry_write, decide_True by done.
  - intros Hk%prefix_length. rewrite length_app in Hk. simpl in Hk. lia.
Qed.
End writes.

Lemma prefix_snoc_long (p0 p : list Z) i : (length p0 = 3)%nat → wf_path p → ¬ (p0 ++ [i]) `prefix_of` p.
Proof. intros Hl [Hp _] Hk%prefix_length. rewrite length_app in Hk. simpl in Hk. lia. Qed.

Lemma prefix_of_short (p q : list Z) : p `prefix_of` q → (length q ≤ length p)%nat → q = p.
Proof. intros [k ->]. rewrite length_app. intros Hl. destruct k; [by rewrite app_nil_r|]. simpl in Hl. lia. Qed.

Lemma exists_last_or_nil (k : list Z) : k = [] ∨ ∃ k' x, k = k' ++ [x].
Proof. destruct k as [|x k _] using rev_ind; [by left|right; eauto]. Qed.

(** ** Writes that leave no table below the entry *)

Section cut.
Context (m : gmap Z Z) (R : Z) (P : Z → Prop).
Hypothesis Hwf : pt_wf m R P.
Context (p0 : list Z) (f0 i0 e0 : Z).
Hypothesis Hp0 : wf_path p0.
Hypothesis Ht0 : tbl m R p0 = Some (f0 * PAGE_SIZE).
Hypothesis Hi0 : index i0.
Hypothesis He0 : (length p0 ≤ 2)%nat → present e0 && negb (huge e0) = false.
Hypothesis Hup : (length p0 ≤ 1)%nat → present e0 = false.
Abbreviation m' := (<[f0 * PAGE_SIZE + 8 * i0 := e0]> m).

Lemma entry_cut p t i :
  wf_path p → tbl m R p = Some t → index i →
  entry m' t i = if decide (p = p0 ∧ i = i0) then e0 else entry m t i.
Proof. by apply (entry_write_path m R P Hwf p0 f0 i0 e0). Qed.

Lemma tbl_cut p : wf_path p →
  tbl m' R p = if decide ((p0 ++ [i0]) `prefix_of` p) then None else tbl m R p.
Proof.
  intros Hp. destruct (decide _) as [Hk|Hk]; [|by apply (tbl_write_other m R P Hwf p0)].
  destruct (tbl m' R p) eqn:E; [exfalso|done].
  destruct (tbl_prefix _ _ _ _ _ Hk E) as [t Ht].
  rewrite (tbl_write_at m R P Hwf p0) in Ht by done. rewrite He0 in Ht; [done|].
  apply prefix_length in Hk. rewrite length_app in Hk. destruct Hp. simpl in Hk. lia.
Qed.

Lemma tbl_cut_Some p t : wf_path p → tbl m' R p = Some t → tbl m R p = Some t.
Proof. intros Hp. rewrite tbl_cut by done. by destruct (decide _). Qed.

Lemma pt_wf_cut : pt_wf m' R P.
Proof.
  split.
  - intros p t Hp Ht%tbl_cut_Some; [|done]. by eapply wf_page.
  - intros p q t Hp Hq Ht1%tbl_cut_Some Ht2%tbl_cut_Some; [|done..]. by eapply wf_inj.
  - intros p t i Hl Hp Hi Ht%tbl_cut_Some; [|done].
    rewrite (entry_cut p) by done. case_decide as Hc.
    + destruct Hc as [-> ->]. intros He. by rewrite Hup in He.
    + by eapply wf_upper.
Qed.

(** The table that hung below the entry belongs to the tree no more. *)
Lemma pt_wf_cut_free f :
  (length p0 ≤ 2)%nat → tbl m R (p0 ++ [i0]) = Some (f * PAGE_SIZE) → pt_wf m' R (λ x, P x ∨ x = f).
Proof.
  intros Hl Hf. destruct pt_wf_cut as [H1 H2 H3]. split; [|done|done].
  intros p t Hp Ht. destruct (H1 p t Hp Ht) as (g & -> & Hg & HP). exists g. split_and!; try done; try lia.
  intros [? | ->]; [done|]. assert (p = p0 ++ [i0]) as ->.
  { eapply (wf_inj _ _ _ Hwf); [done|by apply wf_path_snoc|by apply tbl_cut_Some|done]. }
  rewrite tbl_cut, decide_True in Ht by done. done.
Qed.

Lemma leaf_cut_pt va :
  (length p0 = 3)%nat →
  leaf m' R va = if decide (idx3 va = p0 ∧ PT_INDEX va = i0)
                 then if present e0 then Some (false, e0) else None else leaf m R va.
Proof.
  intros Hl. unfold leaf. rewrite !tbl_cut by (apply idx2_wf || apply idx3_wf).
  rewrite !decide_False by (apply prefix_snoc_long; [done|apply idx2_wf || apply idx3_wf]).
  destruct (tbl m R (idx2 va)) as [pd|] eqn:E2; cycle 1.
  { rewrite decide_False; [done|]. intros [<- _]. rewrite idx3_snoc, tbl_snoc, E2 in Ht0. done. }
  rewrite (entry_cut (idx2 va)) by (done || apply idx2_wf || apply land_1FF).
  rewrite decide_False; [|by intros [<- _]].
  destruct (present (entry m pd (PD_INDEX va)) && huge (entry m pd (PD_INDEX va))) eqn:Eh.
  { rewrite decide_False; [done|]. intros [<- _]. rewrite idx3_snoc, tbl_snoc, E2 in Ht0.
    simpl in Ht0. unfold sub in Ht0. apply andb_true_iff in Eh as [Ea Eb]. by rewrite Ea, Eb in Ht0. }
  destruct (tbl m R (idx3 va)) as [pt|] eqn:E3; cycle 1.
  { rewrite decide_False; [done|]. intros [<- _]. by rewrite Ht0 in E3. }
  rewrite (entry_cut (idx3 va)) by (done || apply idx3_wf || apply land_1FF).
  by destruct (decide (idx3 va = p0 ∧ PT_INDEX va = i0)).
Qed.

Lemma leaf_cut_pd va :
  (length p0 = 2)%nat →
  leaf m' R va = if decide (idx3 va = p0 ++ [i0])
                 then if present e0 then Some (true, e0) else None else leaf m R va.
Proof.
  intros Hl. unfold leaf. rewrite !tbl_cut by (apply idx2_wf || apply idx3_wf).
  rewrite decide_False; cycle 1.
  { intros Hk%prefix_length. rewrite length_app in Hk. simpl in Hk. lia. }
  destruct (decide (idx3 va = p0 ++ [i0])) as [E|Hn].
  - rewrite decide_True by by rewrite E.
    rewrite idx3_snoc in E. apply app_inj_2 in E as [E2 [= Ei]]; [|done].
    rewrite E2, Ht0. rewrite (entry_cut (p0)) by (done || apply land_1FF).
    rewrite decide_True by done. specialize (He0 ltac:(lia)).
    destruct (present e0), (huge e0); done.
  - rewrite decide_False; cycle 1.
    { intros Hk%prefix_of_short; [done|]. rewrite length_app, Hl. simpl. lia. }
    destruct (tbl m R (idx2 va)) as [pd|] eqn:E2; [|done].
    rewrite (entry_cut (idx2 va)) by (done || apply idx2_wf || apply land_1FF).
    rewrite decide_False; [|intros [Ea Eb]; apply Hn; by rewrite idx3_snoc, Ea, Eb].
    destruct (present (entry m pd (PD_INDEX va)) && _); [done|]. destruct (tbl m R (idx3 va)) as [pt|] eqn:E3; [|done].
    rewrite (entry_cut (idx3 va)) by (done || apply idx3_wf || apply land_1FF).
    rewrite decide_False; [done|]. intros [Ea _]. apply (f_equal length) in Ea. by rewrite Hl in Ea.
Qed.

Lemma leaf_cut_upper va :
  (length p0 ≤ 1)%nat →
  leaf m' R va = if decide ((p0 ++ [i0]) `prefix_of` idx2 va) then None else leaf m R va.
Proof.
  intros Hl. unfold leaf. rewrite !tbl_cut by (apply idx2_wf || apply idx3_wf).
  destruct (decide ((p0 ++ [i0]) `prefix_of` idx2 va)) as [Hk|Hk]; [done|].
  rewrite decide_False; cycle 1.
  { intros Hk'. apply Hk. destruct Hk' as [k E]. rewrite idx3_snoc in E.
    destruct (exists_last_or_nil k) as [->|(k' & x & ->)].
    - rewrite app_nil_r in E. apply (f_equal length) in E. rewrite !length_app in E. simpl in E. lia.
    - rewrite app_assoc in E. apply app_inj_2 in E as [E _]; [|done]. by exists k'. }
  destruct (tbl m R (idx2 va)) as [pd|] eqn:E2; [|done].
  rewrite (entry_cut (idx2 va)) by (done || apply idx2_wf || apply land_1FF).
  rewrite decide_False; [|intros [Ea _]; apply (f_equal length) in Ea; simpl in Ea; lia].
  destruct (present (entry m pd (PD_INDEX va)) && _); [done|]. destruct (tbl m R (idx3 va)) as [pt|] eqn:E3; [|done].
  rewrite (entry_cut (idx3 va)) by (done || apply idx3_wf || apply land_1FF).
  rewrite decide_False; [done|]. intros [Ea _]. apply (f_equal length) in Ea. simpl in Ea. lia.
Qed.
End cut.

(** ** Flags and addresses of entries *)

Lemma has_flag_bit x k : 0 ≤ k → has_flag x (bit k) = Z.testbit x k.
Proof.
  intros Hk. unfold has_flag. rewrite bit_pow by done.
  destruct (Z.testbit x k) eqn:E.
  - apply negb_true_iff, Z.eqb_neq. intros H. apply (f_equal (λ z, Z.testbit z k)) in H.
    rewrite Z.land_spec, E, Z.pow2_bits_true, Z.bits_0 in H by done. done.
  - apply negb_false_iff, Z.eqb_eq. apply Z.bits_inj'. intros i Hi.
    rewrite Z.land_spec, Z.bits_0, Z.pow2_bits_eqb by done.
    case (Z.eqb_spec k i) as [->|]; [by rewrite E|]. apply andb_false_r.
Qed.

Lemma mask_page f : 0 ≤ f < 2 ^ 40 → Z.land (f * PAGE_SIZE) PTE_ADDR_MASK = f * PAGE_SIZE.
Proof.
  intros Hf. change PTE_ADDR_MASK with (Z.shiftl (Z.ones 40) 12).
  replace (f * PAGE_SIZE) with (Z.shiftl f 12) by by rewrite Z.shiftl_mul_pow2.
  rewrite <- Z.shiftl_land, Z.land_ones by lia. by rewrite Z.mod_small.
Qed.

Lemma mask_flags a fl : Z.land fl PTE_ADDR_MASK = 0 → Z.land (Z.lor a fl) PTE_ADDR_MASK = Z.land a PTE_ADDR_MASK.
Proof. intros H. by rewrite Z.land_lor_distr_l, H, Z.lor_0_r. Qed.

Lemma page_low_bits f k : 0 ≤ k < 12 → Z.testbit (f * PAGE_SIZE) k = false.
Proof. intros Hk. change PAGE_SIZE with (2 ^ 12). apply Z.mul_pow2_bits_low. lia. Qed.

Lemma table_entry_spec f : 0 ≤ f < 2 ^ 40 →
  present (table_entry (f * PAGE_SIZE)) = true ∧ huge (table_entry (f * PAGE_SIZE)) = false ∧
  Z.land (table_entry (f * PAGE_SIZE)) PTE_ADDR_MASK = f * PAGE_SIZE.
Proof.
  intros Hf. unfold present, huge, table_entry, PTE_PRESENT, PDE_HUGE. rewrite !has_flag_bit, !Z.lor_spec, !page_low_bits by lia.
  split; [done|]. split; [done|]. by rewrite <- !Z.lor_assoc, mask_flags, mask_page.
Qed.

(** ** Entering a cleared free page as a table *)

(** [en] is an entry for the table at page [n]; the kernel and the boot loader use
    different flags. *)
Definition table_ptr (en n : Z) : Prop :=
  present en = true ∧ huge en = false ∧ Z.land en PTE_ADDR_MASK = n * PAGE_SIZE.

Section attach.
Context (m : gmap Z Z) (R : Z) (P : Z → Prop).
Hypothesis Hwf : pt_wf m R P.
Context (p0 : list Z) (f0 i0 n : Z).
Hypothesis Hlen : (length p0 ≤ 2)%nat.
Hypothesis Hp0 : wf_path p0.
Hypothesis Ht0 : tbl m R p0 = Some (f0 * PAGE_SIZE).
Hypothesis Hi0 : index i0.
Hypothesis Hnot : present (entry m (f0 * PAGE_SIZE) i0) = false.
Hypothesis Hn : 0 < n < 2 ^ 40.
Hypothesis HPn : P n.
Context (en : Z).
Hypothesis Hen : table_ptr en n.
Abbreviation m1 := (zero_page (n * PAGE_SIZE) m).
Abbreviation m2 := (<[f0 * PAGE_SIZE + 8 * i0 := en]> m1).

Lemma zero_entry p t i : wf_path p → tbl m R p = Some t → index i → entry m1 t i = entry m t i.
Proof.
  intros Hp Ht Hi. destruct (table_page m R P Hwf p t Hp Ht) as (f & -> & _ & Hf).
  rewrite entry_zero by done. rewrite decide_False; [done|]. by intros ->.
Qed.

Lemma zero_tbl p : wf_path p → tbl m1 R p = tbl m R p.
Proof. apply tbl_agree, zero_entry. Qed.

Lemma zero_wf : pt_wf m1 R P.
Proof. apply (pt_wf_agree m R P Hwf), zero_entry. Qed.

Lemma new_entry i : index i → entry m2 (n * PAGE_SIZE) i = 0.
Proof.
  intros Hi. rewrite entry_write, decide_False by (done || (intros [-> _];
    destruct (table_page m R P Hwf _ _ Hp0 Ht0) as (f & E & _ & Hf); apply Hf;
    replace f with n; [done|]; change PAGE_SIZE with 4096 in E; lia)).
  by rewrite entry_zero, decide_True.
Qed.

Lemma old_entry p t i : wf_path p → tbl m R p = Some t → index i →
  entry m2 t i = if decide (p = p0 ∧ i = i0) then en else entry m t i.
Proof.
  intros Hp Ht Hi. rewrite (entry_write_path m1 R P zero_wf p0 f0 i0) with (p := p) by (by rewrite ?zero_tbl).
  by rewrite (zero_entry p).
Qed.

Lemma old_below p : (p0 ++ [i0]) `prefix_of` p → tbl m R p = None.
Proof.
  intros Hk. destruct (tbl m R p) eqn:E; [exfalso|done].
  destruct (tbl_prefix _ _ _ _ _ Hk E) as [t Ht]. rewrite tbl_snoc, Ht0 in Ht. simpl in Ht.
  unfold sub in Ht. by rewrite Hnot in Ht.
Qed.

Lemma tbl_attach p : wf_path p →
  tbl m2 R p = if decide (p = p0 ++ [i0]) then Some (n * PAGE_SIZE) else tbl m R p.
Proof.
  intros Hp. destruct Hen as (Hpr & Hhu & Hma).
  assert (Hat : tbl m2 R (p0 ++ [i0]) = Some (n * PAGE_SIZE)).
  { rewrite (tbl_write_at m1 R P zero_wf p0) by by rewrite ?zero_tbl. by rewrite Hpr, Hhu, Hma. }
  destruct (decide (p = p0 ++ [i0])) as [->|Hne]; [done|].
  destruct (decide ((p0 ++ [i0]) `prefix_of` p)) as [Hk|Hk].
  - rewrite old_below by done. destruct Hk as [[|j k] ->]; [by rewrite app_nil_r in Hne|].
    rewrite tbl_app, Hat. simpl. unfold sub. rewrite new_entry; [done|].
    destruct Hp as [_ Hp]. apply Forall_app in Hp as [_ Hp]. by inversion Hp.
  - rewrite (tbl_write_other m1 R P zero_wf p0), zero_tbl by by rewrite ?zero_tbl. done.
Qed.

Lemma pt_wf_attach P' : (∀ x, P' x → P x ∧ x ≠ n) → pt_wf m2 R P'.
Proof.
  intros HP'. assert (Hfresh : ∀ p, wf_path p → tbl m R p ≠ Some (n * PAGE_SIZE)).
  { intros p Hp Ht. destruct (table_page m R P Hwf _ _ Hp Ht) as (f & E & _ & Hf). apply Hf.
    replace f with n; [done|]. change PAGE_SIZE with 4096 in E. lia. }
  split.
  - intros p t Hp. rewrite tbl_attach by done. case_decide.
    + intros [= <-]. exists n. split_and!; try done; try lia. intros Hx%HP'. naive_solver.
    + intros Ht. destruct (table_page m R P Hwf _ _ Hp Ht) as (f & -> & ? & Hf). exists f.
      split_and!; try done; try lia. intros Hx%HP'. naive_solver.
  - intros p q t Hp Hq. rewrite !tbl_attach by done. repeat case_decide; subst; try done.
    + intros [= <-] Ht. by apply Hfresh in Ht.
    + intros Ht [= <-]. by apply Hfresh in Ht.
    + by apply Hwf.
  - intros p t i Hl Hp Hi. rewrite tbl_attach by done. case_decide.
    + intros [= <-]. by rewrite new_entry.
    + intros Ht. rewrite (old_entry p) by done. case_decide; [|by eapply Hwf].
      intros _. apply Hen.
Qed.

Lemma leaf_attach va : leaf m2 R va = leaf m R va.
Proof.
  destruct Hen as (Hpr & Hhu & _).
  unfold leaf. rewrite !tbl_attach by (apply idx2_wf || apply idx3_wf).
  destruct (decide (idx2 va = p0 ++ [i0])) as [E2|Hn2].
  - rewrite (old_below (idx2 va)) by by rewrite E2. rewrite new_entry by apply land_1FF. cbn [andb present].
    change (present 0) with false. simpl andb. cbv iota.
    rewrite decide_False, (old_below (idx3 va)); [done| |].
    + exists [PD_INDEX va]. by rewrite <- E2.
    + intros E3. rewrite idx3_snoc, E2 in E3. apply (f_equal length) in E3. rewrite !length_app in E3. simpl in E3. lia.
  - destruct (tbl m R (idx2 va)) as [pd|] eqn:E2; [|done].
    rewrite (old_entry (idx2 va)) by (done || apply idx2_wf || apply land_1FF).
    destruct (decide (idx2 va = p0 ∧ PD_INDEX va = i0)) as [[Ea Eb]|Hne].
    + rewrite Hpr, Hhu. simpl andb. cbv iota. rewrite decide_True by (by rewrite idx3_snoc, Ea, Eb).
      rewrite new_entry by apply land_1FF. change (present 0) with false. cbv iota.
      rewrite Ea, Ht0 in E2. injection E2 as <-. rewrite Eb, Hnot. simpl andb. cbv iota.
      rewrite (old_below (idx3 va)); [done|]. by rewrite idx3_snoc, Ea, Eb.
    + destruct (present (entry m pd (PD_INDEX va)) && _); [done|].
      rewrite decide_False; cycle 1.
      { intros E3. apply Hne. rewrite idx3_snoc in E3. by apply app_inj_2 in E3 as [? [= ?]]. }
      destruct (tbl m R (idx3 va)) as [pt|] eqn:E3; [|done].
      rewrite (old_entry (idx3 va)) by (done || apply idx3_wf || apply land_1FF).
      rewrite decide_False; [done|]. intros [Ea _]. apply (f_equal length) in Ea. simpl in Ea. lia.
Qed.
End attach.

(** ** Empty tables *)

(** A root without entries. *)
Lemma empty_root m f P :
  0 < f < 2 ^ 40 → ¬ P f → (∀ i, index i → entry m (f * PAGE_SIZE) i = 0) →
  pt_wf m (f * PAGE_SIZE) P ∧ (∀ p, wf_path p → p ≠ [] → tbl m (f * PAGE_SIZE) p = None) ∧
  ∀ va, leaf m (f * PAGE_SIZE) va = None.
Proof.
  intros Hf HP He.
  assert (Ht : ∀ p, wf_path p → p ≠ [] → tbl m (f * PAGE_SIZE) p = None).
  { intros [|i p] [_ Hp] Hne; [done|]. simpl. unfold sub. apply Forall_cons in Hp as [Hi _]. by rewrite He. }
  split; [split|split; [done|]].
  - intros [|i p] t Hp Hpt; [|by rewrite Ht in Hpt]. injection Hpt as <-. by exists f.
  - intros [|i p] [|j q] t Hp Hq Hpt Hqt; [done|by rewrite Ht in Hqt|by rewrite Ht in Hpt..].
  - intros [|i p] t j Hl Hp Hj Hpt; [|by rewrite Ht in Hpt]. injection Hpt as <-. by rewrite He.
  - intros va. unfold leaf. by rewrite Ht by (done || apply idx2_wf).
Qed.

Definition all_absent (m : gmap Z Z) (t : Z) : bool :=
  forallb (λ j, negb (present (entry m t j))) (seqZ 0 512).
(** Entry [i] aside, the table is empty. *)
Definition others_absent (m : gmap Z Z) (t i : Z) : bool :=
  forallb (λ j, (j =? i) || negb (present (entry m t j))) (seqZ 0 512).

Lemma all_absent_spec m t : all_absent m t = true ↔ ∀ j, index j → present (entry m t j) = false.
Proof.
  unfold all_absent. rewrite forallb_forall. setoid_rewrite <- list_elem_of_In.
  setoid_rewrite elem_of_seqZ. setoid_rewrite negb_true_iff. unfold index.
  split; intros H j Hj; apply H; lia.
Qed.

Lemma forallb_ext_in {A} (f g : A → bool) l : (∀ x, x ∈ l → f x = g x) → forallb f l = forallb g l.
Proof. induction l as [|a l IH]; intros H; [done|]. simpl. rewrite H, IH by set_solver. done. Qed.

(** Clearing entry [i] leaves the other entries to decide. *)
Lemma all_absent_cleared m m' t i :
  (∀ j, index j → entry m' t j = if decide (j = i) then 0 else entry m t j) →
  all_absent m' t = others_absent m t i.
Proof.
  intros H. apply forallb_ext_in. intros j Hj%elem_of_seqZ. rewrite H by (unfold index; lia).
  case_decide; case Z.eqb_spec; try done; lia.
Qed.

Lemma leaf_below_empty m R p va t :
  p ≠ [] → p `prefix_of` idx3 va → tbl m R p = Some t → all_absent m t = true → leaf m R va = None.
Proof.
  intros Hne Hk Ht He. rewrite all_absent_spec in He. unfold leaf.
  assert (Hd : p = [PML4_INDEX va] ∨ p = idx2 va ∨ p = idx3 va).
  { destruct Hk as [k Ek]. unfold idx3 in *. destruct p as [|a [|b [|c [|d p]]]]; simplify_eq/=; auto. }
  destruct Hd as [ -> | [ -> | -> ] ].
  - change (idx2 va) with ([PML4_INDEX va] ++ [PDPT_INDEX va]). rewrite tbl_snoc, Ht. simpl.
    unfold sub. by rewrite He by apply land_1FF.
  - rewrite Ht, He by apply land_1FF. simpl andb. cbv iota. rewrite idx3_snoc, tbl_snoc, Ht. simpl.
    unfold sub. by rewrite He by apply land_1FF.
  - assert (Hs := Ht). rewrite idx3_snoc, tbl_snoc in Hs. destruct (tbl m R (idx2 va)) as [pd|]; [|done].
    simpl in Hs. unfold sub in Hs.
    destruct (present (entry m pd (PD_INDEX va))), (huge (entry m pd (PD_INDEX va))); try done.
    simpl andb. cbv iota. by rewrite Ht, He by apply land_1FF.
Qed.

(** Dropping an empty table changes no translation. *)
Lemma leaf_drop m R P p0 f0 i0 t va :
  pt_wf m R P → wf_path p0 → (length p0 ≤ 2)%nat → index i0 →
  tbl m R p0 = Some (f0 * PAGE_SIZE) → tbl m R (p0 ++ [i0]) = Some t → all_absent m t = true →
  leaf (<[f0 * PAGE_SIZE + 8 * i0 := 0]> m) R va = leaf m R va.
Proof.
  intros Hw Hp0 Hl Hi0 Ht0 Ht He.
  assert (Hnone : (p0 ++ [i0]) `prefix_of` idx3 va → leaf m R va = None).
  { intros Hk. eapply leaf_below_empty; [|done..]. intros E%app_nil. naive_solver. }
  destruct (decide (length p0 = 2%nat)).
  - rewrite (leaf_cut_pd m R P Hw p0) by (done || (simpl; lia)). case_decide as E; [|done].
    rewrite Hnone; [done|]. by rewrite E.
  - rewrite (leaf_cut_upper m R P Hw p0) by (done || (simpl; lia)). case_decide as E; [|done].
    rewrite Hnone; [done|]. etrans; [exact E|]. by exists [PD_INDEX va].
Qed.
