(* ===== verification/PmapSpec.v ===== *)
(** * Address-space operations against the translation they implement *)

From S2P Require Export PageTable.

Section spec.
Context {T : Type} `{!PageAllocator T}.
Implicit Types (s : pstate T) (pm : pmap_t).

(** The address space of [pm]: its root, its tree and the free frames [P]. *)
Record space pm s (P : Z → Prop) : Prop := Space {
  sp_root : pm_root_virt pm = phys_to_virt (pm_root_phys pm);
  sp_tree : pt_wf (ps_mem s) (pm_root_phys pm) P;
  sp_inv : pa_inv (ps_pages s) P;
}.

(** What the table operations leave alone. *)
Record same_rest s s' : Prop := SameRest {
  sr_cr3 : ps_cr3 s' = ps_cr3 s;
  sr_irq : ps_irq s' = ps_irq s;
  sr_pmaps : ps_pmaps s' = ps_pmaps s;
  sr_glinks : ps_glinks s' = ps_glinks s;
}.
#[export] Instance same_rest_preorder : PreOrder same_rest.
Proof. split; [done|]. intros s1 s2 s3 [????] [????]. split; congruence. Qed.

(** Memory outside the frames [W] and [P] is untouched. *)
Definition mem_frame (m m' : gmap Z Z) (W P : Z → Prop) : Prop :=
  ∀ f i, index i → ¬ W f → ¬ P f → entry m' (f * PAGE_SIZE) i = entry m (f * PAGE_SIZE) i.

Lemma table_virt pm s P p t :
  space pm s P → wf_path p → tbl (ps_mem s) (pm_root_phys pm) p = Some t →
  ∃ f, t = f * PAGE_SIZE ∧ 0 < f < 2 ^ 40 ∧ virt_to_phys (phys_to_virt t) = t ∧ ¬ P f.
Proof.
  intros [_ Hw _] Hp Ht. destruct (table_page _ _ _ Hw _ _ Hp Ht) as (f & -> & Hf & HP).
  exists f. split_and!; try done; try lia. by apply page_virt.
Qed.

Lemma get_entry_run s t i :
  virt_to_phys (phys_to_virt t) = t →
  get_entry (phys_to_virt t) i s = Done (entry (ps_mem s) t i) s.
Proof. intros E. unfold get_entry, kget, entry. by rewrite E. Qed.

Lemma set_entry_run s t i e :
  virt_to_phys (phys_to_virt t) = t →
  set_entry (phys_to_virt t) i e s = Done tt (set_mem (<[t + 8 * i := e]> (ps_mem s)) s).
Proof. intros E. unfold set_entry, kmodify. by rewrite E. Qed.

Lemma frame_eq f g : f * PAGE_SIZE = g * PAGE_SIZE → f = g.
Proof. change PAGE_SIZE with 4096. lia. Qed.

(** A step that only adds tables: no translation changes. *)
Record grows pm (va : Z) s s' (P P' : Z → Prop) : Prop := Grows {
  gr_space : space pm s' P';
  gr_rest : same_rest s s';
  gr_tlb : ps_tlb s' = ps_tlb s;
  gr_leaf : ∀ va', leaf (ps_mem s') (pm_root_phys pm) va' = leaf (ps_mem s) (pm_root_phys pm) va';
  gr_free : ∀ x, P' x → P x;
  gr_frame : mem_frame (ps_mem s) (ps_mem s') (path_frame (ps_mem s) (pm_root_phys pm) va) P;
  gr_tables : ∀ va' x, path_frame (ps_mem s') (pm_root_phys pm) va' x →
    path_frame (ps_mem s) (pm_root_phys pm) va' x ∨ P x;
}.

Lemma grows_refl pm va s P : space pm s P → grows pm va s s P P.
Proof. intros Hsp. split; try done. intros va' x Hx. by left. Qed.

Lemma grows_trans pm va s1 s2 s3 P1 P2 P3 :
  grows pm va s1 s2 P1 P2 → grows pm va s2 s3 P2 P3 → grows pm va s1 s3 P1 P3.
Proof.
  intros [_ Hr1 Ht1 Hl1 Hf1 Hm1 Htb1] [Hsp Hr2 Ht2 Hl2 Hf2 Hm2 Htb2]. split.
  - done.
  - by etrans.
  - congruence.
  - intros va'. by rewrite Hl2.
  - auto.
  - intros f i Hi Ht HP. rewrite Hm2, Hm1; [done..| |by auto].
    intros [?|?]%Htb1; done.
  - intros va' x [Hx|Hx]%Htb2; [by apply Htb1|right; by apply Hf1].
Qed.

(** Linking the cleared page [n] below the table at path [p]. *)
Lemma attach_grows pm va s P p f i n (t' : T) :
  let s' := set_mem (<[f * PAGE_SIZE + 8 * i := table_entry (n * PAGE_SIZE)]> (zero_page (n * PAGE_SIZE) (ps_mem s)))
    (set_pages t' s) in
  space pm s P → p ++ [i] `prefix_of` idx3 va → wf_path p → (length p ≤ 2)%nat → index i →
  tbl (ps_mem s) (pm_root_phys pm) p = Some (f * PAGE_SIZE) →
  present (entry (ps_mem s) (f * PAGE_SIZE) i) = false →
  0 < n < 2 ^ 40 → P n → pa_inv t' (λ x, P x ∧ ¬ in_block n 0 x) →
  grows pm va s s' P (λ x, P x ∧ ¬ in_block n 0 x) ∧
  (∀ q, wf_path q → q ≠ p ++ [i] → tbl (ps_mem s') (pm_root_phys pm) q = tbl (ps_mem s) (pm_root_phys pm) q) ∧
  tbl (ps_mem s') (pm_root_phys pm) (p ++ [i]) = Some (n * PAGE_SIZE) ∧
  entry (ps_mem s') (f * PAGE_SIZE) i = table_entry (n * PAGE_SIZE).
Proof.
  intros s' Hsp Hva Hp Hl Hi Ht Hpr Hn HPn Hinv. set (R := pm_root_phys pm) in *.
  set (P' := λ x, P x ∧ ¬ in_block n 0 x) in *.
  assert (HP' : ∀ x, P' x → P x ∧ x ≠ n) by (intros x; unfold P'; by rewrite in_block_0).
  assert (Hn0 : 0 ≤ n < 2 ^ 40) by (change (2 ^ 40) with 0x10000000000 in *; lia).
  assert (Hw := sp_tree _ _ _ Hsp). fold R in Hw.
  destruct (table_page _ _ _ Hw _ _ Hp Ht) as (f' & Ef & _ & HPf). apply frame_eq in Ef as <-.
  pose proof (pt_wf_attach _ R P Hw p f i n Hl Hp Ht Hi Hpr Hn HPn _ (table_entry_spec n Hn0) P' HP') as Hw2.
  pose proof (leaf_attach _ R P Hw p f i n Hl Hp Ht Hi Hpr Hn HPn _ (table_entry_spec n Hn0)) as Hleaf.
  pose proof (tbl_attach _ R P Hw p f i n Hl Hp Ht Hi Hpr Hn HPn _ (table_entry_spec n Hn0)) as Htbl.
  split; [split|split; [|split]].
  - split; [apply Hsp|exact Hw2|exact Hinv].
  - by split.
  - done.
  - exact Hleaf.
  - by intros x [Hx _].
  - intros g j Hj Hg HPg. cbn [set_mem set_pages ps_mem s'].
    rewrite entry_write, decide_False by (done ||
      (intros [<- _]; apply Hg; exists p; split; [etrans; [|exact Hva]; by exists [i]|done])).
    by rewrite entry_zero, decide_False by (done || by intros ->).
  - intros va' x (q & Hq & Hx). cbn [set_mem set_pages ps_mem s'] in Hx.
    rewrite Htbl in Hx by by eapply wf_path_prefix, idx3_wf. case_decide as Hc.
    + injection Hx as Hx%frame_eq. subst x. by right.
    + left. by exists q.
  - intros q Hq Hne. cbn [set_mem set_pages ps_mem s']. by rewrite Htbl, decide_False.
  - cbn [set_mem set_pages ps_mem s']. rewrite Htbl by by apply wf_path_snoc. by rewrite decide_True.
  - cbn [set_mem set_pages ps_mem s']. by rewrite entry_write, decide_True.
Qed.

(** Every outcome of [next_table]: no page and no change, or the table below
    (an existing one, or a cleared free page), with every translation kept. *)
Lemma next_table_spec pm s P p f i va :
  space pm s P → (p ++ [i]) `prefix_of` idx3 va → wf_path p → (length p ≤ 2)%nat → index i →
  tbl (ps_mem s) (pm_root_phys pm) p = Some (f * PAGE_SIZE) →
  (present (entry (ps_mem s) (f * PAGE_SIZE) i) = true → huge (entry (ps_mem s) (f * PAGE_SIZE) i) = false) →
  ∃ r s' P', next_table (phys_to_virt (f * PAGE_SIZE)) i s = Done r s' ∧
    grows pm va s s' P P' ∧
    (∀ q, wf_path q → q ≠ p ++ [i] → tbl (ps_mem s') (pm_root_phys pm) q = tbl (ps_mem s) (pm_root_phys pm) q) ∧
    match r with
    | None => True
    | Some v => ∃ g, v = phys_to_virt (g * PAGE_SIZE) ∧
        tbl (ps_mem s') (pm_root_phys pm) (p ++ [i]) = Some (g * PAGE_SIZE)
    end.
Proof.
  intros Hsp Hva Hp Hl Hi Ht Hhuge. set (R := pm_root_phys pm) in *.
  destruct (table_virt pm s P p _ Hsp Hp Ht) as (f' & Ef & Hf & Hv & HP). apply frame_eq in Ef as <-.
  unfold next_table. erewrite bind_done; [|by apply get_entry_run].
  destruct (present (entry (ps_mem s) (f * PAGE_SIZE) i)) eqn:Hpr.
  - erewrite bind_done; [|reflexivity]. cbv iota.
    erewrite bind_done; [|by apply get_entry_run].
    assert (Hsub : tbl (ps_mem s) R (p ++ [i]) = Some (Z.land (entry (ps_mem s) (f * PAGE_SIZE) i) PTE_ADDR_MASK)).
    { rewrite tbl_snoc, Ht. simpl. unfold sub. by rewrite Hpr, Hhuge. }
    destruct (table_virt _ _ _ _ _ Hsp (wf_path_snoc _ _ Hl Hp Hi) Hsub) as (g & Eg & _).
    eexists _, s, P. split; [reflexivity|]. split; [by apply grows_refl|]. split; [done|].
    exists g. by rewrite <- Eg.
  - destruct (pa_alloc_spec (ps_pages s) P 0 (sp_inv _ _ _ Hsp)) as
      [(t' & E & Hinv)|(n & t' & E & Hn & Hn40 & HPn & Hinv)]; [done| |].
    + erewrite bind_done; [|erewrite bind_done; [|by apply klift_done]; reflexivity]. cbv iota.
      eexists None, _, P. split; [reflexivity|]. split; [|by split]. split; try done.
      * destruct Hsp. by split.
      * intros va' x Hx. by left.
    + change (2 ^ 0) with 1 in *.
      assert (Hn' : 0 < n < 2 ^ 40) by (change (2 ^ 40) with 0x10000000000 in *; lia).
      assert (HPn' : P n) by (apply HPn; by apply in_block_0).
      destruct (attach_grows pm va s P p f i n t' Hsp Hva Hp Hl Hi Ht Hpr Hn' HPn' Hinv) as (G & Hold & Hnew & He).
      exists (Some (phys_to_virt (n * PAGE_SIZE))). eexists _, _. split.
      { erewrite bind_done; cycle 1.
        { erewrite bind_done; [|by apply klift_done].
          rewrite (proj2 (Z.eqb_neq _ _)) by (change PAGE_SIZE with 4096; lia).
          erewrite bind_done; [|unfold memset_page, kmodify; rewrite page_virt by done; reflexivity].
          erewrite bind_done; [|by apply set_entry_run]. reflexivity. }
        cbv iota. erewrite bind_done; [|by apply get_entry_run]. cbn [set_mem set_pages ps_mem] in He |- *.
        rewrite He. by rewrite (proj2 (proj2 (table_entry_spec n ltac:(lia)))). }
      split; [exact G|]. split; [exact Hold|]. by exists n.
Qed.

Lemma next_table_present pm s P p f i t :
  space pm s P → wf_path p → (length p ≤ 2)%nat → index i →
  tbl (ps_mem s) (pm_root_phys pm) p = Some (f * PAGE_SIZE) →
  tbl (ps_mem s) (pm_root_phys pm) (p ++ [i]) = Some t →
  next_table (phys_to_virt (f * PAGE_SIZE)) i s = Done (Some (phys_to_virt t)) s.
Proof.
  intros Hsp Hp Hl Hi Ht Ht2.
  destruct (table_virt pm s P p _ Hsp Hp Ht) as (f' & Ef & Hf & Hv & HP). apply frame_eq in Ef as <-.
  rewrite tbl_snoc, Ht in Ht2. simpl in Ht2. unfold sub in Ht2.
  unfold next_table. erewrite bind_done; [|by apply get_entry_run].
  destruct (present _); [|done]. erewrite bind_done; [|reflexivity]. cbv iota.
  erewrite bind_done; [|by apply get_entry_run]. destruct (negb _); simplify_eq/=. done.
Qed.
End spec.

(** ** The entries written for pages *)

Lemma pte_flags_cases flags :
  Z.land (pte_flags flags) PTE_ADDR_MASK = 0 ∧ Z.land (pte_flags flags) PD_ADDR_MASK = 0 ∧
  Z.testbit (pte_flags flags) 0 = true.
Proof.
  unfold pte_flags.
  destruct (has_flag flags PROT_WRITE), (has_flag flags PROT_USER), (has_flag flags PROT_GLOBAL),
    (has_flag flags PROT_EXEC); by vm_compute.
Qed.

Lemma page_entry_present pa flags : present (page_entry pa flags) = true.
Proof.
  destruct (pte_flags_cases flags) as (_ & _ & H).
  unfold present, page_entry, PTE_PRESENT. rewrite has_flag_bit, Z.lor_spec by done.
  destruct (has_flag flags PROT_WC); rewrite ?Z.lor_spec, H; simpl; by rewrite ?orb_true_r.
Qed.

Lemma page_entry_addr pa flags : Z.land (page_entry pa flags) PTE_ADDR_MASK = Z.land pa PTE_ADDR_MASK.
Proof.
  destruct (pte_flags_cases flags) as (H & _ & _). unfold page_entry.
  rewrite mask_flags; [by rewrite <- Z.land_assoc, Z.land_diag|].
  destruct (has_flag flags PROT_WC); [|done]. by rewrite mask_flags.
Qed.

Lemma huge_entry_flags pa flags :
  present (huge_entry pa flags) = true ∧ huge (huge_entry pa flags) = true.
Proof.
  destruct (pte_flags_cases flags) as (_ & _ & H).
  unfold present, huge, huge_entry, PTE_PRESENT, PDE_HUGE. rewrite !has_flag_bit, !Z.lor_spec by done.
  destruct (has_flag flags PROT_WC); rewrite ?Z.lor_spec, ?H; simpl; by rewrite ?orb_true_r.
Qed.

Lemma huge_entry_addr pa flags : Z.land (huge_entry pa flags) PD_ADDR_MASK = Z.land pa PD_ADDR_MASK.
Proof.
  destruct (pte_flags_cases flags) as (_ & H & _). unfold huge_entry.
  rewrite Z.land_lor_distr_l, <- Z.land_assoc, Z.land_diag.
  destruct (has_flag flags PROT_WC); rewrite !Z.land_lor_distr_l, H; by rewrite Z.lor_0_r.
Qed.

Section map_page.
Context {T : Type} `{!PageAllocator T}.
Implicit Types (s : pstate T) (pm : pmap_t).

Lemma root_table pm s P :
  space pm s P → ∃ f, pm_root_virt pm = phys_to_virt (f * PAGE_SIZE) ∧
    tbl (ps_mem s) (pm_root_phys pm) [] = Some (f * PAGE_SIZE).
Proof.
  intros Hsp. destruct (table_virt pm s P [] (pm_root_phys pm) Hsp) as (f & Ef & _); [|done|].
  - split; [simpl; lia|done].
  - exists f. rewrite (sp_root _ _ _ Hsp). simpl. by rewrite <- Ef.
Qed.

(** The first two steps of the walk; [None] is the [return -1] of either. *)
Definition walk2 (pm : pmap_t) (va : Z) : K (pstate T) (option Z) :=
  r ← next_table (pm_root_virt pm) (PML4_INDEX va);
  match r with None => mret None | Some pdpt => next_table pdpt (PDPT_INDEX va) end.

Lemma wf_path1 va : wf_path [PML4_INDEX va].
Proof. split; [simpl; lia|]. apply Forall_singleton, land_1FF. Qed.
Lemma wf_path0 : wf_path [].
Proof. split; [simpl; lia|done]. Qed.

Lemma walk2_spec pm s P va :
  space pm s P → ∃ r s' P', walk2 pm va s = Done r s' ∧ grows pm va s s' P P' ∧
    (∀ va', tbl (ps_mem s') (pm_root_phys pm) (idx3 va') = tbl (ps_mem s) (pm_root_phys pm) (idx3 va')) ∧
    match r with
    | None => True
    | Some v => ∃ g, v = phys_to_virt (g * PAGE_SIZE) ∧
        tbl (ps_mem s') (pm_root_phys pm) (idx2 va) = Some (g * PAGE_SIZE)
    end.
Proof.
  intros Hsp. destruct (root_table _ _ _ Hsp) as (f & Er & Et).
  destruct (next_table_spec pm s P [] f (PML4_INDEX va) va) as (r & s1 & P1 & E1 & G1 & Hq1 & Hr);
    [done|by exists [PDPT_INDEX va; PD_INDEX va]|apply wf_path0|simpl; lia|apply land_1FF|done| |].
  { apply (wf_upper _ _ _ (sp_tree _ _ _ Hsp) []); [simpl; lia|apply wf_path0|apply land_1FF|done]. }
  unfold walk2. rewrite Er. erewrite bind_done by done. destruct r as [v|].
  2: { eexists None, s1, P1. split; [reflexivity|]. split_and!; [done| |done].
       intros va'. by apply Hq1; [apply idx3_wf|]. }
  destruct Hr as (g & -> & Hg). assert (Hsp1 := gr_space _ _ _ _ _ _ G1).
  destruct (next_table_spec pm s1 P1 [PML4_INDEX va] g (PDPT_INDEX va) va) as (r & s2 & P2 & E2 & G2 & Hq2 & Hr);
    [done|by exists [PD_INDEX va]|apply wf_path1|simpl; lia|apply land_1FF|done| |].
  { apply (wf_upper _ _ _ (sp_tree _ _ _ Hsp1) [PML4_INDEX va]); [simpl; lia|apply wf_path1|apply land_1FF|done]. }
  exists r, s2, P2. split; [done|]. split; [by eapply grows_trans|]. split; [|by destruct r].
  intros va'. rewrite Hq2, Hq1 by (done || apply idx3_wf). done.
Qed.

(** When the page directory exists already, the walk changes nothing. *)
Lemma walk2_present pm s P va pd :
  space pm s P → tbl (ps_mem s) (pm_root_phys pm) (idx2 va) = Some pd →
  walk2 pm va s = Done (Some (phys_to_virt pd)) s.
Proof.
  intros Hsp Hpd. destruct (root_table _ _ _ Hsp) as (f & Er & Et).
  destruct (tbl_prefix _ _ [PML4_INDEX va] _ _ ltac:(by exists [PDPT_INDEX va]) Hpd) as [t Ht].
  destruct (table_virt pm s P [PML4_INDEX va] t Hsp) as (g & -> & _); [apply wf_path1|done|].
  unfold walk2. rewrite Er. erewrite bind_done; [|eapply (next_table_present pm s P []); try done;
    [apply wf_path0|simpl; lia|apply land_1FF]].
  eapply (next_table_present pm s P [PML4_INDEX va]); try done; [apply wf_path1|simpl; lia|apply land_1FF].
Qed.

Lemma map_page_walk pm va pa flags s :
  pmap_map_page pm va pa flags s =
  (r ← walk2 pm va;
   match r with None => mret (-1) | Some pd =>
   if has_flag flags PROT_HUGE then
     e ← get_entry pd (PD_INDEX va);
     (if present e && negb (huge e) then on_pages (pa_free (Z.land e PTE_ADDR_MASK) 0) else mret tt);;
     set_entry pd (PD_INDEX va) (huge_entry pa flags);;
     mret 0
   else
     r ← next_table pd (PD_INDEX va);
     match r with None => mret (-1) | Some pt =>
       set_entry pt (PT_INDEX va) (page_entry pa flags);; mret 0
     end end) s.
Proof.
  unfold pmap_map_page, walk2, mbind, K_bind. destruct (next_table _ _ s) as [[pdpt|] s1| | |]; done.
Qed.

Definition same_page (va va' : Z) : Prop := idx3 va = idx3 va' ∧ PT_INDEX va = PT_INDEX va'.
#[export] Instance same_page_dec va va' : Decision (same_page va va').
Proof. unfold same_page. apply _. Defined.

(** Outcomes of mapping one 4 KiB page. *)
Lemma map_page_spec pm s P va pa flags :
  space pm s P → has_flag flags PROT_HUGE = false →
  (∀ e, leaf (ps_mem s) (pm_root_phys pm) va ≠ Some (true, e)) →
  ∃ r s' P', pmap_map_page pm va pa flags s = Done r s' ∧
    space pm s' P' ∧ same_rest s s' ∧ ps_tlb s' = ps_tlb s ∧ (∀ x, P' x → P x) ∧
    mem_frame (ps_mem s) (ps_mem s') (path_frame (ps_mem s) (pm_root_phys pm) va) P ∧
    (∀ va' x, path_frame (ps_mem s') (pm_root_phys pm) va' x → path_frame (ps_mem s) (pm_root_phys pm) va' x ∨ P x) ∧
    ((r = -1 ∧ ∀ va', leaf (ps_mem s') (pm_root_phys pm) va' = leaf (ps_mem s) (pm_root_phys pm) va') ∨
     (r = 0 ∧ ∀ va', leaf (ps_mem s') (pm_root_phys pm) va' =
        if decide (same_page va' va) then Some (false, page_entry pa flags)
        else leaf (ps_mem s) (pm_root_phys pm) va')).
Proof.
  intros Hsp Hfl Hnh. rewrite map_page_walk.
  destruct (walk2_spec pm s P va Hsp) as (r & s1 & P1 & E1 & G1 & _ & Hr).
  erewrite bind_done by done. destruct r as [pdv|].
  2: { destruct G1. eexists (-1), s1, P1. split; [reflexivity|]. split_and!; try done. by left. }
  destruct Hr as (pd & -> & Hpd). rewrite Hfl. assert (Hsp1 := gr_space _ _ _ _ _ _ G1).
  destruct (next_table_spec pm s1 P1 (idx2 va) pd (PD_INDEX va) va) as (r & s2 & P2 & E2 & G2 & Hq2 & Hr);
    [done|done|apply idx2_wf|simpl; lia|apply land_1FF|done| |].
  { intros Hpr. specialize (Hnh (entry (ps_mem s1) (pd * PAGE_SIZE) (PD_INDEX va))).
    rewrite <- (gr_leaf _ _ _ _ _ _ G1 va) in Hnh. unfold leaf in Hnh. rewrite Hpd, Hpr in Hnh.
    destruct (huge _); [|done]. by destruct Hnh. }
  assert (G := grows_trans _ _ _ _ _ _ _ _ G1 G2). erewrite bind_done by done. destruct r as [ptv|].
  2: { destruct G. eexists (-1), s2, P2. split; [reflexivity|]. split_and!; try done. by left. }
  destruct Hr as (pt & -> & Hpt). rewrite <- idx3_snoc in Hpt. destruct G as [Hsp2 Hrest Htlb Hleaf Hfree Hfr Htab].
  destruct (table_virt _ _ _ _ _ Hsp2 (idx3_wf va) Hpt) as (g & Eg & _ & Hv & _).
  set (m' := <[pt * PAGE_SIZE + 8 * PT_INDEX va := page_entry pa flags]> (ps_mem s2)).
  eexists 0, (set_mem m' s2), P2. split.
  { erewrite bind_done; [|by apply set_entry_run]. reflexivity. }
  pose proof (sp_tree _ _ _ Hsp2) as Hw.
  split_and!; try done.
  - split; [apply Hsp2| |apply Hsp2].
    apply (pt_wf_cut _ _ P2 Hw (idx3 va)); [apply idx3_wf|done|apply land_1FF|simpl; lia..].
  - destruct Hrest. by split.
  - intros f i Hi Ht HP. cbn [set_mem ps_mem]. unfold m'. rewrite entry_write by (done || apply land_1FF).
    rewrite decide_False; [by apply Hfr|]. intros [<- _].
    destruct (Htab va pt ltac:(by exists (idx3 va))) as [Hx|Hx]; [exact (Ht Hx)|exact (HP Hx)].
  - intros va' x (q & Hq & Hx). apply Htab. exists q. split; [done|].
    apply (tbl_cut_Some _ _ P2 Hw (idx3 va) pt (PT_INDEX va) (page_entry pa flags) (idx3_wf va) Hpt (land_1FF _));
      [simpl; lia|simpl; lia|by eapply wf_path_prefix, idx3_wf|exact Hx].
  - right. split; [done|]. intros va'. cbn [set_mem ps_mem]. unfold m'.
    rewrite (leaf_cut_pt _ _ P2 Hw (idx3 va)) by (done || apply idx3_wf || apply land_1FF || (simpl; lia)).
    rewrite page_entry_present. rewrite Hleaf. unfold same_page.
    destruct (decide (idx3 va' = idx3 va ∧ _)); reflexivity.
Qed.

(** The translations once a huge entry is written in the page directory. *)
Lemma huge_leaf m R P va pd pa flags va' :
  pt_wf m R P → tbl m R (idx2 va) = Some (pd * PAGE_SIZE) →
  leaf (<[pd * PAGE_SIZE + 8 * PD_INDEX va := huge_entry pa flags]> m) R va' =
    if decide (idx3 va' = idx3 va) then Some (true, huge_entry pa flags) else leaf m R va'.
Proof.
  intros Hw Hpd. destruct (huge_entry_flags pa flags) as [Hpr Hhu].
  rewrite (leaf_cut_pd _ _ P Hw (idx2 va)) by (done || apply idx2_wf || apply land_1FF ||
    (by rewrite Hpr, Hhu) || (simpl; lia)).
  by rewrite Hpr.
Qed.

(** Mapping one 2 MiB page, on every branch: without a page for a missing
    table the call fails and keeps every translation; otherwise the 2 MiB around
    [va] translate to the huge page, every other address as before, and a page
    table that the huge page replaces is returned to the allocator. *)
Theorem pmap_map_huge_page pm s P va pa flags :
  space pm s P → has_flag flags PROT_HUGE = true →
  (∀ f, tbl (ps_mem s) (pm_root_phys pm) (idx3 va) = Some (f * PAGE_SIZE) → pa_free_ok (ps_pages s) P f 0) →
  ∃ r s' P', pmap_map_page pm va pa flags s = Done r s' ∧
    space pm s' P' ∧ same_rest s s' ∧ ps_tlb s' = ps_tlb s ∧
    (∀ x, P' x → P x ∨ tbl (ps_mem s) (pm_root_phys pm) (idx3 va) = Some (x * PAGE_SIZE)) ∧
    ((r = -1 ∧ ∀ va', leaf (ps_mem s') (pm_root_phys pm) va' = leaf (ps_mem s) (pm_root_phys pm) va') ∨
     (r = 0 ∧ ∀ va', leaf (ps_mem s') (pm_root_phys pm) va' =
        if decide (idx3 va' = idx3 va) then Some (true, huge_entry pa flags)
        else leaf (ps_mem s) (pm_root_phys pm) va')).
Proof.
  intros Hsp Hfl Hfree. destruct (huge_entry_flags pa flags) as [Hpr Hhu]. rewrite map_page_walk.
  destruct (tbl (ps_mem s) (pm_root_phys pm) (idx3 va)) as [t3|] eqn:E3.
  - destruct (tbl_prefix _ _ (idx2 va) _ _ ltac:(by exists [PD_INDEX va]) E3) as [t2 E2].
    destruct (table_virt _ _ _ _ _ Hsp (idx3_wf va) E3) as (f & -> & Hf & _ & HPf).
    destruct (table_virt _ _ _ _ _ Hsp (idx2_wf va) E2) as (pd & -> & _ & Hv & _).
    erewrite bind_done; [|by eapply walk2_present]. rewrite Hfl.
    erewrite bind_done; [|by apply get_entry_run].
    assert (Hs := E3). rewrite idx3_snoc, tbl_snoc, E2 in Hs. simpl in Hs. unfold sub in Hs.
    destruct (present (entry (ps_mem s) (pd * PAGE_SIZE) (PD_INDEX va)) && _) eqn:Ee; [|done].
    injection Hs as ->.
    destruct (pa_free_spec _ _ _ _ (Hfree f eq_refl)) as (t' & Et & Hinv).
    erewrite bind_done; [|by apply klift_done]. erewrite bind_done; [|by apply set_entry_run].
    eexists 0, _, _. split; [reflexivity|]. pose proof (sp_tree _ _ _ Hsp) as Hw.
    rewrite idx3_snoc in E3. cbn [set_mem ps_mem set_pages]. split_and!.
    + split; [apply Hsp| |exact Hinv]. cbn [set_mem ps_mem set_pages].
      apply (pt_wf_mono _ _ (λ x, P x ∨ x = f)); [|by intros x; rewrite in_block_0].
      apply (pt_wf_cut_free _ _ P Hw (idx2 va)); try done; try apply idx2_wf; try apply land_1FF; simpl; try lia.
      by rewrite Hpr, Hhu.
    + done.
    + done.
    + intros x [?| ->%in_block_0]; [by left|by right].
    + right. split; [done|]. intros va'. by apply (huge_leaf _ _ P).
  - destruct (walk2_spec pm s P va Hsp) as (r & s1 & P1 & E1 & G1 & Hq & Hr).
    erewrite bind_done by done. destruct r as [pdv|].
    2: { destruct G1. eexists (-1), s1, P1. split; [reflexivity|]. split_and!; try done; [auto|]. by left. }
    destruct Hr as (pd & -> & Hpd). rewrite Hfl. assert (Hsp1 := gr_space _ _ _ _ _ _ G1).
    destruct (table_virt _ _ _ _ _ Hsp1 (idx2_wf va) Hpd) as (g & Eg & _ & Hv & _).
    erewrite bind_done; [|by apply get_entry_run].
    specialize (Hq va). rewrite E3, idx3_snoc, tbl_snoc, Hpd in Hq. simpl in Hq. unfold sub in Hq.
    destruct (present (entry (ps_mem s1) (pd * PAGE_SIZE) (PD_INDEX va)) && _); [done|].
    erewrite bind_done; [|reflexivity]. erewrite bind_done; [|by apply set_entry_run].
    eexists 0, _, P1. split; [reflexivity|]. pose proof (sp_tree _ _ _ Hsp1) as Hw.
    cbn [set_mem ps_mem]. destruct G1 as [_ [????] Htlb Hleaf Hfr _ _]. split_and!; try done.
    + split; [apply Hsp1| |apply Hsp1].
      apply (pt_wf_cut _ _ P1 Hw (idx2 va)); try done; try apply idx2_wf; try apply land_1FF; simpl; try lia.
      by rewrite Hpr, Hhu.
    + auto.
    + right. split; [done|]. intros va'. by rewrite (huge_leaf _ _ P1), Hleaf.
Qed.
End map_page.
