(* ===== verification/PmapUnmap.v ===== *)
(** * Unmapping: clearing one page and tearing down the tables it leaves empty *)

From S2P Require Export PmapSpec.

Section unmap.
Context {T : Type} `{!PageAllocator T}.
Implicit Types (s : pstate T) (pm : pmap_t).

(** The frames of [l] can be returned one after the other. *)
Fixpoint frees_ok (t : T) (P : Z → Prop) (l : list Z) : Prop :=
  match l with
  | [] => True
  | f :: l' => pa_free_ok t P f 0 ∧
      ∀ t', pa_free (f * PAGE_SIZE) 0 t = Done tt t' → frees_ok t' (λ x, P x ∨ in_block f 0 x) l'
  end.

Lemma table_empty_run n t i s :
  virt_to_phys (phys_to_virt t) = t →
  table_empty_from n (phys_to_virt t) i s =
    Done (forallb (λ j, negb (present (entry (ps_mem s) t j))) (seqZ i (Z.of_nat n))) s.
Proof.
  intros Hv. revert i. induction n as [|n IH]; intros i; [done|]. cbn [table_empty_from].
  erewrite bind_done; [|by apply get_entry_run]. rewrite seqZ_cons by lia.
  replace (Z.pred (Z.of_nat (S n))) with (Z.of_nat n) by lia. simpl forallb.
  destruct (present _); [done|]. simpl. rewrite IH. by rewrite Z.add_1_r.
Qed.

Lemma is_table_empty_run t s :
  virt_to_phys (phys_to_virt t) = t →
  is_table_empty (phys_to_virt t) s = Done (all_absent (ps_mem s) t) s.
Proof. apply table_empty_run. Qed.

Lemma teardown_spec pm s P p f i g :
  space pm s P → wf_path p → (length p ≤ 2)%nat → index i →
  tbl (ps_mem s) (pm_root_phys pm) p = Some (f * PAGE_SIZE) →
  tbl (ps_mem s) (pm_root_phys pm) (p ++ [i]) = Some (g * PAGE_SIZE) →
  all_absent (ps_mem s) (g * PAGE_SIZE) = true → pa_free_ok (ps_pages s) P g 0 →
  ∃ t', pa_free (g * PAGE_SIZE) 0 (ps_pages s) = Done tt t' ∧
    teardown (phys_to_virt (f * PAGE_SIZE)) i s =
      Done tt (set_mem (<[f * PAGE_SIZE + 8 * i := 0]> (ps_mem s)) (set_pages t' s)) ∧
    space pm (set_mem (<[f * PAGE_SIZE + 8 * i := 0]> (ps_mem s)) (set_pages t' s)) (λ x, P x ∨ in_block g 0 x) ∧
    ∀ va, leaf (<[f * PAGE_SIZE + 8 * i := 0]> (ps_mem s)) (pm_root_phys pm) va =
          leaf (ps_mem s) (pm_root_phys pm) va.
Proof.
  intros Hsp Hp Hl Hi Ht Hg He Hok. pose proof (sp_tree _ _ _ Hsp) as Hw.
  destruct (pa_free_spec _ _ _ _ Hok) as (t' & Et & Hinv). exists t'.
  destruct (table_virt _ _ _ _ _ Hsp Hp Ht) as (f' & Ef & _ & Hv & _).
  assert (Hs := Hg). rewrite tbl_snoc, Ht in Hs. simpl in Hs. unfold sub in Hs.
  destruct (present _ && _) eqn:Ee; [|done]. injection Hs as Ea.
  split; [done|]. split; [|split].
  - unfold teardown. erewrite bind_done; [|by apply get_entry_run]. rewrite Ea.
    erewrite bind_done; [|by apply klift_done]. by rewrite set_entry_run.
  - split; [apply Hsp| |exact Hinv]. cbn [set_mem ps_mem].
    assert (Hc : pt_wf (<[f * PAGE_SIZE + 8 * i:=0]> (ps_mem s)) (pm_root_phys pm) (λ x, P x ∨ x = g)).
    { by apply (pt_wf_cut_free _ _ P Hw p). }
    destruct Hc as [H1 H2 H3]. split; [|done|done]. intros q t Hq Hqt.
    destruct (H1 q t Hq Hqt) as (k & -> & ? & Hk). exists k. split_and!; [done|lia|lia|].
    intros [?|Hin]; apply Hk; [by left|right]. unfold in_block in Hin. change (2 ^ 0) with 1 in Hin. lia.
  - intros va. by eapply leaf_drop.
Qed.

(** The frames [pmap_unmap_page] returns, in order. *)
Definition unmap_frees (m : gmap Z Z) (R va : Z) : list Z :=
  match leaf m R va, tbl m R [PML4_INDEX va], tbl m R (idx2 va), tbl m R (idx3 va) with
  | Some (false, _), Some pdpt, Some pd, Some pt =>
      if others_absent m pt (PT_INDEX va) then
        phys_to_pfn pt ::
        (if others_absent m pd (PD_INDEX va) then
           phys_to_pfn pd :: (if others_absent m pdpt (PDPT_INDEX va) then [phys_to_pfn pdpt] else [])
         else [])
      else []
  | _, _, _, _ => []
  end.

(** The addresses one call of [pmap_unmap_page] unmaps, and its step. *)
Definition covers (m : gmap Z Z) (R va va' : Z) : Prop :=
  match leaf m R va with
  | Some (true, _) => idx3 va' = idx3 va
  | Some (false, _) => same_page va' va
  | None => False
  end.
#[export] Instance covers_dec m R va va' : Decision (covers m R va va').
Proof. unfold covers. destruct (leaf m R va) as [[[] ?]|]; apply _. Defined.

Definition unmap_step (m : gmap Z Z) (R va : Z) : Z :=
  match leaf m R va with Some (true, _) => PAGE_SIZE_HUGE | _ => PAGE_SIZE end.

(** The invalidations logged: the page, when it was mapped and [pm] is active. *)
Definition unmap_tlb pm s (va : Z) : list flush :=
  match leaf (ps_mem s) (pm_root_phys pm) va with
  | Some _ => if ps_cr3 s =? pm_root_phys pm then FlushPage va :: ps_tlb s else ps_tlb s
  | None => ps_tlb s
  end.

(** What an entry of a table can be. *)
Lemma entry_cases pm s P p f i :
  space pm s P → wf_path p → (length p ≤ 2)%nat → index i →
  tbl (ps_mem s) (pm_root_phys pm) p = Some (f * PAGE_SIZE) →
  let e := entry (ps_mem s) (f * PAGE_SIZE) i in
  (present e = false ∧ tbl (ps_mem s) (pm_root_phys pm) (p ++ [i]) = None) ∨
  (present e = true ∧ huge e = true ∧ tbl (ps_mem s) (pm_root_phys pm) (p ++ [i]) = None ∧ length p = 2%nat) ∨
  ∃ g, present e = true ∧ huge e = false ∧ Z.land e PTE_ADDR_MASK = g * PAGE_SIZE ∧
    tbl (ps_mem s) (pm_root_phys pm) (p ++ [i]) = Some (g * PAGE_SIZE).
Proof.
  intros Hsp Hp Hl Hi Ht e.
  assert (Es : tbl (ps_mem s) (pm_root_phys pm) (p ++ [i]) =
    if present e && negb (huge e) then Some (Z.land e PTE_ADDR_MASK) else None).
  { rewrite tbl_snoc, Ht. done. }
  destruct (present e) eqn:Ep; [right|by left]. destruct (huge e) eqn:Eh; [left|right].
  - split_and!; [done..|]. destruct (decide (length p = 2%nat)); [done|].
    assert (Hh : huge e = false); [|congruence].
    apply (wf_upper _ _ _ (sp_tree _ _ _ Hsp) p); [lia|done..].
  - simpl in Es. destruct (table_virt _ _ _ _ _ Hsp (wf_path_snoc _ _ Hl Hp Hi) Es) as (g & Eg & _).
    exists g. split_and!; try done. by rewrite <- Eg.
Qed.

(** Clearing the entry of a mapped 4 KiB page. *)
Lemma clear_page_spec pm s P va f :
  space pm s P → tbl (ps_mem s) (pm_root_phys pm) (idx3 va) = Some (f * PAGE_SIZE) →
  let m' := <[f * PAGE_SIZE + 8 * PT_INDEX va := 0]> (ps_mem s) in
  pt_wf m' (pm_root_phys pm) P ∧
  (∀ p, wf_path p → tbl m' (pm_root_phys pm) p = tbl (ps_mem s) (pm_root_phys pm) p) ∧
  (∀ p t i, wf_path p → tbl (ps_mem s) (pm_root_phys pm) p = Some t → index i →
     entry m' t i = if decide (p = idx3 va ∧ i = PT_INDEX va) then 0 else entry (ps_mem s) t i) ∧
  ∀ va', leaf m' (pm_root_phys pm) va' =
    if decide (same_page va' va) then None else leaf (ps_mem s) (pm_root_phys pm) va'.
Proof.
  intros Hsp Ht m'. pose proof (sp_tree _ _ _ Hsp) as Hw. pose proof (idx3_wf va) as Hp.
  assert (Hi := land_1FF (Z.shiftr va 12)). fold (PT_INDEX va) in Hi. split_and!.
  - by apply (pt_wf_cut _ _ P Hw (idx3 va)).
  - intros p Hpp. apply (tbl_write_other _ _ P Hw (idx3 va)); try done. by apply prefix_snoc_long.
  - intros p t i. by apply (entry_write_path _ _ P Hw (idx3 va)).
  - intros va'. unfold m'. rewrite (leaf_cut_pt _ _ P Hw (idx3 va)) by (done || (simpl; lia)). done.
Qed.

(** The frames returned once the page is cleared. *)
Definition tail_frees (m : gmap Z Z) (va f3 f2 f1 : Z) : list Z :=
  if all_absent m (f1 * PAGE_SIZE) then
    f1 :: (if others_absent m (f2 * PAGE_SIZE) (PD_INDEX va) then
             f2 :: (if others_absent m (f3 * PAGE_SIZE) (PDPT_INDEX va) then [f3] else [])
           else [])
  else [].

(** Clearing one entry of a table at [p] keeps the tables at other paths. *)
Lemma cut_tables pm s P p f i :
  space pm s P → wf_path p → (length p ≤ 2)%nat → index i →
  tbl (ps_mem s) (pm_root_phys pm) p = Some (f * PAGE_SIZE) →
  let m' := <[f * PAGE_SIZE + 8 * i := 0]> (ps_mem s) in
  (∀ q, wf_path q → ¬ (p ++ [i]) `prefix_of` q → tbl m' (pm_root_phys pm) q = tbl (ps_mem s) (pm_root_phys pm) q) ∧
  all_absent m' (f * PAGE_SIZE) = others_absent (ps_mem s) (f * PAGE_SIZE) i ∧
  (∀ q t j, wf_path q → q ≠ p → tbl (ps_mem s) (pm_root_phys pm) q = Some t →
     others_absent m' t j = others_absent (ps_mem s) t j).
Proof.
  intros Hsp Hp Hl Hi Ht m'. pose proof (sp_tree _ _ _ Hsp) as Hw. split_and!.
  - intros q Hq Hk. by apply (tbl_write_other _ _ P Hw p).
  - apply all_absent_cleared. intros j Hj. unfold m'.
    rewrite (entry_write_path _ _ P Hw p f i) with (p := p) by done.
    repeat case_decide; naive_solver.
  - intros q t j Hq Hne Hqt. apply forallb_ext_in. intros k Hk%elem_of_seqZ. f_equal. f_equal. f_equal. unfold m'.
    rewrite (entry_write_path _ _ P Hw p f i) with (p := q) by (done || (unfold index; lia)).
    rewrite decide_False; [done|]. by intros [-> _].
Qed.

Definition unmap_tail (pm : pmap_t) (pdpt pd pt va : Z) (freed : bool) : K (pstate T) (Z * bool) :=
  empty ← is_table_empty pt;
  if negb empty then mret (PAGE_SIZE, freed) else
  teardown pd (PD_INDEX va);;
  empty ← is_table_empty pd;
  (if negb empty then mret tt else
   teardown pdpt (PDPT_INDEX va);;
   empty ← is_table_empty pdpt;
   if negb empty then mret tt else teardown (pm_root_virt pm) (PML4_INDEX va));;
  mret (PAGE_SIZE, true).

Lemma wf_path_lengths va : (length (@nil Z) ≤ 2)%nat ∧ (length [PML4_INDEX va] ≤ 2)%nat ∧ (length (idx2 va) ≤ 2)%nat.
Proof. simpl. lia. Qed.

Lemma not_prefix_shorter (p q : list Z) : (length q < length p)%nat → ¬ p `prefix_of` q.
Proof. intros H Hk%prefix_length. lia. Qed.

(** What tearing tables down does: the frames [fs] become free, no more. *)
Record torn pm s s' (P P' : Z → Prop) (fs : list Z) : Prop := Torn {
  tn_space : space pm s' P';
  tn_rest : same_rest s s';
  tn_tlb : ps_tlb s' = ps_tlb s;
  tn_free : ∀ x, P' x ↔ P x ∨ x ∈ fs;
  tn_leaf : ∀ va, leaf (ps_mem s') (pm_root_phys pm) va = leaf (ps_mem s) (pm_root_phys pm) va;
}.

Lemma torn_refl pm s P : space pm s P → torn pm s s P P [].
Proof. intros Hsp. split; try done. set_solver. Qed.

Lemma torn_trans pm s1 s2 s3 P1 P2 P3 l1 l2 :
  torn pm s1 s2 P1 P2 l1 → torn pm s2 s3 P2 P3 l2 → torn pm s1 s3 P1 P3 (l1 ++ l2).
Proof.
  intros [_ R1 T1 F1 L1] [Hsp R2 T2 F2 L2]. split; [done|by etrans|congruence| |].
  - intros x. rewrite F2, F1, elem_of_app. tauto.
  - intros va. by rewrite L2.
Qed.

Lemma teardown_step pm s P p f i g l :
  space pm s P → wf_path p → (length p ≤ 2)%nat → index i →
  tbl (ps_mem s) (pm_root_phys pm) p = Some (f * PAGE_SIZE) →
  tbl (ps_mem s) (pm_root_phys pm) (p ++ [i]) = Some (g * PAGE_SIZE) →
  all_absent (ps_mem s) (g * PAGE_SIZE) = true → frees_ok (ps_pages s) P (g :: l) →
  ∃ s' P', teardown (phys_to_virt (f * PAGE_SIZE)) i s = Done tt s' ∧ torn pm s s' P P' [g] ∧
    frees_ok (ps_pages s') P' l ∧
    (∀ q, wf_path q → ¬ (p ++ [i]) `prefix_of` q →
       tbl (ps_mem s') (pm_root_phys pm) q = tbl (ps_mem s) (pm_root_phys pm) q) ∧
    all_absent (ps_mem s') (f * PAGE_SIZE) = others_absent (ps_mem s) (f * PAGE_SIZE) i ∧
    (∀ q t j, wf_path q → q ≠ p → tbl (ps_mem s) (pm_root_phys pm) q = Some t →
       others_absent (ps_mem s') t j = others_absent (ps_mem s) t j).
Proof.
  intros Hsp Hp Hl Hi Ht Hg He [Hok Hrest].
  destruct (teardown_spec pm s P p f i g Hsp Hp Hl Hi Ht Hg He Hok) as (t & Et & E & Hsp' & Hleaf).
  destruct (cut_tables pm s P p f i Hsp Hp Hl Hi Ht) as (H1 & H2 & H3).
  eexists _, _. split; [exact E|]. split; [|split; [exact (Hrest t Et)|by split_and!]].
  split; [exact Hsp'|by split|done| |exact Hleaf].
  intros x. rewrite in_block_0, list_elem_of_singleton. done.
Qed.

Lemma unmap_tail_spec pm s P va f3 f2 f1 freed :
  space pm s P →
  tbl (ps_mem s) (pm_root_phys pm) [PML4_INDEX va] = Some (f3 * PAGE_SIZE) →
  tbl (ps_mem s) (pm_root_phys pm) (idx2 va) = Some (f2 * PAGE_SIZE) →
  tbl (ps_mem s) (pm_root_phys pm) (idx3 va) = Some (f1 * PAGE_SIZE) →
  frees_ok (ps_pages s) P (tail_frees (ps_mem s) va f3 f2 f1) →
  ∃ s' P', unmap_tail pm (phys_to_virt (f3 * PAGE_SIZE)) (phys_to_virt (f2 * PAGE_SIZE)) (phys_to_virt (f1 * PAGE_SIZE)) va freed s =
      Done (PAGE_SIZE, freed || negb (bool_decide (tail_frees (ps_mem s) va f3 f2 f1 = []))) s' ∧
    torn pm s s' P P' (tail_frees (ps_mem s) va f3 f2 f1).
Proof.
  intros Hsp H3 H2 H1 Hok. destruct (root_table _ _ _ Hsp) as (f4 & Er & H4).
  destruct (wf_path_lengths va) as (L0 & L1 & L2).
  assert (I4 := land_1FF (Z.shiftr va 39)). fold (PML4_INDEX va) in I4.
  assert (I3 := land_1FF (Z.shiftr va 30)). fold (PDPT_INDEX va) in I3.
  assert (I2 := land_1FF (Z.shiftr va 21)). fold (PD_INDEX va) in I2.
  destruct (table_virt _ _ _ _ _ Hsp (idx3_wf va) H1) as (g1 & _ & _ & V1 & _).
  destruct (table_virt _ _ _ _ _ Hsp (idx2_wf va) H2) as (g2 & _ & _ & V2 & _).
  destruct (table_virt _ _ _ _ _ Hsp (wf_path1 va) H3) as (g3 & _ & _ & V3 & _).
  unfold unmap_tail, tail_frees in *. erewrite bind_done; [|by apply is_table_empty_run].
  destruct (all_absent (ps_mem s) (f1 * PAGE_SIZE)) eqn:A1; cbn [negb].
  2: { exists s, P. rewrite orb_false_r. split; [reflexivity|by apply torn_refl]. }
  destruct (teardown_step pm s P (idx2 va) f2 (PD_INDEX va) f1 _ Hsp (idx2_wf va) L2 I2 H2 H1 A1 Hok)
    as (s1 & P1 & E1 & Tn1 & Hok1 & Ht1 & Ha1 & Ho1).
  assert (Hsp1 := tn_space _ _ _ _ _ _ Tn1).
  erewrite bind_done by exact E1. erewrite bind_done; [|by apply is_table_empty_run].
  rewrite orb_true_r, Ha1.
  destruct (others_absent (ps_mem s) (f2 * PAGE_SIZE) (PD_INDEX va)) eqn:A2; cbn [negb].
  2: { exists s1, P1. split; [reflexivity|exact Tn1]. }
  assert (A3eq := Ho1 [PML4_INDEX va] (f3 * PAGE_SIZE) (PDPT_INDEX va) (wf_path1 va) ltac:(discriminate) H3).
  rewrite <- (Ht1 (idx2 va)) in H2 by (apply idx2_wf || (apply not_prefix_shorter; simpl; lia)).
  rewrite <- (Ht1 [PML4_INDEX va]) in H3 by (apply wf_path1 || (apply not_prefix_shorter; simpl; lia)).
  rewrite <- (Ht1 []) in H4 by (apply wf_path0 || (apply not_prefix_shorter; simpl; lia)).
  destruct (teardown_step pm s1 P1 [PML4_INDEX va] f3 (PDPT_INDEX va) f2 _ Hsp1 (wf_path1 va) L1 I3 H3 H2 Ha1 Hok1)
    as (s2 & P2 & E2 & Tn2 & Hok2 & Ht2 & Ha2 & Ho2).
  assert (Tn12 := torn_trans _ _ _ _ _ _ _ _ _ Tn1 Tn2). assert (Hsp2 := tn_space _ _ _ _ _ _ Tn2).
  rewrite A3eq in Ha2.
  destruct (others_absent (ps_mem s) (f3 * PAGE_SIZE) (PDPT_INDEX va)) eqn:A3.
  2: { exists s2, P2. split; [|exact Tn12].
       erewrite bind_done; [reflexivity|]. erewrite bind_done by exact E2.
       erewrite bind_done; [|by apply is_table_empty_run]. by rewrite Ha2. }
  rewrite <- (Ht2 [PML4_INDEX va]) in H3 by (apply wf_path1 || (apply not_prefix_shorter; simpl; lia)).
  rewrite <- (Ht2 []) in H4 by (apply wf_path0 || (apply not_prefix_shorter; simpl; lia)).
  destruct (teardown_step pm s2 P2 [] f4 (PML4_INDEX va) f3 _ Hsp2 wf_path0 L0 I4 H4 H3 Ha2 Hok2)
    as (s3 & P3 & E3 & Tn3 & _).
  exists s3, P3. split; [|exact (torn_trans _ _ _ _ _ _ _ _ _ Tn12 Tn3)].
  erewrite bind_done; [reflexivity|]. erewrite bind_done by exact E2.
  erewrite bind_done; [|by apply is_table_empty_run]. rewrite Ha2. cbn [negb]. by rewrite Er.
Qed.

Lemma phys_to_pfn_page f : phys_to_pfn (f * PAGE_SIZE) = f.
Proof.
  unfold phys_to_pfn, PAGE_SHIFT. rewrite Z.shiftr_div_pow2 by lia. by apply Z.div_mul.
Qed.

(** Once the entry is cleared, what is left to return can be read off the
    memory before. *)
Lemma tail_frees_cleared pm s P va f3 f2 f1 e :
  space pm s P → leaf (ps_mem s) (pm_root_phys pm) va = Some (false, e) →
  tbl (ps_mem s) (pm_root_phys pm) [PML4_INDEX va] = Some (f3 * PAGE_SIZE) →
  tbl (ps_mem s) (pm_root_phys pm) (idx2 va) = Some (f2 * PAGE_SIZE) →
  tbl (ps_mem s) (pm_root_phys pm) (idx3 va) = Some (f1 * PAGE_SIZE) →
  tail_frees (<[f1 * PAGE_SIZE + 8 * PT_INDEX va := 0]> (ps_mem s)) va f3 f2 f1 =
  unmap_frees (ps_mem s) (pm_root_phys pm) va.
Proof.
  intros Hsp Hlf H3 H2 H1. destruct (clear_page_spec pm s P va f1 Hsp H1) as (_ & _ & He & _).
  unfold tail_frees, unmap_frees. rewrite Hlf, H3, H2, H1, !phys_to_pfn_page.
  rewrite (all_absent_cleared (ps_mem s) _ _ (PT_INDEX va)); cycle 1.
  { intros j Hj. rewrite (He (idx3 va)) by (done || apply idx3_wf). repeat case_decide; naive_solver. }
  assert (Ho : ∀ q t j, wf_path q → (length q ≤ 2)%nat → tbl (ps_mem s) (pm_root_phys pm) q = Some t →
    others_absent (<[f1 * PAGE_SIZE + 8 * PT_INDEX va := 0]> (ps_mem s)) t j = others_absent (ps_mem s) t j).
  { intros q t j Hq Hl Hqt. apply forallb_ext_in. intros k Hk%elem_of_seqZ. f_equal. f_equal. f_equal.
    rewrite (He q) by (done || (unfold index; lia)). rewrite decide_False; [done|].
    intros [-> _]. simpl in Hl. lia. }
  by rewrite (Ho (idx2 va)), (Ho [PML4_INDEX va]) by (done || apply idx2_wf || apply wf_path1 || (simpl; lia)).
Qed.

Lemma when_active_run pm va s :
  when_active pm (flush_tlb va) s =
    Done tt (set_tlb (if ps_cr3 s =? pm_root_phys pm then FlushPage va :: ps_tlb s else ps_tlb s) s).
Proof. unfold when_active. erewrite bind_done; [|reflexivity]. destruct (_ =? _); by destruct s. Qed.

(** One step of [pmap_unmap]: every case. *)
Record unmapped pm s s' (P P' : Z → Prop) (va : Z) : Prop := Unmapped {
  um_space : space pm s' P';
  um_rest : same_rest s s';
  um_tlb : ps_tlb s' = unmap_tlb pm s va;
  um_free : ∀ x, P' x ↔ P x ∨ x ∈ unmap_frees (ps_mem s) (pm_root_phys pm) va;
  um_leaf : ∀ va', leaf (ps_mem s') (pm_root_phys pm) va' =
    if decide (covers (ps_mem s) (pm_root_phys pm) va va') then None
    else leaf (ps_mem s) (pm_root_phys pm) va';
}.

Lemma unmapped_none pm s P va :
  space pm s P → leaf (ps_mem s) (pm_root_phys pm) va = None → unmapped pm s s P P va.
Proof.
  intros Hsp Hl. split; [done|done| | |].
  - unfold unmap_tlb. by rewrite Hl.
  - unfold unmap_frees. rewrite Hl. set_solver.
  - intros va'. destruct (decide (covers _ _ va va')) as [Hc|]; [|done]. unfold covers in Hc. by rewrite Hl in Hc.
Qed.

Lemma unmap_huge_spec pm s P va f2 :
  space pm s P → tbl (ps_mem s) (pm_root_phys pm) (idx2 va) = Some (f2 * PAGE_SIZE) →
  let e := entry (ps_mem s) (f2 * PAGE_SIZE) (PD_INDEX va) in
  present e = true → huge e = true →
  unmapped pm s (set_tlb (unmap_tlb pm s va) (set_mem (<[f2 * PAGE_SIZE + 8 * PD_INDEX va := 0]> (ps_mem s)) s))
    P P va ∧ leaf (ps_mem s) (pm_root_phys pm) va = Some (true, e).
Proof.
  intros Hsp H2 e Hp Hh.
  assert (Hl : leaf (ps_mem s) (pm_root_phys pm) va = Some (true, e)).
  { unfold leaf. rewrite H2. fold e. by rewrite Hp, Hh. }
  split; [|done]. pose proof (sp_tree _ _ _ Hsp) as Hw.
  assert (I2 := land_1FF (Z.shiftr va 21)). fold (PD_INDEX va) in I2.
  split; cbn [set_tlb set_mem ps_mem ps_tlb].
  - split; [apply Hsp| |apply Hsp].
    apply (pt_wf_cut _ _ P Hw (idx2 va)); try done. apply idx2_wf.
  - done.
  - done.
  - unfold unmap_frees. rewrite Hl. set_solver.
  - intros va'. rewrite (leaf_cut_pd _ _ P Hw (idx2 va)) by (done || apply idx2_wf || (simpl; lia)).
    rewrite <- idx3_snoc. change (present 0) with false. cbv iota.
    assert (Hc : covers (ps_mem s) (pm_root_phys pm) va va' ↔ idx3 va' = idx3 va) by (unfold covers; by rewrite Hl).
    by rewrite (decide_ext _ _ _ _ Hc).
Qed.

(** A 4 KiB page: its entry cleared, then the emptied tables torn down. *)
Lemma unmap_small_spec pm s P va f3 f2 f1 e freed :
  space pm s P → leaf (ps_mem s) (pm_root_phys pm) va = Some (false, e) →
  tbl (ps_mem s) (pm_root_phys pm) [PML4_INDEX va] = Some (f3 * PAGE_SIZE) →
  tbl (ps_mem s) (pm_root_phys pm) (idx2 va) = Some (f2 * PAGE_SIZE) →
  tbl (ps_mem s) (pm_root_phys pm) (idx3 va) = Some (f1 * PAGE_SIZE) →
  frees_ok (ps_pages s) P (unmap_frees (ps_mem s) (pm_root_phys pm) va) →
  ∃ s' P', unmap_tail pm (phys_to_virt (f3 * PAGE_SIZE)) (phys_to_virt (f2 * PAGE_SIZE)) (phys_to_virt (f1 * PAGE_SIZE)) va freed
      (set_tlb (if ps_cr3 s =? pm_root_phys pm then FlushPage va :: ps_tlb s else ps_tlb s)
        (set_mem (<[f1 * PAGE_SIZE + 8 * PT_INDEX va := 0]> (ps_mem s)) s)) =
      Done (PAGE_SIZE, freed || negb (bool_decide (unmap_frees (ps_mem s) (pm_root_phys pm) va = []))) s' ∧
    unmapped pm s s' P P' va.
Proof.
  intros Hsp Hl H3 H2 H1 Hok. destruct (clear_page_spec pm s P va f1 Hsp H1) as (Hw' & Ht' & _ & Hl').
  pose proof (tail_frees_cleared pm s P va f3 f2 f1 _ Hsp Hl H3 H2 H1) as Hfr. rewrite <- Hfr in Hok |- *.
  set (s1 := set_tlb _ _).
  assert (Hsp1 : space pm s1 P) by (split; [apply Hsp|exact Hw'|apply Hsp]).
  destruct (unmap_tail_spec pm s1 P va f3 f2 f1 freed Hsp1) as (s' & P' & E & [A B C D F]);
    [by rewrite <- (Ht' _ (wf_path1 va)) in H3|by rewrite <- (Ht' _ (idx2_wf va)) in H2|by rewrite <- (Ht' _ (idx3_wf va)) in H1|exact Hok|].
  exists s', P'. split; [exact E|]. split; [exact A|by etrans; [|exact B]| | |].
  - rewrite C. unfold unmap_tlb. by rewrite Hl.
  - intros x. rewrite D, <- Hfr. done.
  - intros va'. rewrite F. etrans; [exact (Hl' va')|].
    assert (Hc : covers (ps_mem s) (pm_root_phys pm) va va' ↔ same_page va' va) by (unfold covers; by rewrite Hl).
    by rewrite (decide_ext _ _ _ _ Hc).
Qed.

Lemma unmap_page_spec pm s P va freed :
  space pm s P → frees_ok (ps_pages s) P (unmap_frees (ps_mem s) (pm_root_phys pm) va) →
  ∃ s' P', pmap_unmap_page pm va freed s =
      Done (unmap_step (ps_mem s) (pm_root_phys pm) va,
            freed || negb (bool_decide (unmap_frees (ps_mem s) (pm_root_phys pm) va = []))) s' ∧
    unmapped pm s s' P P' va.
Proof.
  intros Hsp Hok. destruct (root_table _ _ _ Hsp) as (f4 & Er & H4).
  destruct (wf_path_lengths va) as (L0 & L1 & L2).
  assert (Hnone : leaf (ps_mem s) (pm_root_phys pm) va = None →
    Done (PAGE_SIZE, freed) s = Done (unmap_step (ps_mem s) (pm_root_phys pm) va,
      freed || negb (bool_decide (unmap_frees (ps_mem s) (pm_root_phys pm) va = []))) s ∧ unmapped pm s s P P va).
  { intros Hl. split; [|by apply unmapped_none]. unfold unmap_step, unmap_frees. by rewrite Hl, orb_false_r. }
  unfold pmap_unmap_page. rewrite Er.
  destruct (table_virt _ _ _ _ _ Hsp wf_path0 H4) as (g4 & _ & _ & V4 & _).
  erewrite bind_done; [|by apply get_entry_run].
  destruct (entry_cases pm s P [] f4 (PML4_INDEX va) Hsp wf_path0 L0 (land_1FF _) H4)
    as [[Ep En]|[(_ & _ & _ & [=])|(f3 & Ep & _ & Ea & H3)]]; rewrite Ep; cbn [negb].
  { exists s, P. apply Hnone. unfold leaf. change (idx2 va) with ([PML4_INDEX va] ++ [PDPT_INDEX va]).
    rewrite tbl_snoc. change [PML4_INDEX va] with ([] ++ [PML4_INDEX va]). by rewrite En. }
  rewrite Ea. change ([] ++ [PML4_INDEX va]) with [PML4_INDEX va] in H3.
  destruct (table_virt _ _ _ _ _ Hsp (wf_path1 va) H3) as (g3 & _ & _ & V3 & _).
  erewrite bind_done; [|by apply get_entry_run].
  destruct (entry_cases pm s P [PML4_INDEX va] f3 (PDPT_INDEX va) Hsp (wf_path1 va) L1 (land_1FF _) H3)
    as [[Ep3 En]|[(_ & _ & _ & [=])|(f2 & Ep3 & Eh3 & Ea3 & H2)]]; rewrite Ep3; cbn [negb orb].
  { exists s, P. apply Hnone. unfold leaf. by change (idx2 va) with ([PML4_INDEX va] ++ [PDPT_INDEX va]); rewrite En. }
  rewrite Eh3, Ea3. change ([PML4_INDEX va] ++ [PDPT_INDEX va]) with (idx2 va) in H2.
  destruct (table_virt _ _ _ _ _ Hsp (idx2_wf va) H2) as (g2 & _ & _ & V2 & _).
  erewrite bind_done; [|by apply get_entry_run].
  destruct (entry_cases pm s P (idx2 va) f2 (PD_INDEX va) Hsp (idx2_wf va) L2 (land_1FF _) H2)
    as [[Ep2 En]|[(Ep2 & Eh2 & En & _)|(f1 & Ep2 & Eh2 & Ea2 & H1)]]; rewrite Ep2; cbn [negb].
  { exists s, P. apply Hnone. unfold leaf. rewrite H2, Ep2, idx3_snoc, En. done. }
  { destruct (unmap_huge_spec pm s P va f2 Hsp H2 Ep2 Eh2) as [Hun Hl]. rewrite Eh2.
    eexists _, P. split; [|exact Hun]. erewrite bind_done; [|by apply set_entry_run].
    erewrite bind_done; [|apply when_active_run]. unfold unmap_step, unmap_frees, unmap_tlb. rewrite Hl, orb_false_r. done. }
  rewrite Eh2, Ea2. rewrite <- idx3_snoc in H1.
  destruct (table_virt _ _ _ _ _ Hsp (idx3_wf va) H1) as (g1 & _ & _ & V1 & _).
  erewrite bind_done; [|by apply get_entry_run].
  destruct (present (entry (ps_mem s) (f1 * PAGE_SIZE) (PT_INDEX va))) eqn:Ep1; cbn [negb]; cycle 1.
  { exists s, P. apply Hnone. unfold leaf. by rewrite H2, Ep2, Eh2, H1, Ep1. }
  assert (Hl : leaf (ps_mem s) (pm_root_phys pm) va = Some (false, entry (ps_mem s) (f1 * PAGE_SIZE) (PT_INDEX va))).
  { unfold leaf. by rewrite H2, Ep2, Eh2, H1, Ep1. }
  destruct (clear_page_spec pm s P va f1 Hsp H1) as (Hw' & Ht' & _ & Hl').
  erewrite bind_done; [|by apply set_entry_run]. erewrite bind_done; [|apply when_active_run].
  destruct (unmap_small_spec pm s P va f3 f2 f1 _ freed Hsp Hl H3 H2 H1 Hok) as (s' & P' & E & Hun).
  exists s', P'. split; [|exact Hun]. unfold unmap_step. rewrite Hl, <- Er. exact E.
Qed.
End unmap.
