(* ===== verification/PmapRange.v ===== *)
(** * Ranges of pages: pmap_map, pmap_unmap and pmap_extract as a whole *)

From S2P Require Export PmapUnmap.

(** ** Page numbers *)

(** The page number the four levels of tables translate: bits 12 to 47. *)
Definition vpn (va : Z) : Z := (va / PAGE_SIZE) mod 2 ^ 36.

Lemma index_mod x k : 0 ≤ k → Z.land (Z.shiftr x k) 0x1FF = (x / 2 ^ k) mod 512.
Proof. intros Hk. rewrite Z.shiftr_div_pow2 by done. change 0x1FF with (Z.ones 9). by rewrite Z.land_ones. Qed.

Lemma vpn_digits va :
  vpn va = PML4_INDEX va * 0x8000000 + PDPT_INDEX va * 0x40000 + PD_INDEX va * 0x200 + PT_INDEX va.
Proof.
  unfold vpn, PML4_INDEX, PDPT_INDEX, PD_INDEX, PT_INDEX. rewrite !index_mod by done.
  change PAGE_SIZE with 4096. change (2 ^ 39) with (4096 * 0x8000000). change (2 ^ 30) with (4096 * 0x40000).
  change (2 ^ 21) with (4096 * 0x200). change (2 ^ 12) with 4096. rewrite <- !Z.div_div by done.
  change (2 ^ 36) with 0x1000000000. generalize (va / 4096). mlia.
Qed.

Lemma same_page_vpn va va' : same_page va va' ↔ vpn va = vpn va'.
Proof.
  rewrite !vpn_digits. unfold same_page, idx3.
  pose proof (land_1FF (Z.shiftr va 39)). pose proof (land_1FF (Z.shiftr va 30)).
  pose proof (land_1FF (Z.shiftr va 21)). pose proof (land_1FF (Z.shiftr va 12)).
  pose proof (land_1FF (Z.shiftr va' 39)). pose proof (land_1FF (Z.shiftr va' 30)).
  pose proof (land_1FF (Z.shiftr va' 21)). pose proof (land_1FF (Z.shiftr va' 12)).
  unfold index, PML4_INDEX, PDPT_INDEX, PD_INDEX, PT_INDEX in *.
  split; [by intros [[= -> -> ->] ->]|]. intros E. split; [f_equal; [|f_equal; [|f_equal]]|]; lia.
Qed.

Lemma vpn_succ va : vpn (va + PAGE_SIZE) = (vpn va + 1) mod 2 ^ 36.
Proof.
  unfold vpn. change PAGE_SIZE with 4096. change (2 ^ 36) with 0x1000000000. mlia.
Qed.

(** How many pages [va'] lies after [va]. *)
Definition page_dist (va va' : Z) : Z := (vpn va' - vpn va) mod 2 ^ 36.

Lemma page_dist_range va va' : 0 ≤ page_dist va va' < 2 ^ 36.
Proof. by apply Z.mod_pos_bound. Qed.

Lemma page_dist_zero va va' : page_dist va va' = 0 ↔ same_page va' va.
Proof.
  rewrite same_page_vpn. unfold page_dist, vpn. change (2 ^ 36) with 0x1000000000.
  generalize (va / PAGE_SIZE), (va' / PAGE_SIZE). split; mlia.
Qed.

Lemma page_dist_succ va va' :
  page_dist (va + PAGE_SIZE) va' = if decide (page_dist va va' = 0) then 2 ^ 36 - 1 else page_dist va va' - 1.
Proof.
  unfold page_dist. rewrite vpn_succ. unfold vpn. change (2 ^ 36) with 0x1000000000.
  generalize (va / PAGE_SIZE), (va' / PAGE_SIZE). intros x y. destruct (decide _) as [E|E]; revert E; mlia.
Qed.

Lemma page_dist_offset va k : 0 ≤ k < 2 ^ 36 → page_dist va (va + k * PAGE_SIZE) = k.
Proof.
  intros Hk. unfold page_dist, vpn. rewrite Z.div_add by done. change (2 ^ 36) with 0x1000000000 in *.
  generalize (va / PAGE_SIZE). mlia.
Qed.

Section range.
Context {T : Type} `{!PageAllocator T}.
Implicit Types (s : pstate T) (pm : pmap_t).

(** ** Mapping a range of 4 KiB pages *)

(** Page [k] of the range maps to page [k] of the physical range. *)
Definition mapped_leaf (va pa flags n : Z) (old : Z → option (bool * Z)) (va' : Z) : option (bool * Z) :=
  if decide (page_dist va va' < n)
  then Some (false, page_entry (wrap64 (pa + page_dist va va' * PAGE_SIZE)) flags)
  else old va'.

Definition no_huge (m : gmap Z Z) (R va n : Z) : Prop :=
  ∀ j e, 0 ≤ j < n → leaf m R (va + j * PAGE_SIZE) ≠ Some (true, e).

(** The tables on the walks of the [n] pages from [va]. *)
Definition range_frame (m : gmap Z Z) (R va n f : Z) : Prop :=
  ∃ j, 0 ≤ j < n ∧ path_frame m R (va + j * PAGE_SIZE) f.

Record map_result pm s s' (P P' : Z → Prop) (va pa flags n : Z) : Prop := MapResult {
  mr_space : space pm s' P';
  mr_rest : same_rest s s';
  mr_tlb : ps_tlb s' = ps_tlb s;
  mr_free : ∀ x, P' x → P x;
  mr_tables : ∀ va' x, path_frame (ps_mem s') (pm_root_phys pm) va' x →
    path_frame (ps_mem s) (pm_root_phys pm) va' x ∨ P x;
  mr_leaf : ∀ va', leaf (ps_mem s') (pm_root_phys pm) va' =
    mapped_leaf va pa flags n (leaf (ps_mem s) (pm_root_phys pm)) va';
}.

Lemma map_result_refl pm s P va pa flags n : space pm s P → n ≤ 0 → map_result pm s s P P va pa flags n.
Proof.
  intros Hsp Hn. split; try done; [intros va' x Hx; by left|]. intros va'. unfold mapped_leaf.
  rewrite decide_False; [done|]. pose proof (page_dist_range va va'). lia.
Qed.

(** One page of the range, then the rest. *)
Lemma range_frame_step m1 m2 m3 R va n (P1 P2 : Z → Prop) :
  0 < n → mem_frame m1 m2 (path_frame m1 R va) P1 → mem_frame m2 m3 (range_frame m2 R (va + PAGE_SIZE) (n - 1)) P2 →
  (∀ x, P2 x → P1 x) → (∀ va' x, path_frame m2 R va' x → path_frame m1 R va' x ∨ P1 x) →
  mem_frame m1 m3 (range_frame m1 R va n) P1.
Proof.
  intros Hn H1 H2 HP Ht f i Hi Hf HPf. rewrite H2; [apply H1; [done| |done]|done| |by auto].
  - intros Hx. apply Hf. exists 0. rewrite Z.mul_0_l, Z.add_0_r. by split; [lia|].
  - intros (j & Hj & [Hx|Hx]%Ht); [|done]. apply Hf. exists (j + 1). split; [lia|].
    by replace (va + (j + 1) * PAGE_SIZE) with (va + PAGE_SIZE + j * PAGE_SIZE) by lia.
Qed.

(** The step case: page 0, then the rest of the range. *)
Lemma map_result_step pm s s1 s2 P P1 P2 va pa flags n :
  space pm s1 P1 → same_rest s s1 → ps_tlb s1 = ps_tlb s → (∀ x, P1 x → P x) →
  (∀ va' x, path_frame (ps_mem s1) (pm_root_phys pm) va' x → path_frame (ps_mem s) (pm_root_phys pm) va' x ∨ P x) →
  (∀ va', leaf (ps_mem s1) (pm_root_phys pm) va' =
     if decide (same_page va' va) then Some (false, page_entry pa flags) else leaf (ps_mem s) (pm_root_phys pm) va') →
  0 ≤ n < 2 ^ 36 → 0 ≤ pa < U64 →
  map_result pm s1 s2 P1 P2 (va + PAGE_SIZE) (wrap64 (pa + PAGE_SIZE)) flags n →
  map_result pm s s2 P P2 va pa flags (n + 1).
Proof.
  intros _ Hr1 Ht1 Hf1 Htb1 Hl1 Hn Hpa [Hsp Hr2 Ht2 Hf2 Htb2 Hl2]. split.
  - done.
  - by etrans.
  - congruence.
  - auto.
  - intros va' x [Hx|Hx]%Htb2; [by apply Htb1|right; by apply Hf1].
  - intros va'. rewrite Hl2. unfold mapped_leaf. rewrite Hl1, page_dist_succ.
    pose proof (page_dist_range va va'). change (2 ^ 36) with 0x1000000000 in *.
    destruct (decide (page_dist va va' = 0)) as [E|E].
    + rewrite decide_False, (decide_True (P := same_page va' va)), (decide_True (P := _ < n + 1)), E
        by (lia || by apply page_dist_zero). rewrite Z.mul_0_l, Z.add_0_r, wrap64_small by done. done.
    + rewrite (decide_False (P := same_page va' va)) by by rewrite <- page_dist_zero.
      destruct (decide (page_dist va va' - 1 < n)); [rewrite decide_True by lia|by rewrite decide_False by lia].
      do 3 f_equal. unfold wrap64. rewrite Zplus_mod_idemp_l. f_equal. lia.
Qed.

Lemma map_range_spec fuel pm s P va pa flags n :
  space pm s P → has_flag flags PROT_HUGE = false → 0 ≤ n < 2 ^ 36 → (Z.to_nat n < fuel)%nat →
  0 ≤ va → va + n * PAGE_SIZE < U64 → 0 ≤ pa < U64 → no_huge (ps_mem s) (pm_root_phys pm) va n →
  ∃ r k s' P', map_range fuel pm va (va + n * PAGE_SIZE) pa PAGE_SIZE flags s = Done r s' ∧
    map_result pm s s' P P' va pa flags k ∧ (r = 0 ∧ k = n ∨ r = -1 ∧ 0 ≤ k < n) ∧
    mem_frame (ps_mem s) (ps_mem s') (range_frame (ps_mem s) (pm_root_phys pm) va n) P.
Proof.
  revert s P va pa n. induction fuel as [|fuel IH]; intros s P va pa n Hsp Hfl Hn Hfu Hva Hend Hpa Hnh; [lia|].
  cbn [map_range]. change PAGE_SIZE with 4096 in Hend. change (2 ^ 36) with 0x1000000000 in *.
  case Z.ltb_spec; cbn [negb]; intros Hlt; change PAGE_SIZE with 4096 in Hlt; cycle 1.
  { exists 0, n, s, P. split; [reflexivity|]. split; [apply map_result_refl; [done|lia]|by split; [left|]]. }
  destruct (map_page_spec pm s P va pa flags Hsp Hfl) as (r & s1 & P1 & E & Hsp1 & Hr1 & Ht1 & Hf1 & Hm1 & Htb1 & Hres).
  { intros e. specialize (Hnh 0 e). rewrite Z.mul_0_l, Z.add_0_r in Hnh. apply Hnh. lia. }
  erewrite bind_done by exact E. destruct Hres as [[-> Hl]|[-> Hl]]; simpl (negb _); cbv iota.
  { exists (-1), 0, s1, P1. split; [reflexivity|]. split; cycle 1.
    { split; [right; lia|]. intros f i Hi Hf HP. apply Hm1; [done| |done]. intros Hx. apply Hf.
      exists 0. rewrite Z.mul_0_l, Z.add_0_r. by split; [lia|]. }
    split; try done.
    intros va'. rewrite Hl. unfold mapped_leaf. rewrite decide_False; [done|].
    pose proof (page_dist_range va va'). lia. }
  rewrite (wrap64_small (va + PAGE_SIZE)) by (change PAGE_SIZE with 4096; lia).
  replace (va + n * PAGE_SIZE) with (va + PAGE_SIZE + (n - 1) * PAGE_SIZE) by lia.
  destruct (IH s1 P1 (va + PAGE_SIZE) (wrap64 (pa + PAGE_SIZE)) (n - 1)) as (r & k & s2 & P2 & E2 & Hres & Hrk & Hm2);
    [done|done|lia|lia|change PAGE_SIZE with 4096; lia|change PAGE_SIZE with 4096; lia|apply wrap64_range| |].
  { intros j e Hj. rewrite Hl. case_decide; [done|].
    replace (va + PAGE_SIZE + j * PAGE_SIZE) with (va + (j + 1) * PAGE_SIZE) by lia. apply Hnh. lia. }
  exists r, (k + 1), s2, P2. split; [exact E2|]. split; [|split; [lia|]].
  - eapply map_result_step; try done. change (2 ^ 36) with 0x1000000000. lia.
  - by eapply (range_frame_step _ (ps_mem s1)); [lia| | | |].
Qed.

(** ** Unmapping a range of 4 KiB pages *)

(** The tables that [n] steps of the loop leave empty can be returned. *)
Fixpoint unmap_ok (n : nat) pm s (P : Z → Prop) (va : Z) : Prop :=
  match n with
  | O => True
  | S n' => frees_ok (ps_pages s) P (unmap_frees (ps_mem s) (pm_root_phys pm) va) ∧
      ∀ s' P' freed r, pmap_unmap_page pm va freed s = Done r s' → unmapped pm s s' P P' va →
        unmap_ok n' pm s' P' (va + PAGE_SIZE)
  end.

Record unmap_result pm s s' (P P' : Z → Prop) (va n : Z) : Prop := UnmapResult {
  ur_space : space pm s' P';
  ur_rest : same_rest s s';
  ur_free : ∀ x, P x → P' x;
  ur_log : ∀ f, f ∈ ps_tlb s → f ∈ ps_tlb s';
  ur_tlb : ∀ va', page_dist va va' < n → leaf (ps_mem s) (pm_root_phys pm) va' ≠ None →
    ps_cr3 s = pm_root_phys pm → ∃ w, FlushPage w ∈ ps_tlb s' ∧ same_page va' w;
  ur_leaf : ∀ va', leaf (ps_mem s') (pm_root_phys pm) va' =
    if decide (page_dist va va' < n) then None else leaf (ps_mem s) (pm_root_phys pm) va';
}.

Lemma leaf_same_page m R va va' : same_page va' va → leaf m R va' = leaf m R va.
Proof.
  intros [E1 E2]. assert (E3 : idx2 va' = idx2 va) by (unfold idx2, idx3 in *; congruence).
  assert (E4 : PD_INDEX va' = PD_INDEX va) by (unfold idx3 in *; congruence).
  unfold leaf. by rewrite E1, E2, E3, E4.
Qed.

(** Outside huge pages a step unmaps the one page it is at. *)
Lemma covers_page m R va va' :
  (∀ e, leaf m R va ≠ Some (true, e)) →
  (if decide (covers m R va va') then None else leaf m R va') =
  (if decide (page_dist va va' = 0) then None else leaf m R va').
Proof.
  intros Hnh. destruct (leaf m R va) as [[[] e]|] eqn:El; [by destruct (Hnh e)| |].
  - apply decide_ext. rewrite page_dist_zero. unfold covers. by rewrite El.
  - destruct (decide (covers m R va va')) as [Hc|]; [unfold covers in Hc; by rewrite El in Hc|].
    case_decide as E; [|done]. apply page_dist_zero in E. by rewrite (leaf_same_page _ _ _ _ E).
Qed.

Lemma unmap_range_spec fuel pm s P va n freed :
  space pm s P → 0 ≤ n < 2 ^ 36 → (Z.to_nat n < fuel)%nat → 0 ≤ va → va + n * PAGE_SIZE < U64 →
  no_huge (ps_mem s) (pm_root_phys pm) va n → unmap_ok (Z.to_nat n) pm s P va →
  ∃ fr s' P', unmap_range fuel pm va (va + n * PAGE_SIZE) freed s = Done fr s' ∧
    unmap_result pm s s' P P' va n.
Proof.
  revert s P va n freed. induction fuel as [|fuel IH]; intros s P va n freed Hsp Hn Hfu Hva Hend Hnh Hok; [lia|].
  cbn [unmap_range]. change PAGE_SIZE with 4096 in Hend. change (2 ^ 36) with 0x1000000000 in *.
  case Z.ltb_spec; cbn [negb]; intros Hlt; change PAGE_SIZE with 4096 in Hlt; cycle 1.
  { exists freed, s, P. split; [reflexivity|]. split; try done.
    - intros va' Hd. pose proof (page_dist_range va va'). lia.
    - intros va'. rewrite decide_False; [done|]. pose proof (page_dist_range va va'). lia. }
  assert (En : Z.to_nat n = S (Z.to_nat (n - 1))) by lia. rewrite En in Hok. destruct Hok as [Hfr Hok].
  destruct (unmap_page_spec pm s P va freed Hsp Hfr) as (s1 & P1 & E & Hun).
  specialize (Hok _ _ _ _ E Hun). destruct Hun as [Hsp1 Hr1 Ht1 Hf1 Hl1].
  assert (H0 : ∀ e, leaf (ps_mem s) (pm_root_phys pm) va ≠ Some (true, e)).
  { intros e. specialize (Hnh 0 e). rewrite Z.mul_0_l, Z.add_0_r in Hnh. apply Hnh. lia. }
  assert (Hstep : unmap_step (ps_mem s) (pm_root_phys pm) va = PAGE_SIZE).
  { unfold unmap_step. destruct (leaf _ _ va) as [[[] e]|] eqn:El; try done. by destruct (H0 e). }
  assert (Hcov : ∀ va', leaf (ps_mem s1) (pm_root_phys pm) va' =
    if decide (page_dist va va' = 0) then None else leaf (ps_mem s) (pm_root_phys pm) va').
  { intros va'. rewrite Hl1. by apply covers_page. }
  erewrite bind_done by exact E. cbv beta iota. rewrite Hstep.
  rewrite (wrap64_small (va + PAGE_SIZE)) by (change PAGE_SIZE with 4096; lia).
  replace (va + n * PAGE_SIZE) with (va + PAGE_SIZE + (n - 1) * PAGE_SIZE) by lia.
  edestruct (IH s1 P1 (va + PAGE_SIZE) (n - 1)) as (fr & s2 & P2 & E2 & [Hsp2 Hr2 Hf2 Hg2 Ht2 Hl2]);
    [done|lia|lia|change PAGE_SIZE with 4096; lia|change PAGE_SIZE with 4096; lia| |exact Hok|].
  { intros j e Hj. rewrite Hcov. case_decide; [done|].
    replace (va + PAGE_SIZE + j * PAGE_SIZE) with (va + (j + 1) * PAGE_SIZE) by lia. apply Hnh. lia. }
  assert (Hlog1 : ∀ f, f ∈ ps_tlb s → f ∈ ps_tlb s1).
  { intros f Hf. rewrite Ht1. unfold unmap_tlb. destruct (leaf _ _ _); [|done]. destruct (_ =? _); set_solver. }
  exists fr, s2, P2. split; [exact E2|]. split; [done|by etrans| |by auto| |].
  - intros x Hx. apply Hf2, Hf1. by left.
  - intros va' Hd Hm Hc. destruct (decide (page_dist va va' = 0)) as [E0|E0].
    + apply page_dist_zero in E0. exists va. split; [|done]. apply Hg2. rewrite Ht1. unfold unmap_tlb.
      assert (leaf (ps_mem s) (pm_root_phys pm) va ≠ None).
      { intros El. apply Hm. by rewrite (leaf_same_page _ _ _ _ E0). }
      destruct (leaf _ _ va); [|done]. rewrite Hc, Z.eqb_refl. set_solver.
    + apply Ht2; [rewrite page_dist_succ, decide_False by done; lia|by rewrite Hcov, decide_False|].
      destruct Hr1. congruence.
  - intros va'. rewrite Hl2, Hcov, page_dist_succ. pose proof (page_dist_range va va').
    change (2 ^ 36) with 0x1000000000 in *. destruct (decide (page_dist va va' = 0)) as [E0|E0].
    + rewrite decide_False, decide_True by lia. done.
    + destruct (decide (page_dist va va' - 1 < n - 1)); [rewrite decide_True by lia|rewrite decide_False by lia]; done.
Qed.

(** ** The calls, with the lock of the address space *)

(** The address space once its lock was taken and released, and [irq] restored. *)
Definition released (p : pmap_ref) pm (s s' : pstate T) : Prop :=
  ps_irq s' = ps_irq s ∧ ps_cr3 s' = ps_cr3 s ∧ ps_glinks s' = ps_glinks s ∧
  ps_pmaps s' = <[p := Pmap (pm_root_virt pm) (pm_root_phys pm) (bump (pm_lock pm))]> (ps_pmaps s).

Definition held pm : pmap_t := Pmap (pm_root_virt pm) (pm_root_phys pm) (take (pm_lock pm)).
Definition locked (p : pmap_ref) pm s : pstate T := set_irq false (set_pmaps (<[p := held pm]> (ps_pmaps s)) s).

Lemma pmap_lock_run p pm s :
  ps_pmaps s !! p = Some pm → lock_free (pm_lock pm) →
  on_pmap_lock p spin_lock_irqsave s = Done (ps_irq s) (locked p pm s) ∧
  the_pmap p (locked p pm s) = Done (held pm) (locked p pm s).
Proof.
  intros E Hl. split; [|by apply kread_done; simpl; rewrite lookup_insert_eq].
  unfold on_pmap_lock. erewrite bind_done; [|by apply kread_done]. unfold klift.
  by rewrite spin_lock_irqsave_free.
Qed.

Lemma pmap_unlock_run p pm s s' f :
  ps_pmaps s !! p = Some pm → same_rest (locked p pm s) s' →
  ∃ s2, on_pmap_lock p (spin_unlock_irqrestore f) s' = Done tt s2 ∧
    ps_irq s2 = f ∧ ps_cr3 s2 = ps_cr3 s ∧ ps_glinks s2 = ps_glinks s ∧
    ps_pmaps s2 = <[p := Pmap (pm_root_virt pm) (pm_root_phys pm) (bump (pm_lock pm))]> (ps_pmaps s) ∧
    ps_mem s2 = ps_mem s' ∧ ps_tlb s2 = ps_tlb s' ∧ ps_pages s2 = ps_pages s'.
Proof.
  intros E [Hc Hi Hp Hg]. simpl in Hc, Hi, Hp, Hg.
  unfold on_pmap_lock. erewrite bind_done; [|apply kread_done; rewrite Hp; apply lookup_insert_eq].
  unfold klift. rewrite Hi. cbn [held pm_lock pm_root_virt pm_root_phys].
  rewrite spin_unlock_irqrestore_take. eexists. split; [reflexivity|]. simpl.
  rewrite Hp, insert_insert_eq. by split_and!.
Qed.

Lemma space_ext pm pm' s s' P :
  pm_root_virt pm' = pm_root_virt pm → pm_root_phys pm' = pm_root_phys pm →
  ps_mem s' = ps_mem s → ps_pages s' = ps_pages s → space pm s P → space pm' s' P.
Proof. intros E1 E2 E3 E4 [H1 H2 H3]. split; rewrite ?E1, ?E2, ?E3, ?E4; done. Qed.

(** The first page of a range and the number of pages it touches. *)
Definition page_down (a : Z) : Z := PAGE_SIZE * (a / PAGE_SIZE).
Definition page_span (virt size : Z) : Z := (virt + size + 0xFFF) / PAGE_SIZE - virt / PAGE_SIZE.

Lemma page_mask a : 0 ≤ a < U64 → Z.land a (bnot64 0xFFF) = page_down a.
Proof.
  intros Ha. unfold page_down. change 0xFFF with (Z.ones 12). rewrite bnot64_ones by lia.
  change (2 ^ 12) with 4096. change PAGE_SIZE with 4096. mlia.
Qed.

Lemma page_range virt size :
  0 ≤ virt → 0 < size → virt + size + 0xFFF < U64 →
  Z.land virt (bnot64 0xFFF) = page_down virt ∧
  Z.land (wrap64 (virt + size + 0xFFF)) (bnot64 0xFFF) = page_down virt + page_span virt size * PAGE_SIZE ∧
  0 ≤ page_down virt ∧ page_down virt + page_span virt size * PAGE_SIZE < U64 ∧ 0 < page_span virt size ∧
  (Z.to_nat (page_span virt size) < range_fuel (page_down virt) (page_down virt + page_span virt size * PAGE_SIZE) PAGE_SIZE)%nat.
Proof.
  intros Hv Hs He. rewrite wrap64_small, !page_mask by lia.
  unfold range_fuel. replace (page_down virt + page_span virt size * PAGE_SIZE - page_down virt)
    with (page_span virt size * PAGE_SIZE) by lia. rewrite Z.div_mul by done.
  unfold page_down, page_span. change PAGE_SIZE with 4096. unfold U64 in *.
  assert (virt / 4096 < (virt + size + 4095) / 4096) by mlia.
  assert ((virt + size + 4095) / 4096 * 4096 ≤ virt + size + 4095) by mlia.
  split_and!; try lia. apply Z.mul_nonneg_nonneg; [done|]. apply Z.div_pos; lia.
Qed.

Lemma when_active_flush_all pm s :
  when_active pm flush_tlb_all s =
    Done tt (set_tlb (if ps_cr3 s =? pm_root_phys pm then FlushAll :: ps_tlb s else ps_tlb s) s).
Proof. unfold when_active. erewrite bind_done; [|reflexivity]. destruct (_ =? _); by destruct s. Qed.

(** What [pmap_map] leaves behind when it returns [r] after [k] pages. *)
Record map_done p pm s s' (P P' : Z → Prop) (virt phys size flags r k : Z) : Prop := MapDone {
  md_result : r = 0 ∧ k = page_span virt size ∨ r = -1 ∧ 0 ≤ k < page_span virt size;
  md_leaf : ∀ va, leaf (ps_mem s') (pm_root_phys pm) va =
    mapped_leaf (page_down virt) (page_down phys) flags k (leaf (ps_mem s) (pm_root_phys pm)) va;
  md_space : space pm s' P';
  md_free : ∀ x, P' x → P x;
  md_tables : ∀ va x, path_frame (ps_mem s') (pm_root_phys pm) va x → path_frame (ps_mem s) (pm_root_phys pm) va x ∨ P x;
  md_frame : mem_frame (ps_mem s) (ps_mem s')
    (range_frame (ps_mem s) (pm_root_phys pm) (page_down virt) (page_span virt size)) P;
  md_released : released p pm s s';
  md_tlb : ps_tlb s' = if (r =? 0) && (ps_cr3 s =? pm_root_phys pm) then FlushAll :: ps_tlb s else ps_tlb s;
}.

Lemma pmap_map_run p pm s P virt phys size flags :
  p ≠ PmapNull → ps_pmaps s !! p = Some pm → lock_free (pm_lock pm) → space pm s P →
  has_flag flags PROT_HUGE = false →
  0 ≤ virt → 0 < size → virt + size + 0xFFF < U64 → 0 ≤ phys < U64 → page_span virt size < 2 ^ 36 →
  no_huge (ps_mem s) (pm_root_phys pm) (page_down virt) (page_span virt size) →
  ∃ r k s' P', pmap_map p virt phys size flags s = Done r s' ∧ map_done p pm s s' P P' virt phys size flags r k.
Proof.
  intros Hp Ep Hlk Hsp Hfl Hv Hs He Hph Hsz Hnh.
  destruct (page_range virt size Hv Hs He) as (E1 & E2 & H3 & H4 & H5 & H6).
  destruct (pmap_lock_run p pm s Ep Hlk) as [Elk Ethe].
  unfold pmap_map. rewrite bool_decide_false, (proj2 (Z.eqb_neq size 0)) by (done || lia). cbn [orb].
  erewrite bind_done by done. erewrite bind_done by done. rewrite Hfl. cbv zeta.
  change (PAGE_SIZE - 1) with 0xFFF. rewrite E1, E2, (page_mask phys) by done.
  destruct (map_range_spec (range_fuel (page_down virt) (page_down virt + page_span virt size * PAGE_SIZE) PAGE_SIZE)
    (held pm) (locked p pm s) P (page_down virt) (page_down phys) flags (page_span virt size))
    as (r & k & s1 & P1 & Er & Hres & Hrk & Hm1);
    [by apply (space_ext pm (held pm) s)|done|lia|done|done|done| |exact Hnh|].
  { unfold page_down. change PAGE_SIZE with 4096. unfold U64 in *. mlia. }
  erewrite bind_done by exact Er. destruct Hres as [Hsp1 Hr1 Ht1 Hf1 Htb1 Hl1].
  assert (Hcr : ps_cr3 s1 = ps_cr3 s) by (destruct Hr1; done).
  destruct Hrk as [[-> ->]|[-> Hk]]; cbn [Z.eqb negb andb].
  - erewrite bind_done; [|apply when_active_flush_all].
    destruct (pmap_unlock_run p pm s (set_tlb (if ps_cr3 s1 =? pm_root_phys (held pm) then FlushAll :: ps_tlb s1 else ps_tlb s1) s1) (ps_irq s) Ep)
      as (s2 & Eu & Hi & Hc & Hg & Hps & Hm & Htl & Hpg); [destruct Hr1; by split|].
    erewrite bind_done by exact Eu. exists 0, (page_span virt size), s2, P1.
    split; [reflexivity|]. split; rewrite ?Hm; try done; [by left|by apply (space_ext (held pm) pm s1 s2)|].
    rewrite Htl. cbn [set_tlb ps_tlb held pm_root_phys]. by rewrite Hcr, Ht1.
  - destruct (pmap_unlock_run p pm s s1 (ps_irq s) Ep) as (s2 & Eu & Hi & Hc & Hg & Hps & Hm & Htl & Hpg); [done|].
    erewrite bind_done by exact Eu. exists (-1), k, s2, P1.
    split; [reflexivity|]. split; rewrite ?Hm; try done; [by right|by apply (space_ext (held pm) pm s1 s2)|].
    by rewrite Htl, Ht1.
Qed.

(** C2: [pmap_map] of normal pages, on every outcome: the first [k] pages of
    the range now translate to the corresponding physical pages with the
    requested protection, every other address translates as before, and [k] is
    the whole range exactly when the call succeeds.  The tree stays well formed,
    no free page is in it, memory outside the tree and the free pages is
    untouched, the lock and the interrupt flag are restored, and on success the
    TLB of the active address space is flushed. *)
Theorem pmap_map_spec p pm s P virt phys size flags :
  p ≠ PmapNull → ps_pmaps s !! p = Some pm → lock_free (pm_lock pm) → space pm s P →
  has_flag flags PROT_HUGE = false →
  0 ≤ virt → 0 < size → virt + size + 0xFFF < U64 → 0 ≤ phys < U64 → page_span virt size < 2 ^ 36 →
  no_huge (ps_mem s) (pm_root_phys pm) (page_down virt) (page_span virt size) →
  ∃ r k s' P', pmap_map p virt phys size flags s = Done r s' ∧
    (r = 0 ∧ k = page_span virt size ∨ r = -1 ∧ 0 ≤ k < page_span virt size) ∧
    (∀ va, leaf (ps_mem s') (pm_root_phys pm) va =
       mapped_leaf (page_down virt) (page_down phys) flags k (leaf (ps_mem s) (pm_root_phys pm)) va) ∧
    space pm s' P' ∧ (∀ x, P' x → P x) ∧ 
    mem_frame (ps_mem s) (ps_mem s')
      (range_frame (ps_mem s) (pm_root_phys pm) (page_down virt) (page_span virt size)) P ∧
    released p pm s s' ∧
    ps_tlb s' = if (r =? 0) && (ps_cr3 s =? pm_root_phys pm) then FlushAll :: ps_tlb s else ps_tlb s.
Proof.
  intros Hp Ep Hlk Hsp Hfl Hv Hs He Hph Hsz Hnh.
  destruct (pmap_map_run p pm s P virt phys size flags) as (r & k & s' & P' & E & []); [done..|].
  by exists r, k, s', P'.
Qed.


(** ** Extraction *)

Lemma land_bound x m : 0 ≤ m → 0 ≤ Z.land x m ≤ m.
Proof.
  intros Hm. split; [by apply Z.land_nonneg; right|].
  pose proof (Z.add_lor_land (Z.ldiff m x) (Z.land m x)) as E. rewrite Z.lor_ldiff_and in E.
  assert (E0 : Z.land (Z.ldiff m x) (Z.land m x) = 0).
  { apply Z.bits_inj'. intros i _. rewrite !Z.land_spec, Z.ldiff_spec, Z.bits_0.
    by destruct (Z.testbit m i), (Z.testbit x i). }
  rewrite (Z.land_comm x m).
  assert (0 ≤ Z.ldiff m x) by (apply Z.ldiff_nonneg; by left). lia.
Qed.

Lemma extract_walk_spec pm s P va :
  space pm s P →
  pmap_extract_walk pm va s = Done (default 0 (translate (ps_mem s) (pm_root_phys pm) va)) s.
Proof.
  intros Hsp. destruct (root_table _ _ _ Hsp) as (f4 & Er & H4).
  destruct (wf_path_lengths va) as (L0 & L1 & L2). unfold pmap_extract_walk. rewrite Er.
  destruct (table_virt _ _ _ _ _ Hsp wf_path0 H4) as (g4 & _ & _ & V4 & _).
  erewrite bind_done; [|by apply get_entry_run].
  destruct (entry_cases pm s P [] f4 (PML4_INDEX va) Hsp wf_path0 L0 (land_1FF _) H4)
    as [[Ep En]|[(_ & _ & _ & [=])|(f3 & Ep & _ & Ea & H3)]]; rewrite Ep; cbn [negb].
  { unfold translate, leaf. change (idx2 va) with ([PML4_INDEX va] ++ [PDPT_INDEX va]).
    rewrite tbl_snoc. change [PML4_INDEX va] with ([] ++ [PML4_INDEX va]). by rewrite En. }
  rewrite Ea. change ([] ++ [PML4_INDEX va]) with [PML4_INDEX va] in H3.
  destruct (table_virt _ _ _ _ _ Hsp (wf_path1 va) H3) as (g3 & _ & _ & V3 & _).
  erewrite bind_done; [|by apply get_entry_run].
  destruct (entry_cases pm s P [PML4_INDEX va] f3 (PDPT_INDEX va) Hsp (wf_path1 va) L1 (land_1FF _) H3)
    as [[Ep3 En]|[(_ & _ & _ & [=])|(f2 & Ep3 & Eh3 & Ea3 & H2)]]; rewrite Ep3; cbn [negb orb].
  { unfold translate, leaf. by change (idx2 va) with ([PML4_INDEX va] ++ [PDPT_INDEX va]); rewrite En. }
  rewrite Ea3. change ([PML4_INDEX va] ++ [PDPT_INDEX va]) with (idx2 va) in H2.
  destruct (table_virt _ _ _ _ _ Hsp (idx2_wf va) H2) as (g2 & _ & _ & V2 & _).
  erewrite bind_done; [|by apply get_entry_run]. unfold translate, leaf. rewrite H2, idx3_snoc.
  set (e2 := entry (ps_mem s) (f2 * PAGE_SIZE) (PD_INDEX va)).
  pose proof (land_bound va 0x1FFFFF ltac:(done)). pose proof (land_bound va 0xFFF ltac:(done)).
  destruct (entry_cases pm s P (idx2 va) f2 (PD_INDEX va) Hsp (idx2_wf va) L2 (land_1FF _) H2)
    as [[Ep2 En]|[(Ep2 & Eh2 & En & _)|(f1 & Ep2 & Eh2 & Ea2 & H1)]]; fold e2 in Ep2; rewrite Ep2; cbn [negb andb].
  { by rewrite En. }
  { fold e2 in Eh2. rewrite Eh2. pose proof (land_bound e2 PD_ADDR_MASK ltac:(done)). unfold PD_ADDR_MASK in *.
    simpl. by rewrite wrap64_small by (unfold U64; lia). }
  fold e2 in Eh2, Ea2. rewrite Eh2, H1, Ea2. cbn [andb]. rewrite <- idx3_snoc in H1.
  destruct (table_virt _ _ _ _ _ Hsp (idx3_wf va) H1) as (g1 & _ & _ & V1 & _).
  erewrite bind_done; [|by apply get_entry_run].
  set (e1 := entry (ps_mem s) (f1 * PAGE_SIZE) (PT_INDEX va)).
  destruct (present e1); cbn [negb]; [|done].
  pose proof (land_bound e1 PTE_ADDR_MASK ltac:(done)). unfold PTE_ADDR_MASK in *.
  simpl. by rewrite wrap64_small by (unfold U64; lia).
Qed.

Lemma pmap_extract_run p pm s P va :
  p ≠ PmapNull → ps_pmaps s !! p = Some pm → lock_free (pm_lock pm) → space pm s P →
  ∃ s', pmap_extract p va s = Done (default 0 (translate (ps_mem s) (pm_root_phys pm) va)) s' ∧
    released p pm s s' ∧ ps_mem s' = ps_mem s ∧ ps_tlb s' = ps_tlb s ∧ ps_pages s' = ps_pages s.
Proof.
  intros Hp Ep Hlk Hsp. destruct (pmap_lock_run p pm s Ep Hlk) as [Elk Ethe].
  unfold pmap_extract. rewrite bool_decide_false by done.
  erewrite bind_done by done. erewrite bind_done by done.
  erewrite bind_done; [|apply (extract_walk_spec (held pm) (locked p pm s) P); by apply (space_ext pm (held pm) s)].
  destruct (pmap_unlock_run p pm s (locked p pm s) (ps_irq s) Ep)
    as (s2 & Eu & Hi & Hc & Hg & Hps & Hm & Htl & Hpg); [done|].
  erewrite bind_done by exact Eu. exists s2. split; [reflexivity|]. by split_and!.
Qed.

(** C19: [pmap_extract] computes the address the processor's page walk computes,
    or 0 for an address that is not mapped, and changes nothing but the lock. *)
Theorem pmap_extract_spec p pm s P va :
  p ≠ PmapNull → ps_pmaps s !! p = Some pm → lock_free (pm_lock pm) → space pm s P →
  ∃ s', pmap_extract p va s = Done (default 0 (translate (ps_mem s) (pm_root_phys pm) va)) s' ∧
    released p pm s s' ∧ ps_mem s' = ps_mem s ∧ ps_tlb s' = ps_tlb s ∧ ps_pages s' = ps_pages s.
Proof. apply pmap_extract_run. Qed.

(** ** Mapping and extraction together *)

Lemma page_parts b o : 0 ≤ b → 0 ≤ o < PAGE_SIZE →
  Z.land (b * PAGE_SIZE + o) 0xFFF = o ∧ (b * PAGE_SIZE + o) / PAGE_SIZE = b.
Proof.
  change PAGE_SIZE with 4096. intros Hb Ho. change 0xFFF with (Z.ones 12). rewrite Z.land_ones by lia.
  change (2 ^ 12) with 4096. mlia.
Qed.

Lemma page_dist_in_range b k o :
  0 ≤ b → 0 ≤ k < 2 ^ 36 → 0 ≤ o < PAGE_SIZE → page_dist (b * PAGE_SIZE) ((b + k) * PAGE_SIZE + o) = k.
Proof.
  intros Hb Hk Ho. rewrite <- (page_dist_offset (b * PAGE_SIZE) k) at 2 by done.
  unfold page_dist, vpn. destruct (page_parts (b + k) o) as [_ ->]; [lia|done|].
  by rewrite <- Z.mul_add_distr_r, !Z.div_mul.
Qed.

(** The translation of an address of the mapped range. *)
Lemma mapped_translate p pm s s' P P' virt phys size flags k :
  map_done p pm s s' P P' virt phys size flags 0 k →
  0 ≤ virt → 0 ≤ phys → phys + page_span virt size * PAGE_SIZE ≤ 2 ^ 52 → page_span virt size < 2 ^ 36 →
  ∀ j o, 0 ≤ j < page_span virt size → 0 ≤ o < PAGE_SIZE →
  translate (ps_mem s') (pm_root_phys pm) (page_down virt + j * PAGE_SIZE + o) = Some (page_down phys + j * PAGE_SIZE + o).
Proof.
  intros [Hres Hl _ _ _ _ _] Hv Hp Hmax Hsz j o Hj Ho.
  destruct Hres as [[_ ->]|[[=] _]]. unfold translate. rewrite Hl. unfold mapped_leaf.
  assert (Hvp : 0 ≤ virt / PAGE_SIZE) by (by apply Z.div_pos).
  assert (Hpp : 0 ≤ phys / PAGE_SIZE) by (by apply Z.div_pos).
  assert (E1 : page_down virt + j * PAGE_SIZE + o = (virt / PAGE_SIZE + j) * PAGE_SIZE + o) by (unfold page_down; lia).
  assert (E2 : page_down virt = virt / PAGE_SIZE * PAGE_SIZE) by (unfold page_down; lia).
  rewrite E1, E2, page_dist_in_range by (done || lia). rewrite decide_True by lia.
  destruct (page_parts (virt / PAGE_SIZE + j) o) as [-> _]; [lia|done|].
  assert (Hpg : page_down phys + j * PAGE_SIZE = (phys / PAGE_SIZE + j) * PAGE_SIZE) by (unfold page_down; lia).
  assert (Hlt : phys / PAGE_SIZE + j < 2 ^ 40).
  { change PAGE_SIZE with 4096 in *. change (2 ^ 52) with 0x10000000000000 in Hmax.
    change (2 ^ 40) with 0x10000000000. assert (phys / 4096 * 4096 ≤ phys) by mlia. lia. }
  rewrite page_entry_addr, wrap64_small; [|rewrite Hpg; change PAGE_SIZE with 4096 in *; unfold U64;
    change (2 ^ 40) with 0x10000000000 in Hlt; lia].
  rewrite Hpg, mask_page by lia. done.
Qed.

(** C11: [pmap_map] followed by [pmap_extract]: after a successful call every
    address of the range, at any offset in its page, is extracted as the physical
    address it was mapped to. *)
Theorem pmap_map_extract p pm s P virt phys size flags s' j o :
  p ≠ PmapNull → ps_pmaps s !! p = Some pm → lock_free (pm_lock pm) → space pm s P →
  has_flag flags PROT_HUGE = false →
  0 ≤ virt → 0 < size → virt + size + 0xFFF < U64 → page_span virt size < 2 ^ 36 →
  0 ≤ phys → phys + page_span virt size * PAGE_SIZE ≤ 2 ^ 52 →
  no_huge (ps_mem s) (pm_root_phys pm) (page_down virt) (page_span virt size) →
  pmap_map p virt phys size flags s = Done 0 s' →
  0 ≤ j < page_span virt size → 0 ≤ o < PAGE_SIZE →
  ∃ s'', pmap_extract p (page_down virt + j * PAGE_SIZE + o) s' = Done (page_down phys + j * PAGE_SIZE + o) s'' ∧
    ps_mem s'' = ps_mem s'.
Proof.
  intros Hp Ep Hlk Hsp Hfl Hv Hs He Hsz Hph Hmax Hnh Hrun Hj Ho.
  destruct (pmap_map_run p pm s P virt phys size flags) as (r & k & s1 & P' & E & Hd); [done..| |done|done|].
  { change (2 ^ 52) with 0x10000000000000 in Hmax. change PAGE_SIZE with 4096 in Hmax. unfold U64. lia. }
  rewrite Hrun in E. injection E as <- <-.
  destruct (md_released _ _ _ _ _ _ _ _ _ _ _ _ Hd) as (_ & _ & _ & Hps).
  destruct (pmap_extract_run p (Pmap (pm_root_virt pm) (pm_root_phys pm) (bump (pm_lock pm))) s' P'
    (page_down virt + j * PAGE_SIZE + o)) as (s2 & E2 & _ & Hm & _).
  - done.
  - rewrite Hps. apply lookup_insert_eq.
  - by apply bump_free.
  - by apply (space_ext pm _ s'), (md_space _ _ _ _ _ _ _ _ _ _ _ _ Hd).
  - exists s2. split; [|done]. rewrite E2. cbn [pm_root_phys].
    by erewrite (mapped_translate p pm s s' P P' virt phys size flags k Hd).
Qed.

(** A table reached through the root or the user half of the root. *)
Definition user_path (p : list Z) : Prop := match p with [] => True | i :: _ => i < 256 end.

Lemma user_idx va : 0 ≤ va < 2 ^ 47 → PML4_INDEX va < 256.
Proof.
  intros Hva. unfold PML4_INDEX. rewrite index_mod by done. change (2 ^ 47) with 0x800000000000 in Hva.
  change (2 ^ 39) with 0x8000000000. mlia.
Qed.

(** C12: isolation: mapping user pages in one address space changes no
    translation of another one, kernel half included, although the two share the
    kernel half of their tables; all it takes is that the root and the user-half
    tables of the first are not tables of the second. *)
Theorem pmap_map_isolated p pm s P virt phys size flags R2 :
  p ≠ PmapNull → ps_pmaps s !! p = Some pm → lock_free (pm_lock pm) → space pm s P →
  pt_wf (ps_mem s) R2 P →
  (∀ q1 q2 t, wf_path q1 → wf_path q2 → user_path q1 →
     tbl (ps_mem s) (pm_root_phys pm) q1 = Some t → tbl (ps_mem s) R2 q2 ≠ Some t) →
  has_flag flags PROT_HUGE = false →
  0 ≤ virt → 0 < size → virt + size + 0xFFF < 2 ^ 47 → 0 ≤ phys < U64 →
  no_huge (ps_mem s) (pm_root_phys pm) (page_down virt) (page_span virt size) →
  ∃ r s', pmap_map p virt phys size flags s = Done r s' ∧
    ∀ va, leaf (ps_mem s') R2 va = leaf (ps_mem s) R2 va.
Proof.
  intros Hp Ep Hlk Hsp Hw2 Hdis Hfl Hv Hs He Hph Hnh. change (2 ^ 47) with 0x800000000000 in He.
  destruct (page_range virt size Hv Hs ltac:(unfold U64; lia)) as (_ & _ & H3 & H4 & H5 & _).
  assert (Hend : page_down virt + page_span virt size * PAGE_SIZE ≤ virt + size + 0xFFF).
  { unfold page_down, page_span. change PAGE_SIZE with 4096. clear -Hv. mlia. }
  destruct (pmap_map_run p pm s P virt phys size flags) as (r & k & s' & P' & E & Hd); try done.
  { unfold U64. lia. }
  { change (2 ^ 36) with 0x1000000000. change PAGE_SIZE with 4096 in *. lia. }
  exists r, s'. split; [done|]. intros va. apply leaf_agree.
  intros q t i Hq Ht Hi. destruct (table_page _ _ _ Hw2 _ _ Hq Ht) as (f & -> & Hf & HPf).
  apply (md_frame _ _ _ _ _ _ _ _ _ _ _ _ Hd); [done| |done].
  intros (j & Hj & q1 & Hq1 & Ht1). refine (Hdis q1 q _ _ Hq _ Ht1 Ht).
  - by eapply wf_path_prefix, idx3_wf.
  - destruct q1 as [|a q1]; [done|]. destruct Hq1 as [k' Hk']. unfold idx3 in Hk'. injection Hk' as <- _.
    apply user_idx. change (2 ^ 47) with 0x800000000000. change PAGE_SIZE with 4096 in *. nia.
Qed.
End range.
