(* ===== verification/PmapCreate.v ===== *)
(** * New address spaces: pmap_init and pmap_create *)

From S2P Require Export PmapRange.

Section create.
Context {T : Type} `{!PageAllocator T}.
Implicit Types (s : pstate T) (pm : pmap_t).

(** A root whose user half is clear and whose kernel half points to the tables
    of another tree is itself a tree, with that tree's kernel translations. *)
Section root.
Context (m m' : gmap Z Z) (Rk : Z) (P : Z → Prop) (n : Z).
Hypothesis Hwf : pt_wf m Rk P.
Hypothesis Hn : 0 < n < 2 ^ 40.
Hypothesis HPn : P n.
Hypothesis Hframe : ∀ f i, index i → f ≠ n → entry m' (f * PAGE_SIZE) i = entry m (f * PAGE_SIZE) i.
Hypothesis Hroot : ∀ i, index i →
  entry m' (n * PAGE_SIZE) i = if decide (i < 256) then 0 else entry m Rk i.

Lemma kernel_root : ∃ f, Rk = f * PAGE_SIZE ∧ f ≠ n.
Proof.
  destruct (table_page _ _ _ Hwf [] Rk) as (f & E & _ & HPf); [apply wf_path0|done|].
  exists f. split; [done|]. by intros ->.
Qed.

Lemma old_entries q t i : wf_path q → tbl m Rk q = Some t → index i → entry m' t i = entry m t i.
Proof.
  intros Hq Ht Hi. destruct (table_page _ _ _ Hwf q t Hq Ht) as (f & -> & _ & HPf).
  apply Hframe; [done|]. by intros ->.
Qed.

Lemma old_tables p : wf_path p → tbl m' Rk p = tbl m Rk p.
Proof. apply tbl_agree, old_entries. Qed.

Lemma old_root_wf : pt_wf m' Rk P.
Proof. apply (pt_wf_agree m); [done|apply old_entries]. Qed.

Lemma new_root_tables i p : wf_path (i :: p) →
  tbl m' (n * PAGE_SIZE) (i :: p) = if decide (i < 256) then None else tbl m Rk (i :: p).
Proof.
  intros Hp. assert (Hi : index i) by (destruct Hp as [_ Hp]; by inversion Hp).
  rewrite <- old_tables by done. simpl. unfold sub.
  rewrite Hroot by done. destruct kernel_root as (f & -> & Hf). rewrite Hframe by done.
  by case_decide.
Qed.

Lemma new_root_wf P' : (∀ x, P' x → P x ∧ x ≠ n) → pt_wf m' (n * PAGE_SIZE) P'.
Proof.
  intros HP'.
  assert (Hold : ∀ i p t, wf_path (i :: p) → tbl m' (n * PAGE_SIZE) (i :: p) = Some t →
    tbl m Rk (i :: p) = Some t ∧ ∃ f, t = f * PAGE_SIZE ∧ 0 < f < 2 ^ 40 ∧ ¬ P f).
  { intros i p t Hp. rewrite new_root_tables by done. case_decide; [done|]. intros Ht. split; [done|].
    by apply (table_page _ _ _ Hwf (i :: p)). }
  assert (Hne : ∀ i p, wf_path (i :: p) → tbl m' (n * PAGE_SIZE) (i :: p) ≠ Some (n * PAGE_SIZE)).
  { intros i p Hp Ht. destruct (Hold _ _ _ Hp Ht) as (_ & f & E%frame_eq & _ & Hf). by subst f. }
  split.
  - intros [|i p] t Hp Ht.
    + injection Ht as <-. exists n. split_and!; [done|lia|lia|]. intros Hx%HP'. naive_solver.
    + destruct (Hold _ _ _ Hp Ht) as (_ & f & E & ? & Hf). exists f. split_and!; [done|lia|lia|].
      intros Hx%HP'. naive_solver.
  - intros [|i p] [|j q] t Hp Hq Ht1 Ht2; [done| | |].
    + injection Ht1 as <-. by apply Hne in Ht2.
    + injection Ht2 as <-. by apply Hne in Ht1.
    + apply Hold in Ht1 as [Ht1 _]; [|done]. apply Hold in Ht2 as [Ht2 _]; [|done]. by eapply Hwf.
  - intros [|j p] t i Hl Hp Hi Ht.
    + injection Ht as <-. rewrite Hroot by done. case_decide; [done|].
      apply (wf_upper _ _ _ Hwf []); [simpl; lia|done|done|done].
    + destruct (Hold _ _ _ Hp Ht) as (Ht' & f & -> & _ & Hf). rewrite Hframe by (done || by intros ->).
      by eapply Hwf.
Qed.

Lemma new_root_leaf va :
  leaf m' (n * PAGE_SIZE) va = if decide (PML4_INDEX va < 256) then None else leaf m Rk va.
Proof.
  unfold leaf, idx3, idx2. rewrite !new_root_tables by (apply idx2_wf || apply idx3_wf).
  destruct (decide (PML4_INDEX va < 256)); [done|].
  destruct (tbl m Rk [PML4_INDEX va; PDPT_INDEX va]) as [pd|] eqn:E2; [|done].
  destruct (table_page _ _ _ Hwf _ _ (idx2_wf va) E2) as (f & -> & _ & Hf).
  rewrite Hframe by (apply land_1FF || by intros ->). destruct (present _ && _); [done|].
  destruct (tbl m Rk [PML4_INDEX va; PDPT_INDEX va; PD_INDEX va]) as [pt|] eqn:E3; [|done].
  destruct (table_page _ _ _ Hwf _ _ (idx3_wf va) E3) as (g & -> & _ & Hg).
  by rewrite Hframe by (apply land_1FF || by intros ->).
Qed.
End root.

(** ** pmap_init *)

(** A cleared root is an empty tree. *)
Lemma clear_root m n (P : Z → Prop) :
  0 < n < 2 ^ 40 → ¬ P n → (∀ i, index i → entry m (n * PAGE_SIZE) i = 0) →
  pt_wf m (n * PAGE_SIZE) P ∧ (∀ va, leaf m (n * PAGE_SIZE) va = None) ∧
  ∀ i p, wf_path (i :: p) → tbl m (n * PAGE_SIZE) (i :: p) = None.
Proof.
  intros Hn HP Hz0.
  assert (Hz : ∀ i p, index i → tbl m (n * PAGE_SIZE) (i :: p) = None).
  { intros i p Hi. simpl. unfold sub. by rewrite Hz0. }
  assert (Hi : ∀ i p, wf_path (i :: p) → index i) by (intros i p [_ Hp]; by inversion Hp).
  split; [split|split].
  - intros [|i p] t Hp Ht; [|by rewrite Hz in Ht by by eapply Hi].
    injection Ht as <-. by exists n.
  - intros [|i p] [|j q] t Hp Hq Ht1 Ht2; [done| | |];
      [rewrite Hz in Ht2 by by eapply Hi|rewrite Hz in Ht1 by by eapply Hi..]; done.
  - intros [|j p] t i Hl Hp Hii Ht; [|by rewrite Hz in Ht by by eapply Hi].
    injection Ht as <-. by rewrite Hz0.
  - intros va. unfold leaf, idx2. by rewrite Hz by apply land_1FF.
  - intros i p Hp. by apply Hz, (Hi i p).
Qed.

Lemma cleared_entry m n i : index i → entry (zero_page (n * PAGE_SIZE) m) (n * PAGE_SIZE) i = 0.
Proof. intros Hi. by rewrite entry_zero, decide_True. Qed.

(** [pmap_init] on both branches: without a page it fails and changes nothing
    but the allocator's lock; otherwise the kernel address space is a
    well-formed tree on a page that was free, and maps nothing. *)
Lemma pmap_init_spec s P :
  pa_inv (ps_pages s) P →
  (∃ t', pmap_init s = Done (-1) (set_pages t' s) ∧ pa_inv t' P) ∨
  ∃ n s' kpm, pmap_init s = Done 0 s' ∧ P n ∧ ps_pmaps s' = <[PmapKernel := kpm]> (ps_pmaps s) ∧
    pm_root_phys kpm = n * PAGE_SIZE ∧ lock_free (pm_lock kpm) ∧
    space kpm s' (λ x, P x ∧ ¬ in_block n 0 x) ∧ ps_cr3 s' = ps_cr3 s ∧ ps_irq s' = ps_irq s ∧
    ∀ va, leaf (ps_mem s') (pm_root_phys kpm) va = None.
Proof.
  intros Hinv. unfold pmap_init.
  destruct (pa_alloc_spec (ps_pages s) P 0 Hinv) as [(t' & E & Hinv')|(n & t' & E & Hn & Hn40 & HPn & Hinv')]; [done|left|right].
  - exists t'. erewrite bind_done by by apply klift_done. done.
  - change (2 ^ 0) with 1 in *. change (2 ^ 40) with 0x10000000000 in Hn40.
    erewrite bind_done by by apply klift_done.
    rewrite (proj2 (Z.eqb_neq _ _)) by (change PAGE_SIZE with 4096; lia).
    assert (Hn' : 0 < n < 2 ^ 40) by (change (2 ^ 40) with 0x10000000000; lia).
    destruct (clear_root (zero_page (n * PAGE_SIZE) (ps_mem s)) n (λ x, P x ∧ ¬ in_block n 0 x)) as (Hw & Hl & _).
    { done. }
    { intros [_ Hx]. apply Hx. by apply in_block_0. }
    { apply cleared_entry. }
    eexists n, _, (Pmap (phys_to_virt (n * PAGE_SIZE)) (n * PAGE_SIZE) SPINLOCK_INITIALIZER).
    split; [reflexivity|]. cbn [set_pmaps set_mem set_pages ps_mem ps_pmaps ps_cr3 ps_irq pm_root_phys].
    rewrite page_virt by done. split_and!; try done. apply HPn. by apply in_block_0.
Qed.

(** ** pmap_create *)

Lemma copy_kernel_half_pmaps dst src s :
  ∃ s', copy_kernel_half dst src s = Done tt s' ∧ ps_pmaps s' = ps_pmaps s.
Proof.
  unfold copy_kernel_half.
  destruct (kfor_inv 256 256 (λ i, e ← get_entry src i; set_entry dst i e)
    (λ (j : Z) (u : pstate T), ps_pmaps u = ps_pmaps s) s) as (u & Eu & Hu).
  - reflexivity.
  - intros j u _ Hu. eexists. split; [reflexivity|]. exact Hu.
  - exists u. split; [exact Eu|exact Hu].
Qed.

(** The copy loop, with what it leaves in the new root. *)
Lemma copy_kernel_half_spec s n f :
  0 < n < 2 ^ 40 → 0 < f < 2 ^ 40 → f ≠ n →
  ∃ s', copy_kernel_half (phys_to_virt (n * PAGE_SIZE)) (phys_to_virt (f * PAGE_SIZE)) s = Done tt s' ∧
    same_rest s s' ∧ ps_tlb s' = ps_tlb s ∧ ps_pages s' = ps_pages s ∧
    (∀ g i, index i → g ≠ n → entry (ps_mem s') (g * PAGE_SIZE) i = entry (ps_mem s) (g * PAGE_SIZE) i) ∧
    ∀ i, index i → entry (ps_mem s') (n * PAGE_SIZE) i =
      if decide (i < 256) then entry (ps_mem s) (n * PAGE_SIZE) i else entry (ps_mem s) (f * PAGE_SIZE) i.
Proof.
  intros Hn Hf Hne.
  unfold copy_kernel_half.
  destruct (kfor_inv 256 256 (λ i, e ← get_entry (phys_to_virt (f * PAGE_SIZE)) i;
      set_entry (phys_to_virt (n * PAGE_SIZE)) i e)
    (λ j t, same_rest s t ∧ ps_tlb t = ps_tlb s ∧ ps_pages t = ps_pages s ∧
      (∀ g i, index i → g ≠ n → entry (ps_mem t) (g * PAGE_SIZE) i = entry (ps_mem s) (g * PAGE_SIZE) i) ∧
      ∀ i, index i → entry (ps_mem t) (n * PAGE_SIZE) i =
        if decide (256 ≤ i < j) then entry (ps_mem s) (f * PAGE_SIZE) i else entry (ps_mem s) (n * PAGE_SIZE) i) s)
    as (s' & E & Hr & Ht & Hp & Hg & Hi).
  - split_and!; try done. intros i _. rewrite decide_False; [done|lia].
  - intros j t Hj ([????] & Ht & Hp & Hg & Hi).
    assert (Hij : index j) by (unfold index; lia).
    erewrite bind_done; [|apply get_entry_run, page_virt, Hf].
    eexists. split; [apply set_entry_run, page_virt, Hn|]. cbn [set_mem ps_mem ps_tlb ps_pages].
    split; [by split|]. split_and!; try done.
    + intros g i Hii Hgn. rewrite entry_write, decide_False by (done || by intros [-> _]). by apply Hg.
    + intros i Hii. rewrite entry_write by done. rewrite Hg by done.
      destruct (decide (j = i)) as [->|Hji].
      * rewrite (decide_True (P := n = n ∧ i = i)) by done. rewrite decide_True by lia. done.
      * rewrite (decide_False (P := n = n ∧ j = i)) by naive_solver. rewrite Hi by done.
        destruct (decide (256 ≤ i < j)); [by rewrite decide_True by lia|by rewrite decide_False by lia].
  - exists s'. do 4 (split; [assumption|]). split; [assumption|]. intros i Hii. rewrite Hi by done. unfold index in Hii.
    destruct (decide (i < 256)); [rewrite decide_False by lia|rewrite decide_True by lia]; done.
Qed.

(** The page [pmap_create] allocates, cleared and filled: the other pages are as
    they were. *)
Lemma new_root_filled s (t : T) n f :
  0 < n < 2 ^ 40 → 0 < f < 2 ^ 40 → f ≠ n →
  ∃ s', copy_kernel_half (phys_to_virt (n * PAGE_SIZE)) (phys_to_virt (f * PAGE_SIZE))
      (set_mem (zero_page (n * PAGE_SIZE) (ps_mem s)) (set_pages t s)) = Done tt s' ∧
    ps_pmaps s' = ps_pmaps s ∧ ps_pages s' = t ∧
    (∀ g i, index i → g ≠ n → entry (ps_mem s') (g * PAGE_SIZE) i = entry (ps_mem s) (g * PAGE_SIZE) i) ∧
    ∀ i, index i → entry (ps_mem s') (n * PAGE_SIZE) i =
      if decide (i < 256) then 0 else entry (ps_mem s) (f * PAGE_SIZE) i.
Proof.
  intros Hn Hf Hnf.
  edestruct (copy_kernel_half_spec (set_mem (zero_page (n * PAGE_SIZE) (ps_mem s)) (set_pages t s)) n f)
    as (s2 & E2 & [_ _ Hps _] & _ & Hpg & Hfr & Hro); [done..|].
  cbn [set_mem set_pages ps_mem ps_pages ps_pmaps] in *.
  exists s2. split; [exact E2|]. split; [exact Hps|]. split; [exact Hpg|]. split.
  - intros g i Hi Hg. by rewrite Hfr, entry_zero, decide_False by (done || congruence).
  - intros i Hi. rewrite (Hro i Hi), !(entry_zero _ _ _ _ Hi).
    rewrite (decide_True (P := n = n) _ _ eq_refl). by rewrite (decide_False (P := n = f)) by congruence.
Qed.

End create.
