(* ===== verification/PmapExamples.v ===== *)
(** * Address spaces on a concrete machine

    A reference [PageAllocator] that records each frame on its own, and the
    theorems of the previous files applied to a machine with thirty free pages. *)

From S2P Require Export PmapCreate.

(** ** A bag of frames as an allocator *)

Definition bag_alloc (o : Z) : K (list Z) Z := λ t,
  if o =? 0 then match t with [] => Done 0 [] | x :: t' => Done (x * PAGE_SIZE) t' end else Done 0 t.
Definition bag_free (a o : Z) : K (list Z) unit := λ t,
  if o =? 0 then Done tt (a / PAGE_SIZE :: t) else Undef.

Definition bag_inv (t : list Z) (P : Z → Prop) : Prop :=
  NoDup t ∧ (∀ x, P x ↔ x ∈ t) ∧ ∀ x, x ∈ t → 0 < x < 2 ^ 40.
Definition bag_free_ok (t : list Z) (P : Z → Prop) (b o : Z) : Prop :=
  o = 0 ∧ bag_inv t P ∧ ¬ P b ∧ 0 < b < 2 ^ 40.

#[export] Instance bag_allocator : PageAllocator (list Z).
Proof.
  refine {| pa_alloc := bag_alloc; pa_free := bag_free; pa_inv := bag_inv; pa_free_ok := bag_free_ok |}.
  - intros t P Q HPQ (H1 & H2 & H3). split_and!; [done| |done]. intros x. by rewrite <- HPQ.
  - intros t P o (H1 & H2 & H3) Ho. unfold bag_alloc. case Z.eqb_spec; intros E; [|by left; exists t].
    destruct t as [|x t]; [by left; exists []|right]. exists x, t. subst o.
    assert (0 < x < 2 ^ 40) by (apply H3; set_solver). change (2 ^ 40) with 0x10000000000 in *.
    change (2 ^ 0) with 1. apply NoDup_cons in H1 as [Hx H1]. split_and!; [done|lia|lia| |].
    + intros y ->%in_block_0. apply H2. set_solver.
    + split_and!; [done| |set_solver]. intros y. rewrite in_block_0, H2. set_solver.
  - intros t P b o (-> & (H1 & H2 & H3) & Hb & Hr). unfold bag_free. simpl.
    eexists. split; [reflexivity|]. rewrite Z.div_mul by done. split_and!.
    + apply NoDup_cons. split; [by rewrite <- H2|done].
    + intros x. rewrite in_block_0, H2. set_solver.
    + intros x [->|Hx]%elem_of_cons; [done|by apply H3].
Defined.

Lemma three_frames (f1 f2 f3 : Z) (c1 c2 c3 : bool) : f1 ≠ f2 → f1 ≠ f3 → f2 ≠ f3 →
  let l := if c1 then f1 :: (if c2 then f2 :: (if c3 then [f3] else []) else []) else [] in
  NoDup l ∧ ∀ f, f ∈ l → f = f1 ∨ f = f2 ∨ f = f3.
Proof.
  intros N12 N13 N23. destruct c1, c2, c3; cbn; (split; [|intros f; rewrite ?elem_of_cons, ?elem_of_nil; tauto]);
    repeat (apply NoDup_cons; split); try apply NoDup_nil_2; rewrite ?elem_of_cons, ?elem_of_nil; intuition.
Qed.

(** Where single frames can always be returned, so can the tables that
    unmapping leaves empty. *)
Section any_free.
Context {T : Type} `{!PageAllocator T}.
Hypothesis free_any : ∀ t P b, pa_inv t P → 0 < b < 2 ^ 40 → ¬ P b → pa_free_ok t P b 0.

Lemma frees_ok_list t P l :
  pa_inv t P → NoDup l → (∀ f, f ∈ l → 0 < f < 2 ^ 40 ∧ ¬ P f) → frees_ok t P l.
Proof.
  revert t P. induction l as [|f l IH]; intros t P Hinv Hnd Hl; [done|].
  apply NoDup_cons in Hnd as [Hf Hnd]. destruct (Hl f) as [Hr HP]; [set_solver|].
  assert (Hok := free_any t P f Hinv Hr HP). split; [done|]. intros t' E.
  destruct (pa_free_spec t P f 0 Hok) as (t'' & E' & Hinv'). rewrite E in E'. injection E' as <-.
  apply IH; [done|done|]. intros g Hg. destruct (Hl g) as [? ?]; [set_solver|]. split; [done|].
  intros [?| ->%in_block_0]; done.
Qed.

Lemma frees_ok_tables pm s P va : space pm s P → frees_ok (ps_pages s) P (unmap_frees (ps_mem s) (pm_root_phys pm) va).
Proof.
  intros Hsp. unfold unmap_frees. destruct (leaf _ _ va) as [[[] e]|]; try done.
  destruct (tbl _ _ [PML4_INDEX va]) as [t3|] eqn:E3; [|done].
  destruct (tbl _ _ (idx2 va)) as [t2|] eqn:E2; [|done].
  destruct (tbl _ _ (idx3 va)) as [t1|] eqn:E1; [|done].
  pose proof (sp_tree _ _ _ Hsp) as Hw.
  destruct (table_page _ _ _ Hw _ _ (wf_path1 va) E3) as (f3 & -> & R3 & P3).
  destruct (table_page _ _ _ Hw _ _ (idx2_wf va) E2) as (f2 & -> & R2 & P2).
  destruct (table_page _ _ _ Hw _ _ (idx3_wf va) E1) as (f1 & -> & R1 & P1).
  assert (N12 : f1 ≠ f2).
  { intros ->. by pose proof (wf_inj _ _ _ Hw _ _ _ (idx3_wf va) (idx2_wf va) E1 E2). }
  assert (N13 : f1 ≠ f3).
  { intros ->. by pose proof (wf_inj _ _ _ Hw _ _ _ (idx3_wf va) (wf_path1 va) E1 E3). }
  assert (N23 : f2 ≠ f3).
  { intros ->. by pose proof (wf_inj _ _ _ Hw _ _ _ (idx2_wf va) (wf_path1 va) E2 E3). }
  rewrite !phys_to_pfn_page. apply frees_ok_list; [apply Hsp| |].
  - by apply three_frames.
  - intros f Hf. apply (three_frames f1 f2 f3) in Hf as [->|[->| ->]]; done.
Qed.

Lemma unmap_ok_any n pm s P va : space pm s P → unmap_ok n pm s P va.
Proof.
  revert s P va. induction n as [|n IH]; intros s P va Hsp; [done|]. split; [by apply frees_ok_tables|].
  intros s' P' freed r _ Hun. apply IH, Hun.
Qed.
End any_free.

Lemma bag_free_any (t : list Z) (P : Z → Prop) b :
  pa_inv t P → 0 < b < 2 ^ 40 → ¬ P b → pa_free_ok t P b 0.
Proof. done. Qed.

(** ** The machine *)

Definition bare : pstate (list Z) := PState (seqZ 1 30) ∅ 0 true [] ∅ ∅.
Definition booted : pstate (list Z) := state_of bare (pmap_init bare).

Lemma booted_space : ∃ kpm P, ps_pmaps booted !! PmapKernel = Some kpm ∧ lock_free (pm_lock kpm) ∧
  space kpm booted P ∧ (∀ va, leaf (ps_mem booted) (pm_root_phys kpm) va = None) ∧ ps_cr3 booted = 0.
Proof.
  destruct (pmap_init_spec bare (λ x, x ∈ seqZ 1 30)) as [(t & E & _)|(n & s & kpm & E & _ & Ep & _ & Hl & Hsp & Hc & _ & Hlf)].
  - split_and!; [apply NoDup_seqZ|done|]. intros x Hx%elem_of_seqZ. change (2 ^ 40) with 0x10000000000. lia.
  - discriminate E.
  - exists kpm. eexists. unfold booted. rewrite E. simpl state_of. rewrite Ep, Hc.
    split; [apply lookup_insert_eq|]. split_and!; try done.
Qed.

#[local] Opaque booted.

Lemma nothing_huge m R va n : (∀ va, leaf m R va = None) → no_huge m R va n.
Proof. intros H j e _. by rewrite H. Qed.

(** Two pages at 4 MiB, backed by physical 0x10000. *)
Lemma pmap_map_spec_witness :
  ∃ kpm k s' P', pmap_map PmapKernel 0x400000 0x10000 0x2000 0x0A booted = Done 0 s' ∧
    k = 2 ∧ space kpm s' P' ∧
    leaf (ps_mem s') (pm_root_phys kpm) 0x401000 = Some (false, page_entry 0x11000 0x0A).
Proof.
  destruct booted_space as (kpm & P & Ep & Hl & Hsp & Hlf & _).
  destruct (pmap_map_spec PmapKernel kpm booted P 0x400000 0x10000 0x2000 0x0A)
    as (r & k & s' & P' & E & Hr & Hleaf & Hsp' & _);
    [discriminate|exact Ep|exact Hl|exact Hsp|reflexivity|lia|lia|reflexivity|split; [lia|reflexivity]|reflexivity|exact (nothing_huge _ _ _ _ Hlf)|].
  assert (Er : r = 0).
  { assert (H : value_of (pmap_map PmapKernel 0x400000 0x10000 0x2000 0x0A booted) = Some 0) by (vm_compute; reflexivity).
    rewrite E in H. by injection H. }
  destruct Hr as [[_ Hk]|[Hr _]]; [|by rewrite Er in Hr]. subst r.
  exists kpm, k, s', P'. split; [exact E|]. split; [by rewrite Hk|]. split; [exact Hsp'|].
  rewrite Hleaf, Hk. reflexivity.
Defined.

(** The machine with those two pages mapped. *)
Definition mapped : pstate (list Z) := state_of bare (pmap_map PmapKernel 0x400000 0x10000 0x2000 0x0A booted).

Lemma mapped_run : pmap_map PmapKernel 0x400000 0x10000 0x2000 0x0A booted = Done 0 mapped.
Proof.
  apply value_run. vm_compute. reflexivity.
Qed.

#[local] Opaque mapped.

Lemma mapped_space : ∃ kpm P, ps_pmaps mapped !! PmapKernel = Some kpm ∧ lock_free (pm_lock kpm) ∧
  space kpm mapped P ∧ ∀ va, leaf (ps_mem mapped) (pm_root_phys kpm) va =
    mapped_leaf 0x400000 0x10000 0x0A 2 (λ _, None) va.
Proof.
  destruct booted_space as (kpm & P & Ep & Hl & Hsp & Hlf & _).
  destruct (pmap_map_run PmapKernel kpm booted P 0x400000 0x10000 0x2000 0x0A)
    as (r & k & s' & P' & E & Hd);
    [discriminate|exact Ep|exact Hl|exact Hsp|reflexivity|lia|lia|reflexivity|split; [lia|reflexivity]|reflexivity|exact (nothing_huge _ _ _ _ Hlf)|].
  rewrite mapped_run in E. apply done_inj in E as [<- <-].
  destruct Hd as [Hr Hleaf Hsp' _ _ _ (_ & _ & _ & Hps) _].
  destruct Hr as [[_ Hk]|[[=] _]].
  exists (Pmap (pm_root_virt kpm) (pm_root_phys kpm) (bump (pm_lock kpm))), P'.
  split; [rewrite Hps; apply lookup_insert_eq|]. split; [by apply bump_free|].
  split; [apply (space_ext kpm _ mapped _ P'); [reflexivity..|exact Hsp']|].
  intros va. rewrite Hleaf, Hk. unfold mapped_leaf. change (page_span 0x400000 0x2000) with 2.
  change (page_down 0x400000) with 0x400000. change (page_down 0x10000) with 0x10000.
  destruct (decide _); [done|apply Hlf].
Qed.

Lemma mapped_not_huge kpm n :
  (∀ va, leaf (ps_mem mapped) (pm_root_phys kpm) va = mapped_leaf 0x400000 0x10000 0x0A 2 (λ _, None) va) →
  no_huge (ps_mem mapped) (pm_root_phys kpm) 0x400000 n.
Proof. intros H j e _. rewrite H. unfold mapped_leaf. by destruct (decide _). Qed.


Lemma pmap_extract_spec_witness :
  ∃ s', pmap_extract PmapKernel 0x401234 mapped = Done 0x11234 s'.
Proof.
  destruct mapped_space as (kpm & P & Ep & Hl & Hsp & Hlf).
  destruct (pmap_extract_spec PmapKernel kpm mapped P 0x401234) as (s' & E & _);
    [discriminate|exact Ep|exact Hl|exact Hsp|].
  exists s'. rewrite E. unfold translate. rewrite Hlf. reflexivity.
Defined.

Lemma pmap_map_extract_witness :
  ∃ s', pmap_extract PmapKernel 0x401234 mapped = Done 0x11234 s'.
Proof.
  destruct booted_space as (kpm & P & Ep & Hl & Hsp & Hlf & _).
  destruct (pmap_map_extract PmapKernel kpm booted P 0x400000 0x10000 0x2000 0x0A mapped 1 0x234) as (s' & E & _);
    [discriminate|exact Ep|exact Hl|exact Hsp|reflexivity|lia|lia|reflexivity|reflexivity|lia|discriminate
    |exact (nothing_huge _ _ _ _ Hlf)|exact mapped_run|split; [lia|reflexivity]|split; [lia|reflexivity]|].
  exists s'. exact E.
Defined.

(** A heap that hands out one object. *)
Definition one_object {T} (n : Z) : K (pstate T) Z := mret 0x5000.


(** Two address spaces with empty trees, rooted at frames 1 and 2. *)
Definition two_mem : gmap Z Z := zero_page (2 * PAGE_SIZE) (zero_page (1 * PAGE_SIZE) ∅).
Definition second : pmap_t := Pmap (phys_to_virt (2 * PAGE_SIZE)) (2 * PAGE_SIZE) SPINLOCK_INITIALIZER.
Definition two : pstate (list Z) :=
  PState (seqZ 3 28) two_mem 0x1000 true [] {[PmapAt 0x5000 := second]} ∅.

Lemma two_trees n : n = 1 ∨ n = 2 →
  pt_wf two_mem (n * PAGE_SIZE) (λ x, x ∈ seqZ 3 28) ∧ (∀ va, leaf two_mem (n * PAGE_SIZE) va = None) ∧
  ∀ i p, wf_path (i :: p) → tbl two_mem (n * PAGE_SIZE) (i :: p) = None.
Proof.
  intros Hn. apply clear_root.
  - change (2 ^ 40) with 0x10000000000. lia.
  - intros Hx%elem_of_seqZ. lia.
  - intros i Hi. unfold two_mem. rewrite !entry_zero by done.
    destruct Hn as [-> | ->]; [rewrite decide_False, decide_True by done|rewrite decide_True by done]; done.
Qed.

Lemma pmap_map_isolated_witness :
  ∃ r s', pmap_map (PmapAt 0x5000) 0x400000 0x10000 0x2000 0x0A two = Done r s' ∧
    ∀ va, leaf (ps_mem s') (1 * PAGE_SIZE) va = leaf two_mem (1 * PAGE_SIZE) va.
Proof.
  destruct (two_trees 1) as (Hw1 & _ & Ht1); [by left|]. destruct (two_trees 2) as (Hw2 & Hl2 & Ht2); [by right|].
  apply (pmap_map_isolated (PmapAt 0x5000) second two (λ x, x ∈ seqZ 3 28) 0x400000 0x10000 0x2000 0x0A (1 * PAGE_SIZE)).
  - discriminate.
  - apply lookup_singleton_eq.
  - reflexivity.
  - split; [reflexivity|exact Hw2|]. split; [apply NoDup_seqZ|split; [done|]].
    intros x Hx%elem_of_seqZ. change (2 ^ 40) with 0x10000000000. lia.
  - exact Hw1.
  - intros [|i q1] [|j q2] t Hq1 Hq2 _ E1 E2.
    + injection E1 as <-. discriminate E2.
    + change (ps_mem two) with two_mem in E2. by rewrite Ht1 in E2.
    + change (ps_mem two) with two_mem in E1. change (pm_root_phys second) with (2 * PAGE_SIZE) in E1. by rewrite Ht2 in E1.
    + change (ps_mem two) with two_mem in E2. by rewrite Ht1 in E2.
  - reflexivity.
  - lia.
  - lia.
  - reflexivity.
  - split; [lia|reflexivity].
  - exact (nothing_huge _ _ _ _ Hl2).
Defined.

Lemma pmap_map_huge_page_witness :
  ∃ r s', pmap_map_page second 0x600000 0xA00000 0x42 two = Done r s' ∧
    r = 0 ∧ leaf (ps_mem s') (2 * PAGE_SIZE) 0x654321 = Some (true, huge_entry 0xA00000 0x42).
Proof.
  destruct (two_trees 2) as (Hw2 & Hl2 & Ht2); [by right|].
  destruct (pmap_map_huge_page second two (λ x, x ∈ seqZ 3 28) 0x600000 0xA00000 0x42)
    as (r & s' & P' & E & _ & _ & _ & _ & Hr).
  - split; [reflexivity|exact Hw2|]. split; [apply NoDup_seqZ|split; [done|]].
    intros x Hx%elem_of_seqZ. change (2 ^ 40) with 0x10000000000. lia.
  - reflexivity.
  - intros f Hf. pose proof (Ht2 _ _ (idx3_wf 0x600000)) as Hn. change (tbl two_mem (2 * PAGE_SIZE) (idx3 0x600000) = None) in Hn.
    change (tbl two_mem (2 * PAGE_SIZE) (idx3 0x600000) = Some (f * PAGE_SIZE)) in Hf. rewrite Hn in Hf. discriminate Hf.
  - assert (Er : r = 0).
    { assert (H : value_of (pmap_map_page second 0x600000 0xA00000 0x42 two) = Some 0) by (vm_compute; reflexivity).
      rewrite E in H. by injection H. }
    exists r, s'. split; [exact E|]. split; [exact Er|]. destruct Hr as [[Hr _]|[_ Hr]]; [by rewrite Er in Hr|].
    change (2 * PAGE_SIZE) with (pm_root_phys second). rewrite Hr. reflexivity.
Defined.
