(* ===== verification/Mem.v ===== *)
(** * Bytes of physical memory

    Physical memory is a store of 64-bit little-endian words ([ps_mem]); this
    file gives the byte and half-word accesses of C code through the
    direct map, and [memset]/[memcpy] on them. *)

From S2P Require Export Pmap.

Definition word_at (a : Z) : Z := a - a mod 8.

Definition get_byte (m : gmap Z Z) (a : Z) : Z := Z.land (Z.shiftr (rd m (word_at a)) (8 * (a mod 8))) 0xFF.

(** [w] with its byte [k] replaced by [v]. *)
Definition with_byte (w k v : Z) : Z :=
  Z.lor (Z.ldiff w (Z.shiftl 0xFF (8 * k))) (Z.shiftl (Z.land v 0xFF) (8 * k)).
Definition put_byte (a v : Z) (m : gmap Z Z) : gmap Z Z := <[word_at a := with_byte (rd m (word_at a)) (a mod 8) v]> m.

(** The 32-bit word at the 4-byte aligned address [a]. *)
Definition rd32 (m : gmap Z Z) (a : Z) : Z := Z.land (Z.shiftr (rd m (word_at a)) (8 * (a mod 8))) (U32 - 1).

(** [memset(a, v, n)] and [memcpy(dst, src, n)], the latter from given bytes. *)
Fixpoint mem_fill (n : nat) (a v : Z) (m : gmap Z Z) : gmap Z Z :=
  match n with O => m | S n' => mem_fill n' (a + 1) v (put_byte a v m) end.
Fixpoint mem_write (a : Z) (bs : list Z) (m : gmap Z Z) : gmap Z Z :=
  match bs with [] => m | b :: bs' => mem_write (a + 1) bs' (put_byte a b m) end.
Definition mem_read (a n : Z) (m : gmap Z Z) : list Z := (λ i, get_byte m (a + i)) <$> seqZ 0 n.

(** ** Laws *)

Lemma word_at_mod a : word_at a mod 8 = 0 ∧ word_at a + a mod 8 = a ∧ 0 ≤ a mod 8 < 8.
Proof. unfold word_at. mlia. Qed.

Lemma with_byte_same w k v : 0 ≤ k → Z.land (Z.shiftr (with_byte w k v) (8 * k)) 0xFF = Z.land v 0xFF.
Proof.
  intros Hk. unfold with_byte. change 0xFF with (Z.ones 8). apply Z.bits_inj'. intros i Hi.
  rewrite !Z.land_spec, Z.testbit_ones, Z.shiftr_spec, Z.lor_spec, Z.ldiff_spec by lia.
  destruct (Z.ltb_spec i 8) as [Hlt|]; [|by rewrite !andb_false_r].
  rewrite !Z.shiftl_spec, Z.land_spec by lia. replace (i + 8 * k - 8 * k) with i by lia.
  rewrite !Z.testbit_ones by lia. rewrite (proj2 (Z.ltb_lt i 8)) by lia. rewrite (proj2 (Z.leb_le 0 i)) by lia.
  cbn [andb negb]. rewrite andb_false_r. cbn [orb]. by rewrite !andb_true_r.
Qed.

Lemma with_byte_other w k j v :
  0 ≤ k → 0 ≤ j → k ≠ j → Z.land (Z.shiftr (with_byte w k v) (8 * j)) 0xFF = Z.land (Z.shiftr w (8 * j)) 0xFF.
Proof.
  intros Hk Hj Hne. unfold with_byte. change 0xFF with (Z.ones 8). apply Z.bits_inj'. intros i Hi.
  rewrite !Z.land_spec, Z.testbit_ones, !Z.shiftr_spec, Z.lor_spec, Z.ldiff_spec by lia.
  destruct (Z.ltb_spec i 8) as [Hlt|]; [|by rewrite !andb_false_r].
  assert (Hout : ∀ x, Z.testbit (Z.shiftl (Z.land x (Z.ones 8)) (8 * k)) (i + 8 * j) = false).
  { intros x. rewrite Z.shiftl_spec by lia. destruct (Z.ltb_spec (i + 8 * j - 8 * k) 0); [apply Z.testbit_neg_r; lia|].
    rewrite Z.land_spec, Z.testbit_ones by lia. rewrite (proj2 (Z.ltb_ge _ 8)) by lia. by rewrite !andb_false_r. }
  rewrite Hout. pose proof (Hout (Z.ones 8)) as H1. rewrite Z.land_diag in H1. rewrite H1.
  cbn [negb]. by rewrite andb_true_r, orb_false_r.
Qed.

Lemma get_put a v m : get_byte (put_byte a v m) a = Z.land v 0xFF.
Proof.
  destruct (word_at_mod a) as (_ & _ & Ha). unfold get_byte, put_byte, rd at 1.
  rewrite lookup_insert_eq. simpl default. apply with_byte_same. lia.
Qed.

Lemma get_put_ne a b v m : a ≠ b → get_byte (put_byte a v m) b = get_byte m b.
Proof.
  intros Hne. destruct (word_at_mod a) as (_ & Ea & Ha), (word_at_mod b) as (_ & Eb & Hb).
  unfold get_byte, put_byte. unfold rd at 1. destruct (decide (word_at a = word_at b)) as [Hw|Hw].
  - rewrite Hw, lookup_insert_eq. simpl default. apply with_byte_other; lia.
  - by rewrite lookup_insert_ne.
Qed.

Lemma get_byte_range m a : 0 ≤ get_byte m a < 256.
Proof.
  unfold get_byte. change 0xFF with (Z.ones 8). rewrite Z.land_ones by lia. change (2 ^ 8) with 256. mlia.
Qed.

(** What a [memcpy] wrote is what is read, and nothing else changed. *)
Lemma get_mem_write bs a m b :
  get_byte (mem_write a bs m) b =
    if decide (a ≤ b < a + Z.of_nat (length bs)) then Z.land (bs !!! Z.to_nat (b - a)) 0xFF else get_byte m b.
Proof.
  revert a m. induction bs as [|x bs IH]; intros a m; simpl; [rewrite decide_False by lia; done|].
  rewrite IH. destruct (decide (b = a)) as [->|Hne].
  - rewrite decide_False by lia. rewrite decide_True by lia. rewrite get_put. by rewrite Z.sub_diag.
  - rewrite get_put_ne by done. destruct (decide (a + 1 ≤ b < a + 1 + Z.of_nat (length bs))).
    + rewrite decide_True by lia. replace (Z.to_nat (b - a)) with (S (Z.to_nat (b - (a + 1)))) by lia. done.
    + by rewrite decide_False by lia.
Qed.

Lemma get_mem_fill n a v m b :
  get_byte (mem_fill n a v m) b = if decide (a ≤ b < a + Z.of_nat n) then Z.land v 0xFF else get_byte m b.
Proof.
  revert a m. induction n as [|n IH]; intros a m; simpl; [rewrite decide_False by lia; done|].
  rewrite IH. destruct (decide (b = a)) as [->|Hne].
  - rewrite decide_False by lia. rewrite decide_True by lia. apply get_put.
  - rewrite get_put_ne by done. by destruct (decide (a + 1 ≤ b < _)), (decide (a ≤ b < _)); try lia.
Qed.
