(* ===== verification/Tlsf.v ===== *)
(** * The TLSF allocator (kernel/lib/tlsf.c)

    Block headers live in the words of memory, addressed as the kernel addresses
    them: of a block [b], [b] holds [prev_phys_block], [b + 8] the size and the
    status bits, [b + 16] and [b + 24] the links of its free list.  The bitmaps and
    the array of lists of [control_t] are fields of the state; [block_null], its
    first member, is the block at the address of the control structure.  An
    assertion that fails ends in the halting loop of assert.h. *)

From S2P Require Export Mem.

(** ** Bit scans *)

(** [__builtin_ffs(word) - 1] and [word ? 32 - __builtin_clz(word) : 0, minus 1]. *)
Definition tlsf_ffs (word : Z) : Z := let w := wrap32 word in if w =? 0 then -1 else Z.log2 (Z.land w (- w)).
Definition tlsf_fls (word : Z) : Z := let w := wrap32 word in if w =? 0 then -1 else Z.log2 w.
Definition tlsf_fls_sizet (size : Z) : Z :=
  let high := wrap32 (Z.shiftr size 32) in
  if negb (high =? 0) then 32 + tlsf_fls high else tlsf_fls (Z.land size 0xffffffff).

(** ** Constants *)

Definition SL_INDEX_COUNT_LOG2 : Z := 5.
Definition ALIGN_SIZE_LOG2 : Z := 3.
Definition ALIGN_SIZE : Z := bit ALIGN_SIZE_LOG2.
Definition FL_INDEX_MAX : Z := 32.
Definition SL_INDEX_COUNT : Z := bit SL_INDEX_COUNT_LOG2.
Definition FL_INDEX_SHIFT : Z := SL_INDEX_COUNT_LOG2 + ALIGN_SIZE_LOG2.
Definition FL_INDEX_COUNT : Z := FL_INDEX_MAX - FL_INDEX_SHIFT + 1.
Definition SMALL_BLOCK_SIZE : Z := bit FL_INDEX_SHIFT.

Definition block_header_free_bit : Z := bit 0.
Definition block_header_prev_free_bit : Z := bit 1.
Definition SIZEOF_BLOCK_HEADER : Z := 32.
Definition block_header_overhead : Z := 8.
Definition block_start_offset : Z := 16.
Definition block_size_min : Z := SIZEOF_BLOCK_HEADER - 8.
Definition block_size_max : Z := bit FL_INDEX_MAX.

(** [sizeof(control_t)]: the null block, the bitmaps, the heads. *)
Definition tlsf_size : Z := SIZEOF_BLOCK_HEADER + 4 + 4 * FL_INDEX_COUNT + 8 * FL_INDEX_COUNT * SL_INDEX_COUNT.
Definition tlsf_align_size : Z := ALIGN_SIZE.
Definition tlsf_block_size_min : Z := block_size_min.
Definition tlsf_block_size_max : Z := block_size_max.
Definition tlsf_pool_overhead : Z := 2 * block_header_overhead.
Definition tlsf_alloc_overhead : Z := block_header_overhead.

(** ** State *)

Record heap := Heap {
  control : Z;                (* the address of the [control_t] *)
  fl_bitmap : Z;
  sl_bitmap : gmap Z Z;
  blocks : gmap (Z * Z) Z;
  pending : Z;                (* [pending_free_list] of the processor that owns it *)
  words : gmap Z Z;           (* memory *)
}.

Definition set_fl v s := Heap (control s) v (sl_bitmap s) (blocks s) (pending s) (words s).
Definition set_sl f v s := Heap (control s) (fl_bitmap s) (<[f := v]> (sl_bitmap s)) (blocks s) (pending s) (words s).
Definition set_blocks fs v s := Heap (control s) (fl_bitmap s) (sl_bitmap s) (<[fs := v]> (blocks s)) (pending s) (words s).
Definition set_pending v s := Heap (control s) (fl_bitmap s) (sl_bitmap s) (blocks s) v (words s).
Definition set_words m s := Heap (control s) (fl_bitmap s) (sl_bitmap s) (blocks s) (pending s) m.

Definition word s (a : Z) : Z := rd (words s) (virt_to_phys a).
Definition load (a : Z) : K heap Z := kget (λ s, word s a).
Definition store (a v : Z) : K heap unit := kmodify (λ s, set_words (<[virt_to_phys a := v]> (words s)) s).
Definition tlsf_assert (b : bool) : K heap unit := if b then mret tt else khalt.

(** The members of a block. *)
Definition prev_phys_block (b : Z) : K heap Z := load b.
Definition size_field (b : Z) : K heap Z := load (b + 8).
Definition next_free (b : Z) : K heap Z := load (b + 16).
Definition prev_free (b : Z) : K heap Z := load (b + 24).
Definition set_prev_phys (b v : Z) : K heap unit := store b v.
Definition set_size_field (b v : Z) : K heap unit := store (b + 8) v.
Definition set_next_free (b v : Z) : K heap unit := store (b + 16) v.
Definition set_prev_free (b v : Z) : K heap unit := store (b + 24) v.

(** The status bits, and a size word without them. *)
Definition status_bits : Z := Z.lor block_header_free_bit block_header_prev_free_bit.
Definition size_of (w : Z) : Z := Z.land w (bnot64 status_bits).

(** ** Block headers *)

Definition block_size (b : Z) : K heap Z := w ← size_field b; mret (size_of w).
Definition block_set_size (b size : Z) : K heap unit :=
  oldsize ← size_field b; set_size_field b (Z.lor size (Z.land oldsize status_bits)).
Definition block_is_last (b : Z) : K heap bool := n ← block_size b; mret (n =? 0).
Definition block_is_free (b : Z) : K heap bool := w ← size_field b; mret (has_flag w block_header_free_bit).
Definition block_set_free (b : Z) : K heap unit := w ← size_field b; set_size_field b (Z.lor w block_header_free_bit).
Definition block_set_used (b : Z) : K heap unit := w ← size_field b; set_size_field b (Z.land w (bnot64 block_header_free_bit)).
Definition block_is_prev_free (b : Z) : K heap bool := w ← size_field b; mret (has_flag w block_header_prev_free_bit).
Definition block_set_prev_free (b : Z) : K heap unit := w ← size_field b; set_size_field b (Z.lor w block_header_prev_free_bit).
Definition block_set_prev_used (b : Z) : K heap unit :=
  w ← size_field b; set_size_field b (Z.land w (bnot64 block_header_prev_free_bit)).

Definition block_from_ptr (ptr : Z) : Z := wrap64 (ptr - block_start_offset).
Definition block_to_ptr (b : Z) : Z := wrap64 (b + block_start_offset).
Definition offset_to_block (ptr size : Z) : Z := wrap64 (ptr + size).

Definition block_prev (b : Z) : K heap Z :=
  pf ← block_is_prev_free b; tlsf_assert pf;; prev_phys_block b.
Definition block_next (b : Z) : K heap Z :=
  n ← block_size b;
  let next := offset_to_block (block_to_ptr b) (n - block_header_overhead) in
  last ← block_is_last b;
  tlsf_assert (negb last);;
  mret next.
Definition block_link_next (b : Z) : K heap Z :=
  next ← block_next b; set_prev_phys next b;; mret next.
Definition block_mark_as_free (b : Z) : K heap unit :=
  next ← block_link_next b; block_set_prev_free next;; block_set_free b.
Definition block_mark_as_used (b : Z) : K heap unit :=
  next ← block_next b; block_set_prev_used next;; block_set_used b.

(** ** Sizes and classes *)

Definition pow2 (align : Z) : bool := Z.land align (wrap64 (align - 1)) =? 0.
Definition align_up (x align : Z) : K heap Z :=
  tlsf_assert (pow2 align);; mret (Z.land (wrap64 (x + (align - 1))) (bnot64 (align - 1))).
Definition align_down (x align : Z) : K heap Z :=
  tlsf_assert (pow2 align);; mret (x - Z.land x (align - 1)).
Definition align_ptr (ptr align : Z) : K heap Z :=
  let aligned := Z.land (wrap64 (ptr + (align - 1))) (bnot64 (align - 1)) in
  tlsf_assert (pow2 align);; mret aligned.

Definition adjust_request_size (size align : Z) : K heap Z :=
  if size =? 0 then mret 0 else
  aligned ← align_up size align;
  mret (if aligned <? block_size_max then Z.max aligned block_size_min else 0).

(** The first- and second-level index of a size. *)
Definition mapping_insert (size : Z) : Z * Z :=
  if size <? SMALL_BLOCK_SIZE then (0, size / (SMALL_BLOCK_SIZE / SL_INDEX_COUNT))
  else
    let fl := tlsf_fls_sizet size in
    (fl - (FL_INDEX_SHIFT - 1), Z.lxor (wrap32 (Z.shiftr size (fl - SL_INDEX_COUNT_LOG2))) SL_INDEX_COUNT).

Definition round_up (size : Z) : Z :=
  if SMALL_BLOCK_SIZE <=? size
  then wrap64 (size + (bit (tlsf_fls_sizet size - SL_INDEX_COUNT_LOG2) - 1)) else size.
Definition mapping_search (size : Z) : Z * Z := mapping_insert (round_up size).

(** ** Free lists *)

(** [~0U << n] and [1U << n]. *)
Definition mask_from (n : Z) : Z := wrap32 (Z.shiftl (U32 - 1) n).
Definition not32 (x : Z) : Z := wrap32 (Z.lnot x).
Definition sl_map_of (fl : Z) : K heap Z := kread (λ s, sl_bitmap s !! fl).
Definition list_head_of (fl sl : Z) : K heap Z := kread (λ s, blocks s !! (fl, sl)).
(** Stores into an element of the arrays of [control_t]; out of bounds is undefined. *)
Definition set_sl_map (fl v : Z) : K heap unit := _ ← sl_map_of fl; kmodify (set_sl fl v).
Definition set_list_head (fl sl v : Z) : K heap unit := _ ← list_head_of fl sl; kmodify (set_blocks (fl, sl) v).

(** The indices found and the head of their list; [0] when no block fits. *)
Definition search_suitable_block (fl sl : Z) : K heap (Z * Z * Z) :=
  m ← sl_map_of fl;
  let sl_map := Z.land m (mask_from sl) in
  if negb (sl_map =? 0) then
    let sl := tlsf_ffs sl_map in
    b ← list_head_of fl sl; mret (b, fl, sl)
  else
    flm ← kget fl_bitmap;
    let fl_map := Z.land flm (mask_from (fl + 1)) in
    if fl_map =? 0 then mret (0, fl, sl) else
    let fl := tlsf_ffs fl_map in
    sl_map ← sl_map_of fl;
    tlsf_assert (negb (sl_map =? 0));;
    let sl := tlsf_ffs sl_map in
    b ← list_head_of fl sl; mret (b, fl, sl).

Definition remove_free_block (b fl sl : Z) : K heap unit :=
  prev ← prev_free b;
  next ← next_free b;
  tlsf_assert (negb (prev =? 0));;
  tlsf_assert (negb (next =? 0));;
  set_prev_free next prev;;
  set_next_free prev next;;
  h ← list_head_of fl sl;
  if negb (h =? b) then mret tt else
  set_list_head fl sl next;;
  null ← kget control;
  if negb (next =? null) then mret tt else
  m ← sl_map_of fl;
  set_sl_map fl (Z.land m (not32 (bit sl)));;
  m ← sl_map_of fl;
  if negb (m =? 0) then mret tt else
  kmodify (λ s, set_fl (Z.land (fl_bitmap s) (not32 (bit fl))) s).

Definition insert_free_block (b fl sl : Z) : K heap unit :=
  current ← list_head_of fl sl;
  tlsf_assert (negb (current =? 0));;
  tlsf_assert (negb (b =? 0));;
  set_next_free b current;;
  null ← kget control;
  set_prev_free b null;;
  set_prev_free current b;;
  p ← align_ptr (block_to_ptr b) ALIGN_SIZE;
  tlsf_assert (block_to_ptr b =? p);;
  set_list_head fl sl b;;
  kmodify (λ s, set_fl (Z.lor (fl_bitmap s) (bit fl)) s);;
  m ← sl_map_of fl;
  set_sl_map fl (Z.lor m (bit sl)).

Definition block_remove (b : Z) : K heap unit :=
  n ← block_size b; let '(fl, sl) := mapping_insert n in remove_free_block b fl sl.
Definition block_insert (b : Z) : K heap unit :=
  n ← block_size b; let '(fl, sl) := mapping_insert n in insert_free_block b fl sl.

(** ** Splitting and merging *)

Definition block_can_split (b size : Z) : K heap bool :=
  n ← block_size b; mret (wrap64 (SIZEOF_BLOCK_HEADER + size) <=? n).

Definition block_split (b size : Z) : K heap Z :=
  let remaining := offset_to_block (block_to_ptr b) (size - block_header_overhead) in
  n ← block_size b;
  let remain_size := wrap64 (n - (size + block_header_overhead)) in
  p ← align_ptr (block_to_ptr remaining) ALIGN_SIZE;
  tlsf_assert (block_to_ptr remaining =? p);;
  n ← block_size b;
  tlsf_assert (n =? wrap64 (remain_size + size + block_header_overhead));;
  block_set_size remaining remain_size;;
  r ← block_size remaining;
  tlsf_assert (block_size_min <=? r);;
  block_set_size b size;;
  block_mark_as_free remaining;;
  mret remaining.

Definition block_absorb (prev b : Z) : K heap Z :=
  last ← block_is_last prev;
  tlsf_assert (negb last);;
  n ← block_size b;
  w ← size_field prev;
  set_size_field prev (wrap64 (w + (n + block_header_overhead)));;
  block_link_next prev;;
  mret prev.

Definition block_merge_prev (b : Z) : K heap Z :=
  pf ← block_is_prev_free b;
  if negb pf then mret b else
  prev ← block_prev b;
  tlsf_assert (negb (prev =? 0));;
  f ← block_is_free prev;
  tlsf_assert f;;
  block_remove prev;;
  block_absorb prev b.

Definition block_merge_next (b : Z) : K heap Z :=
  next ← block_next b;
  tlsf_assert (negb (next =? 0));;
  f ← block_is_free next;
  if negb f then mret b else
  last ← block_is_last b;
  tlsf_assert (negb last);;
  block_remove next;;
  block_absorb b next.

Definition block_trim_free (b size : Z) : K heap unit :=
  f ← block_is_free b;
  tlsf_assert f;;
  c ← block_can_split b size;
  if negb c then mret tt else
  remaining ← block_split b size;
  block_link_next b;;
  block_set_prev_free remaining;;
  block_insert remaining.

Definition block_trim_used (b size : Z) : K heap unit :=
  f ← block_is_free b;
  tlsf_assert (negb f);;
  c ← block_can_split b size;
  if negb c then mret tt else
  remaining ← block_split b size;
  block_set_prev_used remaining;;
  remaining ← block_merge_next remaining;
  block_insert remaining.

Definition block_trim_free_leading (b size : Z) : K heap Z :=
  c ← block_can_split b size;
  if negb c then mret b else
  remaining ← block_split b (size - block_header_overhead);
  block_set_prev_free remaining;;
  block_link_next b;;
  block_insert b;;
  mret remaining.

(** [0] when no block is large enough. *)
Definition block_locate_free (size : Z) : K heap Z :=
  found ← (if size =? 0 then mret (0, 0, 0) else
    let '(fl, sl) := mapping_search size in
    if fl <? FL_INDEX_COUNT then search_suitable_block fl sl else mret (0, fl, sl));
  let '(b, fl, sl) := found in
  if b =? 0 then mret 0 else
  n ← block_size b;
  tlsf_assert (size <=? n);;
  remove_free_block b fl sl;;
  mret b.

Definition block_prepare_used (b size : Z) : K heap Z :=
  if b =? 0 then mret 0 else
  tlsf_assert (negb (size =? 0));;
  block_trim_free b size;;
  block_mark_as_used b;;
  mret (block_to_ptr b).

(** ** Pools *)

(** Every index of the two arrays. *)
Definition all_lists : list (Z * Z) := fl ← seqZ 0 FL_INDEX_COUNT; sl ← seqZ 0 SL_INDEX_COUNT; [(fl, sl)].

Definition control_construct : K heap unit :=
  null ← kget control;
  set_next_free null null;;
  set_prev_free null null;;
  kmodify (λ s, Heap null 0 (list_to_map ((λ i, (i, 0)) <$> seqZ 0 FL_INDEX_COUNT))
    (list_to_map ((λ ij, (ij, null)) <$> all_lists)) (pending s) (words s)).

(** [mem], or [0] when the memory cannot be a pool. *)
Definition tlsf_add_pool (mem bytes : Z) : K heap Z :=
  pool_bytes ← align_down (wrap64 (bytes - tlsf_pool_overhead)) ALIGN_SIZE;
  if negb (mem mod ALIGN_SIZE =? 0) then mret 0 else
  if (pool_bytes <? block_size_min) || (block_size_max <? pool_bytes) then mret 0 else
  let b := offset_to_block mem (- block_header_overhead) in
  block_set_size b pool_bytes;;
  block_set_free b;;
  block_set_prev_used b;;
  block_insert b;;
  next ← block_link_next b;
  block_set_size next 0;;
  block_set_used next;;
  block_set_prev_free next;;
  mret mem.

Definition tlsf_remove_pool (pool : Z) : K heap unit :=
  let b := offset_to_block pool (- block_header_overhead) in
  f ← block_is_free b;
  tlsf_assert f;;
  next ← block_next b;
  f ← block_is_free next;
  tlsf_assert (negb f);;
  next ← block_next b;
  n ← block_size next;
  tlsf_assert (n =? 0);;
  n ← block_size b;
  let '(fl, sl) := mapping_insert n in
  remove_free_block b fl sl.

(** The control structure at [mem]; [0] when it is misaligned. *)
Definition tlsf_create (mem : Z) : K heap Z :=
  if negb (mem mod ALIGN_SIZE =? 0) then mret 0 else
  kmodify (λ s, Heap mem (fl_bitmap s) (sl_bitmap s) (blocks s) (pending s) (words s));;
  control_construct;;
  mret mem.

Definition tlsf_create_with_pool (mem bytes : Z) : K heap Z :=
  tlsf ← tlsf_create mem;
  tlsf_add_pool (wrap64 (mem + tlsf_size)) (wrap64 (bytes - tlsf_size));;
  mret tlsf.

Definition tlsf_get_pool (tlsf : Z) : Z := wrap64 (tlsf + tlsf_size).

(** ** Allocation *)

Definition tlsf_malloc (size : Z) : K heap Z :=
  adjust ← adjust_request_size size ALIGN_SIZE;
  b ← block_locate_free adjust;
  block_prepare_used b adjust.

Definition tlsf_memalign (align size : Z) : K heap Z :=
  adjust ← adjust_request_size size ALIGN_SIZE;
  let gap_minimum := SIZEOF_BLOCK_HEADER in
  size_with_gap ← adjust_request_size (wrap64 (adjust + align + gap_minimum)) align;
  let aligned_size := if negb (adjust =? 0) && (ALIGN_SIZE <? align) then size_with_gap else adjust in
  b ← block_locate_free aligned_size;
  b ← (if b =? 0 then mret b else
    let ptr := block_to_ptr b in
    aligned ← align_ptr ptr align;
    let gap := wrap64 (aligned - ptr) in
    moved ← (if negb (gap =? 0) && (gap <? gap_minimum) then
        let gap_remain := gap_minimum - gap in
        let offset := Z.max gap_remain align in
        aligned ← align_ptr (wrap64 (aligned + offset)) align;
        mret (wrap64 (aligned - ptr))
      else mret gap);
    if moved =? 0 then mret b else
    tlsf_assert (gap_minimum <=? moved);;
    block_trim_free_leading b moved);
  block_prepare_used b adjust.

Definition tlsf_free (ptr : Z) : K heap unit :=
  if ptr =? 0 then mret tt else
  let b := block_from_ptr ptr in
  f ← block_is_free b;
  tlsf_assert (negb f);;
  block_mark_as_free b;;
  b ← block_merge_prev b;
  b ← block_merge_next b;
  block_insert b.

Definition tlsf_block_size (ptr : Z) : K heap Z :=
  if ptr =? 0 then mret 0 else block_size (block_from_ptr ptr).

(** [memcpy] of the allocated bytes. *)
Definition copy_bytes (dst src n : Z) : K heap unit :=
  kmodify (λ s, set_words (mem_write (virt_to_phys dst) (mem_read (virt_to_phys src) n (words s)) (words s)) s).

Definition tlsf_realloc (ptr size : Z) : K heap Z :=
  if negb (ptr =? 0) && (size =? 0) then tlsf_free ptr;; mret 0
  else if ptr =? 0 then tlsf_malloc size
  else
    let b := block_from_ptr ptr in
    next ← block_next b;
    cursize ← block_size b;
    nextsize ← block_size next;
    let combined := wrap64 (cursize + nextsize + block_header_overhead) in
    adjust ← adjust_request_size size ALIGN_SIZE;
    f ← block_is_free b;
    tlsf_assert (negb f);;
    nf ← block_is_free next;
    if (cursize <? adjust) && (negb nf || (combined <? adjust)) then
      p ← tlsf_malloc size;
      if p =? 0 then mret 0 else
      copy_bytes p ptr (Z.min cursize size);;
      tlsf_free ptr;;
      mret p
    else
      (if cursize <? adjust then block_merge_next b;; block_mark_as_used b else mret tt);;
      block_trim_used b adjust;;
      mret ptr.

(** ** Blocks freed by other processors

    [pending_free_list] of the processor that owns the heap: a list through
    [next_free] that other processors push on with a compare-and-swap and the
    owner takes with an exchange. *)

Definition tlsf_ptr_to_block (ptr : Z) : Z := if ptr =? 0 then 0 else block_from_ptr ptr.

(** A block is freed once (a second time trips the assertion of [tlsf_free]), and a
    freed block has a size word, so [size (words s)] bounds the length. *)
Fixpoint flush_loop (fuel : nat) (p : Z) : K heap unit :=
  match fuel with
  | O => kspin
  | S fuel' =>
      if p =? 0 then mret tt else
      next ← next_free p;
      tlsf_free (block_to_ptr p);;
      flush_loop fuel' next
  end.
Definition tlsf_flush_pending : K heap unit :=
  c ← kget control;
  if c =? 0 then mret tt else
  p ← kget pending;
  kmodify (set_pending 0);;
  if p =? 0 then mret tt else
  fuel ← kget (λ s, S (size (words s)));
  flush_loop fuel p.

(** The compare-and-swap that succeeds; the rounds before it leave the list alone. *)
Definition tlsf_push_pending (ptr : Z) : K heap unit :=
  let b := tlsf_ptr_to_block ptr in
  old_head ← kget pending;
  set_next_free b old_head;;
  kmodify (set_pending b).

(** ** Consistency checks *)

(** [while (block && !block_is_last(block))]: the blocks a walk visits have
    different size words, all of them non-zero. *)
Fixpoint walk_loop {A} (fuel : nat) (b : Z) (walker : Z → Z → bool → A → K heap A) (user : A) : K heap A :=
  match fuel with
  | O => kspin
  | S fuel' =>
      if b =? 0 then mret user else
      last ← block_is_last b;
      if (last : bool) then mret user else
      n ← block_size b;
      f ← block_is_free b;
      user ← walker (block_to_ptr b) n (negb f) user;
      next ← block_next b;
      walk_loop fuel' next walker user
  end.
Definition tlsf_walk_pool {A} (pool : Z) (walker : Z → Z → bool → A → K heap A) (user : A) : K heap A :=
  fuel ← kget (λ s, S (size (words s)));
  walk_loop fuel (offset_to_block pool (- block_header_overhead)) walker user.

(** [integrity_t]: the status of the block before, and of the check; an [insist]
    that fails halts. *)
Definition integrity_walker (ptr size : Z) (used : bool) (integ : bool * Z) : K heap (bool * Z) :=
  let b := block_from_ptr ptr in
  pf ← block_is_prev_free b;
  f ← block_is_free b;
  n ← block_size b;
  tlsf_assert (eqb integ.1 pf);;
  tlsf_assert (size =? n);;
  mret (f, integ.2 + 0).
Definition tlsf_check_pool (pool : Z) : K heap Z :=
  integ ← tlsf_walk_pool pool integrity_walker (false, 0);
  mret integ.2.

(** [while (block != &control->block_null)]. *)
Fixpoint check_blocks (fuel : nat) (b i j : Z) : K heap unit :=
  match fuel with
  | O => kspin
  | S fuel' =>
      null ← kget control;
      if b =? null then mret tt else
      f ← block_is_free b; tlsf_assert f;;
      pf ← block_is_prev_free b; tlsf_assert (negb pf);;
      next ← block_next b; nf ← block_is_free next; tlsf_assert (negb nf);;
      npf ← block_is_prev_free next; tlsf_assert npf;;
      n ← block_size b; tlsf_assert (block_size_min <=? n);;
      tlsf_assert (bool_decide (mapping_insert n = (i, j)));;
      nxt ← next_free b;
      check_blocks fuel' nxt i j
  end.
Definition check_list (i j : Z) : K heap unit :=
  flm ← kget fl_bitmap;
  sl_list ← sl_map_of i;
  b ← list_head_of i j;
  null ← kget control;
  let fl_map := negb (Z.land flm (bit i) =? 0) in
  let sl_map := negb (Z.land sl_list (bit j) =? 0) in
  (if negb fl_map then tlsf_assert (negb sl_map) else mret tt);;
  if negb sl_map then tlsf_assert (b =? null) else
  tlsf_assert (negb (sl_list =? 0));;
  tlsf_assert (negb (b =? null));;
  fuel ← kget (λ s, S (size (words s)));
  check_blocks fuel b i j.
Fixpoint check_lists (ls : list (Z * Z)) : K heap Z :=
  match ls with
  | [] => mret 0
  | (i, j) :: ls' => check_list i j;; check_lists ls'
  end.
Definition tlsf_check : K heap Z := check_lists all_lists.
