(* ===== verification/TlsfBits.v ===== *)
(** * Sizes, status bits and classes of TLSF blocks

    The arithmetic of tlsf.c: the status bits of a size word, the bitmaps, the
    first- and second-level index of a size, and the guarantee of the rounded
    search ("good fit"). *)

From S2P Require Export Tlsf.

(** ** Status bits *)

(** A size word: a multiple of 4 and the two status bits. *)
Definition enc (n : Z) (f p : bool) : Z := n + (if f then 1 else 0) + (if p then 2 else 0).

Lemma testbit_quad k r i : 0 ≤ r < 4 → 0 ≤ i → Z.testbit (4 * k + r) i = if i <? 2 then Z.testbit r i else Z.testbit k (i - 2).
Proof.
  intros Hr Hi. destruct (Z.ltb_spec i 2).
  - rewrite <- (Z.mod_pow2_bits_low (4 * k + r) 2 i), <- (Z.mod_pow2_bits_low r 2 i) by lia.
    f_equal. change (2 ^ 2) with 4. mlia.
  - replace i with (i - 2 + 2) at 1 by lia. rewrite <- Z.div_pow2_bits by lia. f_equal. change (2 ^ 2) with 4. mlia.
Qed.

Lemma land_bnot64 x y : 0 ≤ x < U64 → Z.land x (bnot64 y) = Z.ldiff x y.
Proof.
  intros Hx. apply Z.bits_inj'. intros i Hi. unfold bnot64, wrap64. rewrite Z.land_spec, Z.ldiff_spec. change U64 with (2 ^ 64) in *.
  destruct (decide (i < 64)).
  - by rewrite Z.mod_pow2_bits_low, Z.lnot_spec by lia.
  - rewrite Z.mod_pow2_bits_high by lia. rewrite (Z.bits_above_log2 x i); [done|lia|].
    destruct (decide (x = 0)) as [->|]; [simpl; lia|]. apply Z.log2_lt_pow2; [lia|].
    assert (2 ^ 64 ≤ 2 ^ i) by (apply Z.pow_le_mono_r; lia). lia.
Qed.

Section enc.
Variables (n : Z) (f p : bool).
Hypothesis (Hn : n mod 4 = 0) (Hr : 0 ≤ n < U64 - 4).

Let k := n / 4.
Let r := (if f then 1 else 0) + (if p then 2 else 0).

Local Lemma enc_quad : enc n f p = 4 * k + r.
Proof. unfold enc, k, r. mlia. Qed.
Local Lemma r_range : 0 ≤ r < 4.
Proof. unfold r. by destruct f, p. Qed.
Lemma enc_range : 0 ≤ enc n f p < U64.
Proof. unfold enc. destruct f, p; lia. Qed.

Local Lemma quad_ext a b : (∀ i, 0 ≤ i < 2 → Z.testbit a i = Z.testbit b i) → (∀ i, 2 ≤ i → Z.testbit a i = Z.testbit b i) → a = b.
Proof. intros H1 H2. apply Z.bits_inj'. intros i Hi. destruct (decide (i < 2)); [apply H1|apply H2]; lia. Qed.

Local Lemma low_mask y i : 0 ≤ y < 4 → 2 ≤ i → Z.testbit y i = false.
Proof.
  intros Hy Hi. rewrite <- (Z.mod_small y 4) by lia. change 4 with (2 ^ 2). apply Z.mod_pow2_bits_high. lia.
Qed.

Local Ltac bits01 := let i := fresh in intros i ?; assert (i = 0 ∨ i = 1) as [->| ->] by lia.

Local Lemma quad_land y : 0 ≤ y < 4 → Z.land (enc n f p) y = Z.land r y.
Proof.
  intros Hy. pose proof r_range. rewrite enc_quad. apply quad_ext; intros i Hi; rewrite !Z.land_spec, testbit_quad by lia.
  - by rewrite (proj2 (Z.ltb_lt i 2)) by lia.
  - by rewrite (low_mask y), !andb_false_r by lia.
Qed.
Local Lemma quad_lor y : 0 ≤ y < 4 → Z.lor (enc n f p) y = n + Z.lor r y.
Proof.
  intros Hy. pose proof r_range. rewrite enc_quad. replace n with (4 * k) by (unfold k; mlia).
  assert (0 ≤ Z.lor r y < 4) by (unfold r; assert (y = 0 ∨ y = 1 ∨ y = 2 ∨ y = 3) as [->|[->|[->| ->]]] by lia; by destruct f, p).
  apply quad_ext; intros i Hi; rewrite Z.lor_spec, !testbit_quad by lia.
  - rewrite !(proj2 (Z.ltb_lt i 2)) by lia. by rewrite Z.lor_spec.
  - rewrite !(proj2 (Z.ltb_ge i 2)) by lia. by rewrite (low_mask y), orb_false_r by lia.
Qed.
Local Lemma quad_ldiff y : 0 ≤ y < 4 → Z.ldiff (enc n f p) y = n + Z.ldiff r y.
Proof.
  intros Hy. pose proof r_range. rewrite enc_quad. replace n with (4 * k) by (unfold k; mlia).
  assert (0 ≤ Z.ldiff r y < 4) by (unfold r; assert (y = 0 ∨ y = 1 ∨ y = 2 ∨ y = 3) as [->|[->|[->| ->]]] by lia; by destruct f, p).
  apply quad_ext; intros i Hi; rewrite Z.ldiff_spec, !testbit_quad by lia.
  - rewrite !(proj2 (Z.ltb_lt i 2)) by lia. by rewrite Z.ldiff_spec.
  - rewrite !(proj2 (Z.ltb_ge i 2)) by lia. by rewrite (low_mask y), andb_true_r by lia.
Qed.

Local Ltac enc_cases := unfold r, enc; rewrite <- ?Z.add_assoc; f_equal; by destruct f, p.

Lemma size_of_enc : size_of (enc n f p) = n.
Proof.
  unfold size_of. rewrite land_bnot64 by apply enc_range. change status_bits with 3. rewrite quad_ldiff by (split; done).
  replace (Z.ldiff r 3) with 0 by (unfold r; by destruct f, p). lia.
Qed.
Lemma enc_status : Z.land (enc n f p) status_bits = enc 0 f p.
Proof. change status_bits with 3. rewrite quad_land by (split; done). unfold r. by destruct f, p. Qed.
Lemma enc_free : has_flag (enc n f p) block_header_free_bit = f.
Proof. unfold has_flag. change block_header_free_bit with 1. rewrite quad_land by (split; done). unfold r. by destruct f, p. Qed.
Lemma enc_prev_free : has_flag (enc n f p) block_header_prev_free_bit = p.
Proof. unfold has_flag. change block_header_prev_free_bit with 2. rewrite quad_land by (split; done). unfold r. by destruct f, p. Qed.
Lemma enc_set_free : Z.lor (enc n f p) block_header_free_bit = enc n true p.
Proof. change block_header_free_bit with 1. rewrite quad_lor by (split; done). enc_cases. Qed.
Lemma enc_set_prev_free : Z.lor (enc n f p) block_header_prev_free_bit = enc n f true.
Proof. change block_header_prev_free_bit with 2. rewrite quad_lor by (split; done). enc_cases. Qed.
Lemma enc_set_used : Z.land (enc n f p) (bnot64 block_header_free_bit) = enc n false p.
Proof.
  rewrite land_bnot64 by apply enc_range. change block_header_free_bit with 1. rewrite quad_ldiff by (split; done).
  enc_cases.
Qed.
Lemma enc_set_prev_used : Z.land (enc n f p) (bnot64 block_header_prev_free_bit) = enc n f false.
Proof.
  rewrite land_bnot64 by apply enc_range. change block_header_prev_free_bit with 2. rewrite quad_ldiff by (split; done).
  enc_cases.
Qed.
End enc.

(** The status bits of any word. *)
Lemma status_enc w : ∃ f p, Z.land w status_bits = enc 0 f p.
Proof.
  change status_bits with (Z.ones 2). rewrite Z.land_ones by lia. change (2 ^ 2) with 4.
  pose proof (Z.mod_pos_bound w 4 ltac:(lia)). assert (w mod 4 = 0 ∨ w mod 4 = 1 ∨ w mod 4 = 2 ∨ w mod 4 = 3) as [->|[->|[->| ->]]] by lia;
    [exists false, false|exists true, false|exists false, true|exists true, true]; done.
Qed.
Lemma lor_enc n f p : n mod 4 = 0 → 0 ≤ n < U64 - 4 → Z.lor n (enc 0 f p) = enc n f p.
Proof.
  intros Hn Hr. rewrite Z.lor_comm. apply Z.bits_inj'. intros i Hi.
  replace n with (4 * (n / 4) + 0) at 1 by mlia. replace (enc n f p) with (4 * (n / 4) + enc 0 f p) by (unfold enc; mlia).
  assert (0 ≤ enc 0 f p < 4) by (by destruct f, p). rewrite Z.lor_spec, !testbit_quad by lia.
  destruct (Z.ltb_spec i 2); [by rewrite Z.bits_0, orb_false_r|].
  rewrite <- (Z.mod_small (enc 0 f p) 4) at 1 by lia. change 4 with (2 ^ 2). by rewrite Z.mod_pow2_bits_high by lia.
Qed.

(** ** Classes *)

Lemma fls_sizet_log2 size : 0 < size < U64 → tlsf_fls_sizet size = Z.log2 size.
Proof.
  intros Hs. unfold tlsf_fls_sizet. change U64 with (2 ^ 64) in Hs.
  assert (Hhi : wrap32 (Z.shiftr size 32) = Z.shiftr size 32).
  { apply wrap32_small. rewrite Z.shiftr_div_pow2 by lia. unfold U32. change (2 ^ 32) with 0x100000000. mlia. }
  rewrite Hhi. destruct (Z.eqb_spec (Z.shiftr size 32) 0) as [E|E]; simpl negb; cbv iota; unfold tlsf_fls.
  - change 0xffffffff with (Z.ones 32). rewrite Z.land_ones by lia. rewrite Z.shiftr_div_pow2 in E by lia.
    rewrite Z.mod_small by mlia. change (2 ^ 32) with 0x100000000 in E. rewrite wrap32_small by (unfold U32; mlia).
    by rewrite (proj2 (Z.eqb_neq size 0)) by lia.
  - rewrite Hhi, (proj2 (Z.eqb_neq _ 0)), Z.log2_shiftr by lia.
    rewrite Z.shiftr_div_pow2 in E by lia. assert (32 ≤ Z.log2 size); [|lia].
    apply Z.log2_le_pow2; [lia|]. change (2 ^ 32) with 0x100000000 in *. mlia.
Qed.

(** The lists in the order of the search. *)
Definition rank (c : Z * Z) : Z := SL_INDEX_COUNT * c.1 + c.2.
Definition in_index (c : Z * Z) : Prop := 0 ≤ c.1 < FL_INDEX_COUNT ∧ 0 ≤ c.2 < SL_INDEX_COUNT.

Lemma rank_inj c d : in_index c → in_index d → rank c = rank d → c = d.
Proof.
  destruct c as [i j], d as [k l]. unfold in_index, rank. change SL_INDEX_COUNT with 32. simpl. intros. f_equal; lia.
Qed.

(** A large size: its leading bit selects the first index, the next five bits the second. *)
Lemma large_class size : 256 ≤ size < U64 →
  let e := Z.log2 size in
  8 ≤ e < 64 ∧ 32 ≤ size / 2 ^ (e - 5) < 64 ∧ mapping_insert size = (e - 7, size / 2 ^ (e - 5) - 32).
Proof.
  intros Hs e. assert (He : 8 ≤ e) by (apply Z.log2_le_pow2; [lia|]; change (2 ^ 8) with 256; lia).
  pose proof (Z.log2_spec size ltac:(lia)) as [H1 H2]. fold e in H1, H2.
  assert (Hq : 32 ≤ size / 2 ^ (e - 5) < 64).
  { assert (0 < 2 ^ (e - 5)) by (apply Z.pow_pos_nonneg; lia).
    replace e with (e - 5 + 5) in H1 by lia. replace (Z.succ e) with (e - 5 + 6) in H2 by lia. rewrite Z.pow_add_r in H1, H2 by lia.
    change (2 ^ 5) with 32 in H1. change (2 ^ 6) with 64 in H2.
    split; [apply Z.div_le_lower_bound|apply Z.div_lt_upper_bound]; lia. }
  split; [split; [done|]|split; [done|]].
  { apply (Z.log2_lt_pow2 size 64); [lia|]. change (2 ^ 64) with U64. lia. }
  unfold mapping_insert. change SMALL_BLOCK_SIZE with 256. rewrite (proj2 (Z.ltb_ge _ _)) by lia.
  rewrite fls_sizet_log2 by (unfold U64 in *; lia). fold e. change (FL_INDEX_SHIFT - 1) with 7. change SL_INDEX_COUNT_LOG2 with 5. f_equal.
  rewrite Z.shiftr_div_pow2 by lia. rewrite wrap32_small by (unfold U32; lia).
  assert (Hall : Forall (λ q, Z.lxor q SL_INDEX_COUNT = q - 32) (seqZ 32 32)) by (repeat constructor).
  rewrite Forall_forall in Hall. apply Hall, elem_of_seqZ. lia.
Qed.

Lemma small_class size : 0 ≤ size < 256 → mapping_insert size = (0, size / 8).
Proof.
  intros Hs. unfold mapping_insert. change SMALL_BLOCK_SIZE with 256. by rewrite (proj2 (Z.ltb_lt _ _)) by lia.
Qed.

Lemma class_rank size : 0 ≤ size < U64 →
  rank (mapping_insert size) =
    if decide (size < 256) then size / 8 else 32 * (Z.log2 size - 7) + size / 2 ^ (Z.log2 size - 5) - 32.
Proof.
  intros Hs. destruct (decide (size < 256)).
  - rewrite small_class by lia. unfold rank. cbn [fst snd]. lia.
  - destruct (large_class size) as (_ & _ & ->); [lia|]. unfold rank. cbn [fst snd]. change SL_INDEX_COUNT with 32. lia.
Qed.

Lemma class_in_index size : 0 ≤ size < block_size_max → in_index (mapping_insert size).
Proof.
  change block_size_max with 0x100000000. intros Hs. unfold in_index. change FL_INDEX_COUNT with 25. change SL_INDEX_COUNT with 32.
  destruct (decide (size < 256)).
  - rewrite small_class by lia. cbn [fst snd]. mlia.
  - destruct (large_class size) as (He & Hq & ->); [unfold U64; lia|]. cbn [fst snd].
    assert (Z.log2 size < 32); [|lia]. apply Z.log2_lt_pow2; [lia|]. change (2 ^ 32) with 0x100000000. lia.
Qed.

(** Larger blocks are in later lists. *)
Lemma rank_mono n n' : 0 ≤ n ≤ n' → n' < U64 → rank (mapping_insert n) ≤ rank (mapping_insert n').
Proof.
  intros Hn Hn'. rewrite !class_rank by lia. repeat case_decide; try lia.
  - mlia.
  - destruct (large_class n') as (He & Hq & _); [lia|]. assert (n / 8 < 32) by mlia. lia.
  - destruct (large_class n) as (He & Hq & _), (large_class n') as (He' & Hq' & _); [lia..|].
    pose proof (Z.log2_le_mono n n' ltac:(lia)) as Hlog. destruct (decide (Z.log2 n = Z.log2 n')) as [Heq|]; [|lia].
    rewrite <- Heq. pose proof (Z.div_le_mono n n' (2 ^ (Z.log2 n - 5))). assert (0 < 2 ^ (Z.log2 n - 5)) by (apply Z.pow_pos_nonneg; lia). lia.
Qed.

(** ** Good fit *)

Lemma round_up_spec size : 0 ≤ size < block_size_max →
  size ≤ round_up size < U64 ∧
  (size < 256 → round_up size = size) ∧
  (256 ≤ size → round_up size = size + 2 ^ (Z.log2 size - 5) - 1).
Proof.
  change block_size_max with 0x100000000. intros Hs. unfold round_up. change SMALL_BLOCK_SIZE with 256.
  destruct (Z.leb_spec 256 size); [|split; [unfold U64; lia|by split; [|lia]]].
  destruct (large_class size) as (He & _); [unfold U64; lia|].
  rewrite fls_sizet_log2 by (unfold U64; lia). change SL_INDEX_COUNT_LOG2 with 5. rewrite bit_pow by lia.
  assert (0 < 2 ^ (Z.log2 size - 5)) by (apply Z.pow_pos_nonneg; lia).
  assert (2 ^ (Z.log2 size - 5) ≤ 2 ^ Z.log2 size) by (apply Z.pow_le_mono_r; lia).
  pose proof (Z.log2_spec size ltac:(lia)). rewrite wrap64_small by (unfold U64; lia). unfold U64. lia.
Qed.

(** Every block of a list the search may choose is large enough. *)
Lemma good_fit size n :
  0 ≤ size < block_size_max → size mod 8 = 0 → 0 ≤ n < U64 →
  rank (mapping_search size) ≤ rank (mapping_insert n) → size ≤ n.
Proof.
  intros Hs H8 Hn Hr. destruct (round_up_spec size Hs) as (Hru & Hsmall & Hlarge). unfold mapping_search in Hr.
  change block_size_max with 0x100000000 in Hs.
  destruct (decide (size < 256)) as [Hlt|Hge].
  - rewrite Hsmall in Hr by lia. rewrite !class_rank in Hr by lia. rewrite decide_True in Hr by lia.
    destruct (decide (n < 256)); [|lia]. mlia.
  - destruct (decide (n < size)) as [Hns|]; [exfalso|lia]. specialize (Hlarge ltac:(lia)).
    set (e := Z.log2 size) in *. set (q := 2 ^ (e - 5)) in *. set (r := round_up size) in *.
    destruct (large_class size) as (He & Hq & _); [unfold U64; lia|]. destruct (large_class r) as (Her & Hqr & _); [lia|].
    fold e in He, Hq. fold q in Hq. assert (Hpos : 0 < q) by (apply Z.pow_pos_nonneg; lia).
    rewrite (class_rank r) in Hr by lia. rewrite (decide_False (P := r < 256)) in Hr by lia.
    pose proof (Z.log2_le_mono size r ltac:(lia)) as Hlog. fold e in Hlog.
    rewrite class_rank in Hr by lia. destruct (decide (n < 256)) as [|Hn256].
    { assert (n / 8 < 32) by mlia. lia. }
    destruct (large_class n) as (Hen & Hqn & _); [lia|].
    pose proof (Z.log2_le_mono n size ltac:(lia)) as Hlog'. fold e in Hlog'.
    destruct (decide (Z.log2 n = e)) as [Ee|]; [|lia]. destruct (decide (Z.log2 r = e)) as [Er|]; [|lia].
    rewrite Ee, Er in *. fold q in Hr, Hqn, Hqr.
    assert (r / q = (size - 1) / q + 1).
    { replace r with (size - 1 + 1 * q) by lia. rewrite Z.div_add by lia. done. }
    pose proof (Z.div_le_mono n (size - 1) q Hpos ltac:(lia)). lia.
Qed.
