(* ===== verification/TlsfLists.v ===== *)
(** * The free lists of TLSF

    A free list is a segment of blocks linked both ways that starts and ends at
    the null block; the bitmaps say which lists are not empty.  Here are the
    effects of searching, removing and inserting on the lists as such. *)

From S2P Require Export TlsfBits.

(** ** Words *)

Definition poke (a v : Z) (s : heap) : heap := set_words (<[virt_to_phys a := v]> (words s)) s.

Lemma store_run a v s : store a v s = Done tt (poke a v s).
Proof. done. Qed.
Lemma load_run a s : load a s = Done (word s a) s.
Proof. done. Qed.

Lemma word_poke a v s : word (poke a v s) a = v.
Proof. unfold word, poke, rd. simpl. by rewrite lookup_insert_eq. Qed.
Lemma word_poke_ne a b v s : 0 ≤ a < U64 → 0 ≤ b < U64 → a ≠ b → word (poke a v s) b = word s b.
Proof.
  intros Ha Hb Hne. unfold word, poke, rd. simpl. rewrite lookup_insert_ne; [done|].
  unfold virt_to_phys, wrap64, U64 in *. intros E. apply Hne.
  assert (∀ x, 0 ≤ x < 0x10000000000000000 → x = ((x - HHDM_OFFSET) mod 0x10000000000000000 + HHDM_OFFSET) mod 0x10000000000000000) as Hi.
  { intros x Hx. rewrite Zplus_mod_idemp_l, Z.sub_add. by rewrite Z.mod_small. }
  rewrite (Hi a), (Hi b) by done. by rewrite E.
Qed.

(** [s'] differs from [s] in memory only, and there only at addresses in [W]. *)
Definition touches (W : Z → Prop) (s s' : heap) : Prop :=
  control s' = control s ∧ fl_bitmap s' = fl_bitmap s ∧ sl_bitmap s' = sl_bitmap s ∧ blocks s' = blocks s ∧
  pending s' = pending s ∧ ∀ x, 0 ≤ x < U64 → ¬ W x → word s' x = word s x.

Lemma touches_refl W s : touches W s s.
Proof. done. Qed.
Lemma touches_poke (W : Z → Prop) a v s : 0 ≤ a < U64 → W a → touches W s (poke a v s).
Proof. intros Ha HW. do 5 (split; [done|]). intros x Hx Hn. apply word_poke_ne; [done..|]. by intros ->. Qed.
Lemma touches_trans W s1 s2 s3 : touches W s1 s2 → touches W s2 s3 → touches W s1 s3.
Proof.
  intros (A1 & A2 & A3 & A4 & A5 & A6) (B1 & B2 & B3 & B4 & B5 & B6). do 5 (split; [congruence|]).
  intros x Hx Hn. rewrite B6, A6 by done. done.
Qed.
Lemma touches_mono (W W' : Z → Prop) s s' : (∀ x, W x → W' x) → touches W s s' → touches W' s s'.
Proof. intros HW (?&?&?&?&?&H). do 5 (split; [done|]). intros x Hx Hn. apply H; [done|]. by intros ?%HW. Qed.

(** ** Bits *)

Lemma land_opp w : 0 < w → ∃ k, 0 ≤ k ∧ Z.land w (- w) = 2 ^ k ∧ Z.testbit w k = true ∧ ∀ i, 0 ≤ i < k → Z.testbit w i = false.
Proof.
  intros Hw. revert w Hw. apply (well_founded_induction (Z.lt_wf 0) (λ w, 0 < w → ∃ k, 0 ≤ k ∧ Z.land w (- w) = 2 ^ k ∧
    Z.testbit w k = true ∧ ∀ i, 0 ≤ i < k → Z.testbit w i = false)).
  intros w IH Hw. destruct (Z.odd w) eqn:Ho.
  - exists 0. rewrite Z.bit0_odd. repeat split; [done| |done|lia]. apply Z.odd_spec in Ho as [m ->].
    replace (- (2 * m + 1)) with (2 * Z.lnot m + 1) by (unfold Z.lnot; lia).
    apply Z.bits_inj'. intros i Hi. rewrite Z.land_spec. destruct (decide (i = 0)) as [->|].
    + by rewrite !Z.testbit_odd_0.
    + replace i with (Z.succ (i - 1)) by lia. rewrite !Z.testbit_odd_succ, Z.lnot_spec, andb_negb_r by lia.
      rewrite Z.pow2_bits_false by lia. done.
  - assert (He : Z.even w = true) by (by rewrite <- Z.negb_odd, Ho). apply Z.even_spec in He as [m ->].
    destruct (IH m) as (k & Hk & E & H1 & H2); [lia..|]. exists (Z.succ k). split; [lia|].
    replace (- (2 * m)) with (2 * - m) by lia. split; [|split].
    + rewrite Z.pow_succ_r, <- E by lia. apply Z.bits_inj'. intros i Hi. rewrite Z.land_spec. destruct (decide (i = 0)) as [->|].
      * by rewrite !Z.testbit_even_0.
      * replace i with (Z.succ (i - 1)) by lia. by rewrite !Z.testbit_even_succ, Z.land_spec by lia.
    + by rewrite Z.testbit_even_succ by lia.
    + intros i Hi. destruct (decide (i = 0)) as [->|]; [by rewrite Z.testbit_even_0|].
      replace i with (Z.succ (i - 1)) by lia. rewrite Z.testbit_even_succ by lia. apply H2. lia.
Qed.

Lemma testbit_high w n i : 0 ≤ w < 2 ^ n → 0 ≤ n ≤ i → Z.testbit w i = false.
Proof.
  intros Hw Hi. destruct (decide (w = 0)) as [->|]; [by rewrite Z.bits_0|]. apply Z.bits_above_log2; [lia|].
  assert (Z.log2 w < n) by (apply Z.log2_lt_pow2; lia). lia.
Qed.
Lemma bits_zero w : 0 ≤ w → (∀ i, 0 ≤ i → Z.testbit w i = false) → w = 0.
Proof. intros Hw H. apply Z.bits_inj'. intros i Hi. by rewrite H, Z.bits_0. Qed.

(** The lowest bit of a bitmap. *)
Lemma ffs_spec w : 0 < w < U32 →
  let k := tlsf_ffs w in 0 ≤ k < 32 ∧ Z.testbit w k = true ∧ ∀ i, 0 ≤ i < k → Z.testbit w i = false.
Proof.
  intros Hw. unfold tlsf_ffs. rewrite wrap32_small by lia. rewrite (proj2 (Z.eqb_neq w 0)) by lia.
  destruct (land_opp w) as (k & Hk & -> & H1 & H2); [lia|]. rewrite Z.log2_pow2 by done. cbv zeta.
  split; [|done]. split; [done|]. apply Z.nle_gt. intros Hge. change U32 with (2 ^ 32) in Hw.
  rewrite (testbit_high w 32) in H1 by lia. done.
Qed.

Lemma mask_from_bits n i : 0 ≤ n → 0 ≤ i → Z.testbit (mask_from n) i = (n <=? i) && (i <? 32).
Proof.
  intros Hn Hi. unfold mask_from, wrap32. change U32 with (2 ^ 32). destruct (Z.ltb_spec i 32).
  - rewrite Z.mod_pow2_bits_low, Z.shiftl_spec by lia. change (2 ^ 32 - 1) with (Z.ones 32).
    destruct (Z.leb_spec n i).
    + rewrite Z.testbit_ones_nonneg by lia. by rewrite (proj2 (Z.ltb_lt _ _)) by lia.
    + by rewrite Z.testbit_neg_r by lia.
  - rewrite Z.mod_pow2_bits_high by lia. by rewrite andb_false_r.
Qed.
Lemma mask_from_range n : 0 ≤ mask_from n < U32.
Proof. apply wrap32_range. Qed.
Lemma land_range32 a b : 0 ≤ a < U32 → 0 ≤ Z.land a b < U32.
Proof.
  intros Ha. change U32 with (2 ^ 32) in *. assert (0 ≤ Z.land a b) by (apply Z.land_nonneg; lia). split; [done|].
  destruct (decide (Z.land a b = 0)) as [->|]; [done|]. apply Z.log2_lt_pow2; [lia|].
  apply Z.nle_gt. intros Hge. pose proof (Z.bit_log2 (Z.land a b) ltac:(lia)) as Hb.
  rewrite Z.land_spec, (testbit_high a 32) in Hb by lia. done.
Qed.
Lemma lor_bit_range n a i : 0 ≤ a < 2 ^ n → 0 ≤ i < n → 0 ≤ Z.lor a (bit i) < 2 ^ n.
Proof.
  intros Ha Hi. rewrite bit_pow by lia. assert (0 < 2 ^ i) by (apply Z.pow_pos_nonneg; lia).
  assert (0 ≤ Z.lor a (2 ^ i)) by (apply Z.lor_nonneg; lia). split; [done|].
  destruct (decide (Z.lor a (2 ^ i) = 0)) as [->|]; [lia|]. apply Z.log2_lt_pow2; [lia|].
  apply Z.nle_gt. intros Hge. pose proof (Z.bit_log2 (Z.lor a (2 ^ i)) ltac:(lia)) as Hb.
  rewrite Z.lor_spec, (testbit_high a n), Z.pow2_bits_false in Hb by lia. done.
Qed.
Lemma lor_bit_testbit a i k : 0 ≤ i → 0 ≤ k → Z.testbit (Z.lor a (bit i)) k = Z.testbit a k || (i =? k).
Proof. intros Hi Hk. by rewrite Z.lor_spec, bit_pow, Z.pow2_bits_eqb by lia. Qed.
Lemma clear_bit_testbit a i k : 0 ≤ a < U32 → 0 ≤ i → 0 ≤ k →
  Z.testbit (Z.land a (not32 (bit i))) k = Z.testbit a k && negb (i =? k).
Proof.
  intros Ha Hi Hk. unfold not32, wrap32. rewrite Z.land_spec. change U32 with (2 ^ 32) in *. destruct (decide (k < 32)).
  - by rewrite Z.mod_pow2_bits_low, Z.lnot_spec, bit_pow, Z.pow2_bits_eqb by lia.
  - by rewrite (testbit_high a 32) by lia.
Qed.

(** ** Segments *)

(** The blocks [l] are linked in order, after [p] and before [n]. *)
Fixpoint seg (s : heap) (p : Z) (l : list Z) (n : Z) : Prop :=
  match l with
  | [] => True
  | b :: l' => word s (b + 24) = p ∧ word s (b + 16) = List.hd n l' ∧ seg s b l' n
  end.

Lemma seg_app s p l1 l2 n : seg s p (l1 ++ l2) n ↔ seg s p l1 (List.hd n l2) ∧ seg s (List.last l1 p) l2 n.
Proof.
  revert p. induction l1 as [|b l1 IH]; intros p; simpl; [tauto|].
  rewrite IH. destruct l1 as [|c l1]; simpl; [tauto|].
  assert (∀ d, List.last (c :: l1) d = List.last (c :: l1) b) as Hl; [|simpl in Hl; rewrite (Hl p); tauto].
  intros d. clear. revert c. induction l1 as [|e l1 IH]; intros c; [done|]. exact (IH e).
Qed.

Lemma seg_frame s s' p l n :
  (∀ b, b ∈ l → word s' (b + 16) = word s (b + 16) ∧ word s' (b + 24) = word s (b + 24)) → seg s p l n → seg s' p l n.
Proof.
  revert p. induction l as [|b l IH]; intros p Hw; simpl; [done|]. intros (H1 & H2 & H3).
  destruct (Hw b) as [E1 E2]; [by left|]. rewrite E1, E2. split; [done|]. split; [done|].
  apply IH; [|done]. intros c Hc. apply Hw. by right.
Qed.

(** Another end, another start. *)
Lemma seg_end s s' p l x n n' :
  (∀ b, b ∈ l → word s' (b + 16) = word s (b + 16)) → (∀ b, b ∈ l ++ [x] → word s' (b + 24) = word s (b + 24)) →
  word s' (x + 16) = n' → seg s p (l ++ [x]) n → seg s' p (l ++ [x]) n'.
Proof.
  revert p. induction l as [|b l IH]; intros p H16 H24 Hx; simpl.
  - intros (H1 & _ & _). rewrite H24 by (by left). done.
  - intros (H1 & H2 & H3). rewrite H24 by (by left). rewrite H16 by (by left). split; [done|]. split.
    + rewrite H2. by destruct l.
    + apply IH; [..|done]; [|intros c Hc; apply H24; by right|done]. intros c Hc. apply H16. by right.
Qed.
Lemma seg_start s s' p p' b l n :
  (∀ c, c ∈ b :: l → word s' (c + 16) = word s (c + 16)) → (∀ c, c ∈ l → word s' (c + 24) = word s (c + 24)) →
  word s' (b + 24) = p' → seg s p (b :: l) n → seg s' p' (b :: l) n.
Proof.
  intros H16 H24 Hb (H1 & H2 & H3). simpl. rewrite H16 by (by left). split; [done|]. split; [done|].
  apply (seg_frame s); [|done]. intros c Hc. split; [apply H16; by right|by apply H24].
Qed.

(** ** All the lists *)

(** Two headers that do not overlap. *)
Definition apart (a b : Z) : Prop := a + 32 ≤ b ∨ b + 32 ≤ a.
Definition nonempty (l : list Z) : bool := match l with [] => false | _ => true end.

Record free_lists (s : heap) (L : Z * Z → list Z) : Prop := FreeLists {
  fl_null : 0 < control s ∧ control s + 32 < U64;
  fl_head : ∀ c, in_index c → blocks s !! c = Some (List.hd (control s) (L c));
  fl_seg : ∀ c, in_index c → seg s (control s) (L c) (control s);
  fl_sl : ∀ i, 0 ≤ i < FL_INDEX_COUNT → ∃ m, sl_bitmap s !! i = Some m ∧ 0 ≤ m < U32 ∧
    (∀ j, 0 ≤ j < SL_INDEX_COUNT → Z.testbit m j = nonempty (L (i, j))) ∧
    Z.testbit (fl_bitmap s) i = negb (m =? 0);
  fl_fl : 0 ≤ fl_bitmap s < 2 ^ FL_INDEX_COUNT;
  fl_node : ∀ c b, in_index c → b ∈ L c → 0 < b ∧ b + 32 < U64 ∧ apart b (control s);
  fl_apart : ∀ c d a b, in_index c → in_index d → a ∈ L c → b ∈ L d → a ≠ b → apart a b;
  fl_nodup : ∀ c, in_index c → NoDup (L c);
  fl_single : ∀ c d b, in_index c → in_index d → b ∈ L c → b ∈ L d → c = d;
}.

Definition upd_list (c : Z * Z) (l : list Z) (L : Z * Z → list Z) : Z * Z → list Z := λ d, if decide (d = c) then l else L d.
Lemma upd_list_eq c l L : upd_list c l L c = l.
Proof. unfold upd_list. by rewrite decide_True. Qed.
Lemma upd_list_ne c d l L : d ≠ c → upd_list c l L d = L d.
Proof. intros. unfold upd_list. by rewrite decide_False. Qed.

(** The lists survive writes elsewhere. *)
Lemma free_lists_frame W s s' L : free_lists s L → touches W s s' →
  (∀ c b, in_index c → b ∈ L c → ¬ W (b + 16) ∧ ¬ W (b + 24)) → free_lists s' L.
Proof.
  intros H (T1 & T2 & T3 & T4 & _ & T5) HW. destruct H. split; rewrite ?T1, ?T2, ?T3, ?T4; try done.
  intros c Hc. apply (seg_frame s); [|by auto]. intros b Hb. destruct (fl_node0 c b Hc Hb) as (? & ? & _).
  destruct (HW c b Hc Hb). split; apply T5; lia || done.
Qed.

(** ** Search *)

Lemma nonempty_spec l : nonempty l = true ↔ l ≠ [].
Proof. by destruct l. Qed.

(** The lowest bit of a part [w] of a row's bitmap names a list with a block. *)
Lemma pick_first s L : free_lists s L → ∀ i mm w, sl_bitmap s !! i = Some mm → 0 ≤ i < FL_INDEX_COUNT →
  (∀ j, 0 ≤ j < 32 → Z.testbit mm j = nonempty (L (i, j))) → 0 ≤ w < U32 → w ≠ 0 → (∀ k, Z.testbit w k = true → Z.testbit mm k = true) →
  ∃ b l, blocks s !! (i, tlsf_ffs w) = Some b ∧ 0 ≤ tlsf_ffs w < 32 ∧ L (i, tlsf_ffs w) = b :: l ∧ Z.testbit w (tlsf_ffs w) = true.
Proof.
  intros H i mm w E Hi Hb Hw Hw0 Hsub. destruct (ffs_spec w) as (Hk & Hk1 & _); [lia|].
  pose proof (Hb _ Hk) as Hne. rewrite Hsub in Hne by done. symmetry in Hne. rewrite nonempty_spec in Hne.
  destruct (L (i, tlsf_ffs w)) as [|b l] eqn:El; [done|]. exists b, l. split; [|done].
  rewrite (fl_head _ _ H) by (split; [done|]; change SL_INDEX_COUNT with 32; done). by rewrite El.
Qed.

(** From [c] on, in the order of the lists: the first list that is not empty, or none. *)
Lemma search_spec s L fl sl :
  free_lists s L → in_index (fl, sl) →
  ∃ b c, search_suitable_block fl sl s = Done (b, c.1, c.2) s ∧
    ((b = 0 ∧ ∀ d, in_index d → rank (fl, sl) ≤ rank d → L d = []) ∨
     (in_index c ∧ rank (fl, sl) ≤ rank c ∧ ∃ l, L c = b :: l)).
Proof.
  intros H [Hfl Hsl]. cbn [fst snd] in *. destruct (fl_sl _ _ H fl Hfl) as (m & Em & Hm & Hbits & Hf).
  change SL_INDEX_COUNT with 32 in *. unfold search_suitable_block. erewrite bind_done by (by apply kread_done).
  pose proof (land_range32 m (mask_from sl) Hm) as Hr.
  pose proof (pick_first s L H) as Hpick.
  destruct (Z.eqb_spec (Z.land m (mask_from sl)) 0) as [E0|E0]; cbn [negb].
  - assert (Hrow : ∀ j, sl ≤ j < 32 → L (fl, j) = []).
    { intros j Hj. destruct (L (fl, j)) eqn:El; [done|]. assert (Hb : Z.testbit m j = true) by (rewrite Hbits, El by lia; done).
      assert (Z.testbit (Z.land m (mask_from sl)) j = true) as Hc; [|by rewrite E0, Z.bits_0 in Hc].
      rewrite Z.land_spec, Hb, mask_from_bits, (proj2 (Z.leb_le _ _)), (proj2 (Z.ltb_lt _ _)) by lia. done. }
    rewrite (bind_done _ _ s (fl_bitmap s) s) by done. cbv zeta. pose proof (fl_fl _ _ H) as Hff.
    change (2 ^ FL_INDEX_COUNT) with (2 ^ 25) in Hff. change FL_INDEX_COUNT with 25 in *.
    assert (0 ≤ fl_bitmap s < U32) by (unfold U32; change (2 ^ 25) with 0x2000000 in Hff; lia).
    pose proof (land_range32 (fl_bitmap s) (mask_from (fl + 1)) ltac:(lia)) as Hr2.
    destruct (Z.eqb_spec (Z.land (fl_bitmap s) (mask_from (fl + 1))) 0) as [E1|E1].
    + exists 0, (fl, sl). split; [done|]. left. split; [done|]. intros [i j] [Hi Hj]. unfold rank. change SL_INDEX_COUNT with 32 in *.
      cbn [fst snd] in *. intros Hrk. destruct (decide (i = fl)) as [->|]; [apply Hrow; lia|].
      destruct (fl_sl _ _ H i Hi) as (mi & Ei & Hmi & Hbi & Hfi). change SL_INDEX_COUNT with 32 in Hbi.
      assert (Hz : Z.testbit (fl_bitmap s) i = false).
      { assert (Z.testbit (Z.land (fl_bitmap s) (mask_from (fl + 1))) i = false) as Hc by (by rewrite E1, Z.bits_0).
        rewrite Z.land_spec, mask_from_bits, (proj2 (Z.leb_le _ _)), (proj2 (Z.ltb_lt _ _)) in Hc by (change FL_INDEX_COUNT with 25 in Hi; lia).
        by rewrite andb_true_r in Hc. }
      rewrite Hz in Hfi. destruct (Z.eqb_spec mi 0) as [->|]; [|done]. pose proof (Hbi j Hj) as Hbj. rewrite Z.bits_0 in Hbj.
      by destruct (L (i, j)).
    + destruct (ffs_spec (Z.land (fl_bitmap s) (mask_from (fl + 1)))) as (Hk & Hk1 & _); [lia|].
      set (k := tlsf_ffs _) in *. rewrite Z.land_spec in Hk1. apply andb_true_iff in Hk1 as [Hk1 Hk2].
      rewrite mask_from_bits in Hk2 by lia. apply andb_true_iff in Hk2 as [Hk2 _]. apply Z.leb_le in Hk2.
      assert (Hk25 : k < 25). { apply Z.nle_gt. intros ?. rewrite (testbit_high _ 25) in Hk1 by lia. done. }
      destruct (fl_sl _ _ H k) as (mk & Ek & Hmk & Hbk & Hfk); [change FL_INDEX_COUNT with 25; lia|]. change SL_INDEX_COUNT with 32 in Hbk.
      rewrite Hk1 in Hfk. destruct (Z.eqb_spec mk 0) as [|Hmk0]; [done|].
      erewrite bind_done by (by apply kread_done). rewrite (proj2 (Z.eqb_neq mk 0)) by done.
      rewrite (bind_done _ _ s tt s) by done. cbv zeta.
      destruct (Hpick k mk mk Ek) as (b & l & Eb & Hf2 & El & _); [change FL_INDEX_COUNT with 25; lia|done..|].
      erewrite bind_done by (by apply kread_done). exists b, (k, tlsf_ffs mk). split; [done|]. right.
      split; [split; [change FL_INDEX_COUNT with 25; cbn [fst]; lia|done]|]. split; [|by exists l].
      unfold rank. change SL_INDEX_COUNT with 32. cbn [fst snd]. lia.
  - cbv zeta. destruct (Hpick fl m (Z.land m (mask_from sl)) Em) as (b & l & Eb & Hf2 & El & Hk); [done..| |].
    { intros k. rewrite Z.land_spec. by intros [? _]%andb_true_iff. }
    erewrite bind_done by (by apply kread_done). exists b, (fl, tlsf_ffs (Z.land m (mask_from sl))). split; [done|]. right.
    split; [done|]. split; [|by exists l]. rewrite Z.land_spec, mask_from_bits in Hk by lia.
    apply andb_true_iff in Hk as [_ Hk]. apply andb_true_iff in Hk as [Hk _]. apply Z.leb_le in Hk.
    revert Hk. generalize (tlsf_ffs (Z.land m (mask_from sl))). intros k Hk. unfold rank. change SL_INDEX_COUNT with 32. cbn [fst snd]. lia.
Qed.

(** ** Changing one list *)

(** [s'] differs from [s] in memory only at addresses in [W]; the lists may differ. *)
Definition writes (W : Z → Prop) (s s' : heap) : Prop :=
  control s' = control s ∧ pending s' = pending s ∧ ∀ x, 0 ≤ x < U64 → ¬ W x → word s' x = word s x.

Lemma touches_writes W s s' : touches W s s' → writes W s s'.
Proof. intros (?&?&?&?&?&?). done. Qed.
Lemma writes_trans W s1 s2 s3 : writes W s1 s2 → writes W s2 s3 → writes W s1 s3.
Proof. intros (A1 & A2 & A3) (B1 & B2 & B3). split; [congruence|]. split; [congruence|]. intros x Hx Hn. by rewrite B3, A3. Qed.
Lemma writes_mono (W W' : Z → Prop) s s' : (∀ x, W x → W' x) → writes W s s' → writes W' s s'.
Proof. intros HW (?&?&H). do 2 (split; [done|]). intros x Hx Hn. apply H; [done|]. by intros ?%HW. Qed.

(** The points of the lists: the null block and the listed blocks. *)
Definition point (s : heap) (L : Z * Z → list Z) (x : Z) : Prop := x = control s ∨ ∃ c, in_index c ∧ x ∈ L c.
Definition link_word (s : heap) (L : Z * Z → list Z) (a : Z) : Prop := ∃ x, point s L x ∧ (a = x + 16 ∨ a = x + 24).

Lemma point_range s L x : free_lists s L → point s L x → 0 < x ∧ x + 32 < U64.
Proof. intros H [->|(c & Hc & Hx)]; [apply (fl_null _ _ H)|]. destruct (fl_node _ _ H c x Hc Hx); tauto. Qed.
Lemma point_apart s L x y : free_lists s L → point s L x → point s L y → x = y ∨ apart x y.
Proof.
  intros H Hx Hy. destruct (decide (x = y)) as [|Hne]; [by left|right].
  destruct Hx as [->|(c & Hc & Hx)], Hy as [->|(d & Hd & Hy)]; [done|..].
  - destruct (fl_node _ _ H d y Hd Hy) as (_ & _ & Ha). unfold apart in *. lia.
  - destruct (fl_node _ _ H c x Hc Hx) as (_ & _ & Ha). unfold apart in *. lia.
  - by apply (fl_apart _ _ H c d).
Qed.
Lemma node_not_null s L c x : free_lists s L → in_index c → x ∈ L c → x ≠ control s.
Proof. intros H Hc Hx ->. destruct (fl_node _ _ H c _ Hc Hx) as (_ & _ & Ha). unfold apart in Ha. lia. Qed.

(** Writes to the links of a point, read at the links of a point. *)
Definition nice (x y : Z) : Prop := 0 < x ∧ x + 32 < U64 ∧ 0 < y ∧ y + 32 < U64 ∧ (x = y ∨ apart x y).
Lemma poke24_16 p y v s : nice p y → word (poke (p + 24) v s) (y + 16) = word s (y + 16).
Proof. intros (?&?&?&?&Ha). apply word_poke_ne; [lia..|]. unfold apart in Ha. lia. Qed.
Lemma poke16_24 p y v s : nice p y → word (poke (p + 16) v s) (y + 24) = word s (y + 24).
Proof. intros (?&?&?&?&Ha). apply word_poke_ne; [lia..|]. unfold apart in Ha. lia. Qed.
Lemma poke24_24 p y v s : nice p y → p ≠ y → word (poke (p + 24) v s) (y + 24) = word s (y + 24).
Proof. intros (?&?&?&?&Ha) Hne. apply word_poke_ne; [lia..|]. unfold apart in Ha. lia. Qed.
Lemma poke16_16 p y v s : nice p y → p ≠ y → word (poke (p + 16) v s) (y + 16) = word s (y + 16).
Proof. intros (?&?&?&?&Ha) Hne. apply word_poke_ne; [lia..|]. unfold apart in Ha. lia. Qed.
Lemma point_nice s L x y : free_lists s L → point s L x → point s L y → nice x y.
Proof.
  intros H Hx Hy. destruct (point_range _ _ _ H Hx), (point_range _ _ _ H Hy). by pose proof (point_apart _ _ _ _ H Hx Hy).
Qed.

(** Only the list [c] and its bits change. *)
Record relisted (c : Z * Z) (l : list Z) (s s' : heap) : Prop := Relisted {
  rl_control : control s' = control s;
  rl_head : blocks s' !! c = Some (List.hd (control s) l);
  rl_heads : ∀ d, d ≠ c → blocks s' !! d = blocks s !! d;
  rl_sl : ∀ m, sl_bitmap s !! c.1 = Some m → 0 ≤ m < U32 → ∃ m', sl_bitmap s' !! c.1 = Some m' ∧ 0 ≤ m' < U32 ∧
    (∀ j, 0 ≤ j < 32 → Z.testbit m' j = if decide (j = c.2) then nonempty l else Z.testbit m j) ∧
    (Z.testbit (fl_bitmap s) c.1 = negb (m =? 0) → Z.testbit (fl_bitmap s') c.1 = negb (m' =? 0));
  rl_sls : ∀ i, i ≠ c.1 → sl_bitmap s' !! i = sl_bitmap s !! i;
  rl_fl : 0 ≤ fl_bitmap s < 2 ^ FL_INDEX_COUNT → 0 ≤ fl_bitmap s' < 2 ^ FL_INDEX_COUNT ∧
    ∀ i, 0 ≤ i → i ≠ c.1 → Z.testbit (fl_bitmap s') i = Z.testbit (fl_bitmap s) i;
}.

Lemma free_lists_relist s s' L c l :
  free_lists s L → in_index c → relisted c l s s' → (∀ d, in_index d → seg s' (control s) (upd_list c l L d) (control s)) →
  NoDup l →
  (∀ b, b ∈ l → b ∈ L c ∨ 0 < b ∧ b + 32 < U64 ∧ apart b (control s) ∧
    ∀ d x, in_index d → x ∈ L d → apart b x) →
  (∀ a b, a ∈ l → b ∈ l → a ≠ b → apart a b) →
  free_lists s' (upd_list c l L).
Proof.
  intros H Hc [R1 R2 R3 R4 R5 R6] Hseg Hnd Hl Hap. destruct (R6 (fl_fl _ _ H)) as [R7 R8].
  assert (Hsingle : ∀ d b, in_index d → d ≠ c → b ∈ L d → b ∈ l → False).
  { intros d b Hd Hne Hb Hbl. destruct (Hl b Hbl) as [Hbc|(_ & _ & _ & Ha)].
    - by pose proof (fl_single _ _ H d c b Hd Hc Hb Hbc).
    - specialize (Ha d b Hd Hb). unfold apart in Ha. lia. }
  split; rewrite ?R1.
  - apply (fl_null _ _ H).
  - intros d Hd. destruct (decide (d = c)) as [->|Hne]; [by rewrite upd_list_eq|].
    rewrite R3, upd_list_ne by done. by apply (fl_head _ _ H).
  - done.
  - intros i Hi. destruct (fl_sl _ _ H i Hi) as (m & Em & Hm & Hb & Hf). change SL_INDEX_COUNT with 32 in *.
    destruct (decide (i = c.1)) as [->|Hne].
    + destruct (R4 m Em Hm) as (m' & Em' & Hm' & Hb' & Hf'). exists m'. split; [done|]. split; [done|]. split; [|by apply Hf'].
      intros j Hj. rewrite Hb' by done. destruct c as [c1 c2]. cbn [fst snd] in *. case_decide as Hd.
      * subst j. by rewrite upd_list_eq.
      * rewrite upd_list_ne by congruence. by apply Hb.
    + exists m. rewrite R5, R8 by lia. split; [done|]. split; [done|]. split; [|done]. intros j Hj.
      rewrite upd_list_ne; [by apply Hb|]. by intros <-.
  - done.
  - intros d b Hd. unfold upd_list. case_decide as E; [|by apply (fl_node _ _ H)].
    intros Hb. destruct (Hl b Hb) as [Hbc|(?&?&?&_)]; [by apply (fl_node _ _ H c)|done].
  - intros d e a b Hd He. unfold upd_list. repeat case_decide; subst.
    + by apply Hap.
    + intros Ha Hb Hne. destruct (Hl a Ha) as [Hac|(_&_&_&Hx)]; [by apply (fl_apart _ _ H c e)|by apply (Hx e)].
    + intros Ha Hb Hne. destruct (Hl b Hb) as [Hbc|(_&_&_&Hx)]; [by apply (fl_apart _ _ H d c)|].
      specialize (Hx d a Hd Ha). unfold apart in *. lia.
    + by apply (fl_apart _ _ H).
  - intros d Hd. unfold upd_list. case_decide; [done|by apply (fl_nodup _ _ H)].
  - intros d e b Hd He. unfold upd_list. repeat case_decide; subst; [done|..].
    + intros Hb Hbe. by destruct (Hsingle e b).
    + intros Hbd Hb. by destruct (Hsingle d b).
    + by apply (fl_single _ _ H).
Qed.

(** ** Removing a block *)

(** The two stores that take a block out of its list. *)
Definition bypass (prev next : Z) (s : heap) : heap := poke (prev + 16) next (poke (next + 24) prev s).

Lemma bypass_seg s p n l1 b l2 :
  NoDup (l1 ++ b :: l2) → p ∉ l1 ++ b :: l2 → n ∉ l1 ++ b :: l2 →
  (∀ x y, x ∈ p :: n :: l1 ++ b :: l2 → y ∈ p :: n :: l1 ++ b :: l2 → nice x y) →
  seg s p (l1 ++ b :: l2) n → seg (bypass (List.last l1 p) (List.hd n l2) s) p (l1 ++ l2) n.
Proof.
  intros Hnd Hp Hn Hnice Hs. apply seg_app in Hs as [Hs1 (Hb1 & Hb2 & Hs2)]. apply seg_app.
  apply NoDup_app in Hnd as (Hnd1 & Hdis & Hnd2). apply NoDup_cons in Hnd2 as [Hbl2 Hnd2].
  set (prev := List.last l1 p) in *. set (next := List.hd n l2) in *.
  assert (Hprev : prev = p ∨ prev ∈ l1).
  { unfold prev. clear. destruct l1 as [|x l] using rev_ind; [by left|right]. rewrite List.last_last. set_solver. }
  assert (Hnext : next = n ∨ next ∈ l2) by (unfold next; destruct l2; [by left|right; by left]).
  assert (Hpn : ∀ x, x ∈ l1 ++ l2 → nice next x ∧ nice prev x).
  { intros x Hx. split; apply Hnice; set_solver. }
  assert (H16 : ∀ x, x ∈ l1 ++ l2 → x ≠ prev → word (bypass prev next s) (x + 16) = word s (x + 16)).
  { intros x Hx Hne. destruct (Hpn x Hx). unfold bypass. by rewrite poke16_16, poke24_16. }
  assert (H24 : ∀ x, x ∈ l1 ++ l2 → x ≠ next → word (bypass prev next s) (x + 24) = word s (x + 24)).
  { intros x Hx Hne. destruct (Hpn x Hx). unfold bypass. by rewrite poke16_24, poke24_24. }
  split.
  - destruct l1 as [|x l] using rev_ind; [done|]. unfold prev in *. rewrite List.last_last in *.
    apply NoDup_app in Hnd1 as (_ & Hdx & _).
    apply (seg_end s _ p l x b); [..|done].
    + intros y Hy. apply H16; [set_solver|]. intros ->. by apply (Hdx x Hy); left.
    + intros y Hy. apply H24; [set_solver|]. destruct Hnext as [->|Hnx]; [set_solver|]. intros ->. apply (Hdis next Hy). by right.
    + unfold bypass. apply word_poke.
  - destruct l2 as [|y l]; [done|]. change (List.hd n (y :: l)) with y in next. apply NoDup_cons in Hnd2 as [Hyl Hndl].
    apply (seg_start s _ b prev y l n); [..|done].
    + intros x Hx. apply H16; [set_solver|]. destruct Hprev as [->|Hpv]; [set_solver|]. intros ->. apply (Hdis prev Hpv). by right.
    + intros x Hx. apply H24; [set_solver|]. unfold next. by intros ->.
    + unfold bypass. rewrite poke16_24 by (apply Hpn; set_solver). apply word_poke.
Qed.

Lemma bypass_frame s L prev next : free_lists s L → point s L prev → point s L next →
  writes (link_word s L) s (bypass prev next s) ∧ (∀ p l, (∀ x, x ∈ l → point s L x ∧ x ≠ prev ∧ x ≠ next) →
    seg s p l (control s) → seg (bypass prev next s) p l (control s)).
Proof.
  intros H Hp Hn. destruct (point_range _ _ _ H Hp), (point_range _ _ _ H Hn). split.
  - apply touches_writes. unfold bypass. apply touches_trans with (poke (next + 24) prev s); apply touches_poke; [lia| |lia|].
    + exists next. auto.
    + exists prev. auto.
  - intros p l Hl. apply seg_frame. intros x Hx. destruct (Hl x Hx) as (Hpt & ? & ?).
    pose proof (point_nice _ _ _ _ H Hp Hpt). pose proof (point_nice _ _ _ _ H Hn Hpt). unfold bypass.
    by rewrite poke16_16, poke24_16, poke16_24, poke24_24.
Qed.

Lemma set_list_head_run s c v h : blocks s !! c = Some h → set_list_head c.1 c.2 v s = Done tt (set_blocks c v s).
Proof. intros E. destruct c as [i j]. unfold set_list_head, list_head_of. by rewrite (bind_done _ _ s h s) by (by apply kread_done). Qed.
Lemma set_sl_map_run s i v m : sl_bitmap s !! i = Some m → set_sl_map i v s = Done tt (set_sl i v s).
Proof. intros E. unfold set_sl_map, sl_map_of. by rewrite (bind_done _ _ s m s) by (by apply kread_done). Qed.

(** Whether [b] is the first block of its list. *)
Lemma remove_head s l1 (b : Z) l2 :
  NoDup (l1 ++ b :: l2) → (List.hd (control s) (l1 ++ b :: l2) =? b) = bool_decide (l1 = []).
Proof.
  intros Hnd. destruct l1 as [|x l]; simpl; [by rewrite Z.eqb_refl|]. apply Z.eqb_neq. intros ->.
  apply NoDup_cons in Hnd as [Hx _]. set_solver.
Qed.

(** The rest of [remove_free_block]: the head and the bitmaps. *)
Definition unlink_head (b next fl sl : Z) : K heap unit :=
  h ← list_head_of fl sl;
  if negb (h =? b) then mret tt else
  set_list_head fl sl next;;
  null ← kget control;
  if negb (next =? null) then mret tt else
  m ← sl_map_of fl;
  set_sl_map fl (Z.land m (not32 (bit sl)));;
  m ← sl_map_of fl;
  if negb (m =? 0) then mret tt else
  kmodify (λ s, set_fl (Z.land (fl_bitmap s) (not32 (bit fl))) s).

(** The list of class [c] keeps a block: the bitmaps stay. *)
Lemma relisted_head s L c l s0 s' :
  free_lists s L → in_index c → sl_bitmap s0 = sl_bitmap s → L c ≠ [] → l ≠ [] →
  control s' = control s0 → sl_bitmap s' = sl_bitmap s0 → fl_bitmap s' = fl_bitmap s0 →
  blocks s' !! c = Some (List.hd (control s0) l) → (∀ d, d ≠ c → blocks s' !! d = blocks s0 !! d) →
  relisted c l s0 s'.
Proof.
  intros H Hc Es HL Hl Ec Es' Ef' Hh Hd. pose proof Hc as [Hi Hj].
  destruct (fl_sl _ _ H c.1 Hi) as (m & Em & Hm & Hbits & _). change SL_INDEX_COUNT with 32 in *.
  split; rewrite ?Es', ?Ef'; try done.
  intros m' Em' Hm'. rewrite Es, Em in Em'. injection Em' as <-. exists m. split; [by rewrite Es|]. split; [done|].
  split; [|done]. intros j Hj'. case_decide as E; [|done]. subst j. rewrite Hbits by done. destruct c as [a b]. cbn [fst snd] in *.
  destruct (L (a, b)), l; done.
Qed.

(** Bit [i] of the first-level bitmap is cleared. *)
Lemma clear_fl f i : 0 ≤ i < 25 → 0 ≤ f < 2 ^ 25 → 0 ≤ Z.land f (not32 (bit i)) < 2 ^ 25 ∧
  (∀ k, 0 ≤ k → k ≠ i → Z.testbit (Z.land f (not32 (bit i))) k = Z.testbit f k) ∧
  Z.testbit (Z.land f (not32 (bit i))) i = false.
Proof.
  change (2 ^ 25) with 0x2000000. intros Hi Hf.
  pose proof (land_range32 f (not32 (bit i)) ltac:(unfold U32; lia)). split_and!; [lia| | |].
  - destruct (decide (Z.land f (not32 (bit i)) = 0)) as [->|]; [done|].
    change 0x2000000 with (2 ^ 25). apply Z.log2_lt_pow2; [lia|]. apply Z.nle_gt. intros Hge.
    pose proof (Z.bit_log2 (Z.land f (not32 (bit i))) ltac:(lia)) as Hb.
    rewrite Z.land_spec, (testbit_high f 25) in Hb by (change (2 ^ 25) with 0x2000000; lia). done.
  - intros k Hk Hki. rewrite clear_bit_testbit by (unfold U32; lia). rewrite (proj2 (Z.eqb_neq i k)) by done. by rewrite andb_true_r.
  - rewrite clear_bit_testbit by (unfold U32; lia). by rewrite Z.eqb_refl, andb_false_r.
Qed.

(** The list of class [c] becomes empty: its bit is cleared, and that of the
    first level when it was the last of its row. *)
Lemma relisted_empty s L c l s0 m f :
  free_lists s L → in_index c → L c = l → l ≠ [] →
  sl_bitmap s0 = sl_bitmap s → fl_bitmap s0 = fl_bitmap s → sl_bitmap s0 !! c.1 = Some m →
  let m' := Z.land m (not32 (bit c.2)) in
  f = (if m' =? 0 then Z.land (fl_bitmap s0) (not32 (bit c.1)) else fl_bitmap s0) →
  relisted c [] s0 (set_fl f (set_sl c.1 m' (set_blocks c (control s0) s0))).
Proof.
  intros H Hc EL Hl Es Ef Em0 m' ->. pose proof Hc as [Hi Hj].
  destruct (fl_sl _ _ H c.1 Hi) as (m0 & Em & Hm & Hbits & Hf). change SL_INDEX_COUNT with 32 in *. change FL_INDEX_COUNT with 25 in *.
  rewrite Es, Em in Em0. injection Em0 as ->. pose proof (fl_fl _ _ H) as Hff. rewrite <- Ef in Hff, Hf.
  destruct (clear_fl (fl_bitmap s0) c.1 Hi Hff) as (C1 & C2 & C3).
  assert (Hbj : Z.testbit m c.2 = true) by (rewrite Hbits by done; destruct c; cbn [fst snd] in *; rewrite EL; by destruct l).
  split; cbn [set_fl set_sl set_blocks control blocks sl_bitmap fl_bitmap].
  - done.
  - by rewrite lookup_insert_eq.
  - intros d Hd. by rewrite lookup_insert_ne.
  - intros m1 Em1 _. rewrite Es, Em in Em1. injection Em1 as <-. exists m'. split; [by rewrite lookup_insert_eq|].
    split; [by apply land_range32|]. split.
    + intros j' Hj'. unfold m'. rewrite clear_bit_testbit by lia. case_decide as E.
      * subst. by rewrite Z.eqb_refl, andb_false_r.
      * rewrite (proj2 (Z.eqb_neq c.2 j')) by done. by rewrite andb_true_r.
    + intros Hf0. destruct (Z.eqb_spec m' 0) as [E0|E0]; [exact C3|]. rewrite Hf0.
      destruct (Z.eqb_spec m 0) as [->|]; [by rewrite Z.bits_0 in Hbj|done].
  - intros k Hk. by rewrite lookup_insert_ne.
  - intros _. destruct (m' =? 0); [by split|done].
Qed.

Lemma unlink_head_spec s L c b l1 l2 s0 :
  free_lists s L → in_index c → L c = l1 ++ b :: l2 → 
  control s0 = control s → blocks s0 = blocks s → sl_bitmap s0 = sl_bitmap s → fl_bitmap s0 = fl_bitmap s →
  ∃ s', unlink_head b (List.hd (control s) l2) c.1 c.2 s0 = Done tt s' ∧ relisted c (l1 ++ l2) s0 s' ∧
    words s' = words s0 ∧ pending s' = pending s0.
Proof.
  intros H Hc EL Ec Eb Es Ef. destruct c as [i j]. pose proof Hc as [Hi Hj]. cbn [fst snd] in *.
  destruct (fl_sl _ _ H i Hi) as (m & Em & Hm & Hbits & Hf).
  pose proof (fl_head _ _ H _ Hc) as Hh. rewrite EL in Hh. pose proof (fl_nodup _ _ H _ Hc) as Hnd. rewrite EL in Hnd.
  assert (HL : L (i, j) ≠ []) by (rewrite EL; by destruct l1).
  unfold unlink_head. erewrite bind_done by (apply kread_done; by rewrite Eb).
  rewrite remove_head by done. destruct l1 as [|x l].
  2: { exists s0. split; [done|]. split; [|done]. apply (relisted_head s L); try done. by rewrite Eb, Hh, Ec. }
  rewrite bool_decide_eq_true_2 by done. cbn [negb].
  rewrite (bind_done _ _ s0 tt (set_blocks (i, j) (List.hd (control s) l2) s0))
    by (apply (set_list_head_run _ (i, j) _ b); by rewrite Eb, Hh).
  rewrite (bind_done _ _ _ (control s) (set_blocks (i, j) (List.hd (control s) l2) s0)) by (unfold kget; by rewrite <- Ec).
  destruct (Z.eqb_spec (List.hd (control s) l2) (control s)) as [En|En]; cbn [negb].
  2: { eexists. split; [done|]. split; [|done]. destruct l2 as [|y l2']; [done|]. apply (relisted_head s L); try done; simpl.
    - by rewrite lookup_insert_eq.
    - intros d Hd. by rewrite lookup_insert_ne. }
  assert (l2 = []) as ->.
  { destruct l2 as [|y l2']; [done|]. destruct (node_not_null s L (i, j) y H Hc); [rewrite EL; right; by left|exact En]. }
  cbn [List.hd] in *. rewrite <- Ec in *. set (s1 := set_blocks _ _ s0). set (m' := Z.land m (not32 (bit j))).
  rewrite (bind_done _ _ s1 m s1) by (apply kread_done; simpl; by rewrite Es).
  set (s2 := set_sl i m' s1).
  rewrite (bind_done _ _ s1 tt s2) by (apply (set_sl_map_run _ _ _ m); simpl; by rewrite Es).
  rewrite (bind_done _ _ s2 m' s2) by (apply kread_done; simpl; by rewrite lookup_insert_eq).
  exists (set_fl (if m' =? 0 then Z.land (fl_bitmap s0) (not32 (bit i)) else fl_bitmap s0) s2).
  split; [by destruct (m' =? 0)|]. split; [|done].
  apply (relisted_empty s L (i, j) _ s0 m _ H Hc EL); try done. by rewrite Es.
Qed.

Lemma remove_spec s L c b l1 l2 :
  free_lists s L → in_index c → L c = l1 ++ b :: l2 →
  ∃ s', remove_free_block b c.1 c.2 s = Done tt s' ∧ free_lists s' (upd_list c (l1 ++ l2) L) ∧ writes (link_word s L) s s'.
Proof.
  intros H Hc EL. pose proof (fl_seg _ _ H c Hc) as Hs. rewrite EL in Hs. pose proof Hs as Hs0. apply seg_app in Hs0 as (_ & Hb24 & Hb16 & _).
  pose proof (fl_nodup _ _ H c Hc) as Hnd. rewrite EL in Hnd.
  set (prev := List.last l1 (control s)) in *. set (next := List.hd (control s) l2) in *.
  assert (Hin : ∀ x, x ∈ l1 ++ b :: l2 → x ∈ L c) by (intros x; by rewrite EL).
  assert (Hp : prev = control s ∨ prev ∈ l1).
  { unfold prev. clear. destruct l1 as [|x l] using rev_ind; [by left|right]. rewrite List.last_last. set_solver. }
  assert (Hn : next = control s ∨ next ∈ l2) by (unfold next; destruct l2; [by left|right; by left]).
  assert (Hpp : point s L prev) by (destruct Hp as [->|Hp]; [by left|right; exists c; split; [done|]; apply Hin; set_solver]).
  assert (Hpn : point s L next) by (destruct Hn as [->|Hn]; [by left|right; exists c; split; [done|]; apply Hin; set_solver]).
  destruct (point_range _ _ _ H Hpp), (point_range _ _ _ H Hpn).
  unfold remove_free_block. rewrite (bind_done _ _ s prev s) by (unfold prev_free; rewrite load_run; by rewrite Hb24).
  rewrite (bind_done _ _ s next s) by (unfold next_free; rewrite load_run; by rewrite Hb16).
  unfold tlsf_assert. rewrite !(proj2 (Z.eqb_neq _ 0)) by lia. cbn [negb].
  rewrite !(bind_done (mret tt) _ s tt s) by done.
  rewrite (bind_done _ _ s tt (poke (next + 24) prev s)) by apply store_run.
  rewrite (bind_done _ _ _ tt (bypass prev next s)) by apply store_run.
  destruct (bypass_frame s L prev next H Hpp Hpn) as [Hw Hseg].
  destruct (unlink_head_spec s L c b l1 l2 (bypass prev next s) H Hc EL) as (s' & E & Hrel & Hwords & Hpend); [done..|].
  exists s'. split; [exact E|]. pose proof (rl_control _ _ _ _ Hrel) as Hctl.
  assert (Hsame : ∀ x, word s' x = word (bypass prev next s) x) by (intros x; unfold word; by rewrite Hwords).
  split.
  - apply (free_lists_relist s s' L c (l1 ++ l2) H Hc).
    + destruct Hrel. split; done.
    + intros d Hd. apply (seg_frame (bypass prev next s)); [intros; by rewrite !Hsame|].
      unfold upd_list. case_decide as Edc.
      * apply (bypass_seg s (control s) (control s) l1 b l2); [done| | | |done].
        -- intros Hx. apply Hin in Hx. by apply (node_not_null s L c _ H Hc) in Hx.
        -- intros Hx. apply Hin in Hx. by apply (node_not_null s L c _ H Hc) in Hx.
        -- assert (Hpt : ∀ x, x ∈ control s :: control s :: l1 ++ b :: l2 → point s L x).
           { intros x Hx. apply elem_of_cons in Hx as [->|Hx]; [by left|]. apply elem_of_cons in Hx as [->|Hx]; [by left|].
             right. exists c. split; [done|]. by apply Hin. }
           intros x y Hx Hy. apply (point_nice s L); auto.
      * apply Hseg; [|by apply (fl_seg _ _ H)]. intros x Hx. split; [right; by exists d|].
        pose proof (node_not_null s L d x H Hd Hx).
        split; [destruct Hp as [->|Hp]|destruct Hn as [->|Hn]]; try done; intros ->; apply Edc;
          apply (fl_single _ _ H d c _ Hd Hc Hx), Hin; set_solver.
    + apply NoDup_app in Hnd as (Hnd1 & Hdis & Hnd2). apply NoDup_cons in Hnd2 as [Hbl2 Hnd2]. apply NoDup_app.
      split; [done|]. split; [|done]. intros x Hx Hx2. apply (Hdis x Hx). by right.
    + intros x Hx. left. apply Hin. set_solver.
    + intros x y Hx Hy. apply (fl_apart _ _ H c c); [done|done|apply Hin; set_solver|apply Hin; set_solver].
  - destruct Hw as (W1 & W2 & W3). split; [by rewrite Hctl|]. split; [by rewrite Hpend|]. intros x Hx Hnw. rewrite Hsame. by apply W3.
Qed.

(** ** Inserting a block *)

(** A block that can join the lists: in none of them, and apart from all. *)
Definition insertable (s : heap) (L : Z * Z → list Z) (b : Z) : Prop :=
  0 < b ∧ b + 32 < U64 ∧ b mod 8 = 0 ∧ apart b (control s) ∧ ∀ d x, in_index d → x ∈ L d → apart b x.

Lemma pow2_8 : pow2 ALIGN_SIZE = true.
Proof. done. Qed.
Lemma align_mask x : 0 ≤ x < U64 → Z.land x (bnot64 7) = x - x mod 8.
Proof. intros Hx. change 7 with (Z.ones 3). rewrite bnot64_ones by lia. done. Qed.
Lemma align_ptr_run a s : 0 ≤ a → a + 7 < U64 → a mod 8 = 0 → align_ptr a ALIGN_SIZE s = Done a s.
Proof.
  intros Ha Hr H8. unfold align_ptr. rewrite pow2_8. change (ALIGN_SIZE - 1) with 7.
  rewrite (bind_done _ _ s tt s) by done. rewrite wrap64_small, align_mask by lia.
  replace (a + 7 - (a + 7) mod 8) with a by mlia. done.
Qed.

(** The new head of the list, with its bits. *)
Definition link_head (b fl sl : Z) : K heap unit :=
  set_list_head fl sl b;;
  kmodify (λ s, set_fl (Z.lor (fl_bitmap s) (bit fl)) s);;
  m ← sl_map_of fl;
  set_sl_map fl (Z.lor m (bit sl)).

Lemma link_head_spec s L c b s0 :
  free_lists s L → in_index c →
  control s0 = control s → blocks s0 = blocks s → sl_bitmap s0 = sl_bitmap s → fl_bitmap s0 = fl_bitmap s →
  ∃ s', link_head b c.1 c.2 s0 = Done tt s' ∧ relisted c (b :: L c) s0 s' ∧ words s' = words s0 ∧ pending s' = pending s0.
Proof.
  intros H Hc Ec Eb Es Ef. pose proof Hc as [Hi Hj]. 
  destruct (fl_sl _ _ H c.1 Hi) as (m & Em & Hm & Hbits & Hf). change SL_INDEX_COUNT with 32 in *.
  pose proof (fl_head _ _ H _ Hc) as Hh. unfold link_head.
  rewrite (bind_done _ _ s0 tt (set_blocks c b s0)) by (eapply set_list_head_run; rewrite Eb; exact Hh).
  rewrite (bind_done _ _ _ tt (set_fl (Z.lor (fl_bitmap s0) (bit c.1)) (set_blocks c b s0))) by done.
  set (s1 := set_fl _ _). assert (Em1 : sl_bitmap s1 !! c.1 = Some m) by (simpl; by rewrite Es).
  rewrite (bind_done _ _ s1 m s1) by (by apply kread_done).
  rewrite (set_sl_map_run s1 c.1 _ m) by done.
  eexists. split; [done|]. split; [|done]. change (2 ^ 32) with U32.
  assert (Hor : 0 ≤ Z.lor m (bit c.2) < U32) by (apply (lor_bit_range 32); [done|lia]).
  split; simpl.
  - done.
  - by rewrite lookup_insert_eq.
  - intros d Hd. by rewrite lookup_insert_ne.
  - intros m0 Em0 _. rewrite Es, Em in Em0. injection Em0 as <-. exists (Z.lor m (bit c.2)).
    split; [by rewrite lookup_insert_eq|]. split; [done|]. split.
    + intros j Hj'. rewrite lor_bit_testbit by lia. case_decide as E.
      * subst. by rewrite Z.eqb_refl, orb_true_r.
      * rewrite (proj2 (Z.eqb_neq c.2 j)) by done. by rewrite orb_false_r.
    + intros _. rewrite lor_bit_testbit, Z.eqb_refl, orb_true_r by lia. symmetry. apply negb_true_iff, Z.eqb_neq. intros E0.
      assert (Z.testbit (Z.lor m (bit c.2)) c.2 = true) as Hb by (rewrite lor_bit_testbit, Z.eqb_refl, orb_true_r by lia; done).
      by rewrite E0, Z.bits_0 in Hb.
  - intros i Hi'. by rewrite lookup_insert_ne.
  - intros Hr. split; [apply lor_bit_range; lia|]. intros i Hi' Hne. rewrite lor_bit_testbit by lia.
    rewrite (proj2 (Z.eqb_neq c.1 i)) by done. by rewrite orb_false_r.
Qed.

(** The three stores that put [b] before the head [cur]. *)
Definition prepend (b cur null : Z) (s : heap) : heap := poke (cur + 24) b (poke (b + 24) null (poke (b + 16) cur s)).

Section prepend.
Context (s : heap) (L : Z * Z → list Z) (c : Z * Z) (b : Z).
Hypothesis (H : free_lists s L) (Hc : in_index c) (Hb : insertable s L b).
Local Notation head := (List.hd (control s) (L c)).

Lemma head_point : head = control s ∨ head ∈ L c.
Proof. destruct (L c); [by left|right; by left]. Qed.

Lemma head_is_point : point s L head.
Proof. destruct head_point as [->|?]; [by left|right; by exists c]. Qed.

Lemma insertable_nice x : point s L x → nice b x ∧ nice x b ∧ b ≠ x.
Proof.
  destruct Hb as (Hb0 & Hb1 & Hb8 & Hbn & Hbx). intros Hx. destruct (point_range _ _ _ H Hx) as [? ?].
  assert (apart b x) by (destruct Hx as [->|(d & Hd & Hx)]; [done|by apply (Hbx d)]).
  unfold nice, apart in *. intuition lia.
Qed.

Lemma prepend_touches : touches (λ x, link_word s L x ∨ x = b + 16 ∨ x = b + 24) s (prepend b head (control s) s).
Proof.
  destruct Hb as (Hb0 & Hb1 & _). destruct (point_range _ _ _ H head_is_point). unfold prepend.
  apply touches_trans with (poke (b + 24) (control s) (poke (b + 16) head s));
    [apply touches_trans with (poke (b + 16) head s)|]; apply touches_poke; try lia; auto.
  left. exists head. split; [apply head_is_point|auto].
Qed.

(** The listed blocks keep their links, but for the back link of the old head. *)
Lemma prepend_keeps d x : in_index d → x ∈ L d →
  word (prepend b head (control s) s) (x + 16) = word s (x + 16) ∧
  (x ≠ head → word (prepend b head (control s) s) (x + 24) = word s (x + 24)).
Proof.
  intros Hd Hx. assert (Hpx : point s L x) by (right; by exists d). destruct (insertable_nice x Hpx) as (Hnx & _ & Hne).
  pose proof (point_nice _ _ _ _ H head_is_point Hpx). unfold prepend. split.
  - by rewrite poke24_16, poke24_16, poke16_16.
  - intros ?. by rewrite poke24_24, poke24_24, poke16_24.
Qed.

Lemma prepend_seg d : in_index d → seg (prepend b head (control s) s) (control s) (upd_list c (b :: L c) L d) (control s).
Proof.
  intros Hd. destruct Hb as (Hb0 & Hb1 & _). destruct (insertable_nice _ head_is_point) as (_ & Hcb & Hne).
  assert (Hnb : nice b b) by (unfold nice; tauto). pose proof (fl_seg _ _ H c Hc) as Hs. pose proof (fl_nodup _ _ H c Hc) as Hnd.
  unfold upd_list. case_decide as Edc.
  - split; [|split].
    + unfold prepend. rewrite poke24_24; [apply word_poke|done|congruence].
    + unfold prepend. by rewrite poke24_16, poke24_16, word_poke.
    + pose proof prepend_keeps as Hkeep. destruct (L c) as [|y l] eqn:EL; [done|]. apply NoDup_cons in Hnd as [Hy Hndl].
      apply (seg_start s _ (control s) b y l); [..|done].
      { intros x Hx. apply (Hkeep c); [done|]. by rewrite EL. }
      { intros x Hx. apply (Hkeep c); [done|rewrite EL; by right|]. simpl. by intros ->. }
      unfold prepend. apply word_poke.
  - apply (seg_frame s); [|by apply (fl_seg _ _ H)]. intros x Hx. destruct (prepend_keeps d x Hd Hx) as [? Hk]. split; [done|].
    apply Hk. intros Hxh. destruct head_point as [Hcn|Hcc]; [apply (node_not_null s L d x H Hd Hx); congruence|].
    apply Edc. apply (fl_single _ _ H d c x); [done|done|done|congruence].
Qed.
End prepend.

Lemma insert_spec s L c b :
  free_lists s L → in_index c → insertable s L b →
  ∃ s', insert_free_block b c.1 c.2 s = Done tt s' ∧ free_lists s' (upd_list c (b :: L c) L) ∧
    writes (λ x, link_word s L x ∨ x = b + 16 ∨ x = b + 24) s s'.
Proof.
  intros H Hc Hins. pose proof Hins as (Hb0 & Hb1 & Hb8 & Hbn & Hbx). pose proof (fl_head _ _ H c Hc) as Hh.
  destruct (point_range _ _ _ H (head_is_point s L c Hc)) as [Hc0 Hc1].
  pose proof (touches_writes _ _ _ (prepend_touches s L c b H Hc Hins)) as (H1 & H2 & H3).
  pose proof (λ d, prepend_seg s L c b H Hc Hins d) as Hseg. set (cur := List.hd (control s) (L c)) in *.
  unfold insert_free_block, list_head_of. destruct c as [i j]. cbn [fst snd] in *.
  rewrite (bind_done _ _ s cur s) by (by apply kread_done).
  unfold tlsf_assert. rewrite !(proj2 (Z.eqb_neq _ 0)) by lia. cbn [negb]. rewrite !(bind_done (mret tt) _ s tt s) by done.
  rewrite (bind_done _ _ s tt (poke (b + 16) cur s)) by apply store_run.
  rewrite (bind_done _ _ _ (control s) (poke (b + 16) cur s)) by done.
  rewrite (bind_done _ _ _ tt (poke (b + 24) (control s) (poke (b + 16) cur s))) by apply store_run.
  rewrite (bind_done _ _ _ tt (prepend b cur (control s) s)) by apply store_run.
  set (s1 := prepend b cur (control s) s) in *.
  unfold block_to_ptr. change block_start_offset with 16. rewrite wrap64_small by lia.
  rewrite (bind_done _ _ _ _ _ (align_ptr_run (b + 16) s1 ltac:(lia) ltac:(lia) ltac:(mlia))). rewrite Z.eqb_refl.
  rewrite (bind_done (mret tt) _ s1 tt s1) by done.
  destruct (link_head_spec s L (i, j) b s1 H Hc) as (s' & E & Hrel & Hwords & Hpend); [done..|]. cbn [fst snd] in E.
  exists s'. split; [exact E|]. pose proof (rl_control _ _ _ _ Hrel) as Hctl.
  assert (Hsame : ∀ x, word s' x = word s1 x) by (intros x; unfold word; by rewrite Hwords).
  split.
  - apply (free_lists_relist s s' L (i, j) (b :: L (i, j)) H Hc).
    + destruct Hrel. split; done.
    + intros d Hd. apply (seg_frame s1); [intros; by rewrite !Hsame|by apply Hseg].
    + apply NoDup_cons. split; [|by apply (fl_nodup _ _ H)]. intros Hx. pose proof (Hbx (i, j) b Hc Hx). unfold apart in *. lia.
    + intros x [->|Hx]%elem_of_cons; [by right|by left].
    + intros x y [->|Hx]%elem_of_cons [->|Hy]%elem_of_cons Hne; [done|..].
      * by apply (Hbx (i, j)).
      * pose proof (Hbx (i, j) x Hc Hx). unfold apart in *. lia.
      * by apply (fl_apart _ _ H (i, j) (i, j)).
  - split; [by rewrite Hctl|]. split; [by rewrite Hpend|]. intros x Hx Hn. rewrite Hsame. by apply H3.
Qed.
