(* ===== verification/TlsfBlocks.v ===== *)
(** * The blocks of TLSF in memory

    The headers as a finite map from addresses to size and status bits:
    [layout] is what holds of the map alone (the blocks of a pool follow each
    other up to a sentinel of size 0, no two overlap), [marked] says that memory
    holds these headers.  The operations on single headers, splitting and merging
    are computed on the map. *)

From S2P Require Export TlsfLists.

(** ** Operations on one header *)

Definition size_ok (n : Z) : Prop := n mod 8 = 0 ∧ 0 ≤ n < U64 - 8.

Section header.
Variables (s : heap) (b n : Z) (f p : bool).
Hypothesis (Hw : word s (b + 8) = enc n f p) (Hn : size_ok n).

Local Lemma n4 : n mod 4 = 0.
Proof. destruct Hn. mlia. Qed.
Local Lemma nr : 0 ≤ n < U64 - 4.
Proof. destruct Hn. lia. Qed.
Local Hint Resolve n4 nr : core.

Local Lemma field_run {A} (k : Z → K heap A) : (size_field b ≫= k) s = k (enc n f p) s.
Proof. unfold size_field. by rewrite (bind_done _ _ s (enc n f p) s) by (rewrite load_run; by rewrite Hw). Qed.

Lemma block_size_run : block_size b s = Done n s.
Proof. unfold block_size. rewrite field_run. by rewrite size_of_enc. Qed.
Lemma block_is_free_run : block_is_free b s = Done f s.
Proof. unfold block_is_free. rewrite field_run. by rewrite enc_free. Qed.
Lemma block_is_prev_free_run : block_is_prev_free b s = Done p s.
Proof. unfold block_is_prev_free. rewrite field_run. by rewrite enc_prev_free. Qed.
Lemma block_is_last_run : block_is_last b s = Done (n =? 0) s.
Proof. unfold block_is_last. by rewrite (bind_done _ _ s n s) by apply block_size_run. Qed.
Lemma block_set_free_run : block_set_free b s = Done tt (poke (b + 8) (enc n true p) s).
Proof. unfold block_set_free. rewrite field_run. by rewrite enc_set_free. Qed.
Lemma block_set_used_run : block_set_used b s = Done tt (poke (b + 8) (enc n false p) s).
Proof. unfold block_set_used. rewrite field_run. by rewrite enc_set_used. Qed.
Lemma block_set_prev_free_run : block_set_prev_free b s = Done tt (poke (b + 8) (enc n f true) s).
Proof. unfold block_set_prev_free. rewrite field_run. by rewrite enc_set_prev_free. Qed.
Lemma block_set_prev_used_run : block_set_prev_used b s = Done tt (poke (b + 8) (enc n f false) s).
Proof. unfold block_set_prev_used. rewrite field_run. by rewrite enc_set_prev_used. Qed.
Lemma block_set_size_run m : size_ok m → block_set_size b m s = Done tt (poke (b + 8) (enc m f p) s).
Proof.
  intros [Hm1 Hm2]. unfold block_set_size. rewrite field_run. rewrite enc_status by done. rewrite lor_enc; [done|mlia|lia].
Qed.

Hypothesis (Hb : 0 < b ∧ b + 16 + n < U64 ∧ n ≠ 0).

Lemma block_next_run : block_next b s = Done (b + 8 + n) s.
Proof.
  unfold block_next. rewrite (bind_done _ _ s n s) by apply block_size_run. cbv zeta.
  rewrite (bind_done _ _ s false s) by (rewrite block_is_last_run; by rewrite (proj2 (Z.eqb_neq n 0)) by tauto).
  cbn [negb tlsf_assert]. rewrite (bind_done (mret tt) _ s tt s) by done. destruct Hn as [_ ?], Hb as (? & ? & ?).
  unfold offset_to_block, block_to_ptr. change block_start_offset with 16. change block_header_overhead with 8.
  rewrite (wrap64_small (b + 16)) by lia. rewrite wrap64_small by lia. by replace (b + 16 + (n - 8)) with (b + 8 + n) by lia.
Qed.
Lemma block_link_next_run : block_link_next b s = Done (b + 8 + n) (poke (b + 8 + n) b s).
Proof. unfold block_link_next. by rewrite (bind_done _ _ s (b + 8 + n) s) by apply block_next_run. Qed.
End header.

Lemma assert_run {A} (b : bool) (k : unit → K heap A) s : b = true → (tlsf_assert b ≫= k) s = k tt s.
Proof. by intros ->. Qed.

(** A header whose old content is unknown. *)
Lemma block_set_size_any s b m : size_ok m → ∃ f p, block_set_size b m s = Done tt (poke (b + 8) (enc m f p) s).
Proof.
  intros [Hm1 Hm2]. destruct (status_enc (word s (b + 8))) as (f & p & E). exists f, p. unfold block_set_size, size_field.
  rewrite (bind_done _ _ s (word s (b + 8)) s) by done. rewrite E, lor_enc; [done|mlia|lia].
Qed.

(** ** Layout *)

Record hdr := Hdr { h_size : Z; h_free : bool; h_prev_free : bool }.
#[export] Instance hdr_eq_dec : EqDecision hdr.
Proof. solve_decision. Defined.

(** The bytes of the block [b] other than its [prev_phys_block], which belongs to
    the block before: its size word and its [n] bytes of data. *)
Definition span (b n x : Z) : Prop := b + 8 ≤ x < b + 16 + n.
Definition no_overlap (b n c m : Z) : Prop := b + 8 + n ≤ c ∨ c + 8 + m ≤ b.

(** A pool from [a] to its sentinel [e] around the block. *)
Definition in_pool (B : gmap Z hdr) (b n : Z) : Prop :=
  ∃ a e he, a ≤ b ∧ b + 8 + n ≤ e ∧ e - a - 8 < block_size_max ∧ B !! e = Some he ∧ h_size he = 0.

Record layout (c : Z) (B : gmap Z hdr) : Prop := Layout {
  ly_range : ∀ b h, B !! b = Some h → 0 < b ∧ b mod 8 = 0 ∧ b + 16 + h_size h < U64;
  ly_size : ∀ b h, B !! b = Some h → h_size h = 0 ∧ h_free h = false ∨
    24 ≤ h_size h ∧ h_size h mod 8 = 0 ∧ in_pool B b (h_size h);
  ly_next : ∀ b h, B !! b = Some h → h_size h ≠ 0 → ∃ h', B !! (b + 8 + h_size h) = Some h' ∧ h_prev_free h' = h_free h;
  ly_prev : ∀ b h, B !! b = Some h → h_prev_free h = true →
    ∃ p hp, B !! p = Some hp ∧ h_free hp = true ∧ p + 8 + h_size hp = b;
  ly_disjoint : ∀ b b' h h', B !! b = Some h → B !! b' = Some h' → b ≠ b' → no_overlap b (h_size h) b' (h_size h');
  ly_control : ∀ b h, B !! b = Some h → c + 32 ≤ b ∨ b + 16 + h_size h ≤ c;
}.

(** What memory says of one header, and of all. *)
Definition marked1 (s : heap) (b : Z) (h : hdr) : Prop :=
  word s (b + 8) = enc (h_size h) (h_free h) (h_prev_free h) ∧ (h_free h = true → word s (b + 8 + h_size h) = b).
Definition marked (s : heap) (B : gmap Z hdr) : Prop := ∀ b h, B !! b = Some h → marked1 s b h.

Section layout.
Context {c : Z} {B : gmap Z hdr}.
Hypothesis H : layout c B.

Lemma layout_size b h : B !! b = Some h → size_ok (h_size h).
Proof.
  intros E. destruct (ly_range _ _ H b h E) as (? & ? & ?). unfold size_ok, U64 in *.
  destruct (ly_size _ _ H b h E) as [[-> _]|(? & ? & _)]; [done|]. split; [done|lia].
Qed.

(** A block inside a pool is smaller than the largest class. *)
Lemma layout_max b h : B !! b = Some h → 0 ≤ h_size h < block_size_max.
Proof.
  intros E. pose proof (layout_size b h E) as [_ ?]. change block_size_max with 0x100000000 in *.
  destruct (ly_size _ _ H b h E) as [[-> _]|(_ & _ & a & e & he & ? & ? & Hlt & _)]; [done|].
  change block_size_max with 0x100000000 in Hlt. lia.
Qed.

Lemma layout_large b h : B !! b = Some h → h_free h = true ∨ h_size h ≠ 0 → 24 ≤ h_size h ∧ in_pool B b (h_size h).
Proof. intros E Hf. destruct (ly_size _ _ H b h E) as [[? ?]|(? & ? & ?)]; [|done]. destruct Hf; congruence. Qed.

Lemma span_apart b b' h h' x y : B !! b = Some h → B !! b' = Some h' → b ≠ b' →
  span b (h_size h) x → span b' (h_size h') y → x ≠ y.
Proof. intros E E' Hne Hx Hy. pose proof (ly_disjoint _ _ H _ _ _ _ E E' Hne) as [?|?]; unfold span in *; lia. Qed.

(** Blocks that can be listed have room for their links. *)
Lemma layout_apart b b' h h' : B !! b = Some h → B !! b' = Some h' → b ≠ b' → 24 ≤ h_size h → 24 ≤ h_size h' → apart b b'.
Proof. intros E E' Hne ? ?. pose proof (ly_disjoint _ _ H _ _ _ _ E E' Hne) as [?|?]; unfold apart; lia. Qed.
Lemma layout_apart_null b h : B !! b = Some h → 24 ≤ h_size h → apart b c.
Proof. intros E ?. pose proof (ly_control _ _ H _ _ E) as [?|?]; unfold apart; lia. Qed.

(** The next block of a pool block lies in the same pool. *)
Lemma next_in_pool b h h' : B !! b = Some h → h_size h ≠ 0 → B !! (b + 8 + h_size h) = Some h' → h_size h' ≠ 0 →
  in_pool B b (h_size h + 8 + h_size h').
Proof.
  intros E Hn E' Hn'. destruct (layout_large b h E) as (Hl & a & e & he & ? & ? & ? & Ee & Hz); [by right|].
  exists a, e, he. split; [done|]. split; [|done].
  destruct (layout_large _ _ E') as (Hl' & _); [by right|].
  destruct (decide (e = b + 8 + h_size h)) as [->|Hne]; [congruence|].
  pose proof (ly_disjoint _ _ H _ _ _ _ Ee E' Hne) as [?|?]; lia.
Qed.
End layout.

(** Memory that changed outside of a block still holds its header. *)
Lemma marked1_frame s s' W b h :
  writes W s s' → 0 < b → 0 ≤ h_size h → b + 16 + h_size h < U64 → ¬ W (b + 8) → (h_free h = true → ¬ W (b + 8 + h_size h)) →
  marked1 s b h → marked1 s' b h.
Proof.
  intros (_ & _ & Hw) ? ? ? H1 H2 [M1 M2]. split; [rewrite Hw by (lia || done); done|].
  intros Hf. rewrite Hw by (lia || auto). auto.
Qed.
Lemma marked_frame c s s' W B :
  layout c B → writes W s s' → (∀ b h, B !! b = Some h → ¬ W (b + 8) ∧ (h_free h = true → ¬ W (b + 8 + h_size h))) →
  marked s B → marked s' B.
Proof.
  intros H Hw HW HM b h E. destruct (HW b h E) as [H1 H2]. destruct (ly_range _ _ H b h E) as (? & ? & ?).
  pose proof (layout_size H b h E) as [? ?]. apply (marked1_frame s s' W); auto; lia.
Qed.

(** ** Changing the layout *)

Definition with_free (f : bool) (h : hdr) : hdr := Hdr (h_size h) f (h_prev_free h).
Definition with_prev (f : bool) (h : hdr) : hdr := Hdr (h_size h) (h_free h) f.

Lemma in_pool_mono B B' b n : (∀ e he, B !! e = Some he → h_size he = 0 → ∃ he', B' !! e = Some he' ∧ h_size he' = 0) →
  in_pool B b n → in_pool B' b n.
Proof. intros Hs (a & e & he & ? & ? & ? & Ee & Hz). destruct (Hs e he Ee Hz) as (he' & ? & ?). by exists a, e, he'. Qed.

(** The block [b] and the note its successor keeps of it. *)
Definition flip (f : bool) (b : Z) (h : hdr) (nx : Z) (h' : hdr) (B : gmap Z hdr) : gmap Z hdr :=
  <[b := with_free f h]> (<[nx := with_prev f h']> B).

(** Lookups after [flip]: each entry comes from one of the same size. *)
Lemma flip_lookup f b h nx h' B x : nx ≠ b → B !! b = Some h → B !! nx = Some h' →
  flip f b h nx h' B !! x =
    if decide (x = b) then Some (with_free f h) else if decide (x = nx) then Some (with_prev f h') else B !! x.
Proof.
  intros Hne E E'. unfold flip. case_decide; [subst; by rewrite lookup_insert_eq|]. rewrite lookup_insert_ne by done.
  case_decide; [subst; by rewrite lookup_insert_eq|]. by rewrite lookup_insert_ne.
Qed.
Lemma flip_inv f b h nx h' B x hx : nx ≠ b → B !! b = Some h → B !! nx = Some h' → flip f b h nx h' B !! x = Some hx →
  ∃ h0, B !! x = Some h0 ∧ h_size h0 = h_size hx ∧
    (x = b ∧ h0 = h ∧ hx = with_free f h ∨ x = nx ∧ h0 = h' ∧ hx = with_prev f h' ∨ x ≠ b ∧ x ≠ nx ∧ hx = h0).
Proof.
  intros Hne E E'. rewrite flip_lookup by done. repeat case_decide; subst; intros Ex.
  - injection Ex as <-. exists h. auto 10.
  - injection Ex as <-. exists h'. auto 10.
  - exists hx. auto 10.
Qed.
Lemma flip_sentinel f b h nx h' B b' n : nx ≠ b → B !! b = Some h → B !! nx = Some h' →
  in_pool B b' n → in_pool (flip f b h nx h' B) b' n.
Proof.
  intros Hne E E'. apply in_pool_mono. intros e he Ee Hz. rewrite flip_lookup by done.
  repeat case_decide; subst; eexists; (split; [done|]); simpl; congruence.
Qed.

Lemma layout_flip c B b h h' f :
  layout c B → B !! b = Some h → h_size h ≠ 0 → B !! (b + 8 + h_size h) = Some h' →
  layout c (flip f b h (b + 8 + h_size h) h' B).
Proof.
  intros H E Hn E'. remember (b + 8 + h_size h) as nx eqn:Enx. destruct (layout_large H b h E) as [Hl Hp]; [by right|].
  assert (Hne : nx ≠ b) by lia. pose proof (layout_size H nx h' E') as [_ Hs'].
  assert (Hlk := λ x hx, flip_inv f b h nx h' B x hx Hne E E'). assert (Hval := λ x, flip_lookup f b h nx h' B x Hne E E').
  split.
  - intros x hx Ex. destruct (Hlk x hx Ex) as (h0 & E0 & <- & _). by apply (ly_range _ _ H).
  - intros x hx Ex. destruct (Hlk x hx Ex) as (h0 & E0 & Es & Hc). rewrite <- Es.
    destruct (ly_size _ _ H x h0 E0) as [[Hz Hf]|(? & ? & ?)]; [left|right; split; [done|]; split; [done|by apply flip_sentinel]].
    split; [done|]. destruct Hc as [(-> & -> & ->)|[(-> & -> & ->)|(_ & _ & ->)]]; [congruence|done|done].
  - intros x hx Ex Hx. destruct (Hlk x hx Ex) as (h0 & E0 & Es & Hc).
    destruct Hc as [(-> & -> & ->)|[(-> & -> & ->)|(Hxb & Hxn & ->)]].
    + exists (with_prev f h'). simpl. by rewrite <- Enx, Hval, decide_False, decide_True.
    + simpl in *. destruct (ly_next _ _ H nx h' E' Hx) as (h2 & E2 & Hpf). exists h2. split; [|done].
      by rewrite Hval, !decide_False by lia.
    + destruct (ly_next _ _ H x h0 E0 Hx) as (h2 & E2 & Hpf). pose proof (layout_size H x h0 E0) as [_ Hs0].
      rewrite Hval. case_decide as D; [exists (with_free f h); split; [done|]; simpl; congruence|].
      rewrite decide_False; [by exists h2|]. intros Dx. pose proof (ly_disjoint _ _ H x b h0 h E0 E Hxb) as [?|?]; lia.
  - intros x hx Ex Hpf. destruct (Hlk x hx Ex) as (h0 & E0 & Es & Hc).
    destruct Hc as [(-> & -> & ->)|[(-> & -> & ->)|(Hxb & Hxn & ->)]]; simpl in Hpf.
    + destruct (ly_prev _ _ H b h E Hpf) as (p & hp & Ep & Hfp & Hpb). pose proof (layout_size H p hp Ep) as [_ ?].
      exists p, hp. by rewrite Hval, !decide_False by lia.
    + subst f. exists b, (with_free true h). by rewrite Hval, decide_True.
    + destruct (ly_prev _ _ H x h0 E0 Hpf) as (p & hp & Ep & Hfp & Hpb). rewrite E in E0 || idtac.
      assert (p ≠ b) by (intros ->; apply Hxn; congruence). destruct (decide (p = nx)) as [->|].
      * exists nx, (with_prev f h'). rewrite Hval, decide_False, decide_True by done. rewrite E' in Ep. by injection Ep as <-.
      * exists p, hp. by rewrite Hval, !decide_False by done.
  - intros x y hx hy Ex Ey Hxy. destruct (Hlk x hx Ex) as (h0 & E0 & <- & _), (Hlk y hy Ey) as (h1 & E1 & <- & _).
    by apply (ly_disjoint _ _ H).
  - intros x hx Ex. destruct (Hlk x hx Ex) as (h0 & E0 & <- & _). by apply (ly_control _ _ H).
Qed.

(** The block [b] cut after [k] bytes; the rest is free. *)
Definition cut (k : Z) (b : Z) (h : hdr) (h' : hdr) (B : gmap Z hdr) : gmap Z hdr :=
  <[b := Hdr k (h_free h) (h_prev_free h)]> (<[b + 8 + k := Hdr (h_size h - k - 8) true (h_free h)]>
    (<[b + 8 + h_size h := with_prev true h']> B)).

Section cut.
Context {c : Z} {B : gmap Z hdr} {b k : Z} {h h' : hdr}.
Hypothesis (H : layout c B) (E : B !! b = Some h) (E' : B !! (b + 8 + h_size h) = Some h').
Hypothesis (Hk : 24 ≤ k ∧ k mod 8 = 0 ∧ k + 32 ≤ h_size h).

Lemma cut_fresh x : b + 8 ≤ x < b + 8 + h_size h → B !! x = None.
Proof.
  intros Hx. destruct (B !! x) as [hx|] eqn:Ex; [exfalso|done].
  pose proof (layout_size H x hx Ex) as [_ ?]. pose proof (ly_disjoint _ _ H x b hx h Ex E ltac:(lia)) as [?|?]; lia.
Qed.

Lemma cut_lookup x : cut k b h h' B !! x =
  if decide (x = b) then Some (Hdr k (h_free h) (h_prev_free h))
  else if decide (x = b + 8 + k) then Some (Hdr (h_size h - k - 8) true (h_free h))
  else if decide (x = b + 8 + h_size h) then Some (with_prev true h') else B !! x.
Proof.
  unfold cut. destruct (decide (x = b)) as [->|]; [by rewrite lookup_insert_eq|]. rewrite lookup_insert_ne by done.
  destruct (decide (x = b + 8 + k)) as [->|]; [by rewrite lookup_insert_eq|]. rewrite lookup_insert_ne by done.
  destruct (decide (x = b + 8 + h_size h)) as [->|]; [by rewrite lookup_insert_eq|]. by rewrite lookup_insert_ne.
Qed.

Lemma cut_facts : 24 ≤ h_size h ∧ h_size h mod 8 = 0 ∧ in_pool B b (h_size h) ∧ 0 ≤ h_size h' ∧
  0 < b ∧ b mod 8 = 0 ∧ b + 16 + h_size h < U64 ∧ B !! (b + 8 + k) = None.
Proof.
  destruct (layout_large H b h E) as [Hl Hp]; [right; lia|].
  pose proof (layout_size H _ h' E') as [_ Hs']. destruct (ly_range _ _ H b h E) as (Hb0 & Hb8 & Hb1).
  split_and!; try done; [by apply (layout_size H b h E)|lia|]. apply cut_fresh. lia.
Qed.

Lemma cut_cases x hx : cut k b h h' B !! x = Some hx →
  (x = b ∧ hx = Hdr k (h_free h) (h_prev_free h)) ∨ (x = b + 8 + k ∧ hx = Hdr (h_size h - k - 8) true (h_free h)) ∨
  (x = b + 8 + h_size h ∧ hx = with_prev true h') ∨ (x ≠ b ∧ x ≠ b + 8 + k ∧ x ≠ b + 8 + h_size h ∧ B !! x = Some hx).
Proof. rewrite cut_lookup. repeat case_decide; [intros [= <-]..|]; auto 12. Qed.

Lemma cut_in_pool x n : in_pool B x n → in_pool (cut k b h h' B) x n.
Proof.
  destruct cut_facts as (? & _ & _ & _ & _ & _ & _ & Hfresh).
  apply in_pool_mono. intros e he Ee Hz. rewrite cut_lookup.
  destruct (decide (e = b)) as [->|]; [rewrite E in Ee; injection Ee as <-; lia|].
  destruct (decide (e = b + 8 + k)) as [->|]; [congruence|].
  destruct (decide (e = b + 8 + h_size h)) as [->|]; [|by exists he].
  exists (with_prev true h'). split; [done|]. simpl. congruence.
Qed.

Lemma cut_next x hx : cut k b h h' B !! x = Some hx → h_size hx ≠ 0 →
  ∃ h2, cut k b h h' B !! (x + 8 + h_size hx) = Some h2 ∧ h_prev_free h2 = h_free hx.
Proof.
  destruct cut_facts as (Hl & _ & _ & Hs' & _ & _ & _ & Hfresh). pose proof cut_lookup as Hval.
  intros Ex Hx. destruct (cut_cases x hx Ex) as [[-> ->]|[[-> ->]|[[-> ->]|(N1 & N2 & N3 & E0)]]]; simpl in *.
  - eexists. rewrite Hval, decide_False, decide_True by lia. done.
  - exists (with_prev true h'). split; [|done]. rewrite Hval, !decide_False, decide_True by lia. done.
  - destruct (ly_next _ _ H _ h' E' Hx) as (h2 & E2 & Hpf). exists h2. split; [|done]. rewrite Hval, !decide_False by lia. done.
  - destruct (ly_next _ _ H x hx E0 Hx) as (h2 & E2 & Hpf). pose proof (layout_size H x hx E0) as [_ Hs0].
    pose proof (ly_disjoint _ _ H x b hx h E0 E N1) as Hov. unfold no_overlap in Hov. rewrite Hval.
    destruct (decide (x + 8 + h_size hx = b)) as [Hxb|].
    { eexists. split; [done|]. simpl. rewrite Hxb in E2. rewrite E in E2. injection E2 as <-. done. }
    rewrite !decide_False by lia. by exists h2.
Qed.

Lemma cut_prev x hx : cut k b h h' B !! x = Some hx → h_prev_free hx = true →
  ∃ p hp, cut k b h h' B !! p = Some hp ∧ h_free hp = true ∧ p + 8 + h_size hp = x.
Proof.
  destruct cut_facts as (Hl & _ & _ & Hs' & _ & _ & _ & Hfresh). pose proof cut_lookup as Hval.
  intros Ex Hpf. destruct (cut_cases x hx Ex) as [[-> ->]|[[-> ->]|[[-> ->]|(N1 & N2 & N3 & E0)]]]; simpl in *.
  - destruct (ly_prev _ _ H b h E Hpf) as (p & hp & Ep & Hfp & Hpb). pose proof (layout_size H p hp Ep) as [_ ?].
    exists p, hp. rewrite Hval, !decide_False by lia. done.
  - exists b, (Hdr k (h_free h) (h_prev_free h)). rewrite Hval, decide_True by done. done.
  - eexists (b + 8 + k), _. rewrite Hval, decide_False, decide_True by lia. split; [done|]. simpl. split; [done|lia].
  - destruct (ly_prev _ _ H x hx E0 Hpf) as (p & hp & Ep & Hfp & Hpb). pose proof (layout_size H p hp Ep) as [_ ?].
    assert (p ≠ b) by (intros ->; apply N3; congruence). assert (p ≠ b + 8 + k) by congruence.
    destruct (decide (p = b + 8 + h_size h)) as [->|].
    + rewrite E' in Ep. injection Ep as <-. exists (b + 8 + h_size h), (with_prev true h').
      rewrite Hval, !decide_False, decide_True by lia. done.
    + exists p, hp. by rewrite Hval, !decide_False by lia.
Qed.

(** Each block of the cut layout lies in a block of the old one. *)
Lemma cut_old x hx : cut k b h h' B !! x = Some hx → ∃ y hy, B !! y = Some hy ∧ y ≤ x ∧ x + h_size hx ≤ y + h_size hy ∧
  (y ≠ b → x = y ∧ h_size hx = h_size hy) ∧ (y = b → x = b ∧ h_size hx = k ∨ x = b + 8 + k ∧ h_size hx = h_size h - k - 8).
Proof.
  destruct cut_facts as (Hl & _). intros Ex.
  destruct (cut_cases x hx Ex) as [[-> ->]|[[-> ->]|[[-> ->]|(N1 & N2 & N3 & E0)]]]; simpl.
  - exists b, h. split_and!; [done|lia|lia|done|by left].
  - exists b, h. split_and!; [done|lia|lia|done|by right].
  - exists (b + 8 + h_size h), h'. split_and!; [done|lia|lia|done|lia].
  - exists x, hx. by split_and!.
Qed.

Lemma cut_disjoint x y hx hy : cut k b h h' B !! x = Some hx → cut k b h h' B !! y = Some hy → x ≠ y →
  no_overlap x (h_size hx) y (h_size hy).
Proof.
  intros Ex Ey Hxy.
  destruct (cut_old x hx Ex) as (x0 & hx0 & Ex0 & Hx1 & Hx2 & Hx3 & Hx4), (cut_old y hy Ey) as (y0 & hy0 & Ey0 & Hy1 & Hy2 & Hy3 & Hy4).
  destruct (decide (x0 = y0)) as [->|Hne].
  - destruct (decide (y0 = b)) as [->|Hyb].
    + destruct (Hx4 eq_refl), (Hy4 eq_refl); unfold no_overlap; lia.
    + exfalso. destruct (Hx3 Hyb), (Hy3 Hyb). congruence.
  - pose proof (ly_disjoint _ _ H x0 y0 hx0 hy0 Ex0 Ey0 Hne) as [?|?]; unfold no_overlap; lia.
Qed.

Lemma layout_cut : layout c (cut k b h h' B).
Proof.
  destruct cut_facts as (Hl & Hn8 & Hp & Hs' & Hb0 & Hb8 & Hb1 & _).
  assert (Hin : ∀ m o, 0 ≤ o → o + m ≤ h_size h → in_pool (cut k b h h' B) (b + o) m).
  { intros m o Ho Hm. apply cut_in_pool. destruct Hp as (a & e & he & ? & ? & ? & ? & ?).
    exists a, e, he. repeat split; (lia || done). }
  split; [| |apply cut_next|apply cut_prev|intros x y hx hy; apply cut_disjoint|];
    intros x hx Ex; destruct (cut_cases x hx Ex) as [[-> ->]|[[-> ->]|[[-> ->]|(_ & _ & _ & E0)]]]; simpl.
  - lia.
  - split; [lia|]. split; [mlia|lia].
  - by apply (ly_range _ _ H _ h').
  - by apply (ly_range _ _ H).
  - right. split; [lia|]. split; [tauto|]. replace b with (b + 0) at 2 by lia. apply Hin; lia.
  - right. split; [lia|]. split; [mlia|]. replace (b + 8 + k) with (b + (8 + k)) by lia. apply Hin; lia.
  - destruct (ly_size _ _ H _ h' E') as [?|(? & ? & ?)]; [by left|right]. auto using cut_in_pool.
  - destruct (ly_size _ _ H _ hx E0) as [?|(? & ? & ?)]; [by left|right]. auto using cut_in_pool.
  - pose proof (ly_control _ _ H b h E). lia.
  - pose proof (ly_control _ _ H b h E). lia.
  - by apply (ly_control _ _ H _ h').
  - by apply (ly_control _ _ H).
Qed.
End cut.

(** The free block [a] with the free block that follows it. *)
Definition join (a : Z) (h h' : hdr) (B : gmap Z hdr) : gmap Z hdr :=
  <[a := Hdr (h_size h + 8 + h_size h') true (h_prev_free h)]> (delete (a + 8 + h_size h) B).

Section join.
Context {c : Z} {B : gmap Z hdr} {a : Z} {h h' : hdr}.
Hypothesis (H : layout c B) (E : B !! a = Some h) (E' : B !! (a + 8 + h_size h) = Some h').
Hypothesis (Hf : h_free h = true) (Hf' : h_free h' = true).

Lemma join_lookup x : join a h h' B !! x =
  if decide (x = a) then Some (Hdr (h_size h + 8 + h_size h') true (h_prev_free h))
  else if decide (x = a + 8 + h_size h) then None else B !! x.
Proof.
  unfold join. destruct (decide (x = a)) as [->|]; [by rewrite lookup_insert_eq|]. rewrite lookup_insert_ne by done.
  destruct (decide (x = a + 8 + h_size h)) as [->|]; [by rewrite lookup_delete_eq|]. by rewrite lookup_delete_ne.
Qed.

Lemma join_facts : let b := a + 8 + h_size h in
  24 ≤ h_size h ∧ 24 ≤ h_size h' ∧ h_size h mod 8 = 0 ∧ h_size h' mod 8 = 0 ∧ 0 < a ∧ a mod 8 = 0 ∧
  b + 16 + h_size h' < U64 ∧ in_pool B a (h_size h + 8 + h_size h').
Proof.
  destruct (layout_large H a h E) as [Hl Hp]; [by left|]. destruct (layout_large H _ h' E') as [Hl' Hp']; [by left|].
  destruct (ly_range _ _ H a h E) as (Ha0 & Ha8 & _). destruct (ly_range _ _ H _ h' E') as (_ & _ & Hb1).
  split_and!; try done; [by apply (layout_size H a h E)|by apply (layout_size H _ h' E')|].
  exact (next_in_pool H a h h' E ltac:(lia) E' ltac:(lia)).
Qed.

Lemma join_cases x hx : join a h h' B !! x = Some hx →
  (x = a ∧ hx = Hdr (h_size h + 8 + h_size h') true (h_prev_free h)) ∨ (x ≠ a ∧ x ≠ a + 8 + h_size h ∧ B !! x = Some hx).
Proof. rewrite join_lookup. repeat case_decide; [intros [= <-]|done|]; auto. Qed.

Lemma join_in_pool x n : in_pool B x n → in_pool (join a h h' B) x n.
Proof.
  destruct join_facts as (? & ? & _). apply in_pool_mono. intros e he Ee Hz. rewrite join_lookup.
  destruct (decide (e = a)) as [->|]; [rewrite E in Ee; injection Ee as <-; lia|].
  destruct (decide (e = a + 8 + h_size h)) as [->|]; [rewrite E' in Ee; injection Ee as <-; lia|]. by exists he.
Qed.

Lemma join_next x hx : join a h h' B !! x = Some hx → h_size hx ≠ 0 →
  ∃ h2, join a h h' B !! (x + 8 + h_size hx) = Some h2 ∧ h_prev_free h2 = h_free hx.
Proof.
  destruct join_facts as (? & ? & _). intros Ex Hx.
  destruct (join_cases x hx Ex) as [[-> ->]|(N1 & N2 & E0)]; cbn [h_size h_free] in *.
  - destruct (ly_next _ _ H _ h' E' ltac:(lia)) as (h2 & E2 & Hpf). exists h2. split; [|congruence].
    rewrite join_lookup, !decide_False by lia.
    by replace (a + 8 + (h_size h + 8 + h_size h')) with (a + 8 + h_size h + 8 + h_size h') by lia.
  - destruct (ly_next _ _ H x hx E0 Hx) as (h2 & E2 & Hpf). pose proof (layout_size H x hx E0) as [_ Hs0].
    pose proof (ly_disjoint _ _ H x a hx h E0 E N1) as Hov. unfold no_overlap in Hov. rewrite join_lookup.
    destruct (decide (x + 8 + h_size hx = a)) as [Hxa|].
    { eexists. split; [done|]. simpl. rewrite Hxa, E in E2. by injection E2 as <-. }
    rewrite decide_False by lia. by exists h2.
Qed.

Lemma join_prev x hx : join a h h' B !! x = Some hx → h_prev_free hx = true →
  ∃ p hp, join a h h' B !! p = Some hp ∧ h_free hp = true ∧ p + 8 + h_size hp = x.
Proof.
  destruct join_facts as (? & ? & _). intros Ex Hpf.
  destruct (join_cases x hx Ex) as [[-> ->]|(N1 & N2 & E0)]; cbn [h_prev_free] in *.
  - destruct (ly_prev _ _ H a h E Hpf) as (p & hp & Ep & Hfp & Hpb). pose proof (layout_size H p hp Ep) as [_ ?].
    exists p, hp. rewrite join_lookup, !decide_False by lia. done.
  - destruct (ly_prev _ _ H x hx E0 Hpf) as (p & hp & Ep & Hfp & Hpb).
    destruct (decide (p = a)) as [->|]; [rewrite E in Ep; injection Ep as <-; lia|].
    destruct (decide (p = a + 8 + h_size h)) as [->|].
    + rewrite E' in Ep. injection Ep as <-. eexists a, _. rewrite join_lookup, decide_True by done.
      split; [done|]. simpl. split; [done|lia].
    + exists p, hp. by rewrite join_lookup, !decide_False by done.
Qed.

Lemma join_apart z hz : B !! z = Some hz → z ≠ a → z ≠ a + 8 + h_size h →
  no_overlap a (h_size h + 8 + h_size h') z (h_size hz) ∧ no_overlap z (h_size hz) a (h_size h + 8 + h_size h').
Proof.
  destruct join_facts as (? & ? & _). intros Ez N1 N2.
  pose proof (ly_disjoint _ _ H _ _ _ _ E Ez (not_eq_sym N1)). pose proof (ly_disjoint _ _ H _ _ _ _ E' Ez (not_eq_sym N2)).
  pose proof (layout_size H z hz Ez) as [_ ?]. unfold no_overlap in *. lia.
Qed.

Lemma layout_join : layout c (join a h h' B).
Proof.
  destruct join_facts as (Hl & Hl' & Hn8 & Hn8' & Ha0 & Ha8 & Hb1 & Hp). split.
  - intros x hx Ex. destruct (join_cases x hx Ex) as [[-> ->]|(_ & _ & E0)]; simpl; [lia|by apply (ly_range _ _ H)].
  - intros x hx Ex. destruct (join_cases x hx Ex) as [[-> ->]|(_ & _ & E0)]; simpl.
    + right. split; [lia|]. split; [mlia|]. by apply join_in_pool.
    + destruct (ly_size _ _ H _ hx E0) as [?|(? & ? & ?)]; [by left|right]. auto using join_in_pool.
  - apply join_next.
  - apply join_prev.
  - intros x y hx hy Ex Ey Hxy.
    destruct (join_cases x hx Ex) as [[-> ->]|(N1 & N2 & E0)], (join_cases y hy Ey) as [[-> ->]|(N3 & N4 & E1)]; simpl.
    + done.
    + by apply join_apart.
    + by apply join_apart.
    + by apply (ly_disjoint _ _ H).
  - intros x hx Ex. pose proof (ly_control _ _ H a h E). pose proof (ly_control _ _ H _ h' E').
    destruct (join_cases x hx Ex) as [[-> ->]|(_ & _ & E0)]; simpl; [lia|by apply (ly_control _ _ H)].
Qed.
End join.

(** ** Memory and layout together *)

Definition phys (s : heap) (B : gmap Z hdr) : Prop := layout (control s) B ∧ marked s B.

(** Writes inside the blocks of [P] leave the others alone. *)
Lemma marked_outside c B s s' W (P : Z → Prop) x hx :
  layout c B → writes W s s' → (∀ a, W a → ∃ y hy, B !! y = Some hy ∧ P y ∧ span y (h_size hy) a) →
  B !! x = Some hx → ¬ P x → marked1 s x hx → marked1 s' x hx.
Proof.
  intros H Hw HW E HP. destruct (ly_range _ _ H x hx E) as (? & ? & ?). pose proof (layout_size H x hx E) as [? ?].
  assert (Hn : ∀ a, span x (h_size hx) a → ¬ W a).
  { intros a Ha Hwa. destruct (HW a Hwa) as (y & hy & Ey & Hy & Hs). assert (x ≠ y) by congruence.
    by apply (span_apart H x y hx hy a a E Ey). }
  apply (marked1_frame s s' W); try done; try lia; [apply Hn; unfold span; lia|]. intros _. apply Hn. unfold span. lia.
Qed.

Ltac pokes := repeat first [rewrite word_poke | rewrite word_poke_ne by lia].

Section phys.
Variables (s : heap) (B : gmap Z hdr) (b : Z) (h : hdr).
Hypothesis (H : phys s B) (E : B !! b = Some h).

Lemma phys_header : word s (b + 8) = enc (h_size h) (h_free h) (h_prev_free h) ∧ size_ok (h_size h).
Proof. destruct H as [Hl Hm]. split; [apply (Hm b h E)|by apply (layout_size Hl b)]. Qed.
Lemma size_run : block_size b s = Done (h_size h) s.
Proof. destruct phys_header. by eapply block_size_run. Qed.
Lemma is_free_run : block_is_free b s = Done (h_free h) s.
Proof. destruct phys_header. by eapply block_is_free_run. Qed.
Lemma is_prev_free_run : block_is_prev_free b s = Done (h_prev_free h) s.
Proof. destruct phys_header. by eapply block_is_prev_free_run. Qed.
Lemma is_last_run : block_is_last b s = Done (h_size h =? 0) s.
Proof. destruct phys_header. by eapply block_is_last_run. Qed.

Hypothesis (Hn : h_size h ≠ 0).
Lemma phys_room : 0 < b ∧ b + 16 + h_size h < U64 ∧ h_size h ≠ 0.
Proof. destruct H as [Hl _]. destruct (ly_range _ _ Hl b h E) as (? & ? & ?). auto. Qed.
Lemma next_run : block_next b s = Done (b + 8 + h_size h) s.
Proof. destruct phys_header. eapply block_next_run; [done..|apply phys_room]. Qed.
Lemma link_next_run : block_link_next b s = Done (b + 8 + h_size h) (poke (b + 8 + h_size h) b s).
Proof. destruct phys_header. eapply block_link_next_run; [done..|apply phys_room]. Qed.

(** [block_mark_as_free] and [block_mark_as_used]. *)
Variable h' : hdr.
Hypothesis (E' : B !! (b + 8 + h_size h) = Some h').

Lemma mark_free_run : ∃ s', block_mark_as_free b s = Done tt s' ∧ phys s' (flip true b h (b + 8 + h_size h) h' B) ∧
  touches (λ x, x = b + 8 ∨ x = b + 8 + h_size h ∨ x = b + 8 + h_size h + 8) s s'.
Proof.
  destruct H as [Hl Hm]. destruct phys_header as [Hw Hs]. destruct phys_room as (Hb0 & Hb1 & _).
  destruct (layout_large Hl b h E) as [Hlg _]; [by right|].
  assert (Hoth := λ s' W x hx, marked_outside _ B s s' W (λ y, y = b ∨ y = b + 8 + h_size h) x hx Hl).
  remember (b + 8 + h_size h) as nx eqn:Enx. destruct (ly_range _ _ Hl nx h' E') as (Hx0 & Hx8 & Hx1).
  destruct (Hm nx h' E') as [Hw' Hf']. pose proof (layout_size Hl nx h' E') as Hs'.
  exists (poke (b + 8) (enc (h_size h) true (h_prev_free h)) (poke (nx + 8) (enc (h_size h') (h_free h') true) (poke nx b s))).
  destruct Hs as [Hs1 Hs2], Hs' as [Hs1' Hs2']. split; [|split; [split|]].
  - unfold block_mark_as_free. rewrite (bind_done _ _ s nx (poke nx b s)) by (rewrite link_next_run; by rewrite <- Enx).
    rewrite (bind_done _ _ _ tt (poke (nx + 8) (enc (h_size h') (h_free h') true) (poke nx b s)))
      by (eapply block_set_prev_free_run; [by pokes|done]).
    eapply block_set_free_run; [by pokes|done].
  - rewrite Enx. apply layout_flip; [done..|]. by rewrite <- Enx.
  - intros x hx Ex. apply flip_inv in Ex as (h0 & E0 & _ & Hc); [|lia|done..].
    destruct Hc as [(-> & -> & ->)|[(-> & -> & ->)|(N1 & N2 & ->)]].
    + split; simpl; [by pokes|intros _]. rewrite <- Enx. by pokes.
    + split; simpl; [by pokes|]. intros Hf. destruct (layout_large Hl nx h' E') as [? _]; [by left|]. pokes. auto.
    + apply (Hoth _ (λ y, y = b + 8 ∨ y = nx ∨ y = nx + 8)); [|intros a Ha|done|tauto|auto].
      * apply touches_writes. repeat (eapply touches_trans; [|apply touches_poke; [lia|auto]]). apply touches_refl.
      * destruct Ha as [->|[->| ->]]; [exists b, h|exists b, h|exists nx, h']; unfold span; (split; [done|]); split; auto; lia.
  - repeat (eapply touches_trans; [|apply touches_poke; [lia|auto]]). apply touches_refl.
Qed.

Lemma mark_used_run : ∃ s', block_mark_as_used b s = Done tt s' ∧ phys s' (flip false b h (b + 8 + h_size h) h' B) ∧
  touches (λ x, x = b + 8 ∨ x = b + 8 + h_size h + 8) s s'.
Proof.
  destruct H as [Hl Hm]. destruct phys_header as [Hw Hs]. destruct phys_room as (Hb0 & Hb1 & _).
  destruct (layout_large Hl b h E) as [Hlg _]; [by right|].
  assert (Hoth := λ s' W x hx, marked_outside _ B s s' W (λ y, y = b ∨ y = b + 8 + h_size h) x hx Hl).
  remember (b + 8 + h_size h) as nx eqn:Enx. destruct (ly_range _ _ Hl nx h' E') as (Hx0 & Hx8 & Hx1).
  destruct (Hm nx h' E') as [Hw' Hf']. pose proof (layout_size Hl nx h' E') as Hs'.
  exists (poke (b + 8) (enc (h_size h) false (h_prev_free h)) (poke (nx + 8) (enc (h_size h') (h_free h') false) s)).
  destruct Hs as [Hs1 Hs2], Hs' as [Hs1' Hs2']. split; [|split; [split|]].
  - unfold block_mark_as_used. rewrite (bind_done _ _ s nx s) by (rewrite next_run; by rewrite <- Enx).
    rewrite (bind_done _ _ _ tt (poke (nx + 8) (enc (h_size h') (h_free h') false) s))
      by (eapply block_set_prev_used_run; done).
    eapply block_set_used_run; [by pokes|done].
  - rewrite Enx. apply layout_flip; [done..|]. by rewrite <- Enx.
  - intros x hx Ex. apply flip_inv in Ex as (h0 & E0 & _ & Hc); [|lia|done..].
    destruct Hc as [(-> & -> & ->)|[(-> & -> & ->)|(N1 & N2 & ->)]].
    + split; simpl; [by pokes|done].
    + split; simpl; [by pokes|]. intros Hf. destruct (layout_large Hl nx h' E') as [? _]; [by left|]. pokes. auto.
    + apply (Hoth _ (λ y, y = b + 8 ∨ y = nx + 8)); [|intros a Ha|done|tauto|auto].
      * apply touches_writes. repeat (eapply touches_trans; [|apply touches_poke; [lia|auto]]). apply touches_refl.
      * destruct Ha as [->| ->]; [exists b, h|exists nx, h']; unfold span; (split; [done|]); split; auto; lia.
  - repeat (eapply touches_trans; [|apply touches_poke; [lia|auto]]). apply touches_refl.
Qed.
End phys.

(** ** Splitting *)

Section split.
Context {s : heap} {B : gmap Z hdr} {b k : Z} {h h' : hdr}.
Hypothesis (H : phys s B) (E : B !! b = Some h) (E' : B !! (b + 8 + h_size h) = Some h').
Hypothesis (Hk : 24 ≤ k ∧ k mod 8 = 0 ∧ k + 32 ≤ h_size h).

Let r := b + 8 + k.
Let nx := b + 8 + h_size h.
Definition cut_words (x : Z) : Prop := x = b + 8 ∨ x = r + 8 ∨ x = nx ∨ x = nx + 8 ∨ x = r.

Lemma cut_phys s' :
  touches cut_words s s' → word s' (b + 8) = enc k (h_free h) (h_prev_free h) →
  word s' (r + 8) = enc (h_size h - k - 8) true (h_free h) → word s' nx = r → word s' (nx + 8) = enc (h_size h') (h_free h') true →
  (h_free h = true → word s' r = b) → phys s' (cut k b h h' B).
Proof.
  intros Ht W1 W2 W3 W4 W5. destruct H as [Hl Hm]. destruct (ly_range _ _ Hl b h E) as (? & ? & ?).
  destruct (ly_range _ _ Hl nx h' E') as (? & ? & ?). pose proof (layout_size Hl nx h' E') as [_ ?].
  pose proof Ht as (Hc & _ & _ & _ & _ & Hw). split; [rewrite Hc; by apply (layout_cut Hl E E' Hk)|].
  intros x hx. rewrite cut_lookup. repeat case_decide; try subst x.
  - intros [= <-]. split; simpl; [done|]. done.
  - intros [= <-]. split; simpl; [done|]. intros _. fold r. replace (r + 8 + (h_size h - k - 8)) with nx by (unfold r, nx; lia). done.
  - intros [= <-]. split; simpl; [done|]. intros Hf. destruct (layout_large Hl nx h' E') as [? _]; [by left|].
    fold nx. rewrite Hw; [by apply (Hm nx h' E')|lia|]. unfold cut_words, r, nx in *. lia.
  - intros Ex. apply (marked_outside _ B s s' cut_words (λ y, y = b ∨ y = nx) x hx Hl); auto; [by apply touches_writes| |tauto].
    intros a Ha. assert (span b (h_size h) a ∨ span nx (h_size h') a) as [?|?].
    { unfold cut_words, r, nx, span in *. lia. }
    + exists b, h. auto.
    + exists nx, h'. auto.
Qed.

Lemma split_run : ∃ s' pf, block_split b k s = Done r s' ∧ touches cut_words s s' ∧
  word s' (b + 8) = enc k (h_free h) (h_prev_free h) ∧ word s' (r + 8) = enc (h_size h - k - 8) true pf ∧
  word s' nx = r ∧ word s' (nx + 8) = enc (h_size h') (h_free h') true.
Proof.
  destruct H as [Hl Hm]. destruct (ly_range _ _ Hl b h E) as (Hb0 & Hb8 & Hb1).
  destruct (ly_range _ _ Hl nx h' E') as (Hx0 & Hx8 & Hx1). pose proof (layout_size Hl nx h' E') as Hs'.
  destruct (Hm b h E) as [Hw _], (Hm nx h' E') as [Hw' _]. pose proof (layout_size Hl b h E) as Hs.
  assert (Hm8 : size_ok (h_size h - k - 8)) by (destruct Hs; unfold size_ok, U64 in *; split; [mlia|lia]).
  assert (Hk8 : size_ok k) by (destruct Hs; unfold size_ok, U64 in *; split; [tauto|lia]).
  assert (Hsr := size_run s B b h (conj Hl Hm) E). destruct Hs as [Hs1 Hs2].
  unfold block_split, offset_to_block, block_to_ptr. change block_start_offset with 16. change block_header_overhead with 8.
  rewrite (wrap64_small (b + 16)) by lia. rewrite (wrap64_small (b + 16 + (k - 8))) by lia.
  replace (b + 16 + (k - 8)) with r by (unfold r; lia). cbv zeta.
  rewrite (bind_done _ _ _ _ _ Hsr). rewrite (wrap64_small (r + 16)) by (unfold r; lia).
  assert (Hr8 : r mod 8 = 0) by (unfold r; mlia).
  rewrite (bind_done _ _ _ _ _ (align_ptr_run (r + 16) s ltac:(unfold r; lia) ltac:(unfold r; lia) ltac:(mlia))).
  rewrite assert_run by apply Z.eqb_refl.
  rewrite (bind_done _ _ _ _ _ Hsr). rewrite (wrap64_small (h_size h - (k + 8))) by (unfold U64 in *; lia).
  rewrite wrap64_small by lia. rewrite assert_run by (apply Z.eqb_eq; lia).
  replace (h_size h - (k + 8)) with (h_size h - k - 8) by lia. set (m := h_size h - k - 8) in *.
  destruct (block_set_size_any s r m Hm8) as (fg & pg & Er). rewrite (bind_done _ _ _ _ _ Er). set (s1 := poke _ _ s).
  rewrite (bind_done _ _ s1 m s1) by (eapply block_size_run; [apply word_poke|done]).
  change block_size_min with 24. rewrite assert_run by (apply Z.leb_le; lia).
  set (s2 := poke (b + 8) (enc k (h_free h) (h_prev_free h)) s1).
  rewrite (bind_done _ _ s1 tt s2) by (eapply block_set_size_run; [unfold s1, r in *; by pokes|by split|done]).
  exists (poke (r + 8) (enc m true pg) (poke (nx + 8) (enc (h_size h') (h_free h') true) (poke nx r s2))), pg.
  assert (Hnx : r + 8 + m = nx) by (unfold r, nx, m; lia).
  assert (Hdist : r + 8 < nx ∧ b + 8 < r) by (unfold r, nx; lia).
  split; [|split; [|split; [|split; [|split]]]]; try (pokes; done).
  - unfold block_mark_as_free.
    rewrite (bind_done (block_mark_as_free r) _ s2 tt (poke (r + 8) (enc m true pg) (poke (nx + 8) (enc (h_size h') (h_free h') true) (poke nx r s2)))); [done|].
    unfold block_mark_as_free. rewrite (bind_done _ _ s2 nx (poke nx r s2)).
    2: { rewrite <- Hnx. eapply block_link_next_run; [unfold s2, s1; by pokes|done|lia]. }
    rewrite (bind_done _ _ _ tt (poke (nx + 8) (enc (h_size h') (h_free h') true) (poke nx r s2)))
      by (eapply block_set_prev_free_run; [unfold s2, s1; by pokes|done]).
    eapply block_set_free_run; [unfold s2, s1; by pokes|done].
  - unfold s2, s1. unfold cut_words. repeat (eapply touches_trans; [|apply touches_poke; [lia|auto 7]]). apply touches_refl.
  - unfold s2, s1. by pokes.
Qed.
End split.

(** ** Merging *)

Lemma absorb_run s B a h h' :
  phys s B → B !! a = Some h → B !! (a + 8 + h_size h) = Some h' → h_free h = true → h_free h' = true →
  ∃ s', block_absorb a (a + 8 + h_size h) s = Done a s' ∧ phys s' (join a h h' B) ∧
    touches (λ x, x = a + 8 ∨ x = a + 8 + h_size h + 8 + h_size h') s s'.
Proof.
  intros H E E' Hf Hf'. destruct H as [Hl Hm]. destruct (layout_large Hl a h E) as [Hlg _]; [by left|].
  destruct (layout_large Hl _ h' E') as [Hlg' Hp']; [by left|].
  destruct (ly_range _ _ Hl a h E) as (Ha0 & Ha8 & Ha1). destruct (ly_range _ _ Hl _ h' E') as (Hb0 & Hb8 & Hb1).
  destruct (layout_size Hl _ h' E') as [Hs1 _], (layout_size Hl _ h E) as [Hs2 _].
  assert (Hn : h_size h ≠ 0) by lia. destruct (Hm a h E) as [Hw _].
  pose proof (layout_join Hl E E' Hf Hf') as Hl'. pose proof (join_lookup (B := B) (a := a) (h := h) (h' := h')) as Hval.
  set (b := a + 8 + h_size h) in *. set (n := h_size h + 8 + h_size h') in *.
  assert (Hsz : size_ok n) by (unfold size_ok, n, b, U64 in *; split; [mlia|lia]).
  exists (poke (b + 8 + h_size h') a (poke (a + 8) (enc n true (h_prev_free h)) s)).
  assert (Ht : touches (λ x, x = a + 8 ∨ x = b + 8 + h_size h') s
    (poke (b + 8 + h_size h') a (poke (a + 8) (enc n true (h_prev_free h)) s))).
  { repeat (eapply touches_trans; [|apply touches_poke; [lia|auto]]). apply touches_refl. }
  split; [|split; [split; [done|]|done]].
  - unfold block_absorb. rewrite (bind_done _ _ _ _ _ (is_last_run s B a h (conj Hl Hm) E)).
    rewrite assert_run by (by rewrite (proj2 (Z.eqb_neq _ 0))).
    rewrite (bind_done _ _ _ _ _ (size_run s B b h' (conj Hl Hm) E')).
    rewrite (bind_done _ _ s (enc (h_size h) (h_free h) (h_prev_free h)) s) by (unfold size_field; rewrite load_run; by rewrite Hw).
    change block_header_overhead with 8.
    assert (Eenc : wrap64 (enc (h_size h) (h_free h) (h_prev_free h) + (h_size h' + 8)) = enc n true (h_prev_free h)).
    { rewrite Hf. unfold enc, n. rewrite wrap64_small by (unfold b, U64 in *; destruct (h_prev_free h); lia). lia. }
    rewrite Eenc. rewrite (bind_done _ _ s tt (poke (a + 8) (enc n true (h_prev_free h)) s)) by done.
    rewrite (bind_done _ _ _ (b + 8 + h_size h') (poke (b + 8 + h_size h') a (poke (a + 8) (enc n true (h_prev_free h)) s))); [done|].
    replace (b + 8 + h_size h') with (a + 8 + n) by (unfold b, n; lia).
    eapply block_link_next_run; [apply word_poke|done|unfold n, b in *; lia].
  - intros x hx. rewrite Hval. destruct (decide (x = a)) as [->|N1].
    + intros [= <-]. split; simpl; [by pokes|intros _]. replace (a + 8 + n) with (b + 8 + h_size h') by (unfold b, n; lia). apply word_poke.
    + case_decide as N2; [done|]. intros Ex.
      apply (marked_outside _ B s _ (λ x, x = a + 8 ∨ x = b + 8 + h_size h') (λ y, y = a ∨ y = b) x hx Hl); [by apply touches_writes| |done|tauto|auto].
      intros y [->| ->]; [exists a, h|exists b, h']; unfold span; (split; [done|]); split; auto; lia.
Qed.
