(* ===== verification/TlsfSpec.v ===== *)
(** * What the TLSF allocator promises

    The invariant of the heap, and [tlsf_malloc], [tlsf_free] and
    [tlsf_create_with_pool] against it: which blocks the caller owns afterwards,
    and that no byte the caller owned before has changed. *)

From S2P Require Export TlsfBlocks.

(** ** The invariant *)

(** No two free blocks are neighbours. *)
Definition coalesced (B : gmap Z hdr) : Prop := ∀ b h, B !! b = Some h → h_prev_free h = true → h_free h = false.

(** The lists hold exactly the free blocks, each in the list of its class; the
    second form leaves out the block [x]. *)
Definition free_block (B : gmap Z hdr) (c : Z * Z) (b : Z) : Prop :=
  ∃ h, B !! b = Some h ∧ h_free h = true ∧ mapping_insert (h_size h) = c.
Definition listed (B : gmap Z hdr) (L : Z * Z → list Z) : Prop := ∀ c b, in_index c → b ∈ L c ↔ free_block B c b.
Definition listed_but (x : Z) (B : gmap Z hdr) (L : Z * Z → list Z) : Prop := ∀ c b, in_index c → b ∈ L c ↔ b ≠ x ∧ free_block B c b.

Definition heap_ok (s : heap) (B : gmap Z hdr) (L : Z * Z → list Z) : Prop :=
  phys s B ∧ free_lists s L ∧ listed B L ∧ coalesced B.

(** The caller owns [n] bytes at [b + 16]. *)
Definition live (B : gmap Z hdr) (b n : Z) : Prop := ∃ h, B !! b = Some h ∧ h_free h = false ∧ h_size h = n ∧ n ≠ 0.

(** Words the allocator may write: headers, all of the blocks of [P], and the
    links of the null block. *)
Definition internal (c : Z) (B : gmap Z hdr) (P : Z → Prop) (x : Z) : Prop :=
  (∃ y hy, B !! y = Some hy ∧ (x = y + 8 ∨ P y ∧ span y (h_size hy) x)) ∨ x = c + 16 ∨ x = c + 24.
Definition is_free_in (B : gmap Z hdr) (y : Z) : Prop := ∃ hy, B !! y = Some hy ∧ h_free hy = true.

(** All words of the blocks: what a heap may change or depend on. *)
Definition owned (c : Z) (B : gmap Z hdr) : Z → Prop := internal c B (λ _, True).
Lemma internal_owned c B P x : internal c B P x → owned c B x.
Proof. intros [(y & hy & Ey & Hy)|?]; [left|by right]. exists y, hy. split; [done|]. destruct Hy as [|[_ ?]]; auto. Qed.

(** An operation keeps to the memory of the heap, and claims no more. *)
Definition confined (s s' : heap) (B B' : gmap Z hdr) : Prop :=
  control s' = control s ∧ (∀ x, owned (control s) B' x → owned (control s) B x) ∧
  ∀ x, 0 ≤ x < U64 → ¬ owned (control s) B x → word s' x = word s x.
Lemma writes_confined P s s' B B' :
  writes (internal (control s) B P) s s' → (∀ x, owned (control s) B' x → owned (control s) B x) → confined s s' B B'.
Proof. intros (Hc & _ & Hw) Ho. split; [done|]. split; [done|]. intros x Hx Hn. apply Hw; [done|]. by intros ?%internal_owned. Qed.
Lemma confined_refl s B : confined s s B B.
Proof. done. Qed.
Lemma confined_trans s1 s2 s3 B1 B2 B3 : confined s1 s2 B1 B2 → confined s2 s3 B2 B3 → confined s1 s3 B1 B3.
Proof.
  intros (C1 & O1 & W1) (C2 & O2 & W2). rewrite C1 in *. split; [done|]. split; [auto|].
  intros x Hx Hn. rewrite W2, W1; auto.
Qed.

(** The bytes the caller owns are not among them. *)
Lemma live_untouched c B P s s' b n x :
  layout c B → writes (internal c B P) s s' → live B b n → ¬ P b → b + 16 ≤ x < b + 16 + n → word s' x = word s x.
Proof.
  intros Hl (_ & _ & Hw) (h & E & Hf & Hn & Hn0) HP Hx. subst n. destruct (ly_range _ _ Hl b h E) as (? & ? & ?).
  pose proof (ly_control _ _ Hl b h E). apply Hw; [lia|]. intros [(y & hy & Ey & Hy)|Hc]; [|lia].
  destruct (decide (y = b)) as [->|Hne].
  - rewrite E in Ey. injection Ey as <-. destruct Hy as [|[? _]]; [lia|done].
  - assert (span y (h_size hy) x) as Hs.
    { destruct Hy as [->|[_ ?]]; [|done]. pose proof (layout_size Hl y hy Ey) as [_ ?]. unfold span. lia. }
    refine (span_apart Hl b y h hy x x E Ey _ _ Hs eq_refl); [done|]. unfold span. lia.
Qed.

(** Blocks of the caller never overlap. *)
Lemma live_disjoint c B b n b' n' : layout c B → live B b n → live B b' n' → b ≠ b' → b + 16 + n ≤ b' + 8 ∨ b' + 16 + n' ≤ b + 8.
Proof. intros Hl (h & E & _ & <- & _) (h' & E' & _ & <- & _) Hne. pose proof (ly_disjoint _ _ Hl _ _ _ _ E E' Hne) as [?|?]; lia. Qed.

(** ** Lists and blocks *)

Definition linkable (B : gmap Z hdr) (x : Z) : Prop := ∃ h, B !! x = Some h ∧ 24 ≤ h_size h.
Definition unlisted (L : Z * Z → list Z) (y : Z) : Prop := ∀ c, in_index c → y ∉ L c.

Lemma free_linkable c B b h : layout c B → B !! b = Some h → h_free h = true → linkable B b.
Proof. intros Hl E Hf. exists h. split; [done|]. apply (layout_large Hl b h E). by left. Qed.
Lemma free_class c B b h : layout c B → B !! b = Some h → in_index (mapping_insert (h_size h)).
Proof. intros Hl E. apply class_in_index. by apply (layout_max Hl b). Qed.

(** Writing links leaves the headers alone. *)
Lemma phys_links s s' B W :
  phys s B → writes W s s' → (∀ a, W a → ∃ x, (x = control s ∨ linkable B x) ∧ (a = x + 16 ∨ a = x + 24)) → phys s' B.
Proof.
  intros [Hl Hm] Hw HW. pose proof Hw as (Hc & _). split; [by rewrite Hc|].
  apply (marked_frame _ _ _ _ _ Hl Hw); [|done]. intros b h E. pose proof (layout_size Hl b h E) as [_ Hs].
  assert (Hno : ∀ a, a = b + 8 ∨ h_free h = true ∧ a = b + 8 + h_size h → ¬ W a).
  { intros a Ha HWa. destruct (HW a HWa) as (x & [->|(hx & Ex & Hx)] & Hax).
    - pose proof (ly_control _ _ Hl b h E). lia.
    - destruct (decide (x = b)) as [->|Hne].
      + rewrite E in Ex. injection Ex as <-. lia.
      + refine (span_apart Hl b x h hx a a E Ex (not_eq_sym Hne) _ _ eq_refl); unfold span; lia. }
  split; [apply Hno; by left|]. intros Hf. apply Hno. by right.
Qed.

(** Writing headers leaves the links alone. *)
Lemma free_lists_headers s s' B L W :
  free_lists s L → layout (control s) B → (∀ c b, in_index c → b ∈ L c → linkable B b) → touches W s s' →
  (∀ a, W a → ∃ y hy, B !! y = Some hy ∧ (a = y + 8 ∨ a = y + 8 + h_size hy ∨ unlisted L y ∧ span y (h_size hy) a)) →
  free_lists s' L.
Proof.
  intros H Hl Hlk Ht HW. apply (free_lists_frame W s s' L H Ht). intros c b Hc Hb.
  destruct (Hlk c b Hc Hb) as (h & E & Hs).
  assert (Hno : ∀ a, a = b + 16 ∨ a = b + 24 → ¬ W a); [|by auto].
  intros a Ha HWa. destruct (HW a HWa) as (y & hy & Ey & Hy). pose proof (layout_size Hl y hy Ey) as [_ ?].
  destruct (decide (y = b)) as [->|Hne].
  - rewrite E in Ey. injection Ey as <-. destruct Hy as [?|[?|[Hu _]]]; [lia|lia|by apply (Hu c)].
  - refine (span_apart Hl b y h hy a a E Ey (not_eq_sym Hne) _ _ eq_refl); [unfold span; lia|].
    destruct Hy as [->|[->|[_ ?]]]; unfold span in *; lia.
Qed.

(** ** Removing and inserting by block *)

Lemma link_words_in s B L : (∀ d x, in_index d → x ∈ L d → linkable B x) →
  ∀ a, link_word s L a → ∃ x, (x = control s ∨ linkable B x) ∧ (a = x + 16 ∨ a = x + 24).
Proof. intros HL a (x & [->|(d & Hd & Hx)] & Ha); [by exists (control s); auto|]. exists x. split; [right; by apply (HL d)|done]. Qed.

Lemma link_words_internal s B L : layout (control s) B → (∀ d x, in_index d → x ∈ L d → free_block B d x) →
  ∀ a, link_word s L a → internal (control s) B (is_free_in B) a.
Proof.
  intros Hl HL a (x & [->|(d & Hd & Hx)] & Ha); [right; tauto|left]. destruct (HL d x Hd Hx) as (h & E & Hf & _).
  exists x, h. split; [done|]. right. split; [by exists h|]. destruct (layout_large Hl x h E) as [? _]; [by left|]. unfold span. lia.
Qed.

(** Taking a free block out of its list. *)
Lemma remove_run s B L b h x :
  phys s B → free_lists s L → (∀ d y, in_index d → y ∈ L d ↔ y ≠ x ∧ free_block B d y) → 
  B !! b = Some h → h_free h = true → b ≠ x →
  ∃ s' L', block_remove b s = Done tt s' ∧
    remove_free_block b (mapping_insert (h_size h)).1 (mapping_insert (h_size h)).2 s = Done tt s' ∧ phys s' B ∧ free_lists s' L' ∧
    (∀ d y, in_index d → y ∈ L' d ↔ y ≠ b ∧ y ≠ x ∧ free_block B d y) ∧ writes (internal (control s) B (is_free_in B)) s s'.
Proof.
  intros Hp HL Hls E Hf Hbx. pose proof Hp as [Hl _]. pose proof (free_class _ _ _ _ Hl E) as Hc.
  set (c := mapping_insert (h_size h)) in *.
  assert (Hfree : ∀ d y, in_index d → y ∈ L d → free_block B d y) by (intros d y Hd Hy; by apply Hls in Hy as [_ ?]).
  assert (Hin : b ∈ L c) by (apply Hls; [done|]; split; [done|]; by exists h).
  pose proof (fl_nodup _ _ HL c Hc) as Hnd. destruct (list_elem_of_split _ _ Hin) as (l1 & l2 & EL).
  destruct (remove_spec s L c b l1 l2 HL Hc EL) as (s' & Er & HL' & Hw).
  exists s', (upd_list c (l1 ++ l2) L). split; [|split; [exact Er|split; [|split; [done|split]]]].
  - unfold block_remove. rewrite (bind_done _ _ _ _ _ (size_run s B b h Hp E)). fold c. by destruct c.
  - apply (phys_links s s' B _ Hp Hw). apply link_words_in. intros d y Hd Hy.
    destruct (Hfree d y Hd Hy) as (hy & Ey & Hfy & _). by eapply free_linkable.
  - intros d y Hd. unfold upd_list. rewrite EL in Hnd. apply NoDup_app in Hnd as (_ & Hdis & Hnd2). apply NoDup_cons in Hnd2 as [Hb2 _].
    case_decide as D.
    + subst d. specialize (Hls c y Hc). rewrite EL in Hls. split.
      * intros Hy. split; [|apply Hls; set_solver]. intros ->. apply elem_of_app in Hy as [Hy|Hy]; [|done]. apply (Hdis b Hy). by left.
      * intros (? & ? & ?). assert (y ∈ l1 ++ b :: l2) by (by apply Hls). set_solver.
    + rewrite Hls by done. split; [|tauto]. intros [? Hfb]. split; [|done]. intros ->. apply D. destruct Hfb as (h2 & E2 & _ & <-).
      rewrite E in E2. by injection E2 as <-.
  - apply (writes_mono _ _ _ _ (link_words_internal s B L Hl Hfree) Hw).
Qed.

(** Putting a free block into its list. *)
Lemma insert_run s B L b h x :
  phys s B → free_lists s L → (∀ d y, in_index d → y ∈ L d ↔ y ≠ b ∧ y ≠ x ∧ free_block B d y) →
  B !! b = Some h → h_free h = true → b ≠ x →
  ∃ s' L', block_insert b s = Done tt s' ∧ phys s' B ∧ free_lists s' L' ∧ listed_but x B L' ∧
    writes (internal (control s) B (is_free_in B)) s s'.
Proof.
  intros Hp HL Hls E Hf Hbx. pose proof Hp as [Hl _]. pose proof (free_class _ _ _ _ Hl E) as Hc. set (c := mapping_insert (h_size h)) in *.
  destruct (layout_large Hl b h E) as [Hlg _]; [by left|]. destruct (ly_range _ _ Hl b h E) as (? & ? & ?).
  assert (Hfree : ∀ d y, in_index d → y ∈ L d → free_block B d y) by (intros d y Hd Hy; by apply Hls in Hy as (_ & _ & ?)).
  assert (Hlk : ∀ d y, in_index d → y ∈ L d → linkable B y).
  { intros d y Hd Hy. destruct (Hfree d y Hd Hy) as (hy & Ey & Hfy & _). by eapply free_linkable. }
  assert (Hins : insertable s L b).
  { split; [done|]. split; [lia|]. split; [done|]. split; [by apply (layout_apart_null Hl b h)|].
    intros d y Hd Hy. destruct (Hlk d y Hd Hy) as (hy & Ey & ?). apply (layout_apart Hl b y h hy); try done.
    apply Hls in Hy as [? _]; [|done]. congruence. }
  destruct (insert_spec s L c b HL Hc Hins) as (s' & Er & HL' & Hw).
  exists s', (upd_list c (b :: L c) L). split; [|split; [|split; [done|split]]].
  - unfold block_insert. rewrite (bind_done _ _ _ _ _ (size_run s B b h Hp E)). fold c. by destruct c.
  - apply (phys_links s s' B _ Hp Hw). intros a [Ha|Ha]; [by apply (link_words_in s B L Hlk)|]. exists b. split; [right; by exists h|done].
  - intros d y Hd. unfold upd_list. case_decide as D.
    + subst d. rewrite elem_of_cons, Hls by done. split; [intros [->|(_ & ? & ?)]; [split; [done|by exists h]|done]|].
      intros [? ?]. destruct (decide (y = b)); auto.
    + rewrite Hls by done. split; [tauto|]. intros [? Hfb]. split; [|done]. intros ->. apply D. destruct Hfb as (h2 & E2 & _ & <-).
      rewrite E in E2. by injection E2 as <-.
  - apply (writes_mono _ _ _ _) with (2 := Hw). intros a [Ha|Ha]; [by apply (link_words_internal s B L Hl Hfree)|].
    left. exists b, h. split; [done|]. right. split; [by exists h|]. unfold span. lia.
Qed.

(** ** Allocation *)

Lemma search_class k : 0 ≤ k < block_size_max → 0 ≤ (mapping_search k).1 ∧ 0 ≤ (mapping_search k).2 < SL_INDEX_COUNT.
Proof.
  intros Hk. destruct (round_up_spec k Hk) as (Hr & _). unfold mapping_search. set (r := round_up k) in *. change SL_INDEX_COUNT with 32.
  destruct (decide (r < 256)).
  - rewrite small_class by lia. cbn [fst snd]. mlia.
  - destruct (large_class r) as (He & Hq & ->); [lia|]. cbn [fst snd]. lia.
Qed.

Lemma fits_later B c k y hy : layout c B → B !! y = Some hy → 0 ≤ k < block_size_max → round_up k ≤ h_size hy →
  in_index (mapping_search k) ∧ rank (mapping_search k) ≤ rank (mapping_insert (h_size hy)).
Proof.
  intros Hl E Hk Hr. destruct (round_up_spec k Hk) as (Hru & _). pose proof (layout_max Hl y hy E) as Hm.
  destruct (layout_size Hl y hy E) as [_ ?]. unfold mapping_search. split; [apply class_in_index; lia|].
  apply rank_mono; lia.
Qed.

Lemma locate_run s B L k :
  heap_ok s B L → 24 ≤ k < block_size_max → k mod 8 = 0 →
  (block_locate_free k s = Done 0 s ∧ ∀ y hy, B !! y = Some hy → h_free hy = true → h_size hy < round_up k) ∨
  (∃ b h s' L', block_locate_free k s = Done b s' ∧ B !! b = Some h ∧ h_free h = true ∧ k ≤ h_size h ∧
    phys s' B ∧ free_lists s' L' ∧ listed_but b B L' ∧ writes (internal (control s) B (is_free_in B)) s s').
Proof.
  intros (Hp & HL & Hls & Hco) Hk H8. pose proof Hp as [Hl _]. destruct (search_class k) as [Hf0 Hs0]; [lia|].
  unfold block_locate_free. rewrite (proj2 (Z.eqb_neq k 0)) by lia. destruct (mapping_search k) as [fl sl] eqn:Ems. cbn [fst snd] in *.
  destruct (Z.ltb_spec fl FL_INDEX_COUNT) as [Hfl|Hfl].
  2: { left. rewrite (bind_done _ _ s (0, fl, sl) s) by done. split; [done|]. intros y hy Ey _. apply Z.nle_gt. intros Hge.
       destruct (fits_later B _ k y hy Hl Ey ltac:(lia) Hge) as [[Hi _] _]. rewrite Ems in Hi. cbn [fst] in Hi. lia. }
  assert (Hin : in_index (fl, sl)) by (split; cbn [fst snd]; lia).
  destruct (search_spec s L fl sl HL Hin) as (b & c & Es & Hcase). rewrite (bind_done _ _ _ _ _ Es).
  destruct Hcase as [[-> Hnone]|(Hc & Hrk & l & EL)].
  - left. split; [done|]. intros y hy Ey Hfy. apply Z.nle_gt. intros Hge.
    destruct (fits_later B _ k y hy Hl Ey ltac:(lia) Hge) as [_ Hr]. rewrite Ems in Hr.
    pose proof (free_class _ _ _ _ Hl Ey) as Hcy. assert (y ∈ L (mapping_insert (h_size hy))) as Hy by (apply Hls; [done|]; by exists hy).
    rewrite (Hnone _ Hcy Hr) in Hy. set_solver.
  - right. assert (Hb : b ∈ L c) by (rewrite EL; by left). apply Hls in Hb as (h & E & Hf & Ecl); [|done].
    destruct (ly_range _ _ Hl b h E) as (Hb0 & _ & _). rewrite (proj2 (Z.eqb_neq b 0)) by lia.
    assert (Hfit : k ≤ h_size h).
    { destruct (layout_size Hl b h E) as [_ ?]. apply good_fit; [lia|done|lia|]. rewrite Ems. by rewrite Ecl. }
    rewrite (bind_done _ _ _ _ _ (size_run s B b h Hp E)), assert_run by by apply Z.leb_le.
    destruct (remove_run s B L b h 0 Hp HL) as (s' & L' & _ & Er & Hp' & HL' & Hls' & Hw); [|done|done|lia|].
    { intros d y Hd. rewrite (Hls d y Hd). split; [|tauto]. intros Hfb. split; [|done]. destruct Hfb as (hy & Ey & _).
      destruct (ly_range _ _ Hl y hy Ey). lia. }
    exists b, h, s', L'. rewrite Ecl in Er. rewrite (bind_done _ _ _ _ _ Er). split; [done|]. do 5 (split; [done|]). split; [|done].
    intros d y Hd. rewrite Hls' by done. split; [tauto|]. intros [? Hfb]. split; [done|]. split; [|done]. destruct Hfb as (hy & Ey & _).
    destruct (ly_range _ _ Hl y hy Ey). lia.
Qed.

Lemma flip_internal c B (P Q : Z → Prop) f b h nx h' a :
  nx ≠ b → B !! b = Some h → B !! nx = Some h' → (∀ y, Q y → P y) → internal c (flip f b h nx h' B) Q a → internal c B P a.
Proof.
  intros Hne E E' HQ [(y & hy & Ey & Hy)|?]; [left|by right]. apply flip_inv in Ey as (h0 & E0 & Hs & _); [|done..].
  exists y, h0. rewrite Hs. split; [done|]. destruct Hy as [|[? ?]]; auto.
Qed.

(** Marking a listed-out block as used. *)
Lemma take_run s B L b h :
  phys s B → free_lists s L → listed_but b B L → B !! b = Some h → h_free h = true →
  (∀ y hy, y ≠ b → y ≠ b + 8 + h_size h → B !! y = Some hy → h_prev_free hy = true → h_free hy = false) →
  ∃ s' B', block_mark_as_used b s = Done tt s' ∧ heap_ok s' B' L ∧
    (∀ y n, live B' y n ↔ y = b ∧ n = h_size h ∨ live B y n) ∧ writes (internal (control s) B (is_free_in B)) s s' ∧
    ∀ c x, owned c B' x → owned c B x.
Proof.
  intros Hp HL Hls E Hf Hco. pose proof Hp as [Hl _]. destruct (layout_large Hl b h E) as [Hlg _]; [by left|].
  destruct (ly_next _ _ Hl b h E ltac:(lia)) as (h' & E' & Hpf). set (nx := b + 8 + h_size h) in *.
  destruct (mark_used_run s B b h Hp E ltac:(lia) h' E') as (s' & Er & Hp' & Ht). fold nx in Hp', Ht.
  assert (Hne : nx ≠ b) by (unfold nx; lia). assert (Hval := λ y, flip_lookup false b h nx h' B y Hne E E').
  exists s', (flip false b h nx h' B). split; [done|]. split; [split; [done|split; [|split]]|split].
  - apply (free_lists_headers s s' B L _ HL Hl) with (2 := Ht).
    + intros c y Hc Hy. apply Hls in Hy as (_ & hy & Ey & Hfy & _); [|done]. by eapply free_linkable.
    + intros a [->| ->]; [exists b, h|exists nx, h']; auto.
  - intros c y Hc. rewrite (Hls c y Hc). unfold free_block. setoid_rewrite Hval. split.
    + intros [Hy (hy & Ey & Hfy & Hcl)]. rewrite decide_False by done. case_decide; [|by exists hy].
      subst y. exists (with_prev false h'). rewrite E' in Ey. by injection Ey as <-.
    + intros (hy & Ey & Hfy & Hcl). case_decide; [injection Ey as <-; done|]. split; [done|]. case_decide; [|by exists hy].
      subst y. injection Ey as <-. by exists h'.
  - intros y hy Ey Hpy. rewrite Hval in Ey. case_decide; [by injection Ey as <-|]. case_decide; [by injection Ey as <-|].
    by apply (Hco y hy).
  - intros y n. unfold live. rewrite Hval. split.
    + intros (hy & Ey & Hfy & Hn & Hn0). case_decide; [left; injection Ey as <-; auto|]. right. case_decide; [|by exists hy].
      subst y. injection Ey as <-. by exists h'.
    + intros [[-> ->]|(hy & Ey & Hfy & Hn & Hn0)].
      * rewrite decide_True by done. eexists. split; [done|]. simpl. split; [done|]. split; [done|lia].
      * rewrite decide_False by (intros ->; congruence). case_decide; [|by exists hy]. subst y. exists (with_prev false h').
        rewrite E' in Ey. by injection Ey as <-.
  - split; [|intros c x; by apply flip_internal].
    apply (writes_mono _ _ _ _) with (2 := touches_writes _ _ _ Ht). intros a [->| ->]; left; [exists b, h|exists nx, h']; auto.
Qed.

(** Cutting a free block: the same live blocks, inside the same free memory. *)
Section cut_free.
Context {c : Z} {B : gmap Z hdr} {b k : Z} {h h' : hdr}.
Hypothesis (H : layout c B) (E : B !! b = Some h) (E' : B !! (b + 8 + h_size h) = Some h').
Hypothesis (Hk : 24 ≤ k ∧ k mod 8 = 0 ∧ k + 32 ≤ h_size h).

Lemma cut_live y n : h_free h = true → live (cut k b h h' B) y n ↔ live B y n.
Proof.
  intros Hf. unfold live. rewrite cut_lookup. pose proof (cut_fresh H E (b + 8 + k) ltac:(lia)) as Hr.
  destruct (decide (y = b)) as [->|]; [split; intros (hy & Ey & Hy & _); [injection Ey as <-|]; simpl in *; congruence|].
  destruct (decide (y = b + 8 + k)) as [->|]; [split; intros (hy & Ey & Hy & _); [injection Ey as <-|]; simpl in *; congruence|].
  case_decide; [|done]. subst y. split; intros (hy & Ey & Hy).
  - injection Ey as <-. by exists h'.
  - rewrite E' in Ey. injection Ey as <-. by exists (with_prev true h').
Qed.

Lemma cut_free_block d y : h_free h = true → y ≠ b → y ≠ b + 8 + k → free_block (cut k b h h' B) d y ↔ free_block B d y.
Proof.
  intros Hf N1 N2. unfold free_block. rewrite cut_lookup, !decide_False by done. case_decide; [|done]. subst y.
  split; intros (hy & Ey & Hy).
  - injection Ey as <-. by exists h'.
  - rewrite E' in Ey. injection Ey as <-. by exists (with_prev true h').
Qed.

(** Writes after the cut are internal to the blocks before it. *)
Lemma cut_internal (P Q : Z → Prop) a : P b → (∀ y, y ≠ b → y ≠ b + 8 + k → Q y → P y) →
  internal c (cut k b h h' B) Q a → internal c B P a.
Proof.
  intros HP HQ [(y & hy & Ey & Hy)|?]; [left|by right]. rewrite cut_lookup in Ey.
  destruct (decide (y = b)) as [->|N1]; [injection Ey as <-; simpl in Hy|destruct (decide (y = b + 8 + k)) as [->|N2]; [injection Ey as <-; simpl in Hy|]].
  - exists b, h. split; [done|]. right. split; [done|]. unfold span in *. lia.
  - exists b, h. split; [done|]. right. split; [done|]. unfold span in *. lia.
  - case_decide.
    + subst y. injection Ey as <-. exists (b + 8 + h_size h), h'. split; [done|]. destruct Hy as [|[? ?]]; [by left|right]. auto.
    + exists y, hy. split; [done|]. destruct Hy as [|[? ?]]; [by left|right]. auto.
Qed.
Lemma cut_words_internal (P : Z → Prop) a : P b → 0 ≤ h_size h' → cut_words (b := b) (k := k) (h := h) a → internal c B P a.
Proof.
  intros HP Hn Ha. left. unfold cut_words in Ha.
  destruct (decide (a = b + 8 + h_size h + 8)) as [->|]; [exists (b + 8 + h_size h), h'; auto|].
  exists b, h. split; [done|]. right. split; [done|]. unfold span. lia.
Qed.
End cut_free.

Lemma is_free_cut B b k h h' y : B !! (b + 8 + h_size h) = Some h' → y ≠ b → y ≠ b + 8 + k → is_free_in (cut k b h h' B) y → is_free_in B y.
Proof.
  intros E' N1 N2 (hy & Ey & Hf). rewrite cut_lookup, !decide_False in Ey by done. case_decide; [|by exists hy].
  subst y. injection Ey as <-. by exists h'.
Qed.

(** A free block [b] out of the lists is cut and the rest listed. *)
Lemma trim_free_run s B L b h k :
  phys s B → free_lists s L → listed_but b B L → coalesced B → B !! b = Some h → h_free h = true →
  24 ≤ k → k mod 8 = 0 → k + 32 ≤ h_size h →
  ∃ h' s' L', B !! (b + 8 + h_size h) = Some h' ∧ block_trim_free b k s = Done tt s' ∧ phys s' (cut k b h h' B) ∧ free_lists s' L' ∧
    listed_but b (cut k b h h' B) L' ∧ writes (internal (control s) B (is_free_in B)) s s'.
Proof.
  intros Hp HL Hls Hco E Hf Hk1 Hk2 Hk3. assert (Hk : 24 ≤ k ∧ k mod 8 = 0 ∧ k + 32 ≤ h_size h) by done. pose proof Hp as [Hl Hm].
  destruct (ly_next _ _ Hl b h E ltac:(lia)) as (h' & E' & Hpf). exists h'.
  destruct (split_run Hp E E' Hk) as (s1 & pg & E1 & T1 & W1 & W2 & W3 & W4). set (r := b + 8 + k) in *. set (nx := b + 8 + h_size h) in *.
  destruct (ly_range _ _ Hl b h E) as (Hb0 & Hb8 & Hb1). destruct (ly_range _ _ Hl nx h' E') as (Hx0 & Hx8 & Hx1).
  destruct (layout_size Hl b h E) as [Hs1 Hs2], (layout_size Hl nx h' E') as [_ Hs2'].
  assert (Hm8 : size_ok (h_size h - k - 8)) by (unfold size_ok, U64 in *; split; [mlia|lia]).
  assert (Hk8 : size_ok k) by (unfold size_ok, U64 in *; split; [done|lia]).
  set (s3 := poke (r + 8) (enc (h_size h - k - 8) true true) (poke r b s1)).
  assert (Hd : b + 8 < r ∧ r + 8 < nx) by (unfold r, nx; lia).
  assert (T3 : touches (cut_words (b := b) (k := k) (h := h)) s s3).
  { eapply touches_trans; [exact T1|]. unfold s3. unfold cut_words. repeat (eapply touches_trans; [|apply touches_poke; [lia|fold r; auto 7]]). apply touches_refl. }
  assert (Hp3 : phys s3 (cut k b h h' B)).
  { apply (cut_phys Hp E E' Hk s3 T3); fold r nx; unfold s3; [pokes..|intros _; by pokes]; try done. by rewrite Hf. }
  assert (HL3 : free_lists s3 L).
  { apply (free_lists_headers s s3 B L _ HL Hl) with (2 := T3).
    - intros d y Hd' Hy. apply Hls in Hy as (_ & hy & Ey & Hfy & _); [|done]. by eapply free_linkable.
    - intros a Ha. unfold cut_words in Ha. destruct (decide (a = nx + 8)) as [->|]; [by exists nx, h'; auto|].
      exists b, h. split; [done|]. right. right. split; [|unfold span; fold r nx in Ha; unfold r, nx in *; lia].
      intros d Hd' Hy. by apply Hls in Hy as [? _]. }
  assert (Er : cut k b h h' B !! r = Some (Hdr (h_size h - k - 8) true (h_free h))).
  { rewrite cut_lookup, decide_False, decide_True by (unfold r; lia). done. }
  destruct (insert_run s3 (cut k b h h' B) L r (Hdr (h_size h - k - 8) true (h_free h)) b Hp3 HL3) as (s4 & L' & E4 & Hp4 & HL4 & Hls4 & W5); [|exact Er|done|lia|].
  { intros d y Hd'. rewrite (Hls d y Hd'). pose proof (cut_fresh Hl E r ltac:(unfold r; lia)) as Hfresh. split.
    - intros [Hyb Hfb]. assert (y ≠ r) by (intros ->; destruct Hfb as (? & ? & _); congruence).
      split; [done|]. split; [done|]. by apply (cut_free_block (k := k) E' d y Hf).
    - intros (Hyr & Hyb & Hfb). split; [done|]. by apply (cut_free_block (k := k) E' d y Hf Hyb Hyr). }
  exists s4, L'. split; [done|]. split; [|split; [done|split; [done|split; [done|]]]].
  - unfold block_trim_free. rewrite (bind_done _ _ _ _ _ (is_free_run s B b h Hp E)), assert_run by done.
    unfold block_can_split. change SIZEOF_BLOCK_HEADER with 32. rewrite wrap64_small by (unfold U64 in *; lia).
    rewrite (bind_done _ _ s true s).
    2: { rewrite (bind_done _ _ _ _ _ (size_run s B b h Hp E)). unfold mret, K_ret. f_equal. apply Z.leb_le. lia. }
    cbn [negb]. rewrite (bind_done _ _ _ _ _ E1).
    rewrite (bind_done _ _ s1 r (poke r b s1)) by (eapply block_link_next_run; [exact W1|done|lia]).
    rewrite (bind_done _ _ _ tt s3) by (eapply block_set_prev_free_run; [by pokes|done]). exact E4.
  - apply writes_trans with s3.
    + apply (writes_mono _ _ _ _) with (2 := touches_writes _ _ _ T3). intros a Ha.
      apply (cut_words_internal (k := k) E E' Hk); [by exists h|lia|done].
    + pose proof T3 as (Tc & _). rewrite Tc in W5. apply (writes_mono _ _ _ _) with (2 := W5). intros a.
      apply (cut_internal E E' Hk); [by exists h|]. intros y ? ?. by apply is_free_cut.
Qed.

Lemma prepare_run s B L b h k :
  phys s B → free_lists s L → listed_but b B L → coalesced B → B !! b = Some h → h_free h = true →
  24 ≤ k → k mod 8 = 0 → k ≤ h_size h →
  ∃ s' B' L' n, block_prepare_used b k s = Done (b + 16) s' ∧ heap_ok s' B' L' ∧ k ≤ n ∧
    (∀ y m, live B' y m ↔ y = b ∧ m = n ∨ live B y m) ∧ writes (internal (control s) B (is_free_in B)) s s' ∧
    ∀ c x, owned c B' x → owned c B x.
Proof.
  intros Hp HL Hls Hco E Hf Hk1 Hk2 Hk3. pose proof Hp as [Hl Hm]. destruct (ly_range _ _ Hl b h E) as (Hb0 & Hb8 & Hb1).
  destruct (layout_size Hl b h E) as [Hs1 Hs2].
  assert (Hptr : block_to_ptr b = b + 16) by (unfold block_to_ptr; change block_start_offset with 16; apply wrap64_small; lia).
  unfold block_prepare_used. rewrite (proj2 (Z.eqb_neq b 0)), Hptr by lia. rewrite assert_run by (by rewrite (proj2 (Z.eqb_neq k 0)) by lia).
  destruct (decide (k + 32 ≤ h_size h)) as [Hcut|Hno].
  - destruct (trim_free_run s B L b h k) as (h' & s1 & L1 & E' & E1 & Hp1 & HL1 & Hls1 & W1); [done..|].
    rewrite (bind_done _ _ _ _ _ E1). pose proof (W1) as (Hc1 & _).
    assert (Eb : cut k b h h' B !! b = Some (Hdr k (h_free h) (h_prev_free h))) by (by rewrite cut_lookup, decide_True).
    destruct (take_run s1 (cut k b h h' B) L1 b (Hdr k (h_free h) (h_prev_free h)) Hp1 HL1 Hls1 Eb Hf) as (s2 & B2 & E2 & Hok & Hlive & W2 & O2).
    { simpl. intros y hy N1 N2. rewrite cut_lookup, !decide_False by done. case_decide; [|by apply Hco]. subst y.
      intros [= <-] _. simpl. destruct (ly_next _ _ Hl b h E ltac:(lia)) as (h2 & E2 & Hpf). rewrite E' in E2. injection E2 as <-.
      apply (Hco _ h' E'). congruence. }
    exists s2, B2, L1, k. rewrite (bind_done _ _ _ _ _ E2). split; [done|]. split; [done|]. split; [lia|]. split.
    + intros y m. rewrite Hlive. simpl. by rewrite (cut_live (k := k) Hl E E' (conj Hk1 (conj Hk2 Hcut))).
    + split; [|intros c x Hx; apply O2 in Hx; by apply (cut_internal E E' (conj Hk1 (conj Hk2 Hcut)) _ (λ _, True) x)].
      apply writes_trans with s1; [done|]. rewrite Hc1 in W2. apply (writes_mono _ _ _ _) with (2 := W2). intros a.
      apply (cut_internal E E' (conj Hk1 (conj Hk2 Hcut))); [by exists h|]. intros y ? ?. by apply is_free_cut.
  - rewrite (bind_done _ _ s tt s).
    2: { unfold block_trim_free. rewrite (bind_done _ _ _ _ _ (is_free_run s B b h Hp E)), assert_run by done.
         unfold block_can_split. change SIZEOF_BLOCK_HEADER with 32. pose proof (layout_max Hl b h E) as Hmx; change block_size_max with 0x100000000 in Hmx; rewrite wrap64_small by (unfold U64 in *; lia).
         rewrite (bind_done _ _ s false s); [done|]. rewrite (bind_done _ _ _ _ _ (size_run s B b h Hp E)). unfold mret, K_ret. f_equal.
         apply Z.leb_gt. lia. }
    destruct (take_run s B L b h Hp HL Hls E Hf) as (s2 & B2 & E2 & Hok & Hlive & W2 & O2); [intros y hy _ _; apply Hco|].
    exists s2, B2, L, (h_size h). rewrite (bind_done _ _ _ _ _ E2). done.
Qed.

(** ** Requests *)

(** The bytes a request asks of the lists. *)
Definition adjusted (size : Z) : Z :=
  if size =? 0 then 0 else
  let aligned := size + 7 - (size + 7) mod 8 in
  if aligned <? block_size_max then Z.max aligned block_size_min else 0.

Lemma adjust_run size s : 0 ≤ size ≤ U64 - 8 → adjust_request_size size ALIGN_SIZE s = Done (adjusted size) s.
Proof.
  intros Hs. unfold adjust_request_size, adjusted. destruct (Z.eqb_spec size 0); [done|].
  unfold align_up. rewrite pow2_8. change (ALIGN_SIZE - 1) with 7. rewrite wrap64_small, align_mask by (unfold U64 in *; lia). done.
Qed.

Lemma adjusted_spec size : 0 ≤ size → let k := adjusted size in
  k = 0 ∧ (size = 0 ∨ block_size_max ≤ size + 7) ∨ 0 < size ≤ k ∧ 24 ≤ k < block_size_max ∧ k mod 8 = 0.
Proof.
  intros Hs. unfold adjusted. change block_size_max with 0x100000000. change block_size_min with 24.
  destruct (Z.eqb_spec size 0); [by auto|]. destruct (Z.ltb_spec (size + 7 - (size + 7) mod 8) 0x100000000); [right|left; split; [done|right; mlia]].
  split; [mlia|]. split; [mlia|]. destruct (Z.max_spec (size + 7 - (size + 7) mod 8) 24) as [[_ ->]|[_ ->]]; [done|mlia].
Qed.

Lemma tlsf_malloc_run s B L size :
  heap_ok s B L → 0 ≤ size ≤ U64 - 8 →
  (tlsf_malloc size s = Done 0 s ∧
    (size = 0 ∨ block_size_max ≤ size + 7 ∨ ∀ y h, B !! y = Some h → h_free h = true → h_size h < round_up (adjusted size))) ∨
  (∃ b n s' B' L', tlsf_malloc size s = Done (b + 16) s' ∧ (b + 16) mod 8 = 0 ∧ 0 < size ≤ n ∧ heap_ok s' B' L' ∧ pending s' = pending s ∧
    confined s s' B B' ∧ (∀ m, ¬ live B b m) ∧ (∀ y m, live B' y m ↔ y = b ∧ m = n ∨ live B y m) ∧
    ∀ y m x, live B y m → y + 16 ≤ x < y + 16 + m → word s' x = word s x).
Proof.
  intros Hok Hs. unfold tlsf_malloc. rewrite (bind_done _ _ _ _ _ (adjust_run size s Hs)).
  destruct (adjusted_spec size ltac:(lia)) as [[-> Hz]|(Hs0 & Hk & H8)]; [left; split; [done|tauto]|].
  destruct (locate_run s B L _ Hok Hk H8) as [[E Hnone]|(b & h & s1 & L1 & E1 & Eb & Hf & Hfit & Hp1 & HL1 & Hls1 & W1)].
  { left. rewrite (bind_done _ _ _ _ _ E). split; [done|]. right. by right. }
  right. destruct Hok as (_ & _ & _ & Hco). rewrite (bind_done _ _ _ _ _ E1). pose proof W1 as (Hc1 & _).
  destruct (prepare_run s1 B L1 b h (adjusted size) Hp1 HL1 Hls1 Hco Eb Hf) as (s2 & B2 & L2 & n & E2 & Hok2 & Hn & Hlive & W2 & O2); [lia|done|done|].
  pose proof Hp1 as [Hl1 _]. rewrite Hc1 in Hl1, W2. destruct (ly_range _ _ Hl1 b h Eb) as (_ & Hb8 & _).
  exists b, n, s2, B2, L2. split; [exact E2|]. split; [mlia|]. split; [lia|]. split; [done|].
  pose proof W1 as (_ & Hp1' & _). pose proof W2 as (_ & Hp2' & _). split; [congruence|].
  split; [apply (writes_confined (is_free_in B)); [by apply writes_trans with s1|auto]|]. split; [|split; [done|]].
  - intros m (h2 & Eh2 & Hf2 & _). congruence.
  - intros y m x Hy Hx. apply (live_untouched (control s) B (is_free_in B) s s2 y m x Hl1); [by apply writes_trans with s1|done| |done].
    intros (hy & Ehy & Hfy). destruct Hy as (hy2 & Ehy2 & Hfy2 & _). congruence.
Qed.

(** C36: [tlsf_malloc] on a heap that satisfies the invariant.  Either it returns
    NULL and nothing changed, for one of three reasons: nothing or too much was
    asked for, or no free block is as large as the request rounded up to the next
    class.  Or it returns an 8-byte aligned pointer to a block that was not the
    caller's and now is, at least as large as asked for; the heap satisfies the
    invariant again, the caller's other blocks are still his and no byte of them
    changed. *)
Theorem tlsf_malloc_spec s B L size :
  heap_ok s B L → 0 ≤ size ≤ U64 - 8 →
  (tlsf_malloc size s = Done 0 s ∧
    (size = 0 ∨ block_size_max ≤ size + 7 ∨ ∀ y h, B !! y = Some h → h_free h = true → h_size h < round_up (adjusted size))) ∨
  (∃ b n s' B' L', tlsf_malloc size s = Done (b + 16) s' ∧ (b + 16) mod 8 = 0 ∧ 0 < size ≤ n ∧ heap_ok s' B' L' ∧
    (∀ m, ¬ live B b m) ∧ (∀ y m, live B' y m ↔ y = b ∧ m = n ∨ live B y m) ∧
    ∀ y m x, live B y m → y + 16 ≤ x < y + 16 + m → word s' x = word s x).
Proof.
  intros Hok Hs. destruct (tlsf_malloc_run s B L size Hok Hs) as [?|(b & n & s' & B' & L' & E & ? & ? & ? & _ & _ & ? & ? & ?)]; [by left|right].
  by exists b, n, s', B', L'.
Qed.
