(* ===== verification/TlsfFree.v ===== *)
(** * Freeing, creating and reclaiming (kernel/lib/tlsf.c)

    [tlsf_free] merges the block with its free neighbours; [tlsf_create_with_pool]
    establishes the invariant; [tlsf_flush_pending] frees what other processors
    left. *)

From S2P Require Export TlsfSpec.

(** ** Internal words across the operations *)

Lemma join_internal c B (P Q : Z → Prop) a h h' x :
  layout c B → B !! a = Some h → B !! (a + 8 + h_size h) = Some h' → P a → P (a + 8 + h_size h) → (∀ y, y ≠ a → Q y → P y) →
  internal c (join a h h' B) Q x → internal c B P x.
Proof.
  intros Hl E E' Ha Hb HQ [(y & hy & Ey & Hy)|?]; [left|by right]. rewrite join_lookup in Ey.
  pose proof (layout_size Hl a h E) as [_ ?]. pose proof (layout_size Hl _ h' E') as [_ ?].
  destruct (decide (y = a)) as [->|N1].
  - injection Ey as <-. simpl in Hy. assert (span a (h_size h) x ∨ span (a + 8 + h_size h) (h_size h') x) as [?|?] by (unfold span in *; lia).
    + exists a, h. auto.
    + exists (a + 8 + h_size h), h'. auto.
  - case_decide; [done|]. exists y, hy. split; [done|]. destruct Hy as [|[? ?]]; auto.
Qed.

Lemma flip_live_free B b h nx h' y m : nx ≠ b → B !! b = Some h → B !! nx = Some h' →
  live (flip true b h nx h' B) y m ↔ y ≠ b ∧ live B y m.
Proof.
  intros Hne E E'. unfold live. rewrite flip_lookup by done. destruct (decide (y = b)) as [->|].
  - split; [intros (hy & Ey & Hf & _); injection Ey as <-; done|by intros [? _]].
  - case_decide; [subst y|tauto]. split.
    + intros (hy & Ey & Hy). injection Ey as <-. split; [done|]. by exists h'.
    + intros [_ (hy & Ey & Hy)]. rewrite E' in Ey. injection Ey as <-. by exists (with_prev true h').
Qed.

Lemma flip_free_block f B b h nx h' d y : nx ≠ b → y ≠ b → B !! b = Some h → B !! nx = Some h' →
  free_block (flip f b h nx h' B) d y ↔ free_block B d y.
Proof.
  intros Hne Hy E E'. unfold free_block. rewrite flip_lookup, (decide_False (P := y = b)) by done. case_decide; [|done]. subst y.
  split; intros (hy & Ey & Hfy).
  - injection Ey as <-. by exists h'.
  - rewrite E' in Ey. injection Ey as <-. by exists (with_prev f h').
Qed.

Lemma join_live B a h h' y m : B !! a = Some h → B !! (a + 8 + h_size h) = Some h' → h_free h = true → h_free h' = true →
  live (join a h h' B) y m ↔ live B y m.
Proof.
  intros E E' Hf Hf'. unfold live. rewrite join_lookup. destruct (decide (y = a)) as [->|].
  - split; intros (hy & Ey & Hy & _); [injection Ey as <-|]; simpl in *; congruence.
  - case_decide; [|done]. subst y. split; intros (hy & Ey & Hy & _); [done|congruence].
Qed.

Lemma join_free_block B a h h' d y : y ≠ a → y ≠ a + 8 + h_size h → free_block (join a h h' B) d y ↔ free_block B d y.
Proof. intros N1 N2. unfold free_block. by rewrite join_lookup, !decide_False. Qed.

(** ** A freed block on its way into the lists

    [a] is free, in no list, and not next to a free block before it; the blocks
    elsewhere, except perhaps the one after it, are coalesced. *)
Record open_at (s : heap) (B : gmap Z hdr) (L : Z * Z → list Z) (a : Z) (h : hdr) : Prop := OpenAt {
  op_phys : phys s B;
  op_lists : free_lists s L;
  op_listed : listed_but a B L;
  op_block : B !! a = Some h;
  op_free : h_free h = true;
  op_coalesced : ∀ y hy, y ≠ a → y ≠ a + 8 + h_size h → B !! y = Some hy → h_prev_free hy = true → h_free hy = false;
}.

(** One merge: the free block [a] and the free block after it become one, when
    neither is in a list. *)
Lemma absorb_open s B L a h h' :
  phys s B → free_lists s L → B !! a = Some h → B !! (a + 8 + h_size h) = Some h' → h_free h = true → h_free h' = true →
  (∀ d y, in_index d → y ∈ L d ↔ y ≠ a ∧ y ≠ a + 8 + h_size h ∧ free_block B d y) →
  (∀ y hy, y ≠ a → y ≠ a + 8 + h_size h → y ≠ a + 8 + h_size h + 8 + h_size h' → B !! y = Some hy → h_prev_free hy = true → h_free hy = false) →
  ∃ s', block_absorb a (a + 8 + h_size h) s = Done a s' ∧
    open_at s' (join a h h' B) L a (Hdr (h_size h + 8 + h_size h') true (h_prev_free h)) ∧
    (∀ y m, live (join a h h' B) y m ↔ live B y m) ∧ writes (internal (control s) B (is_free_in B)) s s'.
Proof.
  intros Hp HL E E' Hf Hf' Hls Hco. destruct (absorb_run s B a h h' Hp E E' Hf Hf') as (s' & Er & Hp' & Ht). pose proof Hp as [Hl _].
  exists s'. split; [done|]. split; [|split; [intros; by apply join_live|]].
  - split; [done| | |by rewrite join_lookup, decide_True|done|].
    + apply (free_lists_headers s s' B L _ HL Hl) with (2 := Ht).
      * intros d y Hd Hy. apply Hls in Hy as (_ & _ & hy & Ey & Hfy & _); [|done]. by eapply free_linkable.
      * intros x [->| ->]; [exists a, h|exists (a + 8 + h_size h), h']; auto.
    + intros d y Hd. rewrite (Hls d y Hd). split.
      * intros (N1 & N2 & Hfb). split; [done|]. by apply join_free_block.
      * intros (N1 & Hfb). assert (y ≠ a + 8 + h_size h).
        { intros ->. destruct Hfb as (hy & Ey & _). rewrite join_lookup in Ey. rewrite decide_False, decide_True in Ey by done. done. }
        split; [done|]. split; [done|]. by apply join_free_block in Hfb.
    + simpl. intros y hy N1 N2. rewrite join_lookup, decide_False by done. case_decide; [done|]. apply Hco; [done..|lia].
  - destruct (layout_large Hl _ h' E') as [? _]; [by left|].
    apply (writes_mono _ _ _ _) with (2 := touches_writes _ _ _ Ht). intros x [->| ->]; left.
    + exists a, h. auto.
    + exists (a + 8 + h_size h), h'. split; [done|]. right. split; [by exists h'|]. unfold span. lia.
Qed.

Lemma join_is_free B a h h' y : y ≠ a → is_free_in (join a h h' B) y → is_free_in B y.
Proof. intros N (hy & Ey & Hf). rewrite join_lookup, decide_False in Ey by done. case_decide; [done|]. by exists hy. Qed.

(** [block_merge_prev] of a block just freed. *)
Lemma merge_prev_run s B L b h :
  open_at s B L b h → (h_prev_free h = true → ∀ p hp, B !! p = Some hp → h_free hp = true → p + 8 + h_size hp = b → h_prev_free hp = false) →
  ∃ a ha s' B' L', block_merge_prev b s = Done a s' ∧ open_at s' B' L' a ha ∧ h_prev_free ha = false ∧
    (∀ y m, live B' y m ↔ live B y m) ∧ writes (internal (control s) B (is_free_in B)) s s' ∧
    (∀ x, internal (control s) B' (is_free_in B') x → internal (control s) B (is_free_in B) x) ∧
    (∀ x, owned (control s) B' x → owned (control s) B x) ∧
    a + 8 + h_size ha = b + 8 + h_size h ∧ B' !! (b + 8 + h_size h) = B !! (b + 8 + h_size h).
Proof.
  intros [Hp HL Hls E Hf Hco] Hprev. pose proof Hp as [Hl Hm]. unfold block_merge_prev.
  rewrite (bind_done _ _ _ _ _ (is_prev_free_run s B b h Hp E)). destruct (h_prev_free h) eqn:Epf; cbn [negb].
  2: { exists b, h, s, B, L. split; [done|]. split; [by split|]. split; [done|]. split; [done|]. split; [by split|]. by auto. }
  destruct (ly_prev _ _ Hl b h E Epf) as (p & hp & Ep & Hfp & Hpb). specialize (Hprev eq_refl p hp Ep Hfp Hpb).
  destruct (ly_range _ _ Hl p hp Ep) as (Hp0 & _ & _). destruct (layout_large Hl p hp Ep) as [Hlp _]; [by left|].
  destruct (layout_large Hl b h E) as [Hlb _]; [by left|].
  rewrite (bind_done _ _ s p s).
  2: { unfold block_prev. rewrite (bind_done _ _ _ _ _ (is_prev_free_run s B b h Hp E)), assert_run by done.
       unfold prev_phys_block. rewrite load_run. f_equal. destruct (Hm p hp Ep) as [_ Hfoot]. rewrite <- Hpb at 1. auto. }
  rewrite assert_run by (by rewrite (proj2 (Z.eqb_neq p 0)) by lia).
  rewrite (bind_done _ _ _ _ _ (is_free_run s B p hp Hp Ep)), assert_run by done.
  destruct (remove_run s B L p hp b Hp HL Hls Ep Hfp ltac:(lia)) as (s1 & L1 & E1 & _ & Hp1 & HL1 & Hls1 & W1).
  rewrite (bind_done _ _ _ _ _ E1). pose proof W1 as (Hc1 & _).
  destruct (absorb_open s1 B L1 p hp h) as (s2 & E2 & Hop & Hlive & W2); [done|done|done|by rewrite Hpb|done|done| | |].
  { intros d y Hd. rewrite Hpb. by apply Hls1. }
  { rewrite Hpb. intros y hy N1 N2 N3. by apply Hco. }
  rewrite Hpb in E2. rewrite E2.
  eexists p, _, s2, _, L1. split; [done|]. split; [exact Hop|]. split; [done|]. split; [done|]. split; [|split; [|split; [|split; [simpl; lia|]]]].
  - apply writes_trans with s1; [done|]. by rewrite Hc1 in W2.
  - intros x. apply (join_internal _ _ _ _ _ _ _ _ Hl Ep ltac:(by rewrite Hpb)); [by exists hp|rewrite Hpb; by exists h|].
    intros y N. by apply join_is_free.
  - intros x. by apply (join_internal _ _ _ _ _ _ _ _ Hl Ep ltac:(by rewrite Hpb)).
  - by rewrite join_lookup, !decide_False by lia.
Qed.

(** [block_merge_next], after which every neighbour is coalesced. *)
Lemma merge_next_run s B L a h :
  open_at s B L a h → h_prev_free h = false →
  (∀ y hy, y ≠ a + 8 + h_size h → B !! y = Some hy → h_prev_free hy = true → h_free hy = false) →
  ∃ ha s' B' L', block_merge_next a s = Done a s' ∧ open_at s' B' L' a ha ∧ coalesced B' ∧
    (∀ y m, live B' y m ↔ live B y m) ∧ writes (internal (control s) B (is_free_in B)) s s' ∧
    (∀ x, internal (control s) B' (is_free_in B') x → internal (control s) B (is_free_in B) x) ∧
    (∀ x, owned (control s) B' x → owned (control s) B x).
Proof.
  intros [Hp HL Hls E Hf Hco] Hpf Hco2. pose proof Hp as [Hl Hm]. destruct (layout_large Hl a h E) as [Hla _]; [by left|].
  destruct (ly_next _ _ Hl a h E ltac:(lia)) as (h' & E' & Hpf'). destruct (ly_range _ _ Hl _ h' E') as (Hx0 & _ & _).
  unfold block_merge_next. rewrite (bind_done _ _ _ _ _ (next_run s B a h Hp E ltac:(lia))).
  rewrite assert_run by (by rewrite (proj2 (Z.eqb_neq _ 0)) by lia).
  rewrite (bind_done _ _ _ _ _ (is_free_run s B _ h' Hp E')). destruct (h_free h') eqn:Hf'; cbn [negb].
  2: { exists h, s, B, L. split; [done|]. split; [by split|]. split; [|split; [done|split; [by split|done]]].
       intros y hy Ey Hy. destruct (decide (y = a + 8 + h_size h)) as [->|]; [congruence|by apply (Hco2 y)]. }
  rewrite (bind_done _ _ _ _ _ (is_last_run s B a h Hp E)), assert_run by (by rewrite (proj2 (Z.eqb_neq _ 0)) by lia).
  destruct (layout_large Hl _ h' E') as [Hlx _]; [by left|].
  destruct (remove_run s B L (a + 8 + h_size h) h' a Hp HL Hls E' Hf' ltac:(lia)) as (s1 & L1 & E1 & _ & Hp1 & HL1 & Hls1 & W1).
  rewrite (bind_done _ _ _ _ _ E1). pose proof W1 as (Hc1 & _).
  destruct (absorb_open s1 B L1 a h h') as (s2 & E2 & Hop & Hlive & W2); [done..| | |].
  { intros d y Hd. rewrite (Hls1 d y Hd). tauto. }
  { intros y hy N1 N2 N3. by apply Hco. }
  rewrite E2. eexists _, s2, _, L1. split; [done|]. split; [exact Hop|]. split; [|split; [done|split; [|split]]].
  - intros y hy. rewrite join_lookup. repeat case_decide; [intros [= <-]; simpl; congruence|done|]. intros Ey Hy. by apply (Hco2 y).
  - apply writes_trans with s1; [done|]. by rewrite Hc1 in W2.
  - intros x. apply (join_internal _ _ _ _ _ _ _ _ Hl E E'); [by exists h|by exists h'|].
    intros y N. by apply join_is_free.
  - intros x. by apply (join_internal _ _ _ _ _ _ _ _ Hl E E').
Qed.

(** ** tlsf_free *)

(** The heap once a block of the caller is marked free, and before it is listed. *)
Section marked_free.
Context (s s1 : heap) (B : gmap Z hdr) (L : Z * Z → list Z) (b nx : Z) (h h' : hdr).
Hypothesis (Hok : heap_ok s B L) (E : B !! b = Some h) (Hf : h_free h = false) (Hlg : 24 ≤ h_size h).
Hypothesis (Enx : nx = b + 8 + h_size h) (E' : B !! nx = Some h').
Hypothesis (Hp1 : phys s1 (flip true b h nx h' B)).
Hypothesis (T1 : touches (λ x, x = b + 8 ∨ x = nx ∨ x = nx + 8) s s1).

Lemma freed_open : open_at s1 (flip true b h nx h' B) L b (with_free true h).
Proof.
  destruct Hok as ([Hl _] & HL & Hls & Hco). assert (Hne : nx ≠ b) by lia.
  pose proof (λ x, flip_lookup true b h nx h' B x Hne E E') as Hval.
  split; [done| | |by rewrite Hval, decide_True by done|done|].
  - apply (free_lists_headers s s1 B L _ HL Hl) with (2 := T1).
    + intros d y Hd Hy. apply Hls in Hy as (hy & Ey & Hfy & _); [|done]. by eapply free_linkable.
    + intros x [->|[-> | ->]]; [exists b, h|exists b, h|exists nx, h']; auto.
  - intros d y Hd. rewrite (Hls d y Hd). split.
    + intros Hfb. assert (y ≠ b) by (intros ->; destruct Hfb as (h2 & E2 & Hf2 & _); congruence). split; [done|]. by apply flip_free_block.
    + intros [N Hfb]. by apply flip_free_block in Hfb.
  - simpl. rewrite <- Enx. intros y hy N1 N2. rewrite Hval, !decide_False by done. by apply Hco.
Qed.

Lemma freed_writes : writes (internal (control s) B (λ z, z = b ∨ is_free_in B z)) s s1.
Proof.
  apply (writes_mono _ _ _ _) with (2 := touches_writes _ _ _ T1). intros z [->|[-> | ->]]; left.
  - exists b, h. auto.
  - exists b, h. split; [done|]. right. split; [by left|]. unfold span. lia.
  - exists nx, h'. auto.
Qed.

Lemma freed_internal z : internal (control s) (flip true b h nx h' B) (is_free_in (flip true b h nx h' B)) z →
  internal (control s) B (λ z, z = b ∨ is_free_in B z) z.
Proof.
  assert (Hne : nx ≠ b) by lia. apply flip_internal; [done..|]. intros w (hw & Ew & Hfw).
  rewrite flip_lookup in Ew by done. case_decide; [by left|right]. case_decide; [|by exists hw].
  subst w. injection Ew as <-. by exists h'.
Qed.
End marked_free.

(** Listing the open block closes the heap. *)
Lemma insert_open s B L a h :
  open_at s B L a h → coalesced B →
  ∃ s' L', block_insert a s = Done tt s' ∧ heap_ok s' B L' ∧ writes (internal (control s) B (is_free_in B)) s s'.
Proof.
  intros [Hp HL Hls Eb Hf _] Hco.
  assert (Hpos : ∀ d y, free_block B d y → y ≠ 0).
  { intros d y (hy & Ey & _). destruct (ly_range _ _ (proj1 Hp) y hy Ey). lia. }
  destruct (insert_run s B L a h 0 Hp HL) as (s4 & L4 & E4 & Hp4 & HL4 & Hls4 & W4).
  - intros d y Hd. rewrite (Hls d y Hd). split; [|tauto]. intros [N Hfb]. eauto.
  - done.
  - done.
  - destruct (ly_range _ _ (proj1 Hp) a h Eb). lia.
  - exists s4, L4. split; [exact E4|]. split; [|exact W4]. split; [done|]. split; [done|]. split; [|done].
    intros d y Hd. rewrite (Hls4 d y Hd). split; [tauto|]. eauto.
Qed.

Lemma tlsf_free_run s B L b n :
  heap_ok s B L → live B b n →
  ∃ s' B' L', tlsf_free (b + 16) s = Done tt s' ∧ heap_ok s' B' L' ∧ pending s' = pending s ∧ confined s s' B B' ∧ (∀ y m, live B' y m ↔ y ≠ b ∧ live B y m) ∧
    ∀ y m x, y ≠ b → live B y m → y + 16 ≤ x < y + 16 + m → word s' x = word s x.
Proof.
  intros Hok (h & E & Hf & Hn & Hn0). pose proof Hok as (Hp & _ & _ & Hco). pose proof Hp as [Hl Hm].
  destruct (ly_range _ _ Hl b h E) as (Hb0 & Hb8 & Hb1). destruct (layout_large Hl b h E) as [Hlg _]; [right; lia|].
  destruct (ly_next _ _ Hl b h E ltac:(lia)) as (h' & E' & Hpf).
  unfold tlsf_free. rewrite (proj2 (Z.eqb_neq (b + 16) 0)) by lia.
  assert (Hfp : block_from_ptr (b + 16) = b) by (unfold block_from_ptr; change block_start_offset with 16; rewrite wrap64_small by lia; lia).
  cbv zeta. rewrite Hfp, (bind_done _ _ _ _ _ (is_free_run s B b h Hp E)), assert_run by (by rewrite Hf).
  destruct (mark_free_run s B b h Hp E ltac:(lia) h' E') as (s1 & E1 & Hp1 & T1). rewrite (bind_done _ _ _ _ _ E1).
  remember (b + 8 + h_size h) as nx eqn:Enx. assert (Hne : nx ≠ b) by lia.
  pose proof (freed_open s s1 B L b nx h h' Hok E Hf Hlg Enx E' Hp1 T1) as Hop.
  pose proof (freed_writes s s1 B b nx h h' E Hlg Enx E' T1) as W1.
  pose proof (freed_internal s B b nx h h' E Hlg Enx E') as I1. pose proof (flip_lookup true b h nx h' B) as Hval.
  set (B1 := flip true b h nx h' B) in *. pose proof T1 as (Hc1 & _).
  destruct (merge_prev_run s1 B1 L b (with_free true h) Hop) as (a & ha & s2 & B2 & L2 & E2 & Hop2 & Hpa & Hlive2 & W2 & I2 & O2 & Hend & Enx2).
  { simpl. intros Hpb p hp Ep Hfh Hpe. destruct (layout_size (proj1 Hp1) p hp Ep) as [_ ?]. rewrite Hval in Ep by done. rewrite !decide_False in Ep by lia.
    destruct (h_prev_free hp) eqn:Epp; [|done]. by rewrite (Hco p hp Ep Epp) in Hfh. }
  rewrite (bind_done _ _ _ _ _ E2). simpl in Hend, Enx2. rewrite <- Enx in Hend, Enx2.
  destruct (merge_next_run s2 B2 L2 a ha Hop2 Hpa) as (hb & s3 & B3 & L3 & E3 & Hop3 & Hco3 & Hlive3 & W3 & I3 & O3).
  { intros y hy N Ey Hy. destruct (decide (y = a)) as [->|]; [|by apply (op_coalesced _ _ _ _ _ Hop2 y hy)].
    rewrite (op_block _ _ _ _ _ Hop2) in Ey. injection Ey as <-. congruence. }
  rewrite (bind_done _ _ _ _ _ E3). destruct (insert_open s3 B3 L3 a hb Hop3 Hco3) as (s4 & L4 & E4 & Hok4 & W4).
  exists s4, B3, L4. split; [exact E4|]. split; [exact Hok4|].
  assert (Hlive : ∀ y m, live B3 y m ↔ y ≠ b ∧ live B y m).
  { intros y m. rewrite Hlive3, Hlive2. by apply flip_live_free. }
  set (P := λ z, z = b ∨ is_free_in B z) in *.
  pose proof W2 as (Hc2 & _). pose proof W3 as (Hc3 & _). rewrite Hc2, Hc1 in *. rewrite Hc3 in W4. 
  assert (W : writes (internal (control s) B P) s s4).
  { apply writes_trans with s1; [done|]. apply writes_trans with s2; [by apply (writes_mono _ _ _ _ I1)|].
    apply writes_trans with s3; [apply (writes_mono _ _ _ _) with (2 := W3); auto|].
    apply (writes_mono _ _ _ _) with (2 := W4). auto. }
  split; [apply W|]. split; [apply (writes_confined P _ _ _ _ W)|split; [done|]].
  { intros x Hx. apply O3, O2 in Hx. by apply (flip_internal _ _ (λ _, True) (λ _, True) true b h nx h'). }
  intros y m x N Hy Hx.
  apply (live_untouched (control s) B P s s4 y m x Hl W Hy); [|done].
  intros [?|(hy & Ey & Hfy)]; [done|]. destruct Hy as (h2 & E2' & Hf2 & _). congruence.
Qed.

(** C37: [tlsf_free] of a block of the caller returns; the block is no longer the
    caller's, everything else he owns stays his with its contents, and the heap
    satisfies the invariant again, so the freed block has been merged with its free
    neighbours and listed. *)
Theorem tlsf_free_spec s B L b n :
  heap_ok s B L → live B b n →
  ∃ s' B' L', tlsf_free (b + 16) s = Done tt s' ∧ heap_ok s' B' L' ∧ (∀ y m, live B' y m ↔ y ≠ b ∧ live B y m) ∧
    ∀ y m x, y ≠ b → live B y m → y + 16 ≤ x < y + 16 + m → word s' x = word s x.
Proof.
  intros Hok Hlv. destruct (tlsf_free_run s B L b n Hok Hlv) as (s' & B' & L' & E & Hok' & _ & _ & Hlive & Hkeep). by exists s', B', L'.
Qed.

(** ** Pools *)

(** A new pool: one free block of [n] bytes at [b] and its sentinel. *)
Definition with_pool (b n : Z) (B : gmap Z hdr) : gmap Z hdr :=
  <[b := Hdr n true false]> (<[b + 8 + n := Hdr 0 false true]> B).

Section pool.
Context {c : Z} {B : gmap Z hdr} {b n : Z}.
Hypothesis (H : layout c B) (Hb : 0 < b ∧ b mod 8 = 0) (Hn : 24 ≤ n < block_size_max ∧ n mod 8 = 0) (He : b + 24 + n < U64).
Hypothesis (Hapart : ∀ y hy, B !! y = Some hy → y + 8 + h_size hy ≤ b ∨ b + 16 + n ≤ y).
Hypothesis (Hctl : c + 32 ≤ b ∨ b + 24 + n ≤ c).

Lemma with_pool_lookup y : with_pool b n B !! y =
  if decide (y = b) then Some (Hdr n true false) else if decide (y = b + 8 + n) then Some (Hdr 0 false true) else B !! y.
Proof.
  unfold with_pool. destruct (decide (y = b)) as [->|]; [by rewrite lookup_insert_eq|]. rewrite lookup_insert_ne by done.
  destruct (decide (y = b + 8 + n)) as [->|]; [by rewrite lookup_insert_eq|]. by rewrite lookup_insert_ne.
Qed.

Lemma layout_pool : layout c (with_pool b n B).
Proof.
  pose proof with_pool_lookup as Hval. destruct Hn as [Hn1 Hn8], Hb as [Hb0 Hb8].
  assert (Hold : ∀ y hy, B !! y = Some hy → y ≠ b ∧ y ≠ b + 8 + n ∧ 0 ≤ h_size hy).
  { intros y hy Ey. pose proof (layout_size H y hy Ey) as [_ ?]. destruct (Hapart y hy Ey); lia. }
  assert (Hcases : ∀ y hy, with_pool b n B !! y = Some hy →
    (y = b ∧ hy = Hdr n true false) ∨ (y = b + 8 + n ∧ hy = Hdr 0 false true) ∨ B !! y = Some hy).
  { intros y hy. rewrite Hval. repeat case_decide; [intros [= <-]..|]; auto. }
  assert (Hkeep : ∀ y hy, B !! y = Some hy → with_pool b n B !! y = Some hy).
  { intros y hy Ey. destruct (Hold y hy Ey) as (? & ? & _). by rewrite Hval, !decide_False. }
  assert (Ee : with_pool b n B !! (b + 8 + n) = Some (Hdr 0 false true)) by (rewrite Hval, decide_False, decide_True by lia; done).
  split.
  - intros y hy Ey. destruct (Hcases y hy Ey) as [[-> ->]|[[-> ->]|E0]]; simpl; [lia| |by apply (ly_range _ _ H)].
    split; [lia|]. split; [mlia|lia].
  - intros y hy Ey. destruct (Hcases y hy Ey) as [[-> ->]|[[-> ->]|E0]]; simpl; [right|by left|].
    + split; [lia|]. split; [done|]. exists b, (b + 8 + n), (Hdr 0 false true). split; [lia|]. split; [lia|]. split; [lia|done].
    + destruct (ly_size _ _ H _ hy E0) as [?|(? & ? & ?)]; [by left|right]. split; [done|]. split; [done|].
      apply (in_pool_mono B); [|done]. intros e he Eh Hz. exists he. auto.
  - intros y hy Ey Hy. destruct (Hcases y hy Ey) as [[-> ->]|[[-> ->]|E0]]; simpl in *; [by eexists|done|].
    destruct (ly_next _ _ H y hy E0 Hy) as (h2 & E2 & Hpf). exists h2. auto.
  - intros y hy Ey Hpf. destruct (Hcases y hy Ey) as [[-> ->]|[[-> ->]|E0]]; simpl in *; [done| |].
    + eexists b, _. rewrite Hval, decide_True by done. done.
    + destruct (ly_prev _ _ H y hy E0 Hpf) as (p & hp & Ep & ? & ?). exists p, hp. auto.
  - assert (Hside : ∀ y hy, B !! y = Some hy → no_overlap b n y (h_size hy) ∧ no_overlap (b + 8 + n) 0 y (h_size hy)).
    { intros y hy Ey. unfold no_overlap. destruct (Hapart y hy Ey); lia. }
    intros x y hx hy Ex Ey N. 
    destruct (Hcases x hx Ex) as [[-> ->]|[[-> ->]|E0]], (Hcases y hy Ey) as [[-> ->]|[[-> ->]|E1]]; simpl; try done.
    + unfold no_overlap. lia.
    + apply (Hside y hy E1).
    + unfold no_overlap. lia.
    + apply (Hside y hy E1).
    + destruct (Hside x hx E0). unfold no_overlap in *. lia.
    + destruct (Hside x hx E0). unfold no_overlap in *. lia.
    + by apply (ly_disjoint _ _ H).
  - intros y hy Ey. destruct (Hcases y hy Ey) as [[-> ->]|[[-> ->]|E0]]; simpl; [lia|lia|by apply (ly_control _ _ H)].
Qed.
End pool.

(** The bytes of a pool that blocks can use. *)
Definition pool_bytes (bytes : Z) : Z := bytes - 16 - (bytes - 16) mod 8.

Lemma align_down_run bytes s : 16 ≤ bytes < U64 →
  align_down (wrap64 (bytes - tlsf_pool_overhead)) ALIGN_SIZE s = Done (pool_bytes bytes) s.
Proof.
  intros Hb. unfold align_down. rewrite pow2_8. change tlsf_pool_overhead with 16. change (ALIGN_SIZE - 1) with (Z.ones 3).
  rewrite (bind_done _ _ s tt s) by done. rewrite wrap64_small, Z.land_ones by lia. done.
Qed.

(** The stores of [tlsf_add_pool] before and after the insertion. *)
Lemma pool_head_run s b n : 0 ≤ b + 8 < U64 → size_ok n →
  ∃ s', (∀ A (k : K heap A), (block_set_size b n;; block_set_free b;; block_set_prev_used b;; k) s = k s') ∧
    touches (λ x, x = b + 8) s s' ∧ word s' (b + 8) = enc n true false.
Proof.
  intros Hb Hn. destruct (block_set_size_any s b n Hn) as (f & p & E). eexists. split; [|split].
  - intros A k. rewrite (bind_done _ _ _ _ _ E).
    rewrite (bind_done _ _ _ tt (poke (b + 8) (enc n true p) (poke (b + 8) (enc n f p) s))) by (eapply block_set_free_run; [apply word_poke|done]).
    rewrite (bind_done _ _ _ tt (poke (b + 8) (enc n true false) (poke (b + 8) (enc n true p) (poke (b + 8) (enc n f p) s)))); [reflexivity|].
    eapply block_set_prev_used_run; [apply word_poke|done].
  - repeat (eapply touches_trans; [|by apply touches_poke]). apply touches_refl.
  - apply word_poke.
Qed.
Lemma pool_tail_run s e : 0 ≤ e + 8 < U64 →
  ∃ s', (∀ A (k : K heap A), (block_set_size e 0;; block_set_used e;; block_set_prev_free e;; k) s = k s') ∧
    touches (λ x, x = e + 8) s s' ∧ word s' (e + 8) = enc 0 false true.
Proof.
  intros Hb. destruct (block_set_size_any s e 0 ltac:(done)) as (f & p & E). eexists. split; [|split].
  - intros A k. rewrite (bind_done _ _ _ _ _ E).
    rewrite (bind_done _ _ _ tt (poke (e + 8) (enc 0 false p) (poke (e + 8) (enc 0 f p) s))) by (eapply block_set_used_run; [apply word_poke|done]).
    rewrite (bind_done _ _ _ tt (poke (e + 8) (enc 0 false true) (poke (e + 8) (enc 0 false p) (poke (e + 8) (enc 0 f p) s)))); [reflexivity|].
    eapply block_set_prev_free_run; [apply word_poke|done].
  - repeat (eapply touches_trans; [|by apply touches_poke]). apply touches_refl.
  - apply word_poke.
Qed.

(** Memory that [tlsf_add_pool] may have: apart from the blocks and from the null block. *)
Definition pool_ok (c : Z) (B : gmap Z hdr) (mem bytes : Z) : Prop :=
  8 < mem ∧ mem mod 8 = 0 ∧ 40 ≤ bytes ∧ pool_bytes bytes < block_size_max ∧ mem + bytes < U64 ∧
  (∀ y hy, B !! y = Some hy → y + 16 + h_size hy ≤ mem ∨ mem + bytes ≤ y + 8) ∧ (c + 40 ≤ mem ∨ mem + bytes ≤ c).

Section add_pool.
Context (s s1 s2 s4 : heap) (B : gmap Z hdr) (L : Z * Z → list Z) (mem bytes : Z).
Local Notation size := (pool_bytes bytes).
Local Notation first := (mem - 8).
Local Notation last := (mem + pool_bytes bytes).
Hypothesis Hok : heap_ok s B L.
Hypothesis Hpool : pool_ok (control s) B mem bytes.

Lemma pool_facts : 8 < mem ∧ first mod 8 = 0 ∧ mem + bytes < U64 ∧ size mod 8 = 0 ∧ bytes - 24 < size ≤ bytes - 16 ∧
  24 ≤ size < 0x100000000 ∧ (control s + 40 ≤ mem ∨ mem + bytes ≤ control s).
Proof.
  destruct Hpool as (Hm0 & Hm8 & Hby & Hmax & Hfit & _ & Hct). change block_size_max with 0x100000000 in Hmax.
  unfold pool_bytes in *. split_and!; mlia || lia.
Qed.

Lemma pool_class : in_index (mapping_insert size).
Proof. destruct pool_facts as (_ & _ & _ & _ & _ & ? & _). apply class_in_index; change block_size_max with 0x100000000; lia. Qed.

(** The blocks already there are apart from the pool. *)
Lemma pool_side y hy : B !! y = Some hy → y + 16 + h_size hy ≤ mem ∨ last + 16 ≤ y + 8.
Proof.
  intros Ey. destruct Hpool as (_ & _ & _ & _ & _ & Hap & _). destruct pool_facts as (_ & _ & _ & _ & ? & _).
  destruct (Hap y hy Ey); lia.
Qed.

Lemma pool_linked d y : in_index d → y ∈ L d → ∃ hy, B !! y = Some hy ∧ h_free hy = true ∧ mapping_insert (h_size hy) = d ∧
  24 ≤ h_size hy ∧ 0 < y ∧ (y + 16 + h_size hy ≤ mem ∨ last + 16 ≤ y + 8).
Proof.
  destruct Hok as ([Hl _] & _ & Hls & _). intros Hd Hy. apply Hls in Hy as (hy & Ey & Hfy & Hcl); [|done].
  exists hy. split_and!; try done; [apply (layout_large Hl y hy Ey); by left|apply (ly_range _ _ Hl y hy Ey)|by apply (pool_side y)].
Qed.

Lemma pool_listed : listed (with_pool first size B) (upd_list (mapping_insert size) (first :: L (mapping_insert size)) L).
Proof.
  destruct Hok as (_ & _ & Hls & _). destruct pool_facts as (_ & _ & _ & _ & _ & Hsz & _).
  intros d y Hd. unfold free_block. rewrite with_pool_lookup. unfold upd_list. split.
  - destruct (decide (d = mapping_insert size)) as [->|D].
    + intros [->|Hy]%elem_of_cons; [rewrite decide_True by done; by eexists|].
      destruct (pool_linked _ y pool_class Hy) as (hy & Ey & ? & ? & ? & ? & ?). rewrite !decide_False by lia. by exists hy.
    + intros Hy. destruct (pool_linked _ y Hd Hy) as (hy & Ey & ? & ? & ? & ? & ?). rewrite !decide_False by lia. by exists hy.
  - intros (hy & Ey & Hfy & Hcl). destruct (decide (y = first)) as [->|Nb].
    { injection Ey as <-. rewrite decide_True by done. by left. }
    destruct (decide (y = first + 8 + size)); [by injection Ey as <-|].
    assert (Hyd : y ∈ L d) by (apply Hls; [done|]; by exists hy).
    destruct (decide (d = mapping_insert size)) as [D|]; [|exact Hyd]. rewrite <- D. by right.
Qed.

Lemma pool_coalesced : coalesced (with_pool first size B).
Proof.
  destruct Hok as (_ & _ & _ & Hco). intros y hy. rewrite with_pool_lookup.
  repeat case_decide; [by intros [= <-]..|]. apply Hco.
Qed.

Lemma pool_owned x : owned (control s) (with_pool first size B) x → owned (control s) B x ∨ mem ≤ x < mem + bytes.
Proof.
  destruct pool_facts as (_ & _ & _ & _ & ? & ? & _).
  intros [(y & hy & Ey & Hy)|Hx]; [|left; by right]. rewrite with_pool_lookup in Ey.
  destruct (decide (y = first)) as [->|]; [injection Ey as <-; right; unfold span in *; simpl in Hy; lia|].
  destruct (decide (y = first + 8 + size)) as [->|]; [injection Ey as <-; right; unfold span in *; simpl in Hy; lia|].
  left. left. by exists y, hy.
Qed.

(** The stores: the header at [s1], the insertion at [s2], the sentinel at [s4]. *)
Hypothesis T1 : touches (λ x, x = first + 8) s s1.
Hypothesis W1 : word s1 (first + 8) = enc size true false.
Hypothesis L2 : free_lists s2 (upd_list (mapping_insert size) (first :: L (mapping_insert size)) L).
Hypothesis T2 : writes (λ x, link_word s1 L x ∨ x = first + 16 ∨ x = first + 24) s1 s2.
Hypothesis T4 : touches (λ x, x = last + 8) (poke last first s2) s4.
Hypothesis W4 : word s4 (last + 8) = enc 0 false true.

Local Notation W := (λ x, x = first + 8 ∨ link_word s1 L x ∨ x = first + 16 ∨ x = first + 24 ∨ x = last ∨ x = last + 8).

Lemma pool_tail : touches (λ x, x = last ∨ x = last + 8) s2 s4.
Proof.
  destruct pool_facts as (? & _ & ? & _ & ? & ? & _).
  apply touches_trans with (poke last first s2); [apply touches_poke; [lia|by left]|].
  apply (touches_mono _ _ _ _) with (2 := T4). auto.
Qed.

Lemma pool_writes : writes W s s4.
Proof.
  apply writes_trans with s1; [apply (writes_mono _ _ _ _) with (2 := touches_writes _ _ _ T1); auto|].
  apply writes_trans with s2; [apply (writes_mono _ _ _ _) with (2 := T2); tauto|].
  apply (writes_mono _ _ _ _) with (2 := touches_writes _ _ _ pool_tail). tauto.
Qed.

Lemma pool_no_link x : mem ≤ x < last + 16 → ¬ link_word s1 L x.
Proof.
  destruct pool_facts as (? & _ & ? & _ & ? & ? & ?). pose proof T1 as (Hc & _).
  intros Hx (y & [->|(d & Hd & Hy)] & Hyx); [lia|].
  destruct (pool_linked d y Hd Hy) as (hy & _ & _ & _ & ? & ? & ?). lia.
Qed.

Lemma pool_head2 : word s2 (first + 8) = enc size true false.
Proof.
  destruct pool_facts as (? & _ & ? & _ & ? & ? & _). pose proof T2 as (_ & _ & Hw).
  rewrite Hw; [exact W1|lia|]. intros [Hx|?]; [|lia]. by apply (pool_no_link (first + 8)); [lia|].
Qed.

(** The words of an existing block that are written: the links of a free one. *)
Lemma pool_span y hy x : B !! y = Some hy → W x → span y (h_size hy) x →
  24 ≤ h_size hy ∧ h_free hy = true ∧ (x = y + 16 ∨ x = y + 24).
Proof.
  destruct Hok as ([Hl _] & _). destruct pool_facts as (_ & _ & _ & _ & _ & ? & _). pose proof T1 as (Hc & _).
  intros Ey HW Hs. assert (Hlw : link_word s1 L x).
  { destruct HW as [->|[?|Hx]]; [|done|]; exfalso; destruct (pool_side y hy Ey); unfold span in *; lia. }
  destruct Hlw as (z & [->|(d & Hd & Hz)] & Hzx).
  - pose proof (ly_control _ _ Hl y hy Ey). unfold span in *. lia.
  - destruct (pool_linked d z Hd Hz) as (hz & Ez & Hfz & _ & ? & _).
    destruct (decide (z = y)) as [->|Nz]; [rewrite Ey in Ez; by injection Ez as <-|].
    exfalso. refine (span_apart Hl z y hz hy x x Ez Ey Nz _ Hs eq_refl). unfold span. lia.
Qed.

Lemma pool_phys : phys s4 (with_pool first size B).
Proof.
  destruct Hok as ([Hl Hm] & _). destruct pool_facts as (? & ? & ? & ? & ? & ? & ?). pose proof pool_writes as Hw. split.
  - destruct Hw as (-> & _). apply layout_pool; [done|lia| |lia| |lia].
    + change block_size_max with 0x100000000. lia.
    + intros y hy Ey. destruct (pool_side y hy Ey); lia.
  - intros y hy. rewrite with_pool_lookup. pose proof pool_tail as (_ & _ & _ & _ & _ & Hwt). pose proof T4 as (_ & _ & _ & _ & _ & Hw4).
    repeat case_decide; [subst y; intros [= <-]..|intros Ey].
    + split; [cbn [h_size h_free h_prev_free]; rewrite Hwt by lia; exact pool_head2|].
      intros _. cbn [h_size]. replace (first + 8 + size) with last by lia. rewrite Hw4 by lia. apply word_poke.
    + split; [|done]. replace (first + 8 + size + 8) with (last + 8) by lia. exact W4.
    + destruct (ly_range _ _ Hl y hy Ey) as (? & ? & ?). pose proof (layout_size Hl y hy Ey) as [_ ?].
      apply (marked1_frame s s4 W); [done|lia..| | |by apply Hm].
      * intros Hx. destruct (pool_span y hy _ Ey Hx); [unfold span; lia|lia].
      * intros _ Hx. destruct (pool_span y hy _ Ey Hx); [unfold span; lia|lia].
Qed.

Lemma pool_lists : free_lists s4 (upd_list (mapping_insert size) (first :: L (mapping_insert size)) L).
Proof.
  destruct pool_facts as (? & _ & ? & _ & ? & ? & _).
  apply (free_lists_frame _ _ _ _ L2 pool_tail). intros d y Hd. unfold upd_list. case_decide as D.
  - intros [->|Hy]%elem_of_cons; [split; lia|].
    destruct (pool_linked _ y pool_class Hy) as (hy & _ & _ & _ & ? & ? & ?). split; lia.
  - intros Hy. destruct (pool_linked _ y Hd Hy) as (hy & _ & _ & _ & ? & ? & ?). split; lia.
Qed.

Lemma pool_frame x : 0 ≤ x < U64 → ¬ owned (control s) B x → ¬ mem ≤ x < mem + bytes → word s4 x = word s x.
Proof.
  destruct pool_facts as (? & _ & ? & _ & ? & ? & _). pose proof T1 as (Hc & _).
  intros Hx Hno Hni. destruct pool_writes as (_ & _ & Hw). apply Hw; [done|].
  intros [->|[(z & [->|(d & Hd & Hz)] & Hzx)|Hxe]]; [lia|apply Hno..|lia].
  - right. rewrite Hc in Hzx. lia.
  - destruct (pool_linked d z Hd Hz) as (hz & Ez & Hfz & _ & ? & _).
    left. exists z, hz. split; [done|]. right. split; [done|]. unfold span. lia.
Qed.

Lemma pool_live y m x : live B y m → y + 16 ≤ x < y + 16 + m → word s4 x = word s x.
Proof.
  destruct Hok as ([Hl _] & _). intros (hy & Ey & Hfy & Hmy & Hm0) Hx.
  destruct (ly_range _ _ Hl y hy Ey) as (? & ? & ?). destruct pool_writes as (_ & _ & Hw).
  apply Hw; [lia|]. intros HW. destruct (pool_span y hy x Ey HW) as (_ & Hf & _); [unfold span; lia|]. congruence.
Qed.
End add_pool.

Lemma add_pool_run s B L mem bytes :
  heap_ok s B L → pool_ok (control s) B mem bytes →
  ∃ s' L', tlsf_add_pool mem bytes s = Done mem s' ∧ heap_ok s' (with_pool (mem - 8) (pool_bytes bytes) B) L' ∧
    control s' = control s ∧ pending s' = pending s ∧
    (∀ x, owned (control s) (with_pool (mem - 8) (pool_bytes bytes) B) x → owned (control s) B x ∨ mem ≤ x < mem + bytes) ∧
    (∀ x, 0 ≤ x < U64 → ¬ owned (control s) B x → ¬ mem ≤ x < mem + bytes → word s' x = word s x) ∧
    ∀ y m x, live B y m → y + 16 ≤ x < y + 16 + m → word s' x = word s x.
Proof.
  intros Hok Hpool. destruct (pool_facts s B mem bytes Hpool) as (? & ? & ? & ? & ? & ? & ?).
  pose proof (pool_class s B mem bytes Hpool) as Hcin. set (n := pool_bytes bytes) in *.
  pose proof (λ d y, pool_linked s B L mem bytes Hok Hpool d y) as Hlinked.
  assert (Hsn : size_ok n) by (split; [done|unfold U64; lia]).
  destruct (pool_head_run s (mem - 8) n) as (s1 & E1 & T1 & W1); [lia|done|].
  assert (HL1 : free_lists s1 L).
  { apply (free_lists_frame _ _ _ _ (proj1 (proj2 Hok)) T1). intros d y Hd Hy.
    destruct (Hlinked d y Hd Hy) as (hy & _ & _ & _ & ? & ? & ?). split; lia. }
  destruct (insert_spec s1 L (mapping_insert n) (mem - 8) HL1 Hcin) as (s2 & E2 & HL2 & T2).
  { pose proof T1 as (Hc1 & _). split; [lia|]. split; [lia|]. split; [done|]. split; [rewrite Hc1; unfold apart; lia|].
    intros d y Hd Hy. destruct (Hlinked d y Hd Hy) as (hy & _ & _ & _ & ? & ? & ?). unfold apart. lia. }
  destruct (pool_tail_run (poke (mem + n) (mem - 8) s2) (mem + n)) as (s4 & E4 & T4 & W4); [lia|].
  pose proof (pool_writes s s1 s2 s4 B L mem bytes Hpool T1 T2 T4) as (Hc & Hp & _).
  exists s4, (upd_list (mapping_insert n) (mem - 8 :: L (mapping_insert n)) L). split; cycle 1.
  { split; [split; [|split; [|split]]|split; [exact Hc|split; [exact Hp|split; [|split]]]].
    - by apply (pool_phys s s1 s2 s4 B L).
    - by apply (pool_lists s s2 s4 B).
    - by apply (pool_listed s).
    - by apply (pool_coalesced s B L).
    - intros x. by apply pool_owned.
    - intros x. by apply (pool_frame s s1 s2 s4 B L).
    - intros y m x. by apply (pool_live s s1 s2 s4 B L mem bytes). }
  unfold tlsf_add_pool. rewrite (bind_done _ _ _ _ _ (align_down_run bytes s ltac:(unfold U64 in *; lia))). fold n.
  rewrite (proj2 (Z.eqb_eq (mem mod ALIGN_SIZE) 0)) by apply Hpool. cbn [negb].
  rewrite (proj2 (Z.ltb_ge _ _)), (proj2 (Z.ltb_ge _ _)) by (change block_size_min with 24; change block_size_max with 0x100000000; lia). cbn [orb].
  assert (Eb : offset_to_block mem (- block_header_overhead) = mem - 8).
  { unfold offset_to_block. change block_header_overhead with 8. rewrite wrap64_small by lia. lia. }
  rewrite Eb, E1. rewrite (bind_done _ _ s1 tt s2).
  2: { unfold block_insert. rewrite (bind_done _ _ s1 n s1) by (eapply block_size_run; done). by destruct (mapping_insert n). }
  rewrite (bind_done _ _ s2 (mem + n) (poke (mem + n) (mem - 8) s2)).
  2: { replace (mem + n) with (mem - 8 + 8 + n) by lia.
       eapply block_link_next_run; [by apply (pool_head2 s s1 s2 B L)|done|lia]. }
  exact (E4 _ (mret mem)).
Qed.

(** ** A new heap *)

Lemma const_map_lookup `{Countable A} (l : list A) (v : Z) i : i ∈ l → (list_to_map ((λ j, (j, v)) <$> l) : gmap A Z) !! i = Some v.
Proof.
  induction l as [|j l IH]; simpl; [by intros ?%elem_of_nil|]. intros [->|Hi]%elem_of_cons; [by rewrite lookup_insert_eq|].
  destruct (decide (i = j)) as [->|]; [by rewrite lookup_insert_eq|]. rewrite lookup_insert_ne by done. auto.
Qed.
Lemma all_lists_elem c : in_index c → c ∈ all_lists.
Proof.
  intros [Hi Hj]. unfold all_lists. destruct c as [i j]. apply list_elem_of_bind. exists i. split; [|apply elem_of_seqZ; cbn [fst] in *; lia].
  apply list_elem_of_bind. exists j. split; [by left|]. apply elem_of_seqZ; cbn [snd] in *; lia.
Qed.

Lemma empty_lists s : 0 < control s ∧ control s + 32 < U64 → (∀ c, in_index c → blocks s !! c = Some (control s)) →
  (∀ i, 0 ≤ i < FL_INDEX_COUNT → sl_bitmap s !! i = Some 0) → fl_bitmap s = 0 → free_lists s (λ _, []).
Proof.
  intros Hc Hb Hs Hf. split; [done|done|done| | | | | |].
  - intros i Hi. exists 0. split; [by apply Hs|]. split; [done|]. rewrite Hf. split; [intros; by rewrite Z.bits_0|]. by rewrite Z.bits_0.
  - by rewrite Hf.
  - intros c b _ Hx. by apply elem_of_nil in Hx.
  - intros c d a b _ _ Hx. by apply elem_of_nil in Hx.
  - intros. apply NoDup_nil_2.
  - intros c d b _ _ Hx. by apply elem_of_nil in Hx.
Qed.

Lemma create_run s mem : 0 < mem → mem mod 8 = 0 → mem + 32 < U64 →
  ∃ s', tlsf_create mem s = Done mem s' ∧ heap_ok s' ∅ (λ _, []) ∧ control s' = mem ∧ pending s' = pending s ∧
    ∀ x, 0 ≤ x < U64 → x ≠ mem + 16 → x ≠ mem + 24 → word s' x = word s x.
Proof.
  intros Hm H8 Hr. unfold tlsf_create. rewrite (proj2 (Z.eqb_eq (mem mod ALIGN_SIZE) 0)) by done. cbn [negb].
  eexists. split; [reflexivity|]. split; [|split; [done|split; [done|]]].
  - split; [split; [split; intros * E; by rewrite lookup_empty in E|intros b h E; by rewrite lookup_empty in E]|].
    split; [|split; [|intros b h E; by rewrite lookup_empty in E]].
    + apply empty_lists; [simpl; lia|intros c Hc; by apply const_map_lookup, all_lists_elem|
        intros i Hi; by apply const_map_lookup, elem_of_seqZ|reflexivity].
    + intros c b _. split; [by intros ?%elem_of_nil|]. intros (h & E & _). by rewrite lookup_empty in E.
  - intros x Hx N1 N2. etrans; [apply (word_poke_ne (mem + 24) x mem); lia|].
    set (s0 := Heap mem (fl_bitmap s) (sl_bitmap s) (blocks s) (pending s) (words s)). exact (word_poke_ne (mem + 16) x mem s0 ltac:(lia) Hx ltac:(lia)).
Qed.

Lemma tlsf_create_with_pool_run s mem bytes :
  0 < mem → mem mod 8 = 0 → tlsf_size + 40 ≤ bytes → mem + bytes < U64 → pool_bytes (bytes - tlsf_size) < block_size_max →
  ∃ s' L, let B := with_pool (mem + tlsf_size - 8) (pool_bytes (bytes - tlsf_size)) ∅ in
    tlsf_create_with_pool mem bytes s = Done mem s' ∧ control s' = mem ∧ heap_ok s' B L ∧ (∀ b m, ¬ live B b m) ∧
    pending s' = pending s ∧ (∀ x, owned mem B x → mem ≤ x < mem + bytes) ∧
    ∀ x, 0 ≤ x < U64 → ¬ mem ≤ x < mem + bytes → word s' x = word s x.
Proof.
  intros Hm H8 Hb Hr Hmax. change tlsf_size with 6536 in *. unfold tlsf_create_with_pool. change tlsf_size with 6536.
  destruct (create_run s mem Hm H8) as (s1 & E1 & Hok & Hc & Hp & Hw1); [lia|]. rewrite (bind_done _ _ _ _ _ E1).
  rewrite !wrap64_small by lia.
  destruct (add_pool_run s1 ∅ _ (mem + 6536) (bytes - 6536) Hok) as (s2 & L & E2 & Hok2 & Hc2 & Hp2 & Ho2 & Hw2 & _).
  { split; [lia|]. split; [mlia|]. split; [lia|]. split; [done|]. split; [lia|]. split; [intros ? ? E; by rewrite lookup_empty in E|]. rewrite Hc. lia. }
  rewrite Hc in *. assert (Hno : ∀ x, owned mem ∅ x → x = mem + 16 ∨ x = mem + 24).
  { intros x [(y & hy & Ey & _)|?]; [by rewrite lookup_empty in Ey|done]. }
  rewrite (bind_done _ _ _ _ _ E2). exists s2, L. split; [done|]. split; [congruence|]. split; [done|].
  split; [|split; [congruence|split]].
  2:{ intros x Hx. destruct (Ho2 x Hx) as [Hx1|?]; [destruct (Hno x Hx1)|]; lia. }
  2:{ intros x Hx Hn. rewrite Hw2; [apply Hw1; lia|done|intros Hx1; destruct (Hno x Hx1); lia|lia]. }
  intros b m (h & E & Hf & Hn & Hn0). rewrite with_pool_lookup in E. repeat case_decide; [by injection E as <-|injection E as <-; simpl in *; lia|].
  by rewrite lookup_empty in E.
Qed.

(** C38: [tlsf_create_with_pool] on [bytes] aligned bytes at [mem] makes a heap that
    satisfies the invariant: one free block that fills the pool behind the control
    structure, its sentinel, and nothing that belongs to the caller. *)
Theorem tlsf_create_with_pool_spec s mem bytes :
  0 < mem → mem mod 8 = 0 → tlsf_size + 40 ≤ bytes → mem + bytes < U64 → pool_bytes (bytes - tlsf_size) < block_size_max →
  ∃ s' L, let B := with_pool (mem + tlsf_size - 8) (pool_bytes (bytes - tlsf_size)) ∅ in
    tlsf_create_with_pool mem bytes s = Done mem s' ∧ control s' = mem ∧ heap_ok s' B L ∧ ∀ b m, ¬ live B b m.
Proof.
  intros H1 H2 H3 H4 H5. destruct (tlsf_create_with_pool_run s mem bytes H1 H2 H3 H4 H5) as (s' & L & E & ? & ? & ? & _). by exists s', L.
Qed.

(** ** The caller's writes, and blocks freed by other processors *)

Lemma user_write s s' B L b m W :
  heap_ok s B L → live B b m → touches W s s' → (∀ x, W x → b + 16 ≤ x < b + 16 + m) → heap_ok s' B L.
Proof.
  intros (Hp & HL & Hls & Hco) (hb & Eb & Hfb & <- & Hn0) Ht HW. pose proof Hp as [Hl Hm].
  assert (Hout : ∀ y hy x, B !! y = Some hy → y ≠ b → span y (h_size hy) x → ¬ W x).
  { intros y hy x Ey N Hs Hx. refine (span_apart Hl y b hy hb x x Ey Eb N Hs _ eq_refl). specialize (HW x Hx). unfold span. lia. }
  assert (Hp' : phys s' B).
  { pose proof Ht as (Hc & _). split; [by rewrite Hc|]. apply (marked_frame _ _ _ _ _ Hl (touches_writes _ _ _ Ht)); [|done].
    intros y hy Ey. pose proof (layout_size Hl y hy Ey) as [_ ?]. destruct (decide (y = b)) as [->|N].
    - rewrite Eb in Ey. injection Ey as <-. split; [intros Hx; specialize (HW _ Hx); lia|congruence].
    - split; [|intros _]; apply (Hout y hy); try done; unfold span; lia. }
  split; [done|]. split; [|done]. apply (free_lists_frame W s s' L HL Ht). intros c y Hc Hy.
  apply Hls in Hy as (hy & Ey & Hfy & _); [|done]. destruct (layout_large Hl y hy Ey) as [? _]; [by left|].
  assert (y ≠ b) by congruence. split; apply (Hout y hy); try done; unfold span; lia.
Qed.

Lemma heap_ok_pending v s B L : heap_ok s B L → heap_ok (set_pending v s) B L.
Proof.
  intros (Hp & HL & ?). split; [done|]. split; [|done]. destruct HL. split; simpl; try done.
  intros c Hc. apply (seg_frame s); [done|auto].
Qed.

(** The pending list: live blocks, linked through their first word. *)
Fixpoint pends (s : heap) (B : gmap Z hdr) (p : Z) (l : list Z) : Prop :=
  match l with
  | [] => p = 0
  | b :: l' => p = b ∧ (∃ m, 8 ≤ m ∧ live B b m) ∧ ∃ q, word s (b + 16) = q ∧ pends s B q l'
  end.

Lemma pends_frame s s' B B' p l :
  (∀ b, b ∈ l → word s' (b + 16) = word s (b + 16) ∧ ∀ m, live B b m → live B' b m) → pends s B p l → pends s' B' p l.
Proof.
  revert p. induction l as [|b l IH]; intros p Hl; simpl; [done|]. intros (-> & (m & Hm & Hb) & q & Hq & Hs).
  destruct (Hl b) as [E Hlv]; [by left|]. split; [done|]. split; [exists m; auto|]. exists q. rewrite E. split; [done|].
  apply IH; [|done]. intros c Hc. apply Hl. by right.
Qed.
Lemma pends_live s B p l b : pends s B p l → b ∈ l → ∃ m, 8 ≤ m ∧ live B b m.
Proof.
  revert p. induction l as [|c l IH]; intros p; simpl; [by intros _ ?%elem_of_nil|]. intros (_ & Hc & q & _ & Hs) [->|Hb]%elem_of_cons; eauto.
Qed.

(** Distinct live blocks have distinct size words, so there are not more than words. *)
Lemma live_count s B l : phys s B → NoDup l → (∀ b, b ∈ l → ∃ m, live B b m) → (length l ≤ size (words s))%nat.
Proof.
  intros [Hl Hm] Hnd Hlv. pose (f := λ b, virt_to_phys (b + 8)).
  assert (Hsub : list_to_set (f <$> l) ⊆ (dom (words s) : gset Z)).
  { intros x Hx. apply elem_of_list_to_set, list_elem_of_fmap in Hx as (b & -> & Hb). destruct (Hlv b Hb) as (m & h & E & Hf & Hn & Hn0).
    destruct (Hm b h E) as [Hw _]. pose proof (layout_size Hl b h E) as [_ ?]. apply elem_of_dom.
    destruct (words s !! f b) eqn:Ew; [by eexists|]. exfalso. unfold word, rd in Hw. fold (f b) in Hw. rewrite Ew in Hw. simpl in Hw.
    unfold enc in Hw. destruct (h_free h), (h_prev_free h); lia. }
  assert (Hnf : NoDup (f <$> l)).
  { apply NoDup_fmap_2_strong; [|done]. intros a b Ha Hb Hab. destruct (decide (a = b)) as [|N]; [done|exfalso].
    destruct (Hlv a Ha) as (? & ha & Ea & _), (Hlv b Hb) as (? & hb & Eb & _).
    destruct (ly_range _ _ Hl a ha Ea) as (? & ? & ?), (ly_range _ _ Hl b hb Eb) as (? & ? & ?).
    pose proof (layout_size Hl a ha Ea) as [_ ?]. pose proof (layout_size Hl b hb Eb) as [_ ?].
    pose proof (word_poke (a + 8) (word s (b + 8) + 1) s) as P1. pose proof (word_poke_ne (a + 8) (b + 8) (word s (b + 8) + 1) s ltac:(lia) ltac:(lia) ltac:(lia)) as P2.
    unfold word in P1, P2. unfold f in Hab. rewrite Hab in P1. lia. }
  rewrite <- (size_dom (words s)), <- (length_fmap f l), <- (size_list_to_set (C := gset Z) (f <$> l)) by done.
  by apply subseteq_size.
Qed.

Lemma push_run s B L b m l :
  heap_ok s B L → live B b m → pends s B (pending s) l → b ∉ l →
  ∃ s', tlsf_push_pending (b + 16) s = Done tt s' ∧ heap_ok s' B L ∧ pends s' B (pending s') (b :: l) ∧
    ∀ y n x, y ≠ b → live B y n → y + 16 ≤ x < y + 16 + n → word s' x = word s x.
Proof.
  intros Hok Hlv Hpd Hbl. pose proof Hok as ([Hl Hm] & _). pose proof Hlv as (h & E & Hf & <- & Hn0).
  destruct (ly_range _ _ Hl b h E) as (Hb0 & Hb8 & Hb1). destruct (layout_large Hl b h E) as [Hlg _]; [by right|].
  assert (Hpb : tlsf_ptr_to_block (b + 16) = b).
  { unfold tlsf_ptr_to_block, block_from_ptr. rewrite (proj2 (Z.eqb_neq _ 0)) by lia. change block_start_offset with 16. rewrite wrap64_small; lia. }
  set (s1 := poke (b + 16) (pending s) s). exists (set_pending b s1).
  assert (Ht : touches (λ x, x = b + 16) s s1) by (apply touches_poke; [lia|done]).
  assert (Hother : ∀ y hy x, B !! y = Some hy → y ≠ b → span y (h_size hy) x → word s1 x = word s x).
  { intros y hy x Ey N Hs. destruct (ly_range _ _ Hl y hy Ey) as (? & ? & ?).
    apply word_poke_ne; [lia|unfold span in Hs; lia|]. apply (span_apart Hl b y h hy (b + 16) x E Ey (not_eq_sym N)); [unfold span; lia|done]. }
  split; [|split; [|split]].
  - unfold tlsf_push_pending. by rewrite Hpb.
  - apply heap_ok_pending. apply (user_write s s1 B L b (h_size h) (λ x, x = b + 16) Hok Hlv Ht). intros x ->. lia.
  - split; [done|]. split; [exists (h_size h); split; [lia|done]|]. exists (pending s). split; [apply word_poke|].
    apply (pends_frame s (set_pending b s1) B B); [|done]. intros c Hc. split; [|done]. change (word s1 (c + 16) = word s (c + 16)). destruct (pends_live _ _ _ _ c Hpd Hc) as (mc & ? & hc & Ec & _ & <- & _).
    apply (Hother c hc); [done|congruence|]. unfold span. lia.
  - intros y n x N (hy & Ey & _ & <- & _) Hx. apply (Hother y hy); [done..|]. unfold span. lia.
Qed.

Lemma flush_run l : ∀ s B L p fuel,
  heap_ok s B L → pends s B p l → NoDup l → (length l < fuel)%nat →
  ∃ s' B' L', flush_loop fuel p s = Done tt s' ∧ heap_ok s' B' L' ∧ pending s' = pending s ∧ confined s s' B B' ∧ (∀ y m, live B' y m ↔ y ∉ l ∧ live B y m) ∧
    ∀ y m x, y ∉ l → live B y m → y + 16 ≤ x < y + 16 + m → word s' x = word s x.
Proof.
  induction l as [|b l IH]; intros s B L p fuel Hok Hpd Hnd Hfuel; (destruct fuel as [|fuel]; [simpl in Hfuel; lia|]).
  - simpl in Hpd. subst p. exists s, B, L. split; [done|]. split; [done|]. split; [done|]. split; [apply confined_refl|]. split; [|done]. intros y m. split; [|tauto]. intros ?. split; [apply not_elem_of_nil|done].
  - destruct Hpd as (-> & (m & Hm & Hb) & q & Hq & Hpd). apply NoDup_cons in Hnd as [Hbl Hnd].
    pose proof Hok as ([Hl _] & _). pose proof Hb as (h & E & _ & Hh & _). destruct (ly_range _ _ Hl b h E) as (Hb0 & Hb8 & Hb1).
    destruct (tlsf_free_run s B L b m Hok Hb) as (s1 & B1 & L1 & E1 & Hok1 & Hpe1 & C1 & Hlive1 & Hkeep1).
    simpl. rewrite (proj2 (Z.eqb_neq b 0)) by lia.
    rewrite (bind_done _ _ s q s) by (unfold next_free; rewrite load_run; by rewrite Hq).
    rewrite (bind_done _ _ s tt s1).
    2: { unfold block_to_ptr. change block_start_offset with 16. by rewrite wrap64_small by lia. }
    destruct (IH s1 B1 L1 q fuel Hok1) as (s2 & B2 & L2 & E2 & Hok2 & Hpe2 & C2 & Hlive2 & Hkeep2); [|done|simpl in Hfuel; lia|].
    { apply (pends_frame s s1 B B1); [|done]. intros c Hc. assert (c ≠ b) by congruence.
      destruct (pends_live _ _ _ _ c Hpd Hc) as (mc & Hmc & Hcl). split; [apply (Hkeep1 c mc); [done|done|lia]|].
      intros k Hk. by apply Hlive1. }
    exists s2, B2, L2. split; [done|]. split; [done|]. split; [congruence|]. split; [by eapply confined_trans|]. split.
    + intros y k. rewrite Hlive2, Hlive1, not_elem_of_cons. tauto.
    + intros y k x Hy Hlv Hx. apply not_elem_of_cons in Hy as [Hyb Hyl]. rewrite (Hkeep2 y k x Hyl); [by apply (Hkeep1 y k)|by apply Hlive1|done].
Qed.

Lemma flush_pending_run s B L l :
  heap_ok s B L → pends s B (pending s) l → NoDup l →
  ∃ s' B' L', tlsf_flush_pending s = Done tt s' ∧ heap_ok s' B' L' ∧ pending s' = 0 ∧ confined s s' B B' ∧
    (∀ y m, live B' y m ↔ y ∉ l ∧ live B y m) ∧
    ∀ y m x, y ∉ l → live B y m → y + 16 ≤ x < y + 16 + m → word s' x = word s x.
Proof.
  intros Hok Hpd Hnd. pose proof Hok as (Hp & HL & _). destruct (fl_null _ _ HL) as [Hc0 _].
  unfold tlsf_flush_pending. rewrite (bind_done _ _ s (control s) s), (proj2 (Z.eqb_neq (control s) 0)) by (done || lia).
  rewrite (bind_done _ _ s (pending s) s) by done. rewrite (bind_done _ _ s tt (set_pending 0 s)) by done.
  pose proof (heap_ok_pending 0 _ _ _ Hok) as Hok0.
  destruct l as [|b l].
  { simpl in Hpd. rewrite Hpd. exists (set_pending 0 s), B, L. split; [done|]. split; [done|]. split; [done|]. split; [done|].
    split; [|done]. intros y m. split; [intros ?; split; [apply not_elem_of_nil|done]|tauto]. }
  pose proof Hpd as (Ep & (m & _ & h & E & _) & _). assert (pending s ≠ 0) by (destruct Hp as [Hl _]; destruct (ly_range _ _ Hl b h E); lia).
  rewrite (proj2 (Z.eqb_neq (pending s) 0)) by done.
  rewrite (bind_done _ _ _ (S (size (words s))) (set_pending 0 s)) by done.
  destruct (flush_run (b :: l) (set_pending 0 s) B L (pending s) (S (size (words s))) Hok0) as (s2 & B2 & L2 & E2 & Hok2 & Hpe2 & C2 & Hlive2 & Hkeep2).
  - apply (pends_frame s _ B B); [auto|done].
  - done.
  - apply Nat.lt_succ_r, (live_count s B); [done..|]. intros c Hc. destruct (pends_live _ _ _ _ c Hpd Hc) as (k & _ & ?). by exists k.
  - exists s2, B2, L2. done.
Qed.

(** C39: a block that another processor frees is put on the pending list of the
    processor that owns the heap; when the owner reclaims the list, exactly this
    block and the blocks that were pending before are free again, whatever the
    order, the loop ends, the heap satisfies the invariant and no byte of the
    blocks still in use has changed. *)
Theorem tlsf_remote_free_spec s B L b m l :
  heap_ok s B L → live B b m → pends s B (pending s) l → NoDup l → b ∉ l →
  ∃ s' B' L', (tlsf_push_pending (b + 16);; tlsf_flush_pending) s = Done tt s' ∧ heap_ok s' B' L' ∧ pending s' = 0 ∧
    (∀ y n, live B' y n ↔ y ≠ b ∧ y ∉ l ∧ live B y n) ∧
    ∀ y n x, live B' y n → y + 16 ≤ x < y + 16 + n → word s' x = word s x.
Proof.
  intros Hok Hlv Hpd Hnd Hbl. destruct (push_run s B L b m l Hok Hlv Hpd Hbl) as (s1 & E1 & Hok1 & Hpd1 & Hkeep1).
  rewrite (bind_done _ _ _ _ _ E1). destruct (flush_pending_run s1 B L (b :: l) Hok1 Hpd1) as (s2 & B2 & L2 & E2 & Hok2 & Hp0 & _ & Hlive2 & Hkeep2); [by apply NoDup_cons|].
  exists s2, B2, L2. split; [done|]. split; [done|]. split; [done|]. split.
  - intros y n. rewrite Hlive2, not_elem_of_cons. tauto.
  - intros y n x Hy Hx. apply Hlive2 in Hy as [Hy Hlvy]. rewrite (Hkeep2 y n x Hy Hlvy Hx).
    apply not_elem_of_cons in Hy as [Hyb _]. by apply (Hkeep1 y n).
Qed.

(** Memory that is not the heap's can change freely. *)
Lemma heap_ok_frame s s' B L W :
  heap_ok s B L → touches W s s' → (∀ x, W x → ¬ owned (control s) B x) → heap_ok s' B L.
Proof.
  intros (Hp & HL & Hls & Hco) Ht HW. pose proof Hp as [Hl Hm].
  assert (Hout : ∀ y hy x, B !! y = Some hy → span y (h_size hy) x → ¬ W x).
  { intros y hy x Ey Hs Hx. apply (HW x Hx). left. exists y, hy. auto. }
  split; [|split; [|done]].
  - pose proof Ht as (Hc & _). split; [by rewrite Hc|]. apply (marked_frame _ _ _ _ _ Hl (touches_writes _ _ _ Ht)); [|done].
    intros y hy Ey. pose proof (layout_size Hl y hy Ey) as [_ ?]. split; [|intros _]; apply (Hout y hy); try done; unfold span; lia.
  - apply (free_lists_frame W s s' L HL Ht). intros c y Hc Hy. apply Hls in Hy as (hy & Ey & Hfy & _); [|done].
    destruct (layout_large Hl y hy Ey) as [? _]; [by left|]. split; apply (Hout y hy); try done; unfold span; lia.
Qed.
