(* ===== verification/TlsfExamples.v ===== *)
(** * Concrete heaps

    The theorems of the allocator at a heap of 64 KiB, and a request that
    [tlsf_realloc] does not survive. *)

From S2P Require Export TlsfFree.

Definition no_heap : heap := Heap 0 0 ∅ ∅ 0 ∅.
Definition base : Z := HHDM_OFFSET + 0x10000.
Definition base_bytes : Z := 0x10000.
(** The only block of the new heap. *)
Definition first_block : Z := base + tlsf_size - 8.

Lemma tlsf_create_with_pool_spec_witness : ∃ s' L,
  tlsf_create_with_pool base base_bytes no_heap = Done base s' ∧
  heap_ok s' (with_pool first_block (pool_bytes (base_bytes - tlsf_size)) ∅) L.
Proof.
  destruct (tlsf_create_with_pool_spec no_heap base base_bytes) as (s' & L & E & _ & Hok & _); [reflexivity|reflexivity|by vm_compute|reflexivity|reflexivity|].
  by exists s', L.
Defined.

(** The new heap, with its free block. *)
Lemma new_heap : ∃ s B L, heap_ok s B L ∧ B !! first_block = Some (Hdr 58984 true false).
Proof.
  destruct (tlsf_create_with_pool_run no_heap base base_bytes) as (s' & L & E & _ & Hok & _); [reflexivity|reflexivity|by vm_compute|reflexivity|reflexivity|].
  exists s', (with_pool first_block (pool_bytes (base_bytes - tlsf_size)) ∅), L. split; [exact Hok|]. rewrite with_pool_lookup, decide_True by reflexivity. reflexivity.
Qed.

Lemma tlsf_malloc_spec_witness : ∃ s B L, heap_ok s B L ∧ ∃ b n s' B' L',
  tlsf_malloc 100 s = Done (b + 16) s' ∧ heap_ok s' B' L' ∧ 100 ≤ n ∧ live B' b n.
Proof.
  destruct new_heap as (s & B & L & Hok & Ef). exists s, B, L. split; [done|].
  destruct (tlsf_malloc_spec s B L 100 Hok) as [[_ [?|[Hbig|Hno]]]|(b & n & s' & B' & L' & E & _ & Hn & Hok' & _ & Hlive & _)]; [done|done| | |].
  - by vm_compute in Hbig.
  - by specialize (Hno _ _ Ef eq_refl).
  - exists b, n, s', B', L'. split; [done|]. split; [done|]. split; [lia|]. apply Hlive. by left.
Defined.

(** A heap with one block of the caller and nothing pending. *)
Lemma one_block : ∃ s B L b n, heap_ok s B L ∧ live B b n ∧ pending s = 0.
Proof.
  destruct new_heap as (s & B & L & Hok & Ef).
  destruct (tlsf_malloc_run (set_pending 0 s) B L 100) as [[_ [?|[Hbig|Hno]]]|(b & n & s' & B' & L' & E & _ & Hn & Hok' & Hp & _ & _ & Hlive & _)];
    [by apply heap_ok_pending|done|done| | |].
  - by vm_compute in Hbig.
  - by specialize (Hno _ _ Ef eq_refl).
  - exists s', B', L', b, n. split; [done|]. split; [|done]. apply Hlive. by left.
Qed.

Lemma tlsf_free_spec_witness : ∃ s B L b n, heap_ok s B L ∧ live B b n ∧
  ∃ s' B' L', tlsf_free (b + 16) s = Done tt s' ∧ heap_ok s' B' L' ∧ ¬ live B' b n.
Proof.
  destruct one_block as (s & B & L & b & n & Hok & Hlv & _). exists s, B, L, b, n. split; [done|]. split; [done|].
  destruct (tlsf_free_spec s B L b n Hok Hlv) as (s' & B' & L' & E & Hok' & Hlive & _). exists s', B', L'. split; [done|]. split; [done|].
  intros Hl. by apply Hlive in Hl as [? _].
Defined.

Lemma tlsf_remote_free_spec_witness : ∃ s B L b n, heap_ok s B L ∧ live B b n ∧
  ∃ s' B' L', (tlsf_push_pending (b + 16);; tlsf_flush_pending) s = Done tt s' ∧ heap_ok s' B' L' ∧ ¬ live B' b n.
Proof.
  destruct one_block as (s & B & L & b & n & Hok & Hlv & Hp). exists s, B, L, b, n. split; [done|]. split; [done|].
  destruct (tlsf_remote_free_spec s B L b n [] Hok Hlv Hp) as (s' & B' & L' & E & Hok' & _ & Hlive & _); [apply NoDup_nil_2|apply not_elem_of_nil|].
  exists s', B', L'. split; [done|]. split; [done|]. intros Hl. by apply Hlive in Hl as [? _].
Defined.

(** ** A request that cannot be satisfied *)

(** Allocates 100 bytes and asks for 4 GiB in their place; returns the two pointers
    and the size of the block afterwards. *)
Definition oversized_realloc : K heap (Z * Z * Z) :=
  tlsf_create_with_pool base base_bytes;;
  p ← tlsf_malloc 100;
  q ← tlsf_realloc p block_size_max;
  n ← tlsf_block_size p;
  mret (p, q, n).

(** A request of [tlsf_realloc] that is too large to be satisfied does not leave
    the buffer alone: it returns the old pointer, as a success, and the block now has
    size 0, which marks the end of a pool. *)
Theorem tlsf_realloc_oversized :
  ∃ p s, oversized_realloc no_heap = Done (p, p, 0) s ∧ p ≠ 0.
Proof.
  eexists _, (state_of no_heap (oversized_realloc no_heap)). split; [|shelve]. 
  apply value_run. vm_compute. reflexivity. Unshelve. done.
Qed.
