(* ===== verification/Task.v ===== *)
(** * Threads and the state the task subsystem shares
    (include/koharu/thread.h, ipc.h, kernel/task/thread.c)

    A thread is its [struct thread], addressed by a pointer ([0] is [NULL]).
    The kernel runs on one processor with interrupts masked, so kernel code is
    only suspended inside [switch_to]: what a thread has left to do in the
    kernel is one of finitely many continuations ([kcont]), named after the
    call of [switch_to] it is suspended in. *)

From S2P Require Export Pmap.

(** ** Data *)

Inductive thread_state := THREAD_CREATED | THREAD_READY | THREAD_RUNNING | THREAD_BLOCKED | THREAD_TERMINATED.
Inductive ipc_endpoint_state := IPC_EP_INACTIVE | IPC_EP_WAIT_SEND | IPC_EP_WAIT_RECV.
#[export] Instance thread_state_eq_dec : EqDecision thread_state.
Proof. solve_decision. Defined.
#[export] Instance ep_state_eq_dec : EqDecision ipc_endpoint_state.
Proof. solve_decision. Defined.

Definition IPC_MSG_WORDS : Z := 5.
Definition USER_STACK_TOP : Z := 0x7ffffffff000.

(** Where a suspended thread goes on in the kernel; [flags] are the saved
    interrupt flags of the call. *)
Inductive kcont :=
| KUser                                  (* nothing: back to user mode *)
| KYield (flags : bool)                  (* sched_yield *)
| KSend (flags : bool)                   (* ipc_send *)
| KRecv (flags : bool)                   (* ipc_recv, ipc_reply_recv *)
| KCall (flags : bool) (saved_sender : Z) (* ipc_call *)
| KFutex                                 (* futex_wait *)
| KDestroy (target : Z)                  (* TC_DESTROY, in sched_exit *)
| KDead.                                 (* thread_exit *)

Record trapframe := Trapframe {
  tf_rip : Z; tf_cs : Z; tf_rflags : Z; tf_rsp : Z; tf_ss : Z; tf_rdi : Z; tf_rsi : Z;
}.

(** The scheduler's fields of [struct thread]. *)
Record sched_part := SchedPart {
  state : thread_state;
  current_level : Z;
  time_quantum_left : Z;
  total_cpu_time : Z;
}.

(** [ipc_ep] (its wait queue is a head of the link store) and the message fields. *)
Record ipc_part := IpcPart {
  ep_lock : spinlock;
  ep_state : ipc_endpoint_state;
  ipc_msg : list Z;
  ipc_sender : Z;
  ipc_prev_seq : Z;
  ipc_call_seq : Z;
}.

Record thread := Thread {
  tid : Z;
  th_pmap : pmap_ref;
  tf : trapframe;
  sch : sched_part;
  ipc : ipc_part;
  pager_tid : Z;
  utcb : Z;
  cpu_affinity : Z;
  cont : kcont;                    (* the saved kernel stack *)
  th_ret : option (Z * list Z);    (* what the last system call returned *)
}.

(** The intrusive nodes and heads of the subsystem. *)
Inductive tnode :=
| RunqHead (level : Z)      (* curcpu->runq[level] *)
| SchedNode (t : Z)         (* t->sched_list *)
| IpcHead (t : Z)           (* t->ipc_ep.ipc_waitqueue *)
| IpcNode (t : Z)           (* t->ipc_list *)
| IpcWaitNode (t : Z)       (* t->ipc_wait_list *)
| FutexNode (t : Z)         (* t->futex_list *)
| Bucket (i : Z)            (* futex_buckets[i] *)
| WaitqHash (w : Z)         (* wq->hash_node *)
| WaitqHead (w : Z).        (* wq->waiters *)
#[export] Instance tnode_eq_dec : EqDecision tnode.
Proof. solve_decision. Defined.
#[export] Instance tnode_countable : Countable tnode.
Proof.
  apply (inj_countable'
    (λ n, match n with
          | RunqHead x => (0, x) | SchedNode x => (1, x) | IpcHead x => (2, x) | IpcNode x => (3, x)
          | IpcWaitNode x => (4, x) | FutexNode x => (5, x) | Bucket x => (6, x) | WaitqHash x => (7, x)
          | WaitqHead x => (8, x) end)
    (λ '(k, x), if decide (k = 0) then RunqHead x else if decide (k = 1) then SchedNode x
          else if decide (k = 2) then IpcHead x else if decide (k = 3) then IpcNode x
          else if decide (k = 4) then IpcWaitNode x else if decide (k = 5) then FutexNode x
          else if decide (k = 6) then Bucket x else if decide (k = 7) then WaitqHash x else WaitqHead x)).
  by intros [].
Defined.

(** [g_threads], [g_threads_cap], [g_next_tid] and [g_threads_lock] of thread.c. *)
Record registry := Registry {
  g_threads : Z;               (* the array, [0] before the first thread *)
  g_array : gmap Z Z;          (* its elements that are not [NULL] *)
  g_threads_cap : Z;
  g_next_tid : Z;
  g_threads_lock : spinlock;
}.

(** A futex wait queue of futex.c: only its key is not a list. *)
Record futexes := Futexes {
  wq_phys : gmap Z Z;
  bucket_locks : gmap Z spinlock;
}.

(** The kernel: the memory subsystem, the lists, the threads, the processor. *)
Record kernel (T : Type) := Kernel {
  mm : pstate T;
  klinks : gmap tnode (link tnode);
  threads : gmap Z thread;
  current : Z;
  sched_ticks : Z;
  kirq : bool;
  reg : registry;
  fut : futexes;
}.
Arguments Kernel {T}.
Arguments mm {T} _.
Arguments klinks {T} _.
Arguments threads {T} _.
Arguments current {T} _.
Arguments sched_ticks {T} _.
Arguments kirq {T} _.
Arguments reg {T} _.
Arguments fut {T} _.

(** The heap of kernel/mm/kmem.c, which takes its memory from the page allocator. *)
Class KernelHeap (T : Type) := {
  kmalloc : Z → K (pstate T) Z;
  krealloc : Z → Z → K (pstate T) Z;
  kfree : Z → K (pstate T) unit;
}.

(** ** Updates *)

Definition set_sch (f : sched_part → sched_part) (t : thread) : thread :=
  Thread (tid t) (th_pmap t) (tf t) (f (sch t)) (ipc t) (pager_tid t) (utcb t) (cpu_affinity t) (cont t) (th_ret t).
Definition set_ipc (f : ipc_part → ipc_part) (t : thread) : thread :=
  Thread (tid t) (th_pmap t) (tf t) (sch t) (f (ipc t)) (pager_tid t) (utcb t) (cpu_affinity t) (cont t) (th_ret t).
Definition set_tf (f : trapframe → trapframe) (t : thread) : thread :=
  Thread (tid t) (th_pmap t) (f (tf t)) (sch t) (ipc t) (pager_tid t) (utcb t) (cpu_affinity t) (cont t) (th_ret t).
Definition set_th_pmap (p : pmap_ref) (t : thread) : thread :=
  Thread (tid t) p (tf t) (sch t) (ipc t) (pager_tid t) (utcb t) (cpu_affinity t) (cont t) (th_ret t).
Definition set_pager (pager u : Z) (t : thread) : thread :=
  Thread (tid t) (th_pmap t) (tf t) (sch t) (ipc t) pager u (cpu_affinity t) (cont t) (th_ret t).
Definition set_affinity (a : Z) (t : thread) : thread :=
  Thread (tid t) (th_pmap t) (tf t) (sch t) (ipc t) (pager_tid t) (utcb t) a (cont t) (th_ret t).
Definition set_cont (k : kcont) (t : thread) : thread :=
  Thread (tid t) (th_pmap t) (tf t) (sch t) (ipc t) (pager_tid t) (utcb t) (cpu_affinity t) k (th_ret t).
Definition set_ret (r : option (Z * list Z)) (t : thread) : thread :=
  Thread (tid t) (th_pmap t) (tf t) (sch t) (ipc t) (pager_tid t) (utcb t) (cpu_affinity t) (cont t) r.

Definition set_state (v : thread_state) : thread → thread :=
  set_sch (λ p, SchedPart v (current_level p) (time_quantum_left p) (total_cpu_time p)).
Definition set_level (v : Z) : thread → thread :=
  set_sch (λ p, SchedPart (state p) v (time_quantum_left p) (total_cpu_time p)).
Definition set_quantum (v : Z) : thread → thread :=
  set_sch (λ p, SchedPart (state p) (current_level p) v (total_cpu_time p)).
Definition set_cpu_time (v : Z) : thread → thread :=
  set_sch (λ p, SchedPart (state p) (current_level p) (time_quantum_left p) v).

Definition set_ep_lock (v : spinlock) : thread → thread :=
  set_ipc (λ p, IpcPart v (ep_state p) (ipc_msg p) (ipc_sender p) (ipc_prev_seq p) (ipc_call_seq p)).
Definition set_ep_state (v : ipc_endpoint_state) : thread → thread :=
  set_ipc (λ p, IpcPart (ep_lock p) v (ipc_msg p) (ipc_sender p) (ipc_prev_seq p) (ipc_call_seq p)).
Definition set_msg (v : list Z) : thread → thread :=
  set_ipc (λ p, IpcPart (ep_lock p) (ep_state p) v (ipc_sender p) (ipc_prev_seq p) (ipc_call_seq p)).
Definition set_sender (v : Z) : thread → thread :=
  set_ipc (λ p, IpcPart (ep_lock p) (ep_state p) (ipc_msg p) v (ipc_prev_seq p) (ipc_call_seq p)).
Definition set_prev_seq (v : Z) : thread → thread :=
  set_ipc (λ p, IpcPart (ep_lock p) (ep_state p) (ipc_msg p) (ipc_sender p) v (ipc_call_seq p)).
Definition set_call_seq (v : Z) : thread → thread :=
  set_ipc (λ p, IpcPart (ep_lock p) (ep_state p) (ipc_msg p) (ipc_sender p) (ipc_prev_seq p) v).

Section task.
Context {T : Type}.
Implicit Types (s : kernel T).

Definition set_mm (m : pstate T) s := Kernel m (klinks s) (threads s) (current s) (sched_ticks s) (kirq s) (reg s) (fut s).
Definition set_klinks l s := Kernel (mm s) l (threads s) (current s) (sched_ticks s) (kirq s) (reg s) (fut s).
Definition set_threads ts s := Kernel (mm s) (klinks s) ts (current s) (sched_ticks s) (kirq s) (reg s) (fut s).
Definition set_current c s := Kernel (mm s) (klinks s) (threads s) c (sched_ticks s) (kirq s) (reg s) (fut s).
Definition set_ticks v s := Kernel (mm s) (klinks s) (threads s) (current s) v (kirq s) (reg s) (fut s).
Definition set_kirq v s := Kernel (mm s) (klinks s) (threads s) (current s) (sched_ticks s) v (reg s) (fut s).
Definition set_reg v s := Kernel (mm s) (klinks s) (threads s) (current s) (sched_ticks s) (kirq s) v (fut s).
Definition set_fut v s := Kernel (mm s) (klinks s) (threads s) (current s) (sched_ticks s) (kirq s) (reg s) v.

(** [t->...], read and written: undefined behaviour on a bad pointer. *)
Definition the_thread (t : Z) : K (kernel T) thread := kread (λ s, threads s !! t).
Definition upd_thread (t : Z) (f : thread → thread) : K (kernel T) unit :=
  kupdate (λ s, th ← threads s !! t; Some (set_threads (<[t := f th]> (threads s)) s)).
Definition on_klinks (f : gmap tnode (link tnode) → option (gmap tnode (link tnode))) : K (kernel T) unit :=
  kupdate (λ s, m ← f (klinks s); Some (set_klinks m s)).
Definition on_mm {A} : K (pstate T) A → K (kernel T) A := klift mm set_mm.

Definition irq_save : K (kernel T) bool := λ s, Done (kirq s) (set_kirq false s).
Definition irq_restore (flags : bool) : K (kernel T) unit := kmodify (set_kirq flags).

(** ** The registry of threads (thread.c) *)

Definition on_reg_lock {A} (op : K (bool * spinlock) A) : K (kernel T) A :=
  klift (λ s, (kirq s, g_threads_lock (reg s)))
    (λ '(fl, l) s, set_kirq fl (set_reg (Registry (g_threads (reg s)) (g_array (reg s)) (g_threads_cap (reg s)) (g_next_tid (reg s)) l) s)) op.

(** [while (new_cap <= need) new_cap *= 2;]: [need] is a [uint32_t], so at most
    33 rounds; a run that used up the fuel would spin. *)
Fixpoint grow_cap (fuel : nat) (new_cap need : Z) : K (kernel T) Z :=
  match fuel with
  | O => kspin
  | S fuel' => if new_cap <=? need then grow_cap fuel' (wrap64 (new_cap * 2)) need else mret new_cap
  end.

Definition thread_reg_grow `{!KernelHeap T} (need : Z) : K (kernel T) Z :=
  r ← kget reg;
  new_cap ← grow_cap 64 (if g_threads_cap r =? 0 then 16 else wrap64 (g_threads_cap r * 2)) need;
  new_arr ← on_mm (krealloc (g_threads r) (wrap64 (8 * new_cap)));
  if new_arr =? 0 then mret (-1) else
  kmodify (λ s, set_reg (Registry new_arr (g_array r) new_cap (g_next_tid r) (g_threads_lock (reg s))) s);;
  mret 0.

Definition thread_lookup (t : Z) : K (kernel T) Z :=
  flags ← on_reg_lock spin_lock_irqsave;
  r ← kget reg;
  let th := if negb (g_threads r =? 0) && (t <? g_threads_cap r) then default 0 (g_array r !! t) else 0 in
  on_reg_lock (spin_unlock_irqrestore flags);;
  mret th.

Definition thread_alloc_tid : K (kernel T) Z := λ s,
  let r := reg s in
  Done (g_next_tid r) (set_reg (Registry (g_threads r) (g_array r) (g_threads_cap r) (wrap32 (g_next_tid r + 1)) (g_threads_lock r)) s).

(** [g_threads[i] = v]. *)
Definition reg_store (i v : Z) : K (kernel T) unit :=
  kupdate (λ s, let r := reg s in
    if negb (g_threads r =? 0) && (i <? g_threads_cap r)
    then Some (set_reg (Registry (g_threads r) (<[i := v]> (g_array r)) (g_threads_cap r) (g_next_tid r) (g_threads_lock r)) s)
    else None).

Definition thread_register `{!KernelHeap T} (t : Z) : K (kernel T) Z :=
  flags ← on_reg_lock spin_lock_irqsave;
  th ← the_thread t;
  r ← kget reg;
  err ← (if g_threads_cap r <=? tid th then thread_reg_grow (tid th) else mret 0);
  if negb (err =? 0) then on_reg_lock (spin_unlock_irqrestore flags);; mret (-1) else
  reg_store (tid th) t;;
  on_reg_lock (spin_unlock_irqrestore flags);;
  mret 0.

Definition thread_destroy (t : Z) : K (kernel T) unit :=
  if t =? 0 then mret tt else
  flags ← on_reg_lock spin_lock_irqsave;
  th ← the_thread t;
  r ← kget reg;
  (if tid th <? g_threads_cap r then reg_store (tid th) 0 else mret tt);;
  on_reg_lock (spin_unlock_irqrestore flags).
End task.
