(* ===== verification/Sched.v ===== *)
(** * The multi-level feedback queue scheduler (kernel/task/sched.c) *)

From S2P Require Export Task.

(** ** Constants *)

Definition MLFQ_LEVELS : Z := 4.
Definition BOOST_PERIOD : Z := 50.
Definition QUANTUM_TICKS : list Z := [1; 2; 4; 8].

Section sched.
Context {T : Type}.
Implicit Types (s : kernel T).

(** [QUANTUM_TICKS[level]]: undefined behaviour out of range. *)
Definition quantum (level : Z) : K (kernel T) Z :=
  kread (λ _, if level <? 0 then None else QUANTUM_TICKS !! Z.to_nat level).

(** [container_of(n, struct thread, sched_list)]. *)
Definition sched_thread (n : tnode) : K (kernel T) Z :=
  match n with SchedNode t => mret t | _ => kundef end.

(** ** Boost and pick *)

(** [while (!list_empty(q)) { ... }]; [fuel] bounds the length of [q]. *)
Fixpoint boost_level (fuel : nat) (level : Z) : K (kernel T) unit :=
  match fuel with
  | O => kspin
  | S fuel' =>
      empty ← kread (λ s, list_empty (RunqHead level) (klinks s));
      if (empty : bool) then mret tt else
      n ← kread (λ s, list_first (RunqHead level) (klinks s));
      t ← sched_thread n;
      on_klinks (list_del n);;
      upd_thread t (set_level 0);;
      q ← quantum 0;
      upd_thread t (set_quantum q);;
      on_klinks (list_add_tail n (RunqHead 0));;
      boost_level fuel' level
  end.

(** A bound on the length of any list: the number of nodes. *)
Definition list_fuel s : nat := S (size (klinks s)).

Definition sched_boost : K (kernel T) unit :=
  cur ← kget current;
  (if negb (cur =? 0) then
     upd_thread cur (set_level 0);;
     q ← quantum 0;
     upd_thread cur (set_quantum q)
   else mret tt);;
  kfor 3 1 (λ level, fuel ← kget list_fuel; boost_level fuel level).

(** [for (level = 0; level < MLFQ_LEVELS; level++)]. *)
Fixpoint pick_from (n : nat) (level : Z) : K (kernel T) Z :=
  match n with
  | O => mret 0
  | S n' =>
      empty ← kread (λ s, list_empty (RunqHead level) (klinks s));
      if (empty : bool) then pick_from n' (level + 1) else
      node ← kread (λ s, list_first (RunqHead level) (klinks s));
      on_klinks (list_del node);;
      sched_thread node
  end.
Definition sched_pick : K (kernel T) Z := pick_from (Z.to_nat MLFQ_LEVELS) 0.

(** ** Switching *)

(** [curcpu->current = next; next->state = THREAD_RUNNING; switch_to(prev, next)]:
    [prev] is suspended with [k], the address space of [next] is loaded. *)
Definition switch_to (prev next : Z) (k : kcont) : K (kernel T) unit :=
  kmodify (set_current next);;
  upd_thread next (set_state THREAD_RUNNING);;
  upd_thread prev (set_cont k);;
  th ← the_thread next;
  pm ← on_mm (the_pmap (th_pmap th));
  cr3 ← on_mm read_cr3;
  if pm_root_phys pm =? cr3 then mret tt else on_mm (write_cr3 (pm_root_phys pm)).

(** [list_add_tail(&cur->sched_list, &curcpu->runq[level])]. *)
Definition runq_add (t level : Z) : K (kernel T) unit :=
  on_klinks (list_add_tail (SchedNode t) (RunqHead level)).

Definition sched_tick : K (kernel T) unit :=
  cur ← kget current;
  cur_exhausted ←
    (if cur =? 0 then mret false else
     th ← the_thread cur;
     if negb (bool_decide (state (sch th) = THREAD_RUNNING)) then mret false else
     upd_thread cur (set_cpu_time (wrap64 (total_cpu_time (sch th) + 1)));;
     let left := wrap32 (time_quantum_left (sch th) - 1) in
     upd_thread cur (set_quantum left);;
     if negb (left =? 0) then mret false else
     let level := if current_level (sch th) <? MLFQ_LEVELS - 1 then wrap32 (current_level (sch th) + 1)
                  else current_level (sch th) in
     upd_thread cur (set_level level);;
     q ← quantum level;
     upd_thread cur (set_quantum q);;
     upd_thread cur (set_state THREAD_READY);;
     runq_add cur level;;
     mret true);
  ticks ← kget sched_ticks;
  kmodify (set_ticks (wrap64 (ticks + 1)));;
  (if ticks mod BOOST_PERIOD =? BOOST_PERIOD - 1 then sched_boost else mret tt);;
  if negb (cur_exhausted : bool) then mret tt else
  next ← sched_pick;
  if next =? 0 then mret tt else
  if next =? cur then upd_thread cur (set_state THREAD_RUNNING) else
  switch_to cur next KUser.

(** [true] when the call returned to the caller, [false] when it switched. *)
Definition sched_yield : K (kernel T) bool :=
  flags ← irq_save;
  cur ← kget current;
  th ← the_thread cur;
  q ← quantum (current_level (sch th));
  upd_thread cur (set_quantum q);;
  upd_thread cur (set_state THREAD_READY);;
  runq_add cur (current_level (sch th));;
  next ← sched_pick;
  if (next =? 0) || (next =? cur) then
    upd_thread cur (set_state THREAD_RUNNING);;
    irq_restore flags;;
    mret true
  else
    switch_to cur next (KYield flags);;
    mret false.

(** [sched_block] and [sched_exit]: the rest of the caller is [k]. *)
Definition sched_leave (st : thread_state) (k : kcont) : K (kernel T) unit :=
  cur ← kget current;
  upd_thread cur (set_state st);;
  next ← sched_pick;
  if next =? 0 then khalt else
  switch_to cur next k.
Definition sched_block : kcont → K (kernel T) unit := sched_leave THREAD_BLOCKED.
Definition sched_exit : kcont → K (kernel T) unit := sched_leave THREAD_TERMINATED.

Definition sched_enqueue (t : Z) : K (kernel T) unit :=
  upd_thread t (set_level 0);;
  upd_thread t (set_state THREAD_READY);;
  q ← quantum 0;
  upd_thread t (set_quantum q);;
  runq_add t 0.

Definition sched_dequeue (t : Z) : K (kernel T) unit := on_klinks (list_del (SchedNode t)).
Definition sched_wakeup (t : Z) : K (kernel T) unit := sched_enqueue t.

(** [switch_to_first] loads the address space and returns to the first thread. *)
Definition sched_boot : K (kernel T) unit :=
  first ← sched_pick;
  if first =? 0 then mret tt else
  kmodify (set_current first);;
  upd_thread first (set_state THREAD_RUNNING);;
  kmodify (set_kirq true);;
  th ← the_thread first;
  pm ← on_mm (the_pmap (th_pmap th));
  on_mm (write_cr3 (pm_root_phys pm)).

Definition sched_init : K (kernel T) Z :=
  kfor (Z.to_nat MLFQ_LEVELS) 0 (λ i, on_klinks (λ m, Some (list_init (RunqHead i) m)));;
  mret 0.
End sched.
