(* ===== verification/SchedSpec.v ===== *)
(** * The scheduler against its queues

    [rq] is the content of the four run queues; [sched_inv] ties it to the
    lists and the thread states.  Every operation is shown to compute the
    intended function of [rq] and the current thread. *)

From S2P Require Export Sched.

(** ** Queues as lists of threads *)

Abbreviation queues := (gmap Z (list Z)).
Implicit Types (rq : queues) (t : Z).

Definition rq_push (level t : Z) rq : queues := <[level := rq !!! level ++ [t]]> rq.

(** The first thread of the first non-empty queue from [level] on. *)
Fixpoint rq_first (n : nat) (level : Z) rq : option (Z * queues) :=
  match n with
  | O => None
  | S n' => match rq !!! level with
            | [] => rq_first n' (level + 1) rq
            | t :: ts => Some (t, <[level := ts]> rq)
            end
  end.
Definition rq_pick : queues → option (Z * queues) := rq_first 4 0.

Definition queued rq t : Prop := ∃ l ts, rq !! l = Some ts ∧ t ∈ ts.

(** Everything moves to level 0, in order of level. *)
Definition rq_drain (level : Z) rq : queues := <[level := []]> (<[0 := rq !!! 0 ++ rq !!! level]> rq).
Definition rq_boost rq : queues := rq_drain 3 (rq_drain 2 (rq_drain 1 rq)).

(** ** The invariant *)

(** The nodes and the head embedded in a [struct thread]. *)
Definition thread_nodes (t : Z) : list tnode := [SchedNode t; IpcHead t; IpcNode t; IpcWaitNode t; FutexNode t].

Section inv.
Context {T : Type}.
Implicit Types (s : kernel T) (Q : gmap tnode (list tnode)) (th : thread).

(** The lists that are not run queues. *)
Variable L : gmap tnode (list tnode).

(** [hole] is a ready thread that was just taken off its queue. *)
Record sched_inv s Q rq (hole : option Z) : Prop := SchedInv {
  si_lists : lists (klinks s) Q;
  si_dom : ∀ l, is_Some (rq !! l) ↔ 0 ≤ l < MLFQ_LEVELS;
  si_heads : ∀ l, Q !! RunqHead l = (λ ts : list Z, SchedNode <$> ts) <$> rq !! l;
  si_only : ∀ h xs t, Q !! h = Some xs → SchedNode t ∈ h :: xs → ∃ l, h = RunqHead l;
  si_queued : ∀ t, queued rq t → ∃ th, threads s !! t = Some th ∧ state (sch th) = THREAD_READY;
  si_ready : ∀ t th, threads s !! t = Some th → state (sch th) = THREAD_READY → hole ≠ Some t → queued rq t;
  si_hole : ∀ t, hole = Some t → ¬ queued rq t;
  si_running : ∀ t th, threads s !! t = Some th → state (sch th) = THREAD_RUNNING → t = current s;
  si_thread : ∀ t th, threads s !! t = Some th →
    t ≠ 0 ∧ (∀ n, n ∈ thread_nodes t → is_Some (klinks s !! n)) ∧ 0 ≤ current_level (sch th) < MLFQ_LEVELS ∧
    is_Some (ps_pmaps (mm s) !! th_pmap th);
  si_others : ∀ h, (∀ l, h ≠ RunqHead l) → Q !! h = L !! h;
}.

#[export] Instance SchedNode_inj : Inj (=) (=) SchedNode.
Proof. by intros ?? [=]. Qed.

Lemma rq_total s Q rq h l : sched_inv s Q rq h → 0 ≤ l < MLFQ_LEVELS → rq !! l = Some (rq !!! l).
Proof. intros Hi Hl. apply (si_dom _ _ _ _ Hi) in Hl as [ts E]. by rewrite (lookup_total_correct _ _ _ E). Qed.

Lemma runq_list s Q rq h l : sched_inv s Q rq h → 0 ≤ l < MLFQ_LEVELS →
  Q !! RunqHead l = Some (SchedNode <$> rq !!! l).
Proof. intros Hi Hl. rewrite (si_heads _ _ _ _ Hi), (rq_total s Q rq h) by done. done. Qed.

Lemma queued_elem rq l t : rq !! l = Some (rq !!! l) → t ∈ rq !!! l → queued rq t.
Proof. intros E Hin. by exists l, (rq !!! l). Qed.

Lemma queued_insert rq l ts t :
  is_Some (rq !! l) → queued (<[l := ts]> rq) t ↔ t ∈ ts ∨ ∃ l' ts', l' ≠ l ∧ rq !! l' = Some ts' ∧ t ∈ ts'.
Proof.
  intros Hl. unfold queued. split.
  - intros (l' & ts' & E & Hin). rewrite lookup_insert in E. case_decide; simplify_eq; [by left|right].
    exists l', ts'. naive_solver.
  - intros [Hin|(l' & ts' & Hne & E & Hin)].
    + exists l, ts. by rewrite lookup_insert_eq.
    + exists l', ts'. by rewrite lookup_insert_ne.
Qed.

(** A thread is on one queue only, once. *)
Lemma queued_split s Q rq h l ts1 t ts2 :
  sched_inv s Q rq h → rq !! l = Some (ts1 ++ t :: ts2) → ¬ queued (<[l := ts1 ++ ts2]> rq) t.
Proof.
  intros Hi E. rewrite queued_insert by eauto.
  assert (EQ : Q !! RunqHead l = Some (SchedNode <$> (ts1 ++ t :: ts2))) by by rewrite (si_heads _ _ _ _ Hi), E.
  intros [Hin|(l' & ts' & Hne & E' & Hin)].
  - pose proof (lists_dlist _ _ _ _ (si_lists _ _ _ _ Hi) EQ) as [Hnd _].
    apply NoDup_cons in Hnd as [_ Hnd]. apply NoDup_fmap in Hnd; [|apply _].
    apply NoDup_app in Hnd as (_ & Hd & Hnd). apply NoDup_cons in Hnd as [Hn _].
    apply elem_of_app in Hin as [Hin|Hin]; [|done]. apply (Hd t Hin). set_solver.
  - assert (EQ' : Q !! RunqHead l' = Some (SchedNode <$> ts')) by by rewrite (si_heads _ _ _ _ Hi), E'.
    destruct (lists_same _ _ _ _ _ _ (SchedNode t) (si_lists _ _ _ _ Hi) EQ EQ') as [[= ->] _]; [| |done].
    + apply elem_of_cons. right. apply list_elem_of_fmap. exists t. set_solver.
    + apply elem_of_cons. right. apply list_elem_of_fmap. by exists t.
Qed.

Lemma unqueued_unlinked s Q rq h t : sched_inv s Q rq h → ¬ queued rq t → unlinked Q (SchedNode t).
Proof.
  intros Hi Hn hd xs E Hin. destruct (si_only _ _ _ _ Hi _ _ _ E Hin) as [l ->].
  rewrite (si_heads _ _ _ _ Hi) in E. destruct (rq !! l) as [ts|] eqn:El; simplify_eq/=.
  apply elem_of_cons in Hin as [[=]|(? & [= <-] & ?)%list_elem_of_fmap].
  apply Hn. by exists l, ts.
Qed.

(** ** Changing one thread *)

Lemma inv_thread s Q rq h t th th' :
  sched_inv s Q rq h → threads s !! t = Some th →
  (queued rq t → state (sch th') = THREAD_READY) →
  (state (sch th') = THREAD_READY → queued rq t ∨ h = Some t) →
  (state (sch th') = THREAD_RUNNING → t = current s) →
  0 ≤ current_level (sch th') < MLFQ_LEVELS → is_Some (ps_pmaps (mm s) !! th_pmap th') →
  sched_inv (set_threads (<[t := th']> (threads s)) s) Q rq h.
Proof.
  intros [H1 H2 H3 H4 H5 H6 H7 H8 H9 H10] E Hq Hr Hrun Hlv Hpm. split; simpl; try done.
  - intros u Hu. destruct (decide (u = t)) as [->|Hne]; [rewrite lookup_insert_eq; eauto|].
    rewrite lookup_insert_ne by done. by apply H5.
  - intros u thu. rewrite lookup_insert. case_decide; [subst u|by apply H6].
    intros [= <-] Hst Hh. destruct (Hr Hst); [done|]. done.
  - intros u thu. rewrite lookup_insert. case_decide; [subst u|by apply H8].
    intros [= <-]. done.
  - intros u thu. rewrite lookup_insert. case_decide; [subst u|by apply H9].
    intros [= <-]. destruct (H9 t th E) as (? & ? & _). done.
Qed.

Lemma inv_current s Q rq h c :
  sched_inv s Q rq h → (∀ t th, threads s !! t = Some th → state (sch th) = THREAD_RUNNING → t = c) →
  sched_inv (set_current c s) Q rq h.
Proof. intros [H1 H2 H3 H4 H5 H6 H7 H8 H9 H10] Hc. by split. Qed.

(** What does not concern the scheduler. *)
Lemma inv_other s s' Q rq h :
  klinks s' = klinks s → threads s' = threads s → current s' = current s →
  (∀ p, is_Some (ps_pmaps (mm s) !! p) → is_Some (ps_pmaps (mm s') !! p)) →
  sched_inv s Q rq h → sched_inv s' Q rq h.
Proof.
  intros E1 E2 E3 E4 [H1 H2 H3 H4 H5 H6 H7 H8 H9 H10]. split; rewrite ?E1, ?E2, ?E3; try done.
  intros t th E. destruct (H9 t th E) as (? & ? & ? & ?). auto.
Qed.

(** ** On and off the queues *)

Lemma inv_push s Q rq h t th level :
  sched_inv s Q rq h → 0 ≤ level < MLFQ_LEVELS → threads s !! t = Some th →
  state (sch th) = THREAD_READY → ¬ queued rq t →
  ∃ m, list_add_tail (SchedNode t) (RunqHead level) (klinks s) = Some m ∧
    sched_inv (set_klinks m s) (<[RunqHead level := SchedNode <$> (rq !!! level ++ [t])]> Q) (rq_push level t rq)
      (if decide (h = Some t) then None else h).
Proof.
  intros Hi Hl Et Hst Hn. pose proof (runq_list _ _ _ _ _ Hi Hl) as EQ.
  destruct (si_thread _ _ _ _ Hi _ _ Et) as (Ht0 & Hnode & _).
  destruct (lists_add_tail (klinks s) Q (RunqHead level) _ (SchedNode t) (si_lists _ _ _ _ Hi) EQ (Hnode _ ltac:(by left)))
    as (m & Em & Hm & Hdom & _); [by eapply unqueued_unlinked|].
  exists m. split; [done|]. pose proof (rq_total _ _ _ _ _ Hi Hl) as El.
  change [SchedNode t] with (SchedNode <$> [t]) in Hm. rewrite <- fmap_app in Hm.
  assert (Hq : ∀ u, queued (rq_push level t rq) u ↔ u = t ∨ queued rq u).
  { intros u. unfold rq_push. rewrite queued_insert by eauto. rewrite elem_of_app, list_elem_of_singleton.
    unfold queued. split.
    - intros [[?|?]|(l & ts & ? & ? & ?)]; [right; by exists level, (rq !!! level)|by left|right; by exists l, ts].
    - intros [?|(l & ts & E & Hin)]; [by left; right|]. destruct (decide (l = level)) as [->|].
      + left. left. by rewrite (lookup_total_correct _ _ _ E).
      + right. by exists l, ts. }
  destruct Hi as [H1 H2 H3 H4 H5 H6 H7 H8 H9 H10]. split; simpl.
  - done.
  - intros l. unfold rq_push. rewrite lookup_insert_is_Some', H2. naive_solver.
  - intros l. unfold rq_push. rewrite !lookup_insert. repeat case_decide; simplify_eq; done.
  - intros hd xs u. rewrite lookup_insert. case_decide; [subst; eauto|]. by apply H4.
  - intros u [->|Hu]%Hq; [eauto|by apply H5].
  - intros u thu Eu Hu Hh. apply Hq. destruct (decide (u = t)) as [->|Hne]; [by left|right].
    eapply H6; [done..|]. case_decide; naive_solver.
  - intros u Hh [->|Hu]%Hq; case_decide; try done. by eapply H7.
  - done.
  - intros u thu Eu. destruct (H9 u thu Eu) as (? & ? & ? & ?). split; [done|]. split; [|done].
    intros n Hin. apply elem_of_dom. rewrite Hdom. apply elem_of_dom. auto.
  - intros hd Hhd. rewrite lookup_insert_ne by congruence. by apply H10.
Qed.

Lemma inv_pop s Q rq level t ts1 ts2 :
  sched_inv s Q rq None → rq !! level = Some (ts1 ++ t :: ts2) →
  ∃ m, list_del (SchedNode t) (klinks s) = Some m ∧
    sched_inv (set_klinks m s) (<[RunqHead level := SchedNode <$> (ts1 ++ ts2)]> Q) (<[level := ts1 ++ ts2]> rq) (Some t).
Proof.
  intros Hi El. pose proof (queued_split _ _ _ _ _ _ _ _ Hi El) as Hnq.
  assert (EQ : Q !! RunqHead level = Some ((SchedNode <$> ts1) ++ SchedNode t :: (SchedNode <$> ts2))).
  { rewrite (si_heads _ _ _ _ Hi), El. simpl. by rewrite fmap_app. }
  destruct (lists_del (klinks s) Q (RunqHead level) _ _ _ (si_lists _ _ _ _ Hi) EQ) as (m & Em & Hm & Hdom & _ & _).
  rewrite <- fmap_app in Hm. exists m. split; [done|].
  assert (Hq : ∀ u, queued rq u → u = t ∨ queued (<[level := ts1 ++ ts2]> rq) u).
  { intros u (l & ts & E & Hin). destruct (decide (u = t)) as [->|Hne]; [by left|right].
    rewrite queued_insert by eauto. destruct (decide (l = level)) as [->|]; [left|right; by exists l, ts].
    rewrite El in E. injection E as <-. set_solver. }
  assert (Hq' : ∀ u, queued (<[level := ts1 ++ ts2]> rq) u → queued rq u).
  { intros u. rewrite queued_insert by eauto. intros [Hin|(l & ts & _ & E & Hin)]; [|by exists l, ts].
    exists level, (ts1 ++ t :: ts2). set_solver. }
  destruct Hi as [H1 H2 H3 H4 H5 H6 H7 H8 H9 H10]. split; simpl.
  - done.
  - intros l. rewrite lookup_insert_is_Some', H2.
    assert (0 ≤ level < MLFQ_LEVELS) by (apply H2; eauto). naive_solver.
  - intros l. rewrite !lookup_insert. repeat case_decide; simplify_eq; done.
  - intros hd xs u. rewrite lookup_insert. case_decide; [subst; eauto|]. by apply H4.
  - intros u Hu. apply H5. by apply Hq'.
  - intros u thu Eu Hu Hh. destruct (Hq u) as [->|?]; [by eapply H6|done|done].
  - intros u [= <-]. done.
  - done.
  - intros u thu Eu. destruct (H9 u thu Eu) as (? & ? & ? & ?). split; [done|]. split; [|done].
    intros n Hin. apply elem_of_dom. rewrite Hdom. apply elem_of_dom. auto.
  - intros hd Hhd. rewrite lookup_insert_ne by congruence. by apply H10.
Qed.

(** ** Picking the next thread *)

Definition sched_ok s rq (hole : option Z) : Prop := ∃ Q, sched_inv s Q rq hole.

Lemma pick_from_spec n level s rq :
  sched_ok s rq None → 0 ≤ level → level + Z.of_nat n = MLFQ_LEVELS →
  match rq_first n level rq with
  | None => pick_from n level s = Done 0 s ∧ ∀ l, level ≤ l < MLFQ_LEVELS → rq !! l = Some []
  | Some (t, rq') => ∃ m, pick_from n level s = Done t (set_klinks m s) ∧
      sched_ok (set_klinks m s) rq' (Some t) ∧ queued rq t
  end.
Proof.
  intros [Q Hi]. revert level. induction n as [|n IH]; intros level Hl Hn; simpl.
  { split; [done|]. intros. lia. }
  assert (Hr : 0 ≤ level < MLFQ_LEVELS) by lia.
  pose proof (runq_list _ _ _ _ _ Hi Hr) as EQ. pose proof (rq_total _ _ _ _ _ Hi Hr) as El.
  pose proof (lists_empty_spec _ _ _ _ (si_lists _ _ _ _ Hi) EQ) as Ee.
  erewrite bind_done by by apply kread_done.
  destruct (rq !!! level) as [|t ts] eqn:Ets.
  - rewrite bool_decide_true by done. specialize (IH (level + 1) ltac:(lia) ltac:(lia)).
    destruct (rq_first n (level + 1) rq) as [[t rq']|]; [done|]. destruct IH as [E Ha].
    split; [done|]. intros l ?. destruct (decide (l = level)) as [->|]; [done|]. apply Ha. lia.
  - rewrite bool_decide_false by done. cbn beta iota.
    pose proof (lists_first _ _ _ _ _ (si_lists _ _ _ _ Hi) EQ) as Ef.
    erewrite bind_done by by apply kread_done.
    destruct (inv_pop s Q rq level t [] ts Hi El) as (m & Em & Hm).
    unfold on_klinks. erewrite bind_done; [|apply kupdate_done; by rewrite Em].
    exists m. split; [done|]. split; [by eexists|]. exists level, (t :: ts). split; [done|]. by left.
Qed.

Lemma sched_pick_spec s rq :
  sched_ok s rq None →
  match rq_pick rq with
  | None => sched_pick s = Done 0 s ∧ ∀ t, ¬ queued rq t
  | Some (t, rq') => ∃ m th, sched_pick s = Done t (set_klinks m s) ∧ sched_ok (set_klinks m s) rq' (Some t) ∧
      t ≠ 0 ∧ threads s !! t = Some th ∧ state (sch th) = THREAD_READY
  end.
Proof.
  intros Hok. pose proof (pick_from_spec 4 0 s rq Hok ltac:(lia) eq_refl) as Hp.
  unfold rq_pick, sched_pick. change (Z.to_nat MLFQ_LEVELS) with 4%nat.
  destruct Hok as [Q Hi]. destruct (rq_first 4 0 rq) as [[t rq']|].
  - destruct Hp as (m & E & Hm & Hq). destruct (si_queued _ _ _ _ Hi _ Hq) as (th & Et & Hst).
    destruct (si_thread _ _ _ _ Hi _ _ Et) as (Ht & _). by exists m, th.
  - destruct Hp as [E Ha]. split; [done|]. intros t (l & ts & El & Hin).
    assert (0 ≤ l < MLFQ_LEVELS) by (apply (si_dom _ _ _ _ Hi); eauto).
    rewrite Ha in El by done. injection El as <-. set_solver.
Qed.

(** ** Single steps *)

Lemma upd_thread_run s t th f :
  threads s !! t = Some th → upd_thread t f s = Done tt (set_threads (<[t := f th]> (threads s)) s).
Proof. intros E. unfold upd_thread, kupdate. by rewrite E. Qed.

Lemma the_thread_run s t th : threads s !! t = Some th → the_thread t s = Done th s.
Proof. intros E. unfold the_thread, kread. by rewrite E. Qed.

(** Two updates of the same thread in a row. *)
Lemma upd_upd {B} s t f g (k : unit → K (kernel T) B) :
  (upd_thread t f ≫= λ _, upd_thread t g ≫= k) s = (upd_thread t (λ th, g (f th)) ≫= k) s.
Proof.
  destruct (threads s !! t) as [th|] eqn:E.
  - rewrite !(bind_done (upd_thread t _) _ s tt _ (upd_thread_run _ _ _ _ E)).
    erewrite bind_done; [|apply upd_thread_run, lookup_insert_eq].
    unfold set_threads. simpl. by rewrite insert_insert_eq.
  - rewrite !bind_undef by (unfold upd_thread, kupdate; by rewrite E). done.
Qed.

(** [QUANTUM_TICKS[level]], in range. *)
Definition quantum_of (level : Z) : Z := QUANTUM_TICKS !!! Z.to_nat level.
Lemma quantum_run s level : 0 ≤ level < MLFQ_LEVELS → quantum level s = Done (quantum_of level) s.
Proof.
  unfold MLFQ_LEVELS. intros Hl.
  assert (level = 0 ∨ level = 1 ∨ level = 2 ∨ level = 3) as [->|[->|[->| ->]]] by lia; reflexivity.
Qed.

Lemma runq_add_run s rq hole t th level :
  sched_ok s rq hole → 0 ≤ level < MLFQ_LEVELS → threads s !! t = Some th →
  state (sch th) = THREAD_READY → ¬ queued rq t →
  ∃ m, runq_add t level s = Done tt (set_klinks m s) ∧
    sched_ok (set_klinks m s) (rq_push level t rq) (if decide (hole = Some t) then None else hole).
Proof.
  intros [Q Hi] Hl Et Hst Hq. destruct (inv_push s Q rq hole t th level) as (m & Em & Hm); [done..|].
  exists m. split; [|by eexists]. unfold runq_add, on_klinks, kupdate. by rewrite Em.
Qed.

(** Putting the current thread in the ready state makes it the hole. *)
Lemma inv_ready s rq t th th' :
  sched_ok s rq None → threads s !! t = Some th → state (sch th) ≠ THREAD_READY →
  state (sch th') = THREAD_READY → 0 ≤ current_level (sch th') < MLFQ_LEVELS → th_pmap th' = th_pmap th →
  ¬ queued rq t ∧ sched_ok (set_threads (<[t := th']> (threads s)) s) rq (Some t).
Proof.
  intros [Q Hi] Et Hne Hr Hl Hp.
  assert (Hq : ¬ queued rq t).
  { intros (thq & E & Hst)%(si_queued _ _ _ _ Hi). congruence. }
  split; [done|]. exists Q. apply (inv_thread _ _ _ _ _ th); rewrite ?Hr; try done.
  - destruct Hi as [H1 H2 H3 H4 H5 H6 H7 H8 H9 H10]. split; try done.
    + intros u thu E Hst _. by eapply H6.
    + by intros u [= <-].
  - by right.
  - rewrite Hp. apply (si_thread _ _ _ _ Hi _ _ Et).
Qed.

(** A change of a thread that concerns neither its state nor its queue. *)
Lemma ok_thread s rq hole t th th' :
  sched_ok s rq hole → threads s !! t = Some th → state (sch th') = state (sch th) →
  0 ≤ current_level (sch th') < MLFQ_LEVELS → th_pmap th' = th_pmap th →
  sched_ok (set_threads (<[t := th']> (threads s)) s) rq hole.
Proof.
  intros [Q Hi] Et Hst Hl Hp. exists Q. apply (inv_thread _ _ _ _ _ th); rewrite ?Hst, ?Hp; try done.
  - intros (thq & E & Hr)%(si_queued _ _ _ _ Hi). congruence.
  - intros Hr. destruct (decide (hole = Some t)); [by right|left]. by eapply (si_ready _ _ _ _ Hi).
  - intros Hr. by eapply (si_running _ _ _ _ Hi).
  - apply (si_thread _ _ _ _ Hi _ _ Et).
Qed.

(** ** Switching *)

(** [t] was dispatched in place of [prev], which is suspended in [k]. *)
Record dispatched s rq prev t k s' : Prop := Dispatched {
  di_ok : sched_ok s' rq None;
  di_current : current s' = t;
  di_other : prev ≠ t;
  di_threads : ∃ thp th, threads s !! prev = Some thp ∧ threads s !! t = Some th ∧ state (sch th) = THREAD_READY ∧
    threads s' = <[prev := set_cont k thp]> (<[t := set_state THREAD_RUNNING th]> (threads s));
  di_space : ∃ th pm, threads s !! t = Some th ∧ ps_pmaps (mm s) !! th_pmap th = Some pm ∧
    ps_cr3 (mm s') = pm_root_phys pm;
  di_mem : ps_mem (mm s') = ps_mem (mm s) ∧ ps_pmaps (mm s') = ps_pmaps (mm s) ∧
    ps_pages (mm s') = ps_pages (mm s) ∧ ps_glinks (mm s') = ps_glinks (mm s);
  di_rest : kirq s' = kirq s ∧ sched_ticks s' = sched_ticks s ∧ reg s' = reg s ∧ fut s' = fut s;
}.

Definition idle s : Prop := ∀ t th, threads s !! t = Some th → state (sch th) ≠ THREAD_RUNNING.

Lemma dispatch_ok s rq prev t k thp th :
  sched_ok s rq (Some t) → idle s → threads s !! prev = Some thp → threads s !! t = Some th → prev ≠ t →
  sched_ok (set_threads (<[prev := set_cont k thp]> (<[t := set_state THREAD_RUNNING th]> (threads s))) (set_current t s)) rq None.
Proof.
  intros [Q Hi] Hidle Ep Et Hne.
  assert (Hq := si_hole _ _ _ _ Hi t eq_refl).
  pose proof (inv_current _ _ _ _ t Hi ltac:(intros u thu E Hr; by destruct (Hidle u thu))) as H1.
  assert (H2 : sched_inv (set_threads (<[t := set_state THREAD_RUNNING th]> (threads s)) (set_current t s)) Q rq (Some t)).
  { apply (inv_thread (set_current t s) _ _ _ _ th); try done; apply (si_thread _ _ _ _ Hi _ _ Et). }
  assert (H3 : sched_inv (set_threads (<[t := set_state THREAD_RUNNING th]> (threads s)) (set_current t s)) Q rq None).
  { destruct H2 as [G1 G2 G3 G4 G5 G6 G7 G8 G9 G10]. split; try done.
    intros u thu E Hst _. destruct (decide (u = t)) as [->|Hu]; [|apply (G6 u thu E Hst); congruence].
    simpl in E. rewrite lookup_insert_eq in E. injection E as <-. done. }
  set (s2 := set_threads _ _) in H3.
  assert (H4 : sched_ok (set_threads (<[prev := set_cont k thp]> (threads s2)) s2) rq None); [|exact H4].
  apply (ok_thread _ _ _ _ thp); try done; [by eexists|simpl; by rewrite lookup_insert_ne|].
  apply (si_thread _ _ _ _ Hi _ _ Ep).
Qed.

Lemma sched_ok_mm s rq hole m :
  ps_pmaps m = ps_pmaps (mm s) → sched_ok s rq hole → sched_ok (set_mm m s) rq hole.
Proof. intros E [Q Hi]. exists Q. apply (inv_other s); try done. simpl. by rewrite E. Qed.

Lemma switch_to_spec s rq prev t k thp th :
  sched_ok s rq (Some t) → idle s → threads s !! prev = Some thp → threads s !! t = Some th → prev ≠ t →
  state (sch th) = THREAD_READY →
  ∃ s', switch_to prev t k s = Done tt s' ∧ dispatched s rq prev t k s'.
Proof.
  intros Hok Hidle Ep Et Hne Hready. pose proof (dispatch_ok _ _ _ _ k _ _ Hok Hidle Ep Et Hne) as Hd.
  destruct Hok as [Q Hi]. destruct (si_thread _ _ _ _ Hi _ _ Et) as (_ & _ & _ & [pm Epm]).
  set (s1 := set_threads _ _) in Hd.
  assert (Hrun : ∀ m, ps_pmaps m = ps_pmaps (mm s) → ps_cr3 m = pm_root_phys pm →
    ps_mem m = ps_mem (mm s) ∧ ps_pmaps m = ps_pmaps (mm s) ∧ ps_pages m = ps_pages (mm s) ∧ ps_glinks m = ps_glinks (mm s) →
    dispatched s rq prev t k (set_mm m s1)).
  { intros m Hp Hc Hm. split; try done.
    - by apply sched_ok_mm.
    - by exists thp, th.
    - by exists th, pm. }
  assert (Hs1 : threads s1 !! t = Some (set_state THREAD_RUNNING th)).
  { simpl. rewrite lookup_insert_ne by done. apply lookup_insert_eq. }
  assert (E : switch_to prev t k s = (if pm_root_phys pm =? ps_cr3 (mm s) then mret tt
    else on_mm (write_cr3 (pm_root_phys pm))) s1).
  { unfold switch_to. erewrite bind_done by done. erewrite bind_done by by apply upd_thread_run.
    erewrite bind_done; [|apply (upd_thread_run _ _ thp); simpl; by rewrite lookup_insert_ne].
    fold s1. erewrite bind_done by by apply the_thread_run.
    erewrite bind_done; [|apply klift_done, kread_done; exact Epm]. by erewrite bind_done by done. }
  rewrite E. destruct (pm_root_phys pm =? ps_cr3 (mm s)) eqn:Ec.
  - apply Z.eqb_eq in Ec. exists (set_mm (mm s) s1). split; [done|]. by apply Hrun.
  - eexists. split; [reflexivity|]. by apply Hrun.
Qed.

(** ** The routines of sched.c *)

(** Blocked or terminated: the state of a thread that leaves the processor. *)
Definition leaving (st : thread_state) : Prop := st = THREAD_BLOCKED ∨ st = THREAD_TERMINATED.

(** The state after [cur->state = st] for the running thread. *)
Definition left_cpu s cur th (st : thread_state) : kernel T :=
  set_threads (<[cur := set_state st th]> (threads s)) s.

Lemma left_cpu_ok s rq th st :
  sched_ok s rq None → threads s !! current s = Some th → state (sch th) = THREAD_RUNNING → leaving st →
  sched_ok (left_cpu s (current s) th st) rq None ∧ idle (left_cpu s (current s) th st).
Proof.
  intros [Q Hi] Et Hr Hst. split.
  - exists Q. apply (inv_thread _ _ _ _ _ th); try done; try (destruct Hst as [-> | ->]; done).
    + intros (thq & E & Hq)%(si_queued _ _ _ _ Hi). congruence.
    + apply (si_thread _ _ _ _ Hi _ _ Et).
    + apply (si_thread _ _ _ _ Hi _ _ Et).
  - intros u thu. simpl. rewrite lookup_insert. case_decide; [subst u|].
    + intros [= <-]. destruct Hst as [-> | ->]; done.
    + intros E Hu. apply H. by rewrite (si_running _ _ _ _ Hi _ _ E Hu).
Qed.

Lemma sched_leave_run s rq th st k :
  sched_ok s rq None → threads s !! current s = Some th → state (sch th) = THREAD_RUNNING → leaving st →
  match rq_pick rq with
  | None => sched_leave st k s = Halted (left_cpu s (current s) th st) ∧ ∀ t, ¬ queued rq t
  | Some (t, rq') => ∃ m s', sched_leave st k s = Done tt s' ∧
      dispatched (set_klinks m (left_cpu s (current s) th st)) rq' (current s) t k s'
  end.
Proof.
  intros Hok Et Hr Hst. destruct (left_cpu_ok s rq th st Hok Et Hr Hst) as [Hok1 Hidle].
  unfold sched_leave. erewrite bind_done by done. erewrite bind_done by by apply upd_thread_run.
  fold (left_cpu s (current s) th st). set (s1 := left_cpu s (current s) th st) in *.
  pose proof (sched_pick_spec s1 rq Hok1) as Hp. destruct (rq_pick rq) as [[t rq']|].
  - destruct Hp as (m & th' & E & Hok2 & Ht & Et' & Hst'). exists m.
    erewrite bind_done by exact E. rewrite (proj2 (Z.eqb_neq _ _) Ht).
    apply (switch_to_spec (set_klinks m s1) rq' (current s) t k (set_state st th) th'); try done.
    + apply lookup_insert_eq.
    + intros <-. simpl in Et'. rewrite lookup_insert_eq in Et'. injection Et' as <-.
      destruct Hst as [-> | ->]; done.
  - destruct Hp as [E Hq]. split; [|done]. by erewrite bind_done by exact E.
Qed.

(** The running thread goes to the tail of a queue. *)
Lemma requeue s rq th th' level :
  sched_ok s rq None → threads s !! current s = Some th → state (sch th) = THREAD_RUNNING →
  state (sch th') = THREAD_READY → current_level (sch th') = level → 0 ≤ level < MLFQ_LEVELS →
  th_pmap th' = th_pmap th →
  ∃ m, let s1 := set_threads (<[current s := th']> (threads s)) s in
    runq_add (current s) level s1 = Done tt (set_klinks m s1) ∧
    sched_ok (set_klinks m s1) (rq_push level (current s) rq) None ∧ idle (set_klinks m s1).
Proof.
  intros Hok Et Hr Hst Hl Hb Hp.
  destruct (inv_ready s rq (current s) th th' Hok Et) as [Hnq Hok1]; [congruence|done|by rewrite Hl|done|].
  destruct (runq_add_run _ rq _ (current s) th' level Hok1) as (m & E & Hok2);
    [done|apply lookup_insert_eq|done|done|].
  rewrite decide_True in Hok2 by done. exists m. split; [done|]. split; [done|].
  intros u thu. simpl. rewrite lookup_insert. case_decide; [intros [= <-]; congruence|].
  intros E' Hu. destruct Hok as [Q Hi]. pose proof (si_running _ _ _ _ Hi _ _ E' Hu). congruence.
Qed.

Lemma rq_first_push n level t l rq :
  (∀ l, is_Some (rq !! l) ↔ 0 ≤ l < MLFQ_LEVELS) → level ≤ l < level + Z.of_nat n →
  is_Some (rq_first n level (rq_push l t rq)).
Proof.
  intros Hd. revert level. induction n as [|n IH]; intros level Hl; simpl; [lia|].
  destruct (rq_push l t rq !!! level) eqn:E; [|eauto]. apply IH.
  destruct (decide (level = l)) as [->|]; [|lia].
  unfold rq_push in E. rewrite lookup_total_insert_eq in E. by destruct (rq !!! l).
Qed.

Lemma rq_pick_push s rq hole l t :
  sched_ok s rq hole → 0 ≤ l < MLFQ_LEVELS → is_Some (rq_pick (rq_push l t rq)).
Proof. intros [Q Hi] Hl. apply rq_first_push; [apply (si_dom _ _ _ _ Hi)|done]. Qed.

(** The thread as [sched_yield] queues it. *)
Definition yielded th : thread :=
  set_state THREAD_READY (set_quantum (quantum_of (current_level (sch th))) th).

(** The picked thread is the one that runs already. *)
Lemma resume_self s rq th :
  sched_ok s rq (Some (current s)) → idle s → threads s !! current s = Some th →
  sched_ok (set_threads (<[current s := set_state THREAD_RUNNING th]> (threads s)) s) rq None.
Proof.
  intros [Q Hi] Hidle Et. exists Q. pose proof (si_hole _ _ _ _ Hi _ eq_refl) as Hq.
  destruct (si_thread _ _ _ _ Hi _ _ Et) as (_ & _ & Hl & Hp).
  pose proof (inv_thread _ _ _ _ (current s) th (set_state THREAD_RUNNING th) Hi Et) as Hs.
  destruct Hs as [H1 H2 H3 H4 H5 H6 H7 H8 H9 H10]; try done. split; try done.
  intros u thu E Hr _. destruct (decide (u = current s)) as [->|]; [|by apply (H6 u thu); [..|congruence]].
  simpl in E. rewrite lookup_insert_eq in E. by injection E as <-.
Qed.

(** C22: [sched_yield] refills the quantum of the running thread, puts it at the
    tail of the queue of its level and takes the first thread of the highest
    non-empty level: either the caller itself, which goes on with its interrupt
    flag restored, or another thread, which is dispatched in its address space
    while the caller is suspended.  The queues, lists and thread states stay
    consistent. *)
Theorem sched_yield_spec s rq th :
  sched_ok s rq None → threads s !! current s = Some th → state (sch th) = THREAD_RUNNING →
  ∃ t rq' s', rq_pick (rq_push (current_level (sch th)) (current s) rq) = Some (t, rq') ∧
    sched_yield s = Done (bool_decide (t = current s)) s' ∧ sched_ok s' rq' None ∧ current s' = t ∧
    if decide (t = current s) then
      threads s' = <[current s := set_quantum (quantum_of (current_level (sch th))) th]> (threads s) ∧
      kirq s' = kirq s ∧ mm s' = mm s
    else ∃ m, dispatched (set_klinks m (set_threads (<[current s := yielded th]> (threads s)) (set_kirq false s)))
                rq' (current s) t (KYield (kirq s)) s'.
Proof.
  intros Hok Et Hr. destruct Hok as [Q Hi] eqn:HQ. clear HQ.
  destruct (si_thread _ _ _ _ Hi _ _ Et) as (_ & _ & Hl & _).
  set (s0 := set_kirq false s).
  assert (Hok0 : sched_ok s0 rq None) by (exists Q; by apply (inv_other s)).
  destruct (requeue s0 rq th (yielded th) (current_level (sch th)) Hok0) as (m & Ea & Hok1 & Hidle); [done..|].
  set (s1 := set_threads _ _) in Ea, Hok1, Hidle. change (current s0) with (current s) in *.
  destruct (rq_pick_push s rq None (current_level (sch th)) (current s) Hok Hl) as [[t rq'] Epk].
  pose proof (sched_pick_spec _ _ Hok1) as Hp. rewrite Epk in Hp.
  destruct Hp as (m' & th' & Epick & Hok2 & Ht & Et' & Hst').
  exists t, rq'. unfold sched_yield, irq_save. erewrite bind_done by done. cbv beta.
  erewrite bind_done by done. cbv beta. erewrite bind_done by by apply the_thread_run.
  erewrite bind_done by by apply quantum_run.
  rewrite upd_upd. erewrite bind_done by by apply upd_thread_run.
  erewrite bind_done by exact Ea. erewrite bind_done by exact Epick.
  rewrite (proj2 (Z.eqb_neq _ _) Ht). cbn [orb].
  destruct (decide (t = current s)) as [->|Hne].
  - rewrite Z.eqb_refl. simpl in Et'. rewrite lookup_insert_eq in Et'. injection Et' as <-.
    erewrite bind_done; [|apply upd_thread_run; apply lookup_insert_eq].
    rewrite bool_decide_true by done. eexists. split; [done|]. split; [reflexivity|].
    split; [|split; [done|split; [|done]]].
    + destruct (resume_self _ _ _ Hok2 Hidle (lookup_insert_eq _ _ _)) as [Q' Hi'].
      exists Q'. by apply (inv_other (set_threads (<[current s := set_state THREAD_RUNNING (yielded th)]>
        (threads (set_klinks m' (set_klinks m s1)))) (set_klinks m' (set_klinks m s1)))).
    + simpl. rewrite insert_insert_eq. f_equal. unfold yielded.
      destruct th as [? ? ? []]. simpl in Hr. by subst.
  - cbn [current set_kirq]. rewrite (proj2 (Z.eqb_neq t (current s)) Hne). rewrite bool_decide_false by done.
    destruct (switch_to_spec _ rq' (current s) t (KYield (kirq s)) (yielded th) th' Hok2 Hidle) as (s' & Es & Hd);
      [apply lookup_insert_eq|done|congruence|done|].
    exists s'. split; [done|]. split; [by erewrite bind_done by exact Es|].
    split; [apply Hd|]. split; [apply Hd|]. by exists m'.
Qed.

(** C23: [sched_block] and [sched_exit] take the running thread off the
    processor for good or until it is woken: the next thread of the queues is
    dispatched in its address space, the caller is suspended in the call it
    blocked in, and when no thread is ready the processor halts with interrupts
    masked and never returns. *)
Theorem sched_leave_spec s rq th st k :
  sched_ok s rq None → threads s !! current s = Some th → state (sch th) = THREAD_RUNNING → leaving st →
  match rq_pick rq with
  | None => sched_leave st k s = Halted (left_cpu s (current s) th st) ∧ ∀ t, ¬ queued rq t
  | Some (t, rq') => ∃ m s', sched_leave st k s = Done tt s' ∧
      dispatched (set_klinks m (left_cpu s (current s) th st)) rq' (current s) t k s'
  end.
Proof. apply sched_leave_run. Qed.

(** ** Waking up *)

(** The thread as [sched_enqueue] queues it. *)
Definition woken th : thread := set_quantum (quantum_of 0) (set_state THREAD_READY (set_level 0 th)).

Definition off_queue th : Prop := state (sch th) ≠ THREAD_READY ∧ state (sch th) ≠ THREAD_RUNNING.

Lemma sched_enqueue_run s rq t th :
  sched_ok s rq None → threads s !! t = Some th → off_queue th →
  ∃ m, sched_enqueue t s = Done tt (set_klinks m (set_threads (<[t := woken th]> (threads s)) s)) ∧
    sched_ok (set_klinks m (set_threads (<[t := woken th]> (threads s)) s)) (rq_push 0 t rq) None.
Proof.
  intros Hok Et [Hnr _].
  destruct (inv_ready s rq t th (woken th) Hok Et) as [Hnq Hok1]; [done..|].
  destruct (runq_add_run _ rq _ t (woken th) 0 Hok1) as (m & E & Hok2);
    [done|apply lookup_insert_eq|done|done|].
  destruct (decide (Some t = Some t)) as [_|]; [|done]. exists m. split; [|done].
  unfold sched_enqueue. rewrite upd_upd. erewrite bind_done by by apply upd_thread_run.
  erewrite bind_done by by apply quantum_run.
  erewrite bind_done; [|apply upd_thread_run, lookup_insert_eq].
  unfold set_threads at 2. simpl. rewrite insert_insert_eq. exact E.
Qed.

(** C24: [sched_wakeup] of a thread that is neither ready nor running makes it
    ready at the tail of level 0 with the quantum of that level, and touches no
    other thread. *)
Theorem sched_wakeup_spec s rq t th :
  sched_ok s rq None → threads s !! t = Some th → off_queue th →
  ∃ m, sched_wakeup t s = Done tt (set_klinks m (set_threads (<[t := woken th]> (threads s)) s)) ∧
    sched_ok (set_klinks m (set_threads (<[t := woken th]> (threads s)) s)) (rq_push 0 t rq) None.
Proof. apply sched_enqueue_run. Qed.

(** ** The boost *)

(** Level 0 and its quantum for the threads of a list. *)
Definition relevel th : thread := set_quantum (quantum_of 0) (set_level 0 th).
Definition relevel_on (ts : list Z) (m : gmap Z thread) : gmap Z thread :=
  map_imap (λ t th, Some (if decide (t ∈ ts) then relevel th else th)) m.

Lemma relevel_lookup ts m t :
  relevel_on ts m !! t = (λ th, if decide (t ∈ ts) then relevel th else th) <$> m !! t.
Proof. unfold relevel_on. rewrite map_lookup_imap. by destruct (m !! t). Qed.

Lemma relevel_nil m : relevel_on [] m = m.
Proof.
  apply map_eq. intros t. rewrite relevel_lookup. destruct (m !! t); [|done]. cbn [fmap option_fmap option_map].
  destruct (decide (t ∈ [])); [set_solver|done].
Qed.

Lemma relevel_app ts1 ts2 m : relevel_on ts2 (relevel_on ts1 m) = relevel_on (ts1 ++ ts2) m.
Proof.
  apply map_eq. intros t. rewrite !relevel_lookup. destruct (m !! t) as [th|]; simpl; [|done]. f_equal.
  destruct (decide (t ∈ ts1)), (decide (t ∈ ts2)), (decide (t ∈ ts1 ++ ts2)); try done; set_solver.
Qed.

Lemma relevel_one t th m : m !! t = Some th → relevel_on [t] m = <[t := relevel th]> m.
Proof.
  intros E. apply map_eq. intros u. rewrite relevel_lookup, lookup_insert.
  destruct (decide (t = u)) as [->|Hne].
  - rewrite E. cbn [fmap option_fmap option_map]. destruct (decide (u ∈ [u])); [done|set_solver].
  - destruct (m !! u); [|done]. cbn [fmap option_fmap option_map]. destruct (decide (u ∈ [t])); [set_solver|done].
Qed.

(** A queue is shorter than the store of nodes. *)
Lemma queue_fuel s rq hole l ts :
  sched_ok s rq hole → rq !! l = Some ts → (length ts < size (klinks s))%nat.
Proof.
  intros [Q Hi] El.
  assert (EQ : Q !! RunqHead l = Some (SchedNode <$> ts)) by by rewrite (si_heads _ _ _ _ Hi), El.
  pose proof (dlist_size _ _ _ (lists_dlist _ _ _ _ (si_lists _ _ _ _ Hi) EQ)) as Hd. by rewrite length_fmap in Hd.
Qed.

Lemma rq_drain_nil level rq : 1 ≤ level → rq !! level = Some [] → is_Some (rq !! 0) → rq_drain level rq = rq.
Proof.
  intros Hl E [ts0 E0]. unfold rq_drain. rewrite (lookup_total_correct _ _ _ E), (lookup_total_correct _ _ _ E0), app_nil_r.
  rewrite (insert_id rq 0) by done. by rewrite insert_id.
Qed.

Lemma rq_drain_push level t ts rq :
  1 ≤ level → rq !! level = Some (t :: ts) →
  rq_drain level (rq_push 0 t (<[level := ts]> rq)) = rq_drain level rq.
Proof.
  intros Hl E. set (rq1 := rq_push 0 t (<[level := ts]> rq)).
  assert (E0 : rq1 !!! 0 = rq !!! 0 ++ [t]).
  { unfold rq1, rq_push. by rewrite lookup_total_insert_eq, lookup_total_insert_ne by lia. }
  assert (E1 : rq1 !!! level = ts).
  { unfold rq1, rq_push. by rewrite lookup_total_insert_ne, lookup_total_insert_eq by lia. }
  unfold rq_drain. rewrite E0, E1, (lookup_total_correct _ _ _ E), <- app_assoc.
  apply map_eq. intros l. unfold rq1, rq_push. rewrite !lookup_insert. repeat case_decide; done.
Qed.

Lemma boost_step s rq level t ts th :
  sched_ok s rq None → 1 ≤ level < MLFQ_LEVELS → rq !! level = Some (t :: ts) → threads s !! t = Some th →
  ∃ m, let s' := set_klinks m (set_threads (<[t := relevel th]> (threads s)) s) in
    (∀ fuel, boost_level (S fuel) level s = boost_level fuel level s') ∧
    sched_ok s' (rq_push 0 t (<[level := ts]> rq)) None.
Proof.
  intros [Q Hi] Hl El Et. assert (Hr : 0 ≤ level < MLFQ_LEVELS) by lia.
  pose proof (runq_list _ _ _ _ _ Hi Hr) as EQ. rewrite (lookup_total_correct _ _ _ El) in EQ.
  pose proof (lists_empty_spec _ _ _ _ (si_lists _ _ _ _ Hi) EQ) as Ee.
  pose proof (lists_first _ _ _ _ _ (si_lists _ _ _ _ Hi) EQ) as Ef.
  destruct (inv_pop s Q rq level t [] ts Hi El) as (m & Em & Hm).
  assert (Hst : state (sch th) = THREAD_READY).
  { destruct (si_queued _ _ _ _ Hi t) as (th' & ? & ?); [exists level, (t :: ts); set_solver|]. congruence. }
  assert (Hnq := si_hole _ _ _ _ Hm t eq_refl).
  assert (Hok1 : sched_ok (set_threads (<[t := relevel th]> (threads (set_klinks m s))) (set_klinks m s))
                   (<[level := ts]> rq) (Some t)).
  { apply (ok_thread _ _ _ _ th); [by eexists|done..]. }
  destruct (runq_add_run _ _ _ t (relevel th) 0 Hok1) as (m' & E' & Hok2);
    [done|apply lookup_insert_eq|done|done|].
  exists m'. cbv zeta. destruct (decide (Some t = Some t)) as [_|]; [|done]. split; [|exact Hok2].
  intros fuel. cbn [boost_level].
  erewrite bind_done by by apply kread_done. rewrite bool_decide_false by done. cbn beta iota.
  erewrite bind_done by by apply kread_done. erewrite bind_done by done.
  unfold on_klinks at 1. erewrite bind_done; [|apply kupdate_done; by rewrite Em].
  erewrite bind_done by by apply upd_thread_run. erewrite bind_done by by apply quantum_run.
  erewrite bind_done; [|apply upd_thread_run, lookup_insert_eq].
  unfold set_threads at 1. simpl. rewrite insert_insert_eq. by erewrite bind_done by exact E'.
Qed.

Lemma boost_level_spec ts fuel s rq level :
  sched_ok s rq None → 1 ≤ level < MLFQ_LEVELS → rq !! level = Some ts → (length ts < fuel)%nat →
  ∃ m, boost_level fuel level s = Done tt (set_klinks m (set_threads (relevel_on ts (threads s)) s)) ∧
    sched_ok (set_klinks m (set_threads (relevel_on ts (threads s)) s)) (rq_drain level rq) None.
Proof.
  revert fuel s rq. induction ts as [|t ts IH]; intros fuel s rq Hok Hl El Hf.
  - destruct fuel as [|fuel]; [simpl in Hf; lia|]. destruct Hok as [Q Hi]. exists (klinks s).
    assert (Hr : 0 ≤ level < MLFQ_LEVELS) by lia.
    pose proof (runq_list _ _ _ _ _ Hi Hr) as EQ. rewrite (lookup_total_correct _ _ _ El) in EQ.
    rewrite relevel_nil. rewrite rq_drain_nil; [|lia|done|apply (si_dom _ _ _ _ Hi); done].
    split; [|exists Q; by apply (inv_other s)]. cbn [boost_level].
    erewrite bind_done; [|apply kread_done; exact (lists_empty_spec _ _ _ _ (si_lists _ _ _ _ Hi) EQ)].
    by destruct s.
  - destruct fuel as [|fuel]; [simpl in Hf; lia|].
    assert (∃ th, threads s !! t = Some th) as [th Et].
    { destruct Hok as [Q Hi]. destruct (si_queued _ _ _ _ Hi t) as (th & ? & _); [exists level, (t :: ts); set_solver|eauto]. }
    destruct (boost_step s rq level t ts th Hok Hl El Et) as (m & Estep & Hok1).
    rewrite Estep. set (s1 := set_klinks m _) in *.
    assert (El1 : rq_push 0 t (<[level:=ts]> rq) !! level = Some ts).
    { unfold rq_push. rewrite lookup_insert_ne, lookup_insert_eq by lia. done. }
    destruct (IH fuel s1 _ Hok1 Hl El1) as (m' & E & Hok2); [simpl in Hf; lia|].
    exists m'. rewrite rq_drain_push in Hok2 by (done || lia).
    assert (Eth : relevel_on ts (threads s1) = relevel_on (t :: ts) (threads s)).
    { simpl. rewrite <- (relevel_one _ _ _ Et). by rewrite relevel_app. }
    rewrite Eth in *. by split.
Qed.

Lemma relevel_absent t m : m !! t = None → relevel_on [t] m = m.
Proof.
  intros E. apply map_eq. intros u. rewrite relevel_lookup.
  destruct (m !! u) eqn:Eu; [|done]. cbn [fmap option_fmap option_map].
  destruct (decide (u ∈ [t])) as [->%list_elem_of_singleton|]; [congruence|done].
Qed.

(** The threads a boost moves: the current one and those below level 0. *)
Definition boosted (cur : Z) rq : list Z := cur :: rq !!! 1 ++ rq !!! 2 ++ rq !!! 3.

Lemma boost_current s rq :
  sched_ok s rq None → (current s ≠ 0 → is_Some (threads s !! current s)) →
  let s1 := set_threads (relevel_on [current s] (threads s)) s in
  (if negb (current s =? 0) then
     upd_thread (current s) (set_level 0);; q ← quantum 0; upd_thread (current s) (set_quantum q)
   else mret tt) s = Done tt s1 ∧ sched_ok s1 rq None.
Proof.
  intros Hok Hc s1. destruct (current s =? 0) eqn:Ec; simpl.
  - apply Z.eqb_eq in Ec. assert (Es : s1 = s).
    { unfold s1. rewrite Ec. rewrite relevel_absent; [by destruct s|].
      destruct Hok as [Q Hi]. destruct (threads s !! 0) eqn:E0; [|done].
      by destruct (si_thread _ _ _ _ Hi _ _ E0) as (? & _). }
    by rewrite Es.
  - apply Z.eqb_neq in Ec. destruct (Hc Ec) as [th Et]. unfold s1. rewrite (relevel_one _ _ _ Et).
    erewrite bind_done by by apply upd_thread_run. erewrite bind_done by by apply quantum_run. split.
    + erewrite upd_thread_run by apply lookup_insert_eq. unfold set_threads. simpl. by rewrite insert_insert_eq.
    + by apply (ok_thread _ _ _ _ th).
Qed.

Lemma sched_boost_run s rq :
  sched_ok s rq None → (current s ≠ 0 → is_Some (threads s !! current s)) →
  ∃ m, let s' := set_klinks m (set_threads (relevel_on (boosted (current s) rq) (threads s)) s) in
    sched_boost s = Done tt s' ∧ sched_ok s' (rq_boost rq) None.
Proof.
  intros Hok Hc. destruct (boost_current s rq Hok Hc) as [E0 Hok0].
  unfold sched_boost. erewrite bind_done by done. erewrite bind_done by exact E0. clear E0.
  set (s0 := set_threads _ s) in *.
  assert (Hlev : ∀ s rq l, sched_ok s rq None → 1 ≤ l < MLFQ_LEVELS → 
    ∃ m, (fuel ← kget list_fuel; boost_level fuel l) s =
        Done tt (set_klinks m (set_threads (relevel_on (rq !!! l) (threads s)) s)) ∧
      sched_ok (set_klinks m (set_threads (relevel_on (rq !!! l) (threads s)) s)) (rq_drain l rq) None).
  { intros u q l Hu Hl. assert (El : q !! l = Some (q !!! l)).
    { destruct Hu as [Q Hi]. apply (rq_total _ _ _ _ _ Hi). lia. }
    erewrite bind_done by done. pose proof (queue_fuel _ _ _ _ _ Hu El).
    apply (boost_level_spec _ _ _ _ _ Hu Hl El). unfold list_fuel. lia. }
  unfold MLFQ_LEVELS in Hlev. cbn [kfor].
  destruct (Hlev s0 rq 1 Hok0 ltac:(lia)) as (m1 & E1 & Hok1). erewrite bind_done by exact E1. clear E1.
  change (1 + 1) with 2. destruct (Hlev _ _ 2 Hok1 ltac:(lia)) as (m2 & E2 & Hok2). erewrite bind_done by exact E2. clear E2.
  change (2 + 1) with 3. destruct (Hlev _ _ 3 Hok2 ltac:(lia)) as (m3 & E3 & Hok3). erewrite bind_done by exact E3. clear E3.
  assert (D2 : rq_drain 1 rq !!! 2 = rq !!! 2) by (unfold rq_drain; by rewrite !lookup_total_insert_ne by lia).
  assert (D3 : rq_drain 2 (rq_drain 1 rq) !!! 3 = rq !!! 3) by (unfold rq_drain; by rewrite !lookup_total_insert_ne by lia).
  rewrite D2, D3 in *. exists m3. cbv zeta.
  assert (Eth : relevel_on (rq !!! 3) (relevel_on (rq !!! 2) (relevel_on (rq !!! 1) (threads s0))) =
    relevel_on (boosted (current s) rq) (threads s)).
  { unfold s0. simpl. rewrite !relevel_app. unfold boosted. simpl. by rewrite ?app_assoc. }
  rewrite <- Eth. split; [reflexivity|exact Hok3].
Qed.

(** The boost moves every waiting thread to level 0 in order of level, gives
    each of them and the running thread the quantum of level 0, leaves every
    other thread alone and keeps the invariant. *)
Theorem sched_boost_spec s rq :
  sched_ok s rq None → (current s ≠ 0 → is_Some (threads s !! current s)) →
  ∃ m, let s' := set_klinks m (set_threads (relevel_on (boosted (current s) rq) (threads s)) s) in
    sched_boost s = Done tt s' ∧ sched_ok s' (rq_boost rq) None ∧
    (∀ t, queued (rq_boost rq) t → t ∈ rq_boost rq !!! 0).
Proof.
  intros Hok Hc. destruct (sched_boost_run s rq Hok Hc) as (m & E & Hok'). exists m. split; [done|]. split; [done|].
  intros t (l & ts & El & Hin). destruct Hok as [Q Hi].
  destruct (decide (l = 0)) as [->|Hl]; [by rewrite (lookup_total_correct _ _ _ El)|].
  exfalso. revert El. unfold rq_boost, rq_drain. rewrite !lookup_insert.
  repeat case_decide; try (intros [= <-]; set_solver).
  intros El. assert (0 ≤ l < MLFQ_LEVELS) by (apply (si_dom _ _ _ _ Hi); eauto). unfold MLFQ_LEVELS in *. lia.
Qed.

(** ** The timer tick *)

(** What the tick does to the running thread. *)
Definition time_left th : Z := wrap32 (time_quantum_left (sch th) - 1).
Definition exhausted th : bool := time_left th =? 0.
Definition demoted th : Z :=
  if current_level (sch th) <? MLFQ_LEVELS - 1 then current_level (sch th) + 1 else current_level (sch th).
Definition charged th : thread :=
  set_quantum (time_left th) (set_cpu_time (wrap64 (total_cpu_time (sch th) + 1)) th).
Definition ticked th : thread :=
  if exhausted th
  then set_state THREAD_READY (set_quantum (quantum_of (demoted th)) (set_level (demoted th) (charged th)))
  else charged th.

Definition running s : option thread :=
  th ← threads s !! current s;
  if decide (state (sch th) = THREAD_RUNNING) then Some th else None.

(** Whether the quantum ends, the threads and the queues after the accounting. *)
Definition account s rq : bool * gmap Z thread * queues :=
  match running s with
  | Some th => (exhausted th, <[current s := ticked th]> (threads s),
                if exhausted th then rq_push (demoted th) (current s) rq else rq)
  | None => (false, threads s, rq)
  end.

Definition boosting s : bool := sched_ticks s mod BOOST_PERIOD =? BOOST_PERIOD - 1.
Definition boost_phase s (ts : gmap Z thread) rq : gmap Z thread * queues :=
  if boosting s then (relevel_on (boosted (current s) rq) ts, rq_boost rq) else (ts, rq).

Lemma demoted_range th : 0 ≤ current_level (sch th) < MLFQ_LEVELS → 0 ≤ demoted th < MLFQ_LEVELS.
Proof. unfold demoted, MLFQ_LEVELS. intros. destruct (_ <? _) eqn:E; [apply Z.ltb_lt in E|]; lia. Qed.

(** The accounting of [sched_tick]. *)
Definition tick_account (cur : Z) : K (kernel T) bool :=
  if cur =? 0 then mret false else
  th ← the_thread cur;
  if negb (bool_decide (state (sch th) = THREAD_RUNNING)) then mret false else
  upd_thread cur (set_cpu_time (wrap64 (total_cpu_time (sch th) + 1)));;
  let left := wrap32 (time_quantum_left (sch th) - 1) in
  upd_thread cur (set_quantum left);;
  if negb (left =? 0) then mret false else
  let level := if current_level (sch th) <? MLFQ_LEVELS - 1 then wrap32 (current_level (sch th) + 1)
               else current_level (sch th) in
  upd_thread cur (set_level level);;
  q ← quantum level;
  upd_thread cur (set_quantum q);;
  upd_thread cur (set_state THREAD_READY);;
  runq_add cur level;;
  mret true.

Lemma tick_account_run s rq :
  sched_ok s rq None → (current s ≠ 0 → is_Some (threads s !! current s)) →
  let '(exh, ts, rq1) := account s rq in
  ∃ m, let s1 := set_klinks m (set_threads ts s) in
    tick_account (current s) s = Done exh s1 ∧ sched_ok s1 rq1 None ∧
    (exh = true → idle s1 ∧ ∃ th, ts !! current s = Some th ∧ state (sch th) = THREAD_READY).
Proof.
  intros Hok Hc. unfold account, running, tick_account.
  assert (Es : s = set_klinks (klinks s) (set_threads (threads s) s)) by by destruct s.
  destruct (current s =? 0) eqn:Ec.
  { apply Z.eqb_eq in Ec. destruct (threads s !! current s) as [th|] eqn:Et; simpl.
    - destruct Hok as [Q Hi]. by destruct (si_thread _ _ _ _ Hi _ _ Et) as (? & _).
    - exists (klinks s). rewrite <- Es. by split. }
  apply Z.eqb_neq in Ec. destruct (Hc Ec) as [th Et]. rewrite Et. simpl.
  erewrite bind_done by by apply the_thread_run.
  destruct (decide (state (sch th) = THREAD_RUNNING)) as [Hr|Hr]; cycle 1.
  { rewrite bool_decide_false by done. exists (klinks s). rewrite <- Es. by split. }
  rewrite bool_decide_true by done. cbn [negb].
  assert (Hl : 0 ≤ current_level (sch th) < MLFQ_LEVELS).
  { destruct Hok as [Q Hi]. apply (si_thread _ _ _ _ Hi _ _ Et). }
  rewrite upd_upd. erewrite bind_done by by apply upd_thread_run. fold (time_left th). fold (charged th).
  unfold ticked. unfold exhausted. destruct (time_left th =? 0) eqn:Eq; cbn [negb]; cycle 1.
  { exists (klinks s). split; [done|]. split; [|done].
    pose proof (ok_thread s rq None (current s) th (charged th) Hok Et eq_refl Hl eq_refl) as [Q Hi].
    exists Q. by apply (inv_other (set_threads (<[current s := charged th]> (threads s)) s)). }
  assert (Ed : (if current_level (sch th) <? MLFQ_LEVELS - 1 then wrap32 (current_level (sch th) + 1)
     else current_level (sch th)) = demoted th).
  { unfold demoted. unfold MLFQ_LEVELS in *. rewrite wrap32_small by (unfold U32; lia). done. }
  rewrite Ed. pose proof (demoted_range _ Hl) as Hd.
  destruct (requeue s rq th (set_state THREAD_READY (set_quantum (quantum_of (demoted th)) (set_level (demoted th) (charged th)))) (demoted th))
    as (m & Ea & Hok1 & Hidle); [done..|].
  exists m. split; [|split; [done|]].
  - erewrite bind_done; [|apply upd_thread_run, lookup_insert_eq].
    erewrite bind_done by by apply quantum_run. rewrite upd_upd.
    erewrite bind_done; [|apply upd_thread_run, lookup_insert_eq].
    unfold set_threads at 1 2 3. simpl. rewrite !insert_insert_eq. by erewrite bind_done by exact Ea.
  - intros _. split; [done|]. eexists. split; [apply lookup_insert_eq|done].
Qed.

Lemma boost_phase_run s m ts rq :
  let s1 := set_klinks m (set_threads ts s) in
  sched_ok s1 rq None → (current s ≠ 0 → is_Some (ts !! current s)) →
  let '(ts2, rq2) := boost_phase s ts rq in
  ∃ m2, let s2 := set_klinks m2 (set_threads ts2 (set_ticks (wrap64 (sched_ticks s + 1)) s)) in
    (if boosting s then sched_boost else mret tt) (set_ticks (wrap64 (sched_ticks s + 1)) s1) = Done tt s2 ∧
    sched_ok s2 rq2 None.
Proof.
  intros s1 Hok Hc. unfold boost_phase.
  assert (Hok1 : sched_ok (set_ticks (wrap64 (sched_ticks s + 1)) s1) rq None).
  { destruct Hok as [Q Hi]. exists Q. by apply (inv_other s1). }
  destruct (boosting s).
  - destruct (sched_boost_run _ rq Hok1 Hc) as (m2 & E & Hok2). by exists m2.
  - by exists m.
Qed.

Lemma boost_idle s ts rq m v :
  idle (set_klinks m (set_threads ts s)) → (∃ th, ts !! current s = Some th ∧ state (sch th) = THREAD_READY) →
  let ts2 := (boost_phase s ts rq).1 in
  idle (set_klinks v (set_threads ts2 (set_ticks (wrap64 (sched_ticks s + 1)) s))) ∧
  ∃ th, ts2 !! current s = Some th ∧ state (sch th) = THREAD_READY.
Proof.
  intros Hidle (th & Et & Hr). unfold boost_phase. destruct (boosting s); simpl; [|split; [done|by exists th]].
  split.
  - intros u thu. simpl. rewrite relevel_lookup. intros (th' & E' & Eu)%fmap_Some. rewrite Eu.
    destruct (decide _); apply (Hidle u th' E').
  - rewrite relevel_lookup, Et. eexists. split; [done|]. by destruct (decide _).
Qed.

(** C21: one timer tick: the running thread is charged one tick; when its quantum
    is used up it is demoted one level and queued there; every
    [BOOST_PERIOD]-th tick boosts all threads; and only when the quantum was used
    up the first thread of the highest non-empty level is dispatched, which may
    be the same thread again.  The call always returns and keeps the
    invariant. *)
Theorem sched_tick_spec s rq :
  sched_ok s rq None → (current s ≠ 0 → is_Some (threads s !! current s)) →
  let '(exh, ts1, rq1) := account s rq in
  let '(ts2, rq2) := boost_phase s ts1 rq1 in
  ∃ m, let s2 := set_klinks m (set_threads ts2 (set_ticks (wrap64 (sched_ticks s + 1)) s)) in
    sched_ok s2 rq2 None ∧
    if (exh : bool) then
      ∃ t rq3 s' m', rq_pick rq2 = Some (t, rq3) ∧ sched_tick s = Done tt s' ∧ sched_ok s' rq3 None ∧ current s' = t ∧
        if decide (t = current s)
        then ∃ th, ts2 !! t = Some th ∧ s' = set_klinks m' (set_threads (<[t := set_state THREAD_RUNNING th]> ts2) s2)
        else dispatched (set_klinks m' s2) rq3 (current s) t KUser s'
    else sched_tick s = Done tt s2.
Proof.
  intros Hok Hc. pose proof (tick_account_run s rq Hok Hc) as Ha.
  destruct (account s rq) as [[exh ts1] rq1] eqn:Eacc. destruct Ha as (m1 & Ea & Hok1 & Hex).
  assert (Hc1 : current s ≠ 0 → is_Some (ts1 !! current s)).
  { intros Hne. destruct (Hc Hne) as [th Et]. unfold account in Eacc.
    destruct (running s); injection Eacc as <- <- <-; [rewrite lookup_insert_eq|]; eauto. }
  pose proof (boost_phase_run s m1 ts1 rq1 Hok1 Hc1) as Hb.
  pose proof (boost_idle s ts1 rq1 m1) as Hbi.
  destruct (boost_phase s ts1 rq1) as [ts2 rq2]. destruct Hb as (m2 & Eb & Hok2). simpl in Hbi.
  exists m2. cbv zeta. split; [done|]. set (s2 := set_klinks m2 _) in *.
  assert (Et : sched_tick s = (if negb exh then mret tt else
    next ← sched_pick; if next =? 0 then mret tt else
    if next =? current s then upd_thread (current s) (set_state THREAD_RUNNING) else switch_to (current s) next KUser) s2).
  { unfold sched_tick. erewrite bind_done by done.
    erewrite bind_done by exact Ea. erewrite bind_done by done. erewrite bind_done by done.
    fold (boosting s). by erewrite bind_done by exact Eb. }
  rewrite Et. clear Et Ea Eb. destruct exh; [|done]. cbn [negb].
  destruct (Hex eq_refl) as (Hidle1 & Hth). destruct (Hbi m2 Hidle1 Hth) as (Hidle & th & Eth & Hst).
  pose proof (sched_pick_spec s2 rq2 Hok2) as Hp. destruct (rq_pick rq2) as [[t rq3]|] eqn:Epk; cycle 1.
  { exfalso. destruct Hp as [_ Hq]. destruct Hok2 as [Q Hi]. apply (Hq (current s)).
    by apply (si_ready _ _ _ _ Hi _ th). }
  destruct Hp as (m' & th' & Epick & Hok3 & Ht & Et' & Hst'). erewrite bind_done by exact Epick.
  rewrite (proj2 (Z.eqb_neq _ _) Ht). exists t, rq3.
  destruct (decide (t = current s)) as [->|Hne].
  - rewrite Z.eqb_refl. eexists _, m'. split; [done|].
    split; [by apply upd_thread_run|]. split; [by apply (resume_self (set_klinks m' s2))|]. split; [done|].
    exists th'. by split.
  - rewrite (proj2 (Z.eqb_neq _ _) Hne).
    destruct (switch_to_spec (set_klinks m' s2) rq3 (current s) t KUser th th' Hok3 Hidle) as (s' & Es & Hd); [done..|].
    exists s', m'. split; [done|]. split; [done|]. split; [apply Hd|]. by split; [apply Hd|].
Qed.
End inv.
