(* ===== verification/Ipc.v ===== *)
(** * Synchronous message passing (kernel/task/ipc.c)

    A call that returns to its caller yields [Some (value, words)], where
    [words] is what it stored through its [out] parameter; a call that suspends
    its caller yields [None] and leaves the rest of the call in the thread's
    [kcont].  [resume] is that rest, run by the thread that [switch_to]
    returned to. *)

From S2P Require Export Sched.

Section ipc.
Context {T : Type}.
Implicit Types (s : kernel T) (words : list Z).

(** [&t->ipc_ep.lock]. *)
Definition on_ep_lock {A} (t : Z) (op : K spinlock A) : K (kernel T) A :=
  th ← the_thread t;
  klift (λ _, ep_lock (ipc th)) (λ l s, set_threads (<[t := set_ep_lock l th]> (threads s)) s) op.

(** [container_of(n, struct thread, ipc_list)]. *)
Definition ipc_thread (n : tnode) : K (kernel T) Z :=
  match n with IpcNode t => mret t | _ => kundef end.

(** [if (list_empty(&ep->ipc_waitqueue)) ep->state = IPC_EP_INACTIVE]. *)
Definition ep_settle (t : Z) : K (kernel T) unit :=
  empty ← kread (λ s, list_empty (IpcHead t) (klinks s));
  if (empty : bool) then upd_thread t (set_ep_state IPC_EP_INACTIVE) else mret tt.

(** [if (t->state == THREAD_BLOCKED) sched_wakeup(t)]. *)
Definition wake_blocked (t : Z) : K (kernel T) unit :=
  th ← the_thread t;
  if bool_decide (state (sch th) = THREAD_BLOCKED) then sched_wakeup t else mret tt.

(** [list_del(ep->ipc_waitqueue.next)]. *)
Definition ep_drop_first (t : Z) : K (kernel T) unit :=
  n ← kread (λ s, list_first (IpcHead t) (klinks s));
  on_klinks (list_del n).

Definition ipc_deliver_msg (recv sender_tid : Z) words (prev_seq : Z) : K (kernel T) unit :=
  ep_drop_first recv;;
  upd_thread recv (set_msg words);;
  upd_thread recv (set_sender sender_tid);;
  upd_thread recv (set_prev_seq prev_seq);;
  ep_settle recv;;
  wake_blocked recv.

Definition ipc_deliver_reply (recv sender_tid : Z) words : K (kernel T) unit :=
  ep_drop_first recv;;
  upd_thread recv (set_msg words);;
  upd_thread recv (set_sender sender_tid);;
  ep_settle recv;;
  wake_blocked recv.

Definition ipc_accept (recv : Z) : K (kernel T) (Z * list Z) :=
  n ← kread (λ s, list_first (IpcHead recv) (klinks s));
  snd ← ipc_thread n;
  th ← the_thread snd;
  let sender_tid := tid th in
  on_klinks (list_del (IpcNode snd));;
  upd_thread recv (set_msg (ipc_msg (ipc th)));;
  upd_thread recv (set_sender sender_tid);;
  th ← the_thread snd;
  let in_call := bool_decide (ep_state (ipc th) = IPC_EP_WAIT_RECV) in
  upd_thread recv (set_prev_seq (if in_call then ipc_call_seq (ipc th) else 0));;
  ep_settle recv;;
  th ← the_thread snd;
  (if negb (bool_decide (ep_state (ipc th) = IPC_EP_WAIT_RECV)) then wake_blocked snd else mret tt);;
  rth ← the_thread recv;
  mret (sender_tid, ipc_msg (ipc rth)).

(** [t] queues itself on the endpoint of [owner], in state [st]. *)
Definition ep_enqueue (owner : Z) (st : ipc_endpoint_state) (n : tnode) : K (kernel T) unit :=
  upd_thread owner (set_ep_state st);;
  on_klinks (list_add_tail n (IpcHead owner)).

Definition ipc_send (target : Z) words : K (kernel T) (option (Z * list Z)) :=
  cur ← kget current;
  flags ← irq_save;
  on_ep_lock target spin_lock;;
  th ← the_thread target;
  if bool_decide (ep_state (ipc th) = IPC_EP_WAIT_RECV) then
    cth ← the_thread cur;
    ipc_deliver_msg target (tid cth) words 0;;
    on_ep_lock target spin_unlock;;
    irq_restore flags;;
    mret (Some (0, []))
  else
    upd_thread cur (set_msg words);;
    ep_enqueue target IPC_EP_WAIT_SEND (IpcNode cur);;
    on_ep_lock target spin_unlock;;
    sched_block (KSend flags);;
    mret None.

(** The second half of [ipc_recv] and [ipc_reply_recv]: accept a pending
    message or wait for one. *)
Definition recv_or_wait (cur : Z) (flags : bool) : K (kernel T) (option (Z * list Z)) :=
  on_ep_lock cur spin_lock;;
  th ← the_thread cur;
  if bool_decide (ep_state (ipc th) = IPC_EP_WAIT_SEND) then
    r ← ipc_accept cur;
    on_ep_lock cur spin_unlock;;
    irq_restore flags;;
    mret (Some r)
  else
    ep_enqueue cur IPC_EP_WAIT_RECV (IpcNode cur);;
    on_ep_lock cur spin_unlock;;
    sched_block (KRecv flags);;
    mret None.

Definition ipc_recv : K (kernel T) (option (Z * list Z)) :=
  cur ← kget current;
  flags ← irq_save;
  recv_or_wait cur flags.

Definition ipc_call (target : Z) words : K (kernel T) (option (Z * list Z)) :=
  cur ← kget current;
  flags ← irq_save;
  upd_thread cur (λ th, set_call_seq (wrap64 (ipc_call_seq (ipc th) + 1)) th);;
  cth ← the_thread cur;
  let seq := ipc_call_seq (ipc cth) in
  on_ep_lock cur spin_lock;;
  cth ← the_thread cur;
  let saved_sender := ipc_sender (ipc cth) in
  ep_enqueue cur IPC_EP_WAIT_RECV (IpcWaitNode cur);;
  on_ep_lock cur spin_unlock;;
  on_ep_lock target spin_lock;;
  th ← the_thread target;
  (if bool_decide (ep_state (ipc th) = IPC_EP_WAIT_RECV) then
     ipc_deliver_msg target (tid cth) words seq
   else
     upd_thread cur (set_msg words);;
     ep_enqueue target IPC_EP_WAIT_SEND (IpcNode cur));;
  on_ep_lock target spin_unlock;;
  sched_block (KCall flags saved_sender);;
  mret None.

(** The reply of [ipc_reply_recv]: to the thread of the last request, when it
    is still blocked on that very call. *)
Definition ipc_reply (cur prev_sender : Z) words : K (kernel T) unit :=
  caller ← thread_lookup prev_sender;
  cth ← the_thread cur;
  if (ipc_prev_seq (ipc cth) =? 0) || (caller =? 0) || (caller =? cur) then mret tt else
  th ← the_thread caller;
  if negb (ipc_call_seq (ipc th) =? ipc_prev_seq (ipc cth)) then mret tt else
  on_ep_lock caller spin_lock;;
  th ← the_thread caller;
  (if bool_decide (ep_state (ipc th) = IPC_EP_WAIT_RECV) then
     empty ← kread (λ s, list_empty (IpcHead caller) (klinks s));
     if negb (empty : bool) then ipc_deliver_reply caller (tid cth) words else mret tt
   else mret tt);;
  on_ep_lock caller spin_unlock.

Definition ipc_reply_recv words : K (kernel T) (option (Z * list Z)) :=
  cur ← kget current;
  flags ← irq_save;
  on_ep_lock cur spin_lock;;
  cth ← the_thread cur;
  let prev_sender := ipc_sender (ipc cth) in
  on_ep_lock cur spin_unlock;;
  ipc_reply cur prev_sender words;;
  recv_or_wait cur flags.

(** ** After [sched_block] returned *)

(** [ipc_recv], [ipc_reply_recv]. *)
Definition recv_resume (cur : Z) (flags : bool) : K (kernel T) (Z * list Z) :=
  on_ep_lock cur spin_lock;;
  th ← the_thread cur;
  on_ep_lock cur spin_unlock;;
  irq_restore flags;;
  mret (ipc_sender (ipc th), ipc_msg (ipc th)).

(** [ipc_call]. *)
Definition call_resume (cur : Z) (flags : bool) (saved_sender : Z) : K (kernel T) (Z * list Z) :=
  on_ep_lock cur spin_lock;;
  th ← the_thread cur;
  upd_thread cur (set_sender saved_sender);;
  on_ep_lock cur spin_unlock;;
  irq_restore flags;;
  mret (ipc_sender (ipc th), ipc_msg (ipc th)).

(** What the current thread does when [switch_to] returns to it, up to its
    return to user mode; [th_ret] is what its system call returned. *)
Definition resume : K (kernel T) unit :=
  cur ← kget current;
  th ← the_thread cur;
  upd_thread cur (set_cont KUser);;
  match cont th with
  | KUser => mret tt
  | KYield flags => irq_restore flags;; upd_thread cur (set_ret (Some (0, [])))
  | KSend flags => irq_restore flags;; upd_thread cur (set_ret (Some (0, [])))
  | KRecv flags => r ← recv_resume cur flags; upd_thread cur (set_ret (Some r))
  | KCall flags saved => r ← call_resume cur flags saved; upd_thread cur (set_ret (Some r))
  | KFutex => upd_thread cur (set_ret (Some (0, [])))
  | KDestroy target => thread_destroy target;; upd_thread cur (set_ret (Some (0, [])))
  | KDead => kundef
  end.
End ipc.
