(* ===== verification/IpcAbs.v ===== *)
(** * Message passing, abstractly

    What ipc.c does to the endpoint queues [L] and to the part of every thread
    it reads ([iview]), as functions of these two only, without locks, lists in
    memory or a scheduler; the invariant of the protocol; and what the protocol
    promises.  IpcSpec.v shows that the code computes these functions. *)

From S2P Require Export Ipc.

Record iview := IView {
  iv_tid : Z;
  iv_blocked : bool;
  iv_cont : kcont;
  iv_state : ipc_endpoint_state;
  iv_msg : list Z;
  iv_sender : Z;
  iv_prev : Z;
  iv_call : Z;
}.

Definition iview_of (th : thread) : iview :=
  IView (tid th) (bool_decide (state (sch th) = THREAD_BLOCKED)) (cont th) (ep_state (ipc th)) (ipc_msg (ipc th))
    (ipc_sender (ipc th)) (ipc_prev_seq (ipc th)) (ipc_call_seq (ipc th)).

Definition v_blocked b v := IView (iv_tid v) b (iv_cont v) (iv_state v) (iv_msg v) (iv_sender v) (iv_prev v) (iv_call v).
Definition v_cont k v := IView (iv_tid v) (iv_blocked v) k (iv_state v) (iv_msg v) (iv_sender v) (iv_prev v) (iv_call v).
Definition v_state st v := IView (iv_tid v) (iv_blocked v) (iv_cont v) st (iv_msg v) (iv_sender v) (iv_prev v) (iv_call v).
Definition v_msg w v := IView (iv_tid v) (iv_blocked v) (iv_cont v) (iv_state v) w (iv_sender v) (iv_prev v) (iv_call v).
Definition v_sender x v := IView (iv_tid v) (iv_blocked v) (iv_cont v) (iv_state v) (iv_msg v) x (iv_prev v) (iv_call v).
Definition v_prev x v := IView (iv_tid v) (iv_blocked v) (iv_cont v) (iv_state v) (iv_msg v) (iv_sender v) x (iv_call v).
Definition v_call x v := IView (iv_tid v) (iv_blocked v) (iv_cont v) (iv_state v) (iv_msg v) (iv_sender v) (iv_prev v) x.

(** The endpoint queues and the threads. *)
Record ipcs := Ipcs { il : gmap tnode (list tnode); iv : gmap Z iview }.

Definition upd (t : Z) (f : iview → iview) (A : ipcs) : ipcs := Ipcs (il A) (alter f t (iv A)).
Definition queue (t : Z) (A : ipcs) : list tnode := il A !!! IpcHead t.
Definition set_queue (t : Z) (q : list tnode) (A : ipcs) : ipcs := Ipcs (<[IpcHead t := q]> (il A)) (iv A).

(** ** The operations *)

(** A list of the queue became empty: the endpoint is idle. *)
Definition a_settle (t : Z) (A : ipcs) : ipcs :=
  if decide (queue t A = []) then upd t (v_state IPC_EP_INACTIVE) A else A.

(** The first node of [t]'s queue is consumed by a message to [t], who wakes up;
    [prev] is [None] for a reply. *)
Definition a_deliver (t sender : Z) (words : list Z) (prev : option Z) (A : ipcs) : ipcs :=
  let A := set_queue t (tail (queue t A)) A in
  let A := upd t (λ v, v_sender sender (v_msg words v)) A in
  let A := match prev with Some q => upd t (v_prev q) A | None => A end in
  upd t (v_blocked false) (a_settle t A).

(** [t] takes the message of the first sender in its queue. *)
Definition a_accept (t : Z) (A : ipcs) : option (Z * list Z) * ipcs :=
  match queue t A with
  | IpcNode u :: q =>
      match iv A !! u with
      | Some vu =>
          let in_call := bool_decide (iv_state vu = IPC_EP_WAIT_RECV) in
          let A := set_queue t q A in
          let A := upd t (λ v, v_prev (if in_call then iv_call vu else 0) (v_sender (iv_tid vu) (v_msg (iv_msg vu) v))) A in
          let A := a_settle t A in
          let A := if in_call then A else upd u (v_blocked false) A in
          (Some (iv_tid vu, iv_msg vu), A)
      | None => (None, A)
      end
  | _ => (None, A)
  end.

Definition a_enqueue (owner : Z) (st : ipc_endpoint_state) (n : tnode) (A : ipcs) : ipcs :=
  set_queue owner (queue owner A ++ [n]) (upd owner (v_state st) A).

Definition a_block (c : Z) (k : kcont) (A : ipcs) : ipcs := upd c (λ v, v_cont k (v_blocked true v)) A.

Definition state_is (t : Z) (st : ipc_endpoint_state) (A : ipcs) : bool :=
  match iv A !! t with Some v => bool_decide (iv_state v = st) | None => false end.
Definition tid_of (t : Z) (A : ipcs) : Z := match iv A !! t with Some v => iv_tid v | None => 0 end.

Definition a_send (c target : Z) (words : list Z) (fl : bool) (A : ipcs) : option (Z * list Z) * ipcs :=
  if state_is target IPC_EP_WAIT_RECV A
  then (Some (0, []), a_deliver target (tid_of c A) words (Some 0) A)
  else (None, a_block c (KSend fl) (a_enqueue target IPC_EP_WAIT_SEND (IpcNode c) (upd c (v_msg words) A))).

Definition a_recv (c : Z) (fl : bool) (A : ipcs) : option (Z * list Z) * ipcs :=
  if state_is c IPC_EP_WAIT_SEND A then a_accept c A
  else (None, a_block c (KRecv fl) (a_enqueue c IPC_EP_WAIT_RECV (IpcNode c) A)).

Definition a_call (c target : Z) (words : list Z) (fl : bool) (A : ipcs) : ipcs :=
  let A := upd c (λ v, v_call (wrap64 (iv_call v + 1)) v) A in
  let seq := match iv A !! c with Some v => iv_call v | None => 0 end in
  let saved := match iv A !! c with Some v => iv_sender v | None => 0 end in
  let A := a_enqueue c IPC_EP_WAIT_RECV (IpcWaitNode c) A in
  let A := if state_is target IPC_EP_WAIT_RECV A
           then a_deliver target (tid_of c A) words (Some seq) A
           else a_enqueue target IPC_EP_WAIT_SEND (IpcNode c) (upd c (v_msg words) A) in
  a_block c (KCall fl saved) A.

(** [u] is the thread that [thread_lookup] finds for [c]'s last sender. *)
Definition a_reply (c u : Z) (words : list Z) (A : ipcs) : ipcs :=
  match iv A !! c, iv A !! u with
  | Some vc, Some vu =>
      if (iv_prev vc =? 0) || (u =? 0) || (u =? c) || negb (iv_call vu =? iv_prev vc) then A else
      if bool_decide (iv_state vu = IPC_EP_WAIT_RECV) && negb (bool_decide (queue u A = []))
      then a_deliver u (iv_tid vc) words None A else A
  | _, _ => A
  end.

(** The end of [ipc_recv], [ipc_reply_recv], [ipc_call] in a thread that was
    woken. *)
Definition a_resume (c : Z) (A : ipcs) : option (Z * list Z) * ipcs :=
  match iv A !! c with
  | Some v =>
      match iv_cont v with
      | KRecv _ => (Some (iv_sender v, iv_msg v), upd c (v_cont KUser) A)
      | KCall _ saved => (Some (iv_sender v, iv_msg v), upd c (λ v, v_sender saved (v_cont KUser v)) A)
      | KSend _ => (Some (0, []), upd c (v_cont KUser) A)
      | _ => (None, upd c (v_cont KUser) A)
      end
  | None => (None, A)
  end.

(** ** The invariant *)

(** The thread a node waits for. *)
Definition waits (x : tnode) : option Z :=
  match x with IpcNode u | IpcWaitNode u | FutexNode u => Some u | _ => None end.
Definition is_head (h : tnode) : Prop :=
  match h with IpcHead _ | Bucket _ | WaitqHead _ => True | _ => False end.
Definition sched_node (h : tnode) : Prop := match h with RunqHead _ | SchedNode _ => True | _ => False end.
Definition elem_ok (h x : tnode) : Prop :=
  match h, x with
  | IpcHead _, IpcNode _ => True
  | IpcHead t, IpcWaitNode u => t = u
  | WaitqHead _, FutexNode _ => True
  | Bucket _, WaitqHash _ => True
  | _, _ => False
  end.

(** The call in which the owner of a linked node is suspended. *)
Definition waiting_as (h x : tnode) (k : kcont) : Prop :=
  match x, k with
  | IpcNode u, KRecv _ => h = IpcHead u
  | IpcNode _, (KSend _ | KCall _ _) | IpcWaitNode _, KCall _ _ | FutexNode _, KFutex => True
  | _, _ => False
  end.

Definition in_call (v : iview) : Prop := match iv_cont v with KCall _ _ => True | _ => False end.

Definition endpoint (t : Z) (v : iview) (q : list tnode) : Prop :=
  match iv_state v with
  | IPC_EP_INACTIVE => q = []
  | IPC_EP_WAIT_SEND => q ≠ [] ∧ ∀ x, x ∈ q → ∃ u, x = IpcNode u
  | IPC_EP_WAIT_RECV => iv_blocked v = true ∧
      (q = [IpcNode t] ∧ (∃ fl, iv_cont v = KRecv fl) ∨ q = [IpcWaitNode t] ∧ in_call v)
  end.

(** The sender a thread will reply to. *)
Definition served (v : iview) : Z := match iv_cont v with KCall _ saved => saved | _ => iv_sender v end.

Definition linked (A : ipcs) (h x : tnode) : Prop := ∃ xs, il A !! h = Some xs ∧ x ∈ xs ∧ ¬ sched_node h.
Definition request_queued (A : ipcs) (u : Z) : Prop := ∃ t, linked A (IpcHead t) (IpcNode u).

Record ipc_inv (A : ipcs) : Prop := IpcInv {
  ii_head : ∀ h xs, il A !! h = Some xs → ¬ sched_node h → is_head h ∧ NoDup xs;
  ii_elem : ∀ h x, linked A h x → elem_ok h x;
  ii_disj : ∀ h1 h2 x, linked A h1 x → linked A h2 x → h1 = h2;
  ii_ep : ∀ t v, iv A !! t = Some v → ∃ q, il A !! IpcHead t = Some q ∧ endpoint t v q;
  ii_waits : ∀ h x u, linked A h x → waits x = Some u →
    ∃ v, iv A !! u = Some v ∧ iv_blocked v = true ∧ waiting_as h x (iv_cont v);
  ii_tid : ∀ t1 t2 v1 v2, iv A !! t1 = Some v1 → iv A !! t2 = Some v2 → iv_tid v1 = iv_tid v2 → t1 = t2;
  ii_seq : ∀ t u v vu, iv A !! t = Some v → iv A !! u = Some vu → served v = iv_tid vu →
    iv_prev v ≤ iv_call vu ∧ (in_call vu → request_queued A u → iv_prev v < iv_call vu);
  ii_call : ∀ t v, iv A !! t = Some v → 0 ≤ iv_call v;
}.

Definition unlinked_in (A : ipcs) (u : Z) : Prop := ∀ h x, linked A h x → waits x ≠ Some u.

Lemma upd_lookup t f A u : iv (upd t f A) !! u = if decide (t = u) then f <$> iv A !! u else iv A !! u.
Proof. unfold upd. simpl. destruct (decide (t = u)) as [->|]; [apply lookup_alter_eq|by apply lookup_alter_ne]. Qed.

(** *** Changing one thread *)

Lemma inv_upd A t f v :
  ipc_inv A → iv A !! t = Some v → iv_tid (f v) = iv_tid v → iv_state (f v) = iv_state v → 0 ≤ iv_call (f v) →
  (iv_state v = IPC_EP_WAIT_RECV → iv_blocked (f v) = iv_blocked v ∧ iv_cont (f v) = iv_cont v) →
  (∀ h x, linked A h x → waits x = Some t → iv_blocked (f v) = true ∧ waiting_as h x (iv_cont (f v))) →
  (∀ u vu, iv A !! u = Some vu → u ≠ t → served (f v) = iv_tid vu →
     iv_prev (f v) ≤ iv_call vu ∧ (in_call vu → request_queued A u → iv_prev (f v) < iv_call vu)) →
  (∀ w vw, iv A !! w = Some vw → w ≠ t → served vw = iv_tid v →
     iv_prev vw ≤ iv_call (f v) ∧ (in_call (f v) → request_queued A t → iv_prev vw < iv_call (f v))) →
  (served (f v) = iv_tid v → iv_prev (f v) ≤ iv_call (f v) ∧
     (in_call (f v) → request_queued A t → iv_prev (f v) < iv_call (f v))) →
  ipc_inv (upd t f A).
Proof.
  intros [H1 H2 H3 H4 H5 H6 H7 H8] Et Htid Hst Hcall Hrecv Hlink Hs1 Hs2 Hs3.
  assert (Hl : ∀ u vu, iv (upd t f A) !! u = Some vu → u = t ∧ vu = f v ∨ u ≠ t ∧ iv A !! u = Some vu).
  { intros u vu. rewrite upd_lookup. destruct (decide (t = u)) as [<-|]; [|by right].
    rewrite Et. intros [= <-]. by left. }
  split; try done.
  - intros u vu [[-> ->]|[_ E]]%Hl; [|by apply H4]. destruct (H4 t v Et) as (q & Eq & Hep).
    exists q. split; [done|]. revert Hep. unfold endpoint, in_call. rewrite Hst.
    destruct (iv_state v) eqn:Es; try done. destruct (Hrecv eq_refl) as [-> ->]. done.
  - intros h x u Hx Hw. destruct (decide (t = u)) as [<-|Hne].
    + exists (f v). rewrite upd_lookup, decide_True, Et by done. split; [done|]. by apply Hlink.
    + destruct (H5 h x u Hx Hw) as (vu & E & ?). exists vu. by rewrite upd_lookup, decide_False.
  - intros t1 t2 v1 v2 [[-> ->]|[? E1]]%Hl [[-> ->]|[? E2]]%Hl; rewrite ?Htid; [done|..]; by eapply H6.
  - intros t1 t2 v1 v2 [[-> ->]|[? E1]]%Hl [[-> ->]|[? E2]]%Hl; rewrite ?Htid; [apply Hs3|by eapply Hs1|by eapply Hs2|by eapply H7].
  - intros u vu [[-> ->]|[_ E]]%Hl; [done|by eapply H8].
Qed.

(** *** Changing one queue *)

Lemma linked_queue A t q h x :
  linked (set_queue t q A) h x ↔ if decide (h = IpcHead t) then x ∈ q else linked A h x.
Proof.
  unfold linked, set_queue. simpl. destruct (decide (h = IpcHead t)) as [->|Hne].
  - rewrite lookup_insert_eq. split; [by intros (? & [= <-] & ? & _)|].
    intros Hx. exists q. split; [done|]. split; [done|]. by intros [].
  - by rewrite lookup_insert_ne by done.
Qed.

Lemma inv_queue A t v q st :
  ipc_inv A → iv A !! t = Some v → endpoint t (v_state st v) q → NoDup q →
  (∀ x, x ∈ q → linked A (IpcHead t) x ∨ ∀ h, ¬ linked A h x) →
  (∀ x, x ∈ q → elem_ok (IpcHead t) x) →
  (∀ x u, x ∈ q → waits x = Some u → ∃ vu, iv A !! u = Some vu ∧ iv_blocked vu = true ∧ waiting_as (IpcHead t) x (iv_cont vu)) →
  (∀ u w vu vw, IpcNode u ∈ q → ¬ request_queued A u → iv A !! u = Some vu → iv A !! w = Some vw →
     in_call vu → served vw = iv_tid vu → iv_prev vw < iv_call vu) →
  ipc_inv (set_queue t q (upd t (v_state st) A)).
Proof.
  intros [H1 H2 H3 H4 H5 H6 H7 H8] Et Hep Hnd Hq Hel Hw Hseq.
  assert (Hlk : ∀ h x, linked (set_queue t q (upd t (v_state st) A)) h x ↔ if decide (h = IpcHead t) then x ∈ q else linked A h x).
  { intros h x. exact (linked_queue (upd t (v_state st) A) t q h x). }
  assert (Hl : ∀ u vu, iv (set_queue t q (upd t (v_state st) A)) !! u = Some vu →
    ∃ vu0, iv A !! u = Some vu0 ∧ vu = if decide (t = u) then v_state st vu0 else vu0).
  { intros u vu. change (iv (set_queue t q (upd t (v_state st) A))) with (iv (upd t (v_state st) A)).
    rewrite upd_lookup. destruct (decide (t = u)); [|by exists vu].
    intros (vu0 & E & ->)%fmap_Some. by exists vu0. }
  assert (Hsame : ∀ u vu, iv A !! u = Some vu → ∃ vu', iv (set_queue t q (upd t (v_state st) A)) !! u = Some vu' ∧
    iv_blocked vu' = iv_blocked vu ∧ iv_cont vu' = iv_cont vu).
  { intros u vu E. change (iv (set_queue t q (upd t (v_state st) A))) with (iv (upd t (v_state st) A)).
    rewrite upd_lookup. destruct (decide (t = u)); rewrite E; eauto. }
  split.
  - intros h xs. simpl. rewrite lookup_insert. case_decide; [subst h; by intros [= <-]|]. by apply H1.
  - intros h x. rewrite Hlk. destruct (decide (h = IpcHead t)) as [->|]; [by apply Hel|by apply H2].
  - intros h1 h2 x. rewrite !Hlk.
    destruct (decide (h1 = IpcHead t)) as [->|], (decide (h2 = IpcHead t)) as [->|]; intros Hx1 Hx2; try done.
    + destruct (Hq x Hx1) as [Hx|Hx]; [by apply (H3 _ _ x)|by apply Hx in Hx2].
    + destruct (Hq x Hx2) as [Hx|Hx]; [by apply (H3 _ _ x)|by apply Hx in Hx1].
    + by apply (H3 _ _ x).
  - intros u vu (vu0 & E & ->)%Hl. simpl. destruct (decide (t = u)) as [<-|].
    + rewrite lookup_insert_eq. exists q. split; [done|]. by simplify_eq.
    + rewrite lookup_insert_ne by congruence. by apply H4.
  - intros h x u. rewrite Hlk. intros Hx Hwx.
    assert (∃ vu, iv A !! u = Some vu ∧ iv_blocked vu = true ∧ waiting_as h x (iv_cont vu)) as (vu & E & Hb & Ha).
    { destruct (decide (h = IpcHead t)) as [->|]; [by apply Hw|by apply H5]. }
    destruct (Hsame u vu E) as (vu' & E' & Eb & Ec). exists vu'. by rewrite Eb, Ec.
  - intros t1 t2 v1 v2 (w1 & E1 & ->)%Hl (w2 & E2 & ->)%Hl Heq. apply (H6 t1 t2 w1 w2 E1 E2).
    by repeat case_decide.
  - intros t1 u v1 vu (w1 & E1 & ->)%Hl (wu & Eu & ->)%Hl.
    assert (Hgo : served w1 = iv_tid wu → iv_prev w1 ≤ iv_call wu ∧
      (in_call wu → request_queued (set_queue t q (upd t (v_state st) A)) u → iv_prev w1 < iv_call wu)).
    { intros Hs. split; [by apply (H7 t1 u)|]. intros Hin (t' & Hx). rewrite Hlk in Hx.
      destruct (decide (IpcHead t' = IpcHead t)) as [[= ->]|].
      - destruct (Hq _ Hx) as [Hx'|Hx']; [by apply (H7 t1 u); [..|exists t]|].
        apply (Hseq u t1); try done. intros (t' & Hx''). by apply Hx' in Hx''.
      - apply (H7 t1 u); try done. by exists t'. }
    by repeat case_decide.
  - intros u vu (w & E & ->)%Hl. case_decide; by apply (H8 u w).
Qed.

(** *** Commuting updates *)

Lemma alter_twice (f g : iview → iview) (t : Z) (m : gmap Z iview) : alter f t (alter g t m) = alter (λ v, f (g v)) t m.
Proof.
  apply map_eq. intros u. destruct (decide (t = u)) as [->|].
  - rewrite !lookup_alter_eq. by destruct (m !! u).
  - by rewrite !lookup_alter_ne.
Qed.

Lemma upd_comm_ne c t f g A : c ≠ t → upd c f (upd t g A) = upd t g (upd c f A).
Proof.
  intros. unfold upd. simpl. f_equal.
  apply map_eq. intros u. rewrite !lookup_alter. by repeat case_decide; simplify_eq.
Qed.

Lemma upd_comm c t f g A : (∀ v, f (g v) = g (f v)) → upd c f (upd t g A) = upd t g (upd c f A).
Proof.
  intros Hfg. destruct (decide (c = t)) as [->|]; [|by apply upd_comm_ne].
  unfold upd. simpl. f_equal. rewrite !alter_twice. apply alter_ext. intros v _. apply Hfg.
Qed.

Lemma upd_same t f g A : upd t f (upd t g A) = upd t (λ v, f (g v)) A.
Proof. unfold upd. simpl. by rewrite alter_twice. Qed.

Lemma upd_queue c f t q A : upd c f (set_queue t q A) = set_queue t q (upd c f A).
Proof. done. Qed.

Lemma queue_upd t c f A : queue t (upd c f A) = queue t A.
Proof. done. Qed.

Lemma queue_set t q A : queue t (set_queue t q A) = q.
Proof. unfold queue, set_queue. simpl. apply lookup_total_insert_eq. Qed.

Lemma queue_set_ne t u q A : t ≠ u → queue t (set_queue u q A) = queue t A.
Proof. intros. unfold queue, set_queue. simpl. apply lookup_total_insert_ne. congruence. Qed.

Lemma settle_upd t c f A : c ≠ t → upd c f (a_settle t A) = a_settle t (upd c f A).
Proof.
  intros. unfold a_settle. rewrite queue_upd. destruct (decide _); [|done]. by apply upd_comm_ne.
Qed.

(** A delivery in one step. *)
Definition delivered (sender : Z) (words : list Z) (prev : option Z) (v : iview) : iview :=
  v_blocked false (match prev with Some q => v_prev q | None => id end (v_sender sender (v_msg words v))).

Lemma deliver_single t sender words prev A x :
  queue t A = [x] →
  a_deliver t sender words prev A =
    upd t (delivered sender words prev) (set_queue t [] (upd t (v_state IPC_EP_INACTIVE) A)).
Proof.
  intros Eq. unfold a_deliver. rewrite Eq. cbn [tail].
  assert (Hq : ∀ f, queue t (upd t f (set_queue t [] A)) = []) by (intros; rewrite queue_upd; apply queue_set).
  unfold a_settle. destruct prev as [q|]; rewrite !queue_upd, queue_set, decide_True by done;
    unfold upd, set_queue; simpl; by rewrite !alter_twice.
Qed.

Lemma deliver_upd c f t sender words prev A :
  c ≠ t → upd c f (a_deliver t sender words prev A) = a_deliver t sender words prev (upd c f A).
Proof.
  intros Hne. unfold a_deliver. rewrite (upd_comm_ne c t) by done. rewrite settle_upd by done.
  destruct prev as [q|]; rewrite !(upd_comm_ne c t) by done; rewrite upd_queue, queue_upd; done.
Qed.

(** ** The invariant is kept *)

Lemma queue_lookup A t q : il A !! IpcHead t = Some q → queue t A = q.
Proof. intros E. unfold queue. by apply lookup_total_correct. Qed.

Lemma linked_in A t q x : il A !! IpcHead t = Some q → linked A (IpcHead t) x ↔ x ∈ q.
Proof.
  intros E. split; [intros (? & E' & ? & _); by simplify_eq|]. intros Hx. exists q. split; [done|]. split; [done|]. by intros [].
Qed.

Definition running_in (A : ipcs) (c : Z) (v : iview) : Prop :=
  iv A !! c = Some v ∧ iv_blocked v = false ∧ iv_cont v = KUser.

Lemma running_unlinked A c v : ipc_inv A → running_in A c v → unlinked_in A c.
Proof.
  intros Hi (E & Hb & _) h x Hx Hw. destruct (ii_waits _ Hi h x c Hx Hw) as (v' & E' & Hb' & _). congruence.
Qed.

Lemma unlinked_request A u : unlinked_in A u → ¬ request_queued A u.
Proof. intros Hu (t & Hx). by apply (Hu _ _ Hx). Qed.

(** A thread that no list holds changes, but not in what others rely on. *)
Lemma inv_upd_free A t f v :
  ipc_inv A → iv A !! t = Some v → unlinked_in A t → iv_tid (f v) = iv_tid v → iv_state (f v) = iv_state v →
  iv_state v ≠ IPC_EP_WAIT_RECV → iv_call v ≤ iv_call (f v) →
  (∀ u vu, iv A !! u = Some vu → u ≠ t → served (f v) = iv_tid vu →
     iv_prev (f v) ≤ iv_call vu ∧ (in_call vu → request_queued A u → iv_prev (f v) < iv_call vu)) →
  (served (f v) = iv_tid v → iv_prev (f v) ≤ iv_call (f v)) →
  ipc_inv (upd t f A).
Proof.
  intros Hi Et Hu Htid Hst Hnr Hcall Hs Hself. apply (inv_upd A t f v); try done.
  - pose proof (ii_call _ Hi t v Et). lia.
  - intros h x Hx Hw. exfalso. by apply (Hu h x Hx).
  - intros w vw Ew Hne Hsv. split.
    + pose proof (proj1 (ii_seq _ Hi w t vw v Ew Et Hsv)). lia.
    + intros _ Hq. by apply unlinked_request in Hq.
  - intros Hsv. split; [by apply Hself|]. intros _ Hq. by apply unlinked_request in Hq.
Qed.

(** The current thread suspends itself. *)
Definition k_served (k : kcont) (sender : Z) : Z := match k with KCall _ saved => saved | _ => sender end.

Lemma inv_suspend A c v k words :
  ipc_inv A → running_in A c v → k_served k (iv_sender v) = iv_sender v →
  ipc_inv (upd c (λ v, v_cont k (v_blocked true (v_msg words v))) A).
Proof.
  intros Hi Hr Hk. pose proof (running_unlinked _ _ _ Hi Hr) as Hu. destruct Hr as (E & Hb & Hc).
  assert (Hnr : iv_state v ≠ IPC_EP_WAIT_RECV).
  { intros Hst. destruct (ii_ep _ Hi c v E) as (q & _ & Hep). unfold endpoint in Hep. rewrite Hst in Hep.
    destruct Hep as [? _]. congruence. }
  assert (Hsv : served (v_cont k (v_blocked true (v_msg words v))) = served v).
  { unfold served at 2. rewrite Hc. exact Hk. }
  apply (inv_upd_free _ _ _ v Hi E Hu); cbn beta; rewrite ?Hsv; try done.
  - intros u vu Eu _ Hs. by apply (ii_seq _ Hi c u v vu).
  - intros Hs. by apply (ii_seq _ Hi c c v v).
Qed.

Lemma set_queue_upd t q f g A : set_queue t q (upd t g (upd t f A)) = upd t g (set_queue t q (upd t f A)).
Proof. done. Qed.

(** The queue of a thread that waits holds its own node only. *)
Lemma waiting_queue A t v :
  ipc_inv A → iv A !! t = Some v → iv_state v = IPC_EP_WAIT_RECV →
  iv_blocked v = true ∧ 
  (queue t A = [IpcNode t] ∧ il A !! IpcHead t = Some [IpcNode t] ∧ (∃ fl, iv_cont v = KRecv fl) ∨
   queue t A = [IpcWaitNode t] ∧ il A !! IpcHead t = Some [IpcWaitNode t] ∧ in_call v).
Proof.
  intros Hi E Hst. destruct (ii_ep _ Hi t v E) as (q & Eq & Hep). unfold endpoint in Hep. rewrite Hst in Hep.
  rewrite (queue_lookup _ _ _ Eq). destruct Hep as [Hb [[-> ?]|[-> ?]]]; split; [done|by left|done|by right].
Qed.

(** Emptying the queue of a thread that waits. *)
Lemma inv_unwait A t v x :
  ipc_inv A → iv A !! t = Some v → il A !! IpcHead t = Some [x] →
  ipc_inv (set_queue t [] (upd t (v_state IPC_EP_INACTIVE) A)).
Proof.
  intros Hi E Eq. apply (inv_queue A t v [] IPC_EP_INACTIVE Hi E); try done; try (intros; set_solver).
  apply NoDup_nil_2.
Qed.

Lemma unwait_linked A t h x y :
  il A !! IpcHead t = Some [y] →
  linked (set_queue t [] (upd t (v_state IPC_EP_INACTIVE) A)) h x → linked A h x ∧ h ≠ IpcHead t.
Proof.
  intros Eq Hx. rewrite (linked_queue (upd t (v_state IPC_EP_INACTIVE) A)) in Hx.
  destruct (decide (h = IpcHead t)) as [->|]; [set_solver|done].
Qed.

(** A message reaches a thread that waits for one. *)
Lemma inv_deliver A t v sender words q :
  ipc_inv A → iv A !! t = Some v → iv_state v = IPC_EP_WAIT_RECV → ¬ in_call v →
  (∀ u vu, iv A !! u = Some vu → iv_tid vu = sender → q ≤ iv_call vu ∧ (in_call vu → request_queued A u → q < iv_call vu)) →
  ipc_inv (a_deliver t sender words (Some q) A).
Proof.
  intros Hi E Hst Hnc Hs. destruct (waiting_queue A t v Hi E Hst) as [Hb [(Eq & El & [fl Ek])|(_ & _ & Hin)]]; [|done].
  rewrite (deliver_single _ _ _ _ _ _ Eq). pose proof (inv_unwait A t v _ Hi E El) as Hi1.
  set (A1 := set_queue t [] _) in *.
  assert (Hl1 : ∀ h x, linked A1 h x → linked A h x ∧ h ≠ IpcHead t) by (intros ??; by eapply unwait_linked).
  assert (E1 : ∀ u vu, iv A1 !! u = Some vu → ∃ vu0, iv A !! u = Some vu0 ∧ iv_tid vu = iv_tid vu0 ∧ iv_call vu = iv_call vu0 ∧
    iv_cont vu = iv_cont vu0).
  { intros u vu. change (iv A1) with (iv (upd t (v_state IPC_EP_INACTIVE) A)). rewrite upd_lookup.
    destruct (decide (t = u)); [intros (w & ? & ->)%fmap_Some|]; eauto. }
  assert (Et1 : iv A1 !! t = Some (v_state IPC_EP_INACTIVE v)).
  { change (iv A1) with (iv (upd t (v_state IPC_EP_INACTIVE) A)). by rewrite upd_lookup, decide_True, E. }
  assert (Hu1 : unlinked_in A1 t).
  { intros h x [Hx Hh]%Hl1 Hw. destruct (ii_waits _ Hi h x t Hx Hw) as (v' & E' & _ & Ha).
    rewrite E in E'. injection E' as <-. rewrite Ek in Ha. destruct x; try done. simpl in Ha. naive_solver. }
  assert (Hserv : served (delivered sender words (Some q) (v_state IPC_EP_INACTIVE v)) = sender).
  { unfold served, delivered. simpl. by rewrite Ek. }
  apply (inv_upd_free A1 t _ (v_state IPC_EP_INACTIVE v) Hi1 Et1 Hu1); rewrite ?Hserv; try done.
  - intros u vu Eu Hne Htid. destruct (E1 u vu Eu) as (vu0 & Eu0 & Et0 & Ec0 & Ek0). unfold in_call. rewrite Ek0, Ec0.
    destruct (Hs u vu0 Eu0) as [H1 H2]; [congruence|]. split; [exact H1|]. intros Hin (t' & Hx). apply H2; [done|].
    exists t'. by apply Hl1.
  - intros Htid. simpl. apply (Hs t v E). done.
Qed.

(** A reply reaches a caller whose request is no longer queued. *)
Lemma inv_deliver_reply A t v sender words :
  ipc_inv A → iv A !! t = Some v → iv_state v = IPC_EP_WAIT_RECV → in_call v → ¬ request_queued A t →
  ipc_inv (a_deliver t sender words None A).
Proof.
  intros Hi E Hst Hin Hnq. destruct (waiting_queue A t v Hi E Hst) as [Hb [(_ & _ & [fl Ek])|(Eq & El & _)]].
  { unfold in_call in Hin. by rewrite Ek in Hin. }
  rewrite (deliver_single _ _ _ _ _ _ Eq). pose proof (inv_unwait A t v _ Hi E El) as Hi1.
  set (A1 := set_queue t [] _) in *.
  assert (Hl1 : ∀ h x, linked A1 h x → linked A h x ∧ h ≠ IpcHead t) by (intros ??; by eapply unwait_linked).
  assert (Et1 : iv A1 !! t = Some (v_state IPC_EP_INACTIVE v)).
  { change (iv A1) with (iv (upd t (v_state IPC_EP_INACTIVE) A)). by rewrite upd_lookup, decide_True, E. }
  assert (Hu1 : unlinked_in A1 t).
  { intros h x [Hx Hh]%Hl1 Hw. destruct (ii_waits _ Hi h x t Hx Hw) as (v' & E' & _ & Ha).
    rewrite E in E'. injection E' as <-. unfold in_call in Hin. destruct (iv_cont v) eqn:Ek; try done.
    pose proof (ii_elem _ Hi h x Hx) as Hel.
    destruct x; try done; destruct h; try done; simpl in Hw, Hel; simplify_eq.
    apply Hnq. eexists. exact Hx. }
  assert (Hserv : served (delivered sender words None (v_state IPC_EP_INACTIVE v)) = served (v_state IPC_EP_INACTIVE v)).
  { unfold served, delivered, in_call in *. simpl. by destruct (iv_cont v). }
  apply (inv_upd_free A1 t _ (v_state IPC_EP_INACTIVE v) Hi1 Et1 Hu1); rewrite ?Hserv; try done.
  - intros u vu Eu _ Hs. by apply (ii_seq _ Hi1 t u (v_state IPC_EP_INACTIVE v) vu).
  - intros Hs. by apply (ii_seq _ Hi1 t t (v_state IPC_EP_INACTIVE v) (v_state IPC_EP_INACTIVE v)).
Qed.

Lemma upd_id A t f v : iv A !! t = Some v → f v = v → upd t f A = A.
Proof.
  intros E Hf. destruct A as [L V]. unfold upd. simpl in *. f_equal. apply map_eq. intros u.
  rewrite lookup_alter. case_decide; [subst|done]. rewrite E. simpl. by rewrite Hf.
Qed.

(** Who is first in the queue of a running thread. *)
Lemma first_sender A c v :
  ipc_inv A → running_in A c v → iv_state v = IPC_EP_WAIT_SEND →
  ∃ u vu q, il A !! IpcHead c = Some (IpcNode u :: q) ∧ iv A !! u = Some vu ∧ u ≠ c ∧
    iv_blocked vu = true ∧ ((∃ fl, iv_cont vu = KSend fl) ∨ in_call vu).
Proof.
  intros Hi Hr Hst. pose proof (running_unlinked _ _ _ Hi Hr) as Hu. destruct Hr as (E & _ & _).
  destruct (ii_ep _ Hi c v E) as (xs & Eq & Hep). unfold endpoint in Hep. rewrite Hst in Hep. destruct Hep as [Hne Hx].
  destruct xs as [|x q]; [done|]. destruct (Hx x) as [u ->]; [by left|].
  assert (Hl : linked A (IpcHead c) (IpcNode u)) by (eapply linked_in; [done|by left]).
  destruct (ii_waits _ Hi _ _ u Hl eq_refl) as (vu & Eu & Hb & Ha). exists u, vu, q.
  assert (u ≠ c) by (intros ->; by apply (Hu _ _ Hl)). split_and!; try done.
  simpl in Ha. unfold in_call. destruct (iv_cont vu); try done; eauto. congruence.
Qed.

Definition accepted (vu : iview) (v : iview) : iview :=
  v_prev (if bool_decide (iv_state vu = IPC_EP_WAIT_RECV) then iv_call vu else 0) (v_sender (iv_tid vu) (v_msg (iv_msg vu) v)).
Definition settled (q : list tnode) : ipc_endpoint_state :=
  if decide (q = []) then IPC_EP_INACTIVE else IPC_EP_WAIT_SEND.

Lemma accept_steps A c v u vu q :
  iv A !! c = Some v → iv_state v = IPC_EP_WAIT_SEND → queue c A = IpcNode u :: q → iv A !! u = Some vu →
  a_accept c A =
    (Some (iv_tid vu, iv_msg vu),
     let A2 := upd c (accepted vu) (set_queue c q (upd c (v_state (settled q)) A)) in
     if bool_decide (iv_state vu = IPC_EP_WAIT_RECV) then A2 else upd u (v_blocked false) A2).
Proof.
  intros E Hst Eq Eu. unfold a_accept. rewrite Eq, Eu. cbv zeta.
  assert (Ha : a_settle c (upd c (accepted vu) (set_queue c q A)) =
    upd c (accepted vu) (set_queue c q (upd c (v_state (settled q)) A))).
  { unfold a_settle, settled. rewrite queue_upd, queue_set. destruct (decide (q = [])).
    - rewrite upd_same. unfold upd, set_queue. simpl. by rewrite alter_twice.
    - rewrite (upd_id A c (v_state IPC_EP_WAIT_SEND) v); [done..|]. destruct v. simpl in *. by subst. }
  unfold accepted in Ha. by rewrite Ha.
Qed.

(** Taking the first node off a queue of senders. *)
Lemma accept_unlinks A c v n q :
  ipc_inv A → iv A !! c = Some v → iv_state v = IPC_EP_WAIT_SEND → il A !! IpcHead c = Some (n :: q) →
  ipc_inv (set_queue c q (upd c (v_state (settled q)) A)) ∧
  ∀ h x, linked (set_queue c q (upd c (v_state (settled q)) A)) h x → linked A h x ∧ x ≠ n.
Proof.
  intros Hi E Hst Eq. destruct (ii_head _ Hi _ _ Eq) as [_ Hnd]; [by intros []|]. apply NoDup_cons in Hnd as [Hnu Hnd].
  destruct (ii_ep _ Hi c v E) as (xs & Eq' & Hep). rewrite Eq in Eq'. injection Eq' as <-.
  unfold endpoint in Hep. rewrite Hst in Hep. destruct Hep as [_ Hxs].
  assert (Hlq : ∀ x, x ∈ q → linked A (IpcHead c) x) by (intros; eapply linked_in; [done|by right]).
  split.
  - apply (inv_queue A c v q _ Hi E); try done.
    + unfold endpoint, settled. simpl. destruct (decide (q = [])); [done|]. split; [done|]. intros x ?. apply Hxs. by right.
    + intros x Hx. left. by apply Hlq.
    + intros x Hx. by apply (ii_elem _ Hi), Hlq.
    + intros x w Hx. by apply (ii_waits _ Hi), Hlq.
    + intros w ? ? ? Hx Hnq. exfalso. apply Hnq. exists c. by apply Hlq.
  - intros h x Hx. rewrite (linked_queue (upd c (v_state (settled q)) A)) in Hx.
    destruct (decide (h = IpcHead c)) as [->|Hh].
    + split; [by apply Hlq|]. by intros ->.
    + split; [done|]. intros ->. apply Hh. apply (ii_disj _ Hi _ _ n Hx). eapply linked_in; [done|by left].
Qed.

Lemma inv_accept A c v :
  ipc_inv A → running_in A c v → iv_state v = IPC_EP_WAIT_SEND → ipc_inv (a_accept c A).2.
Proof.
  intros Hi Hr Hst. destruct (first_sender A c v Hi Hr Hst) as (u & vu & q & Eq & Eu & Huc & Hbu & Hku).
  pose proof (running_unlinked _ _ _ Hi Hr) as Hu. destruct Hr as (E & Hb & Hk).
  rewrite (accept_steps A c v u vu q E Hst (queue_lookup _ _ _ Eq) Eu). cbn [snd].
  destruct (accept_unlinks A c v (IpcNode u) q Hi E Hst Eq) as [Hi1 Hl1]. set (A1 := set_queue c q _) in *.
  assert (Ev1 : ∀ w, iv A1 !! w = if decide (c = w) then v_state (settled q) <$> iv A !! w else iv A !! w).
  { intros w. change (iv A1) with (iv (upd c (v_state (settled q)) A)). apply upd_lookup. }
  assert (E1 : iv A1 !! c = Some (v_state (settled q) v)) by (rewrite Ev1, decide_True by done; by rewrite E).
  assert (Eu1 : iv A1 !! u = Some vu) by (rewrite Ev1, decide_False by done; done).
  assert (Hu1 : unlinked_in A1 c) by (intros h x [Hx _]%Hl1; by apply (Hu h x)).
  assert (Hnq1 : ¬ request_queued A1 u) by (intros (t & [_ Hx]%Hl1); done).
  set (p := if bool_decide (iv_state vu = IPC_EP_WAIT_RECV) then iv_call vu else 0).
  assert (Hp : 0 ≤ p ≤ iv_call vu) by (pose proof (ii_call _ Hi _ _ Eu); unfold p; case_bool_decide; lia).
  assert (Hserv : served (accepted vu (v_state (settled q) v)) = iv_tid vu).
  { unfold served, accepted. simpl. by rewrite Hk. }
  assert (Hi2 : ipc_inv (upd c (accepted vu) A1)).
  { apply (inv_upd_free A1 c _ _ Hi1 E1 Hu1); rewrite ?Hserv; try done.
    - simpl. unfold settled. by destruct (decide _).
    - intros w vw Ew Hne Htid. assert (w = u) as -> by (apply (ii_tid _ Hi1 w u vw vu Ew Eu1); congruence).
      rewrite Eu1 in Ew. injection Ew as <-. split; [apply Hp|]. done.
    - simpl. intros Htid. destruct Huc. apply (ii_tid _ Hi u c vu v Eu E). done. }
  destruct (bool_decide (iv_state vu = IPC_EP_WAIT_RECV)) eqn:Ebd; [done|]. apply bool_decide_eq_false in Ebd.
  assert (Eu2 : iv (upd c (accepted vu) A1) !! u = Some vu) by (by rewrite upd_lookup, decide_False).
  apply (inv_upd_free _ u _ vu Hi2 Eu2); try done.
  - intros h x [Hx Hne]%Hl1 Hw. destruct (ii_waits _ Hi h x u Hx Hw) as (v' & E' & _ & Ha).
    rewrite Eu in E'. injection E' as <-. pose proof (ii_elem _ Hi _ _ Hx) as Hel.
    destruct x; try done; simpl in Hw; simplify_eq.
    + destruct h; try done. simpl in Hel. subst.
      destruct (ii_ep _ Hi u vu Eu) as (qu & Equ & Hep). rewrite (linked_in _ _ _ _ Equ) in Hx.
      unfold endpoint in Hep. destruct (iv_state vu); [subst; set_solver|destruct Hep as [_ Hep]|done].
      destruct (Hep _ Hx) as [? [=]].
    + destruct Hku as [[fl Hku]|Hku]; unfold in_call in *; simpl in Ha; [by rewrite Hku in Ha|]. by destruct (iv_cont vu).
  - intros w vw Ew _ Hs. by apply (ii_seq _ Hi2 u w vu vw).
  - intros Hs. by apply (ii_seq _ Hi2 u u vu vu).
Qed.

(** *** Queueing *)

Lemma inv_enqueue_sender A c v target vt :
  ipc_inv A → iv A !! c = Some v → iv_blocked v = true → (∀ h, ¬ linked A h (IpcNode c)) →
  ((∃ fl, iv_cont v = KSend fl) ∨
   in_call v ∧ ∀ w vw, iv A !! w = Some vw → served vw = iv_tid v → iv_prev vw < iv_call v) →
  iv A !! target = Some vt → iv_state vt ≠ IPC_EP_WAIT_RECV →
  ipc_inv (a_enqueue target IPC_EP_WAIT_SEND (IpcNode c) A).
Proof.
  intros Hi E Hb Hnl Hk Et Hst. destruct (ii_ep _ Hi target vt Et) as (q & Eq & Hep).
  unfold a_enqueue. rewrite (queue_lookup _ _ _ Eq).
  assert (Hold : ∀ x, x ∈ q → linked A (IpcHead target) x) by (intros; by eapply linked_in).
  assert (Hq : ∀ x, x ∈ q → ∃ u, x = IpcNode u).
  { unfold endpoint in Hep. destruct (iv_state vt); [subst; set_solver|by destruct Hep|done]. }
  apply (inv_queue A target vt _ _ Hi Et).
  - unfold endpoint. simpl. split; [by destruct q|]. intros x [Hx|Hx%list_elem_of_singleton]%elem_of_app; [by apply Hq|by exists c].
  - apply NoDup_app. split; [apply (ii_head _ Hi _ _ Eq); by intros []|]. split; [|apply NoDup_singleton].
    intros x Hx Hx'%list_elem_of_singleton. subst x. by apply (Hnl (IpcHead target)), Hold.
  - intros x [Hx|Hx%list_elem_of_singleton]%elem_of_app; [left; by apply Hold|right; by subst].
  - intros x [Hx|Hx%list_elem_of_singleton]%elem_of_app; [by apply (ii_elem _ Hi), Hold|by subst].
  - intros x u [Hx|Hx%list_elem_of_singleton]%elem_of_app Hw; [by apply (ii_waits _ Hi); [apply Hold|]|].
    subst x. injection Hw as <-. exists v. split; [done|]. split; [done|].
    destruct Hk as [[fl Hk]|[Hk _]]; simpl; [by rewrite Hk|]. unfold in_call in Hk. by destruct (iv_cont v).
  - intros u w vu vw [Hx|Hx%list_elem_of_singleton]%elem_of_app Hnq Eu Ew Hin Hs.
    + destruct Hnq. exists target. by apply Hold.
    + injection Hx as ->. rewrite E in Eu. injection Eu as <-. destruct Hk as [[fl Hk]|[_ Hk]]; [|by apply (Hk w)].
      unfold in_call in Hin. by rewrite Hk in Hin.
Qed.

Lemma inv_enqueue_self A c v x :
  ipc_inv A → iv A !! c = Some v → iv_blocked v = true → unlinked_in A c → iv_state v = IPC_EP_INACTIVE →
  (x = IpcNode c ∧ (∃ fl, iv_cont v = KRecv fl) ∨ x = IpcWaitNode c ∧ in_call v) →
  ipc_inv (a_enqueue c IPC_EP_WAIT_RECV x A) ∧ queue c A = [].
Proof.
  intros Hi E Hb Hu Hst Hx. destruct (ii_ep _ Hi c v E) as (q & Eq & Hep). unfold endpoint in Hep. rewrite Hst in Hep.
  subst q. split; [|by apply queue_lookup]. unfold a_enqueue. rewrite (queue_lookup _ _ _ Eq). simpl.
  assert (Hwx : waits x = Some c) by (by destruct Hx as [[-> _]|[-> _]]).
  apply (inv_queue A c v _ _ Hi E).
  - unfold endpoint. simpl. split; [done|]. destruct Hx as [[-> ?]|[-> ?]]; [by left|by right].
  - apply NoDup_singleton.
  - intros y ->%list_elem_of_singleton. right. intros h Hh. by apply (Hu h x).
  - intros y ->%list_elem_of_singleton. by destruct Hx as [[-> _]|[-> _]].
  - intros y u ->%list_elem_of_singleton. rewrite Hwx. intros [= <-]. exists v. split; [done|]. split; [done|].
    destruct Hx as [[-> [fl Hk]]|[-> Hk]]; simpl; [by rewrite Hk|]. unfold in_call in Hk. by destruct (iv_cont v).
  - intros u w vu vw Hy%list_elem_of_singleton _ Eu Ew Hin _. exfalso. destruct Hx as [[-> [fl Hk]]|[-> Hk]]; [|done].
    injection Hy as ->. rewrite E in Eu. injection Eu as <-. unfold in_call in Hin. by rewrite Hk in Hin.
Qed.

Lemma inv_msg A t v w : ipc_inv A → iv A !! t = Some v → ipc_inv (upd t (v_msg w) A).
Proof.
  intros Hi E. apply (inv_upd A t _ v Hi E); try done.
  - by apply (ii_call _ Hi t v).
  - intros h x Hx Hw. destruct (ii_waits _ Hi h x t Hx Hw) as (v' & E' & ?). rewrite E in E'. by injection E' as <-.
  - intros u vu Eu _ Hs. by apply (ii_seq _ Hi t u v vu).
  - intros u vu Eu _ Hs. by apply (ii_seq _ Hi u t vu v).
  - intros Hs. by apply (ii_seq _ Hi t t v v).
Qed.

Lemma block_enqueue c k t st n A : a_block c k (a_enqueue t st n A) = a_enqueue t st n (a_block c k A).
Proof. unfold a_block, a_enqueue. rewrite upd_queue, !queue_upd, upd_comm by done. done. Qed.

(** *** The operations *)

Lemma inv_send A c v target vt words fl :
  ipc_inv A → running_in A c v → iv A !! target = Some vt → (iv_state vt = IPC_EP_WAIT_RECV → ¬ in_call vt) →
  ipc_inv (a_send c target words fl A).2.
Proof.
  intros Hi Hr Et Hnc. pose proof (running_unlinked _ _ _ Hi Hr) as Hu. pose proof Hr as (E & Hb & Hk).
  unfold a_send, state_is. rewrite Et. case_bool_decide as Hst; cbn [snd].
  - apply (inv_deliver A target vt); try done; [by apply Hnc|]. intros u vu Eu Htid.
    unfold tid_of in Htid. rewrite E in Htid. assert (u = c) as -> by (by apply (ii_tid _ Hi u c vu v Eu E)).
    split; [by apply (ii_call _ Hi c)|]. intros _ Hq. by apply unlinked_request in Hq.
  - rewrite block_enqueue. unfold a_block. rewrite upd_same.
    pose proof (inv_suspend A c v (KSend fl) words Hi Hr eq_refl) as Hi1. set (f := λ v, _) in *.
    assert (∃ vt', iv (upd c f A) !! target = Some vt' ∧ iv_state vt' = iv_state vt) as (vt' & Et' & Est).
    { rewrite upd_lookup, Et. case_decide; simpl; eauto. }
    apply (inv_enqueue_sender _ c (f v) target vt'); try done.
    + by rewrite upd_lookup, decide_True, E.
    + intros h Hx. by apply (Hu h (IpcNode c)).
    + left. by exists fl.
    + by rewrite Est.
Qed.

Lemma running_state A c v :
  ipc_inv A → running_in A c v → iv_state v ≠ IPC_EP_WAIT_RECV.
Proof.
  intros Hi (E & Hb & _) Hst. destruct (waiting_queue A c v Hi E Hst) as [Hb' _]. congruence.
Qed.

Lemma inv_recv A c v fl :
  ipc_inv A → running_in A c v → ipc_inv (a_recv c fl A).2.
Proof.
  intros Hi Hr. pose proof (running_unlinked _ _ _ Hi Hr) as Hu. pose proof (running_state _ _ _ Hi Hr) as Hst.
  pose proof Hr as (E & Hb & Hk).
  unfold a_recv, state_is. rewrite E. case_bool_decide as Hs; [by eapply inv_accept|]. cbn [snd].
  rewrite block_enqueue. unfold a_block.
  pose proof (inv_suspend A c v (KRecv fl) (iv_msg v) Hi Hr eq_refl) as Hi1.
  assert (Hsame : upd c (λ v, v_cont (KRecv fl) (v_blocked true v)) A =
    upd c (λ w, v_cont (KRecv fl) (v_blocked true (v_msg (iv_msg v) w))) A).
  { unfold upd. f_equal. apply alter_ext. intros w Ew. rewrite E in Ew. by injection Ew as <-. }
  rewrite Hsame. refine (proj1 (inv_enqueue_self _ c (v_cont (KRecv fl) (v_blocked true (v_msg (iv_msg v) v))) (IpcNode c) Hi1 _ _ _ _ _)); try done.
  - by rewrite upd_lookup, decide_True, E.
  - simpl. by destruct (iv_state v).
  - left. split; [done|]. by exists fl.
Qed.

(** [a_call] with the suspension of the caller first. *)
Definition calling (fl : bool) (v : iview) : iview :=
  v_cont (KCall fl (iv_sender v)) (v_blocked true (v_call (wrap64 (iv_call v + 1)) v)).

Lemma call_steps A c target words fl v :
  iv A !! c = Some v → target ≠ c →
  a_call c target words fl A =
    let A2 := a_enqueue c IPC_EP_WAIT_RECV (IpcWaitNode c) (upd c (calling fl) A) in
    if state_is target IPC_EP_WAIT_RECV A
    then a_deliver target (iv_tid v) words (Some (wrap64 (iv_call v + 1))) A2
    else a_enqueue target IPC_EP_WAIT_SEND (IpcNode c) (upd c (v_msg words) A2).
Proof.
  intros E Hne. unfold a_call. cbv zeta. set (A1 := upd c (λ v, v_call _ v) A).
  assert (E1 : iv A1 !! c = Some (v_call (wrap64 (iv_call v + 1)) v)) by (unfold A1; by rewrite upd_lookup, decide_True, E).
  rewrite E1. cbn [iv_call v_call iv_sender].
  assert (Hst : state_is target IPC_EP_WAIT_RECV (a_enqueue c IPC_EP_WAIT_RECV (IpcWaitNode c) A1) =
    state_is target IPC_EP_WAIT_RECV A).
  { unfold state_is, A1. change (iv (a_enqueue c IPC_EP_WAIT_RECV (IpcWaitNode c) ?B)) with (iv (upd c (v_state IPC_EP_WAIT_RECV) B)).
    rewrite !upd_lookup, !decide_False by done. done. }
  assert (Htid : tid_of c (a_enqueue c IPC_EP_WAIT_RECV (IpcWaitNode c) A1) = iv_tid v).
  { unfold tid_of. change (iv (a_enqueue c IPC_EP_WAIT_RECV (IpcWaitNode c) A1)) with (iv (upd c (v_state IPC_EP_WAIT_RECV) A1)).
    by rewrite upd_lookup, decide_True, E1. }
  rewrite Hst, Htid.
  assert (Hb : a_block c (KCall fl (iv_sender v)) (a_enqueue c IPC_EP_WAIT_RECV (IpcWaitNode c) A1) =
    a_enqueue c IPC_EP_WAIT_RECV (IpcWaitNode c) (upd c (calling fl) A)).
  { rewrite block_enqueue. f_equal. unfold a_block, A1. rewrite upd_same. unfold upd. f_equal.
    apply alter_ext. intros w Ew. rewrite E in Ew. by injection Ew as <-. }
  destruct (state_is target IPC_EP_WAIT_RECV A).
  - unfold a_block. rewrite deliver_upd by done. f_equal. exact Hb.
  - rewrite block_enqueue. f_equal. unfold a_block. rewrite upd_comm by done. f_equal. exact Hb.
Qed.

Lemma inv_call A c v target vt words fl :
  ipc_inv A → running_in A c v → iv_state v = IPC_EP_INACTIVE → iv_call v + 1 < U64 →
  iv A !! target = Some vt → target ≠ c → (iv_state vt = IPC_EP_WAIT_RECV → ¬ in_call vt) →
  ipc_inv (a_call c target words fl A).
Proof.
  intros Hi Hr Hst Hmax Et Hne Hnc. pose proof (running_unlinked _ _ _ Hi Hr) as Hu. pose proof Hr as (E & Hb & Hk).
  rewrite (call_steps A c target words fl v) by done. cbv zeta.
  pose proof (ii_call _ Hi c v E) as Hc0.
  assert (Hcall : iv_call (calling fl v) = iv_call v + 1) by (simpl; rewrite wrap64_small by lia; done).
  assert (Hserv : served (calling fl v) = served v) by (unfold served at 2; by rewrite Hk).
  assert (Hi1 : ipc_inv (upd c (calling fl) A)).
  { apply (inv_upd_free _ _ _ v Hi E Hu); rewrite ?Hserv; try done; [by rewrite Hst|lia| |].
    - intros u vu Eu _ Hs. by apply (ii_seq _ Hi c u v vu).
    - intros Hs. pose proof (ii_seq _ Hi c c v v E E Hs) as [? _]. change (iv_prev (calling fl v)) with (iv_prev v). lia. }
  set (A1 := upd c (calling fl) A) in *.
  assert (E1 : iv A1 !! c = Some (calling fl v)) by (unfold A1; by rewrite upd_lookup, decide_True, E).
  assert (Et1 : iv A1 !! target = Some vt) by (unfold A1; by rewrite upd_lookup, decide_False).
  destruct (inv_enqueue_self A1 c (calling fl v) (IpcWaitNode c) Hi1 E1 eq_refl Hu Hst) as [Hi2 Hq0]; [by right|].
  set (A2 := a_enqueue c IPC_EP_WAIT_RECV (IpcWaitNode c) A1) in *.
  assert (E2 : ∀ u, iv A2 !! u = if decide (c = u) then v_state IPC_EP_WAIT_RECV <$> iv A1 !! u else iv A1 !! u).
  { intros u. change (iv A2) with (iv (upd c (v_state IPC_EP_WAIT_RECV) A1)). apply upd_lookup. }
  assert (Hnl2 : ∀ h, ¬ linked A2 h (IpcNode c)).
  { intros h Hx. unfold A2, a_enqueue in Hx. rewrite Hq0, (linked_queue (upd c (v_state IPC_EP_WAIT_RECV) A1)) in Hx.
    destruct (decide (h = IpcHead c)); [set_solver|]. by apply (Hu h (IpcNode c)). }
  assert (Hstrict : ∀ w vw, iv A2 !! w = Some vw → served vw = iv_tid v → iv_prev vw < iv_call v + 1).
  { intros w vw Ew Hs. assert (Hw : ∃ vw0, iv A !! w = Some vw0 ∧ served vw0 = served vw ∧ iv_prev vw0 = iv_prev vw).
    { rewrite E2 in Ew. unfold A1 in Ew. rewrite upd_lookup in Ew. destruct (decide (c = w)) as [<-|]; [|by exists vw].
      rewrite E in Ew. injection Ew as <-. exists v. split; [done|]. split; [|done]. by rewrite <- Hserv. }
    destruct Hw as (vw0 & Ew0 & Hs0 & Hp0). pose proof (proj1 (ii_seq _ Hi w c vw0 v Ew0 E ltac:(congruence))). lia. }
  unfold state_is. rewrite Et. case_bool_decide as Hrecv.
  - apply (inv_deliver A2 target vt); try done; [by rewrite E2, decide_False|by apply Hnc|].
    intros u vu Eu Htid. assert (u = c) as ->.
    { rewrite E2 in Eu. destruct (decide (c = u)) as [<-|Hcu]; [done|].
      symmetry in Htid. symmetry. apply (ii_tid _ Hi1 c u (calling fl v) vu E1 Eu). exact Htid. }
    rewrite E2, decide_True, E1 in Eu by done. injection Eu as <-. split; [simpl; lia|].
    intros _ (t & Hx). by apply Hnl2 in Hx.
  - set (vc := v_msg words (v_state IPC_EP_WAIT_RECV (calling fl v))).
    assert (E2c : iv A2 !! c = Some (v_state IPC_EP_WAIT_RECV (calling fl v))) by (by rewrite E2, decide_True, E1).
    pose proof (inv_msg A2 c _ words Hi2 E2c) as Hi3.
    apply (inv_enqueue_sender _ c vc target vt Hi3); try done.
    + by rewrite upd_lookup, decide_True, E2c.
    + right. split; [done|]. intros w vw. rewrite upd_lookup.
      change (iv_call vc) with (iv_call (calling fl v)). rewrite Hcall.
      destruct (decide (c = w)) as [<-|]; [|by apply Hstrict].
      rewrite E2c. intros [= <-] Hs. by apply (Hstrict c (v_state IPC_EP_WAIT_RECV (calling fl v))).
    + by rewrite upd_lookup, decide_False, E2, decide_False.
Qed.

(** The reply goes to a caller whose request the replier has taken. *)
Lemma reply_caller A c v u vu :
  ipc_inv A → running_in A c v → iv A !! u = Some vu → iv_sender v = iv_tid vu → iv_call vu = iv_prev v → in_call vu →
  ¬ request_queued A u.
Proof.
  intros Hi (E & _ & Hk) Eu Hs Hp Hin Hq.
  pose proof (ii_seq _ Hi c u v vu E Eu) as [_ Hlt]; [unfold served; by rewrite Hk|]. specialize (Hlt Hin Hq). lia.
Qed.

Lemma inv_reply A c v u words :
  ipc_inv A → running_in A c v → (∀ vu, iv A !! u = Some vu → u ≠ 0 → iv_tid vu = iv_sender v) →
  (∀ vu, iv A !! u = Some vu → iv_state vu = IPC_EP_WAIT_RECV → iv_call vu = iv_prev v → in_call vu) →
  ipc_inv (a_reply c u words A).
Proof.
  intros Hi Hr Hlook Hcalled. pose proof Hr as (E & Hb & Hk). unfold a_reply. rewrite E.
  destruct (iv A !! u) as [vu|] eqn:Eu; [|done].
  destruct (iv_prev v =? 0) eqn:E0; [done|]. destruct (u =? 0) eqn:Eu0; [done|]. destruct (u =? c) eqn:Euc; [done|].
  destruct (iv_call vu =? iv_prev v) eqn:Eseq; [|done]. cbn [orb negb].
  case_bool_decide as Hst; [|done]. destruct (negb _); [|done]. cbn [andb].
  apply Z.eqb_eq in Eseq. apply Z.eqb_neq in Eu0.
  apply (inv_deliver_reply A u vu); try done; [by apply Hcalled|].
  apply (reply_caller A c v u vu Hi Hr Eu); [|done|by apply Hcalled].
  symmetry. by apply Hlook.
Qed.

(** *** Who owes a reply

    [v] has taken the call that [vu] is waiting in and has not yet replied. *)

Definition holds_call (v vu : iview) : Prop :=
  (iv_state v = IPC_EP_WAIT_RECV → in_call v) ∧ served v = iv_tid vu ∧ iv_prev v = iv_call vu ∧ iv_prev v ≠ 0.

(** Nobody but [x], if anyone, holds a call that is over, and a call has one
    holder. *)
Record ipc_owed (x : option Z) (A : ipcs) : Prop := IpcOwed {
  io_waiting : ∀ t u v vu, iv A !! t = Some v → iv A !! u = Some vu → x ≠ Some t → holds_call v vu →
    in_call vu ∧ iv_state vu = IPC_EP_WAIT_RECV;
  io_uniq : ∀ t1 t2 u v1 v2 vu, iv A !! t1 = Some v1 → iv A !! t2 = Some v2 → iv A !! u = Some vu →
    x ≠ Some t1 → x ≠ Some t2 → holds_call v1 vu → holds_call v2 vu → t1 = t2;
  io_self : ∀ t v, iv A !! t = Some v → ¬ holds_call v v;
}.

Lemma owed_weaken x A : ipc_owed None A → ipc_owed x A.
Proof. intros [H1 H2 H3]. split; [|intros t1 t2 u v1 v2 vu ??? _ _; by eapply H2|done]. intros t u v vu ?? _. by eapply H1. Qed.

Lemma owed_upd A t f v x :
  ipc_owed x A → iv A !! t = Some v → iv_tid (f v) = iv_tid v →
  (∀ u vu, iv A !! u = Some vu → u ≠ t → x ≠ Some t → holds_call (f v) vu → holds_call v vu ∨
     in_call vu ∧ iv_state vu = IPC_EP_WAIT_RECV ∧
     ∀ w vw, iv A !! w = Some vw → w ≠ t → x ≠ Some w → ¬ holds_call vw vu) →
  (∀ w vw, iv A !! w = Some vw → w ≠ t → x ≠ Some w → holds_call vw (f v) → holds_call vw v ∧
     in_call (f v) ∧ iv_state (f v) = IPC_EP_WAIT_RECV) →
  ¬ holds_call (f v) (f v) →
  ipc_owed x (upd t f A).
Proof.
  intros [H1 H2 H3] E Htid Hh Hc Hself.
  assert (Hl : ∀ u vu, iv (upd t f A) !! u = Some vu → u = t ∧ vu = f v ∨ u ≠ t ∧ iv A !! u = Some vu).
  { intros u vu. rewrite upd_lookup. destruct (decide (t = u)) as [<-|]; [|by right].
    rewrite E. intros [= <-]. by left. }
  split.
  - intros t1 u v1 vu [[-> ->]|[Hn1 E1]]%Hl [[-> ->]|[Hnu Eu]]%Hl Hx Hhc; [done|..].
    + destruct (Hh u vu Eu Hnu Hx Hhc) as [Ho|(? & ? & _)]; [by apply (H1 t u v vu)|done].
    + by destruct (Hc t1 v1 E1 Hn1 Hx Hhc) as (_ & ? & ?).
    + by apply (H1 t1 u v1 vu).
  - intros t1 t2 u v1 v2 vu [[-> ->]|[Hn1 E1]]%Hl [[-> ->]|[Hn2 E2]]%Hl [[-> ->]|[Hnu Eu]]%Hl Hx1 Hx2 Hc1 Hc2; try done.
    + destruct (Hh u vu Eu Hnu Hx1 Hc1) as [Ho|(_ & _ & Ho)]; [by apply (H2 t t2 u v v2 vu)|by destruct (Ho t2 v2)].
    + destruct (Hh u vu Eu Hnu Hx2 Hc2) as [Ho|(_ & _ & Ho)]; [by apply (H2 t1 t u v1 v vu)|by destruct (Ho t1 v1)].
    + destruct (Hc t1 v1 E1 Hn1 Hx1 Hc1) as [Ho1 _], (Hc t2 v2 E2 Hn2 Hx2 Hc2) as [Ho2 _]. by apply (H2 t1 t2 t v1 v2 v).
    + by apply (H2 t1 t2 u v1 v2 vu).
  - intros u vu [[-> ->]|[_ Eu]]%Hl; [done|by apply (H3 u)].
Qed.

(** Updates that keep what [holds_call] looks at. *)
Lemma owed_same A t f v x :
  ipc_owed x A → iv A !! t = Some v → iv_tid (f v) = iv_tid v → iv_prev (f v) = iv_prev v → iv_call (f v) = iv_call v →
  served (f v) = served v →
  ((iv_state (f v) = IPC_EP_WAIT_RECV → in_call (f v)) → (iv_state v = IPC_EP_WAIT_RECV → in_call v)) →
  (in_call v → iv_state v = IPC_EP_WAIT_RECV →
     in_call (f v) ∧ iv_state (f v) = IPC_EP_WAIT_RECV ∨ ∀ w vw, iv A !! w = Some vw → x ≠ Some w → ¬ holds_call vw v) →
  ipc_owed x (upd t f A).
Proof.
  intros Ho E Ht Hp Hc Hs Hr Hin. apply (owed_upd A t f v x Ho E Ht).
  - intros u vu Eu _ _ (G1 & G2 & G3 & G4). left. rewrite Hp in *. rewrite Hs in *. split; [by apply Hr|done].
  - intros w vw Ew _ Hx (G1 & G2 & G3 & G4). assert (Hold : holds_call vw v).
    { rewrite Hc, Ht in *. by split. }
    split; [done|]. destruct (io_waiting _ _ Ho w t vw v Ew E Hx Hold) as [I1 I2].
    destruct (Hin I1 I2) as [?|Hno]; [done|by destruct (Hno w vw Ew Hx)].
  - intros (G1 & G2 & G3 & G4). apply (io_self _ _ Ho t v E). rewrite Hp, Hc, Hs, Ht in *. split; [by apply Hr|done].
Qed.

Lemma owed_queue x A t q : ipc_owed x A → ipc_owed x (set_queue t q A).
Proof. by intros [H1 H2 H3]. Qed.

(** Nobody owes a reply to a thread that is not waiting for one. *)
Lemma not_owed x A u vu :
  ipc_owed x A → iv A !! u = Some vu → ¬ in_call vu ∨ iv_state vu ≠ IPC_EP_WAIT_RECV →
  ∀ w vw, iv A !! w = Some vw → x ≠ Some w → ¬ holds_call vw vu.
Proof. intros Ho Eu Hn w vw Ew Hx Hh. destruct (io_waiting _ _ Ho w u vw vu Ew Eu Hx Hh). naive_solver. Qed.

(** The operations. *)

Lemma settled_not_recv q : settled q ≠ IPC_EP_WAIT_RECV.
Proof. unfold settled. by destruct (decide _). Qed.

Lemma owed_send A c v target vt words fl :
  ipc_inv A → ipc_owed None A → running_in A c v → iv A !! target = Some vt →
  (iv_state vt = IPC_EP_WAIT_RECV → ¬ in_call vt) → ipc_owed None (a_send c target words fl A).2.
Proof.
  intros Hi Ho Hr Et Hnc. pose proof (running_state _ _ _ Hi Hr) as Hst. pose proof Hr as (E & Hb & Hk).
  unfold a_send, state_is. rewrite Et. case_bool_decide as Hrecv; cbn [snd].
  - destruct (waiting_queue A target vt Hi Et Hrecv) as [_ [(Eq & _)|(_ & _ & ?)]]; [|by destruct Hnc].
    rewrite (deliver_single _ _ _ _ _ _ Eq), upd_queue, upd_same. apply owed_queue.
    apply (owed_upd _ _ _ vt None Ho Et); [done|..].
    + intros u vu _ _ _ (_ & _ & _ & G). by destruct G.
    + intros w vw Ew _ Hx Hh. by destruct (not_owed _ A target vt Ho Et (or_introl (Hnc Hrecv)) w vw Ew Hx).
    + intros (_ & _ & _ & G). by destruct G.
  - rewrite block_enqueue. unfold a_block. rewrite upd_same. unfold a_enqueue. apply owed_queue.
    assert (Ho1 : ipc_owed None (upd c (λ v, v_cont (KSend fl) (v_blocked true (v_msg words v))) A)).
    { apply (owed_same _ _ _ v _ Ho E); try done. unfold served. by rewrite Hk. }
    set (f := λ v, _) in *.
    assert (∃ vt', iv (upd c f A) !! target = Some vt' ∧ iv_state vt' = iv_state vt) as (vt' & Et' & Est).
    { rewrite upd_lookup, Et. case_decide; simpl; eauto. }
    apply (owed_same _ _ _ vt' _ Ho1 Et'); try done; rewrite Est; done.
Qed.

Lemma owed_accept A c v :
  ipc_inv A → ipc_owed (Some c) A → running_in A c v → iv_state v = IPC_EP_WAIT_SEND → ipc_owed None (a_accept c A).2.
Proof.
  intros Hi Ho Hr Hst. destruct (first_sender A c v Hi Hr Hst) as (u & vu & q & Eq & Eu & Huc & Hbu & Hku).
  pose proof Hr as (E & Hb & Hk). rewrite (accept_steps A c v u vu q E Hst (queue_lookup _ _ _ Eq) Eu). cbn [snd].
  assert (Hserv : served (accepted vu (v_state (settled q) v)) = iv_tid vu) by (unfold served, accepted; simpl; by rewrite Hk).
  assert (Ho2 : ipc_owed None (upd c (accepted vu) (set_queue c q (upd c (v_state (settled q)) A)))).
  { rewrite upd_queue, upd_same. apply owed_queue.
    assert (Hpend : ∀ w vw, iv A !! w = Some vw → w ≠ c → ¬ (in_call vu ∧ holds_call vw vu)).
    { intros w vw Ew _ (Hin & _ & Hs & Hp & _). pose proof (ii_seq _ Hi w u vw vu Ew Eu Hs) as [_ Hlt].
      specialize (Hlt Hin). assert (request_queued A u) as Hq by (exists c; eapply linked_in; [done|by left]). specialize (Hlt Hq). lia. }
    set (f := λ v, accepted vu (v_state (settled q) v)).
    assert (Hnew : holds_call (f v) vu → in_call vu ∧ iv_state vu = IPC_EP_WAIT_RECV).
    { intros (_ & _ & Hp & Hp0). unfold f in Hp, Hp0. simpl in Hp, Hp0. case_bool_decide as Hs; [|done]. split; [|done].
      destruct Hku as [[fl Hku]|Hku]; [|done].
      destruct (waiting_queue A u vu Hi Eu Hs) as [_ [(_ & _ & [fl' ?])|(_ & _ & ?)]]; [congruence|done]. }
    destruct Ho as [H1 H2 H3].
    assert (Hl : ∀ w vw, iv (upd c f A) !! w = Some vw → w = c ∧ vw = f v ∨ w ≠ c ∧ iv A !! w = Some vw).
    { intros w vw. rewrite upd_lookup. destruct (decide (c = w)) as [<-|]; [|by right]. rewrite E. intros [= <-]. by left. }
    assert (Hcl : ∀ w vw, iv A !! w = Some vw → w ≠ c → ¬ holds_call vw (f v)).
    { intros w vw Ew Hw Hh. assert (Hh' : holds_call vw v) by (by destruct Hh as (? & ? & ? & ?)).
      destruct (H1 w c vw v Ew E ltac:(congruence) Hh') as [Hin _]. unfold in_call in Hin. by rewrite Hk in Hin. }
    assert (Hown : ∀ w vw, (w = c ∧ vw = f v ∨ w ≠ c ∧ iv A !! w = Some vw) → holds_call (f v) vw → w = u ∧ vw = vu).
    { intros w vw Hw (_ & Hs & _). unfold f in Hs. rewrite Hserv in Hs.
      assert (w = u) as -> by (destruct Hw as [[-> ->]|[_ Ew]]; [by apply (ii_tid _ Hi c u v vu E Eu)|by apply (ii_tid _ Hi w u vw vu Ew Eu)]).
      destruct Hw as [[-> _]|[_ Ew]]; [done|]. split; [done|]. congruence. }
    split.
    - intros t1 u1 v1 vu1 [[-> ->]|[Hn1 E1]]%Hl Hu1%Hl _ Hh.
      + destruct (Hown u1 vu1 Hu1 Hh) as [-> ->]. by apply Hnew.
      + destruct Hu1 as [[-> ->]|[Hn Eu1]]; [by destruct (Hcl t1 v1)|]. apply (H1 t1 u1 v1 vu1); try done. congruence.
    - intros t1 t2 u1 v1 v2 vu1 G1%Hl G2%Hl Hu1%Hl _ _ Hh1 Hh2.
      destruct G1 as [[-> ->]|[Hn1 E1]], G2 as [[-> ->]|[Hn2 E2]]; [done|..].
      + destruct (Hown u1 vu1 Hu1 Hh1) as [-> ->]. destruct (Hpend t2 v2 E2 Hn2). split; [by apply Hnew|done].
      + destruct (Hown u1 vu1 Hu1 Hh2) as [-> ->]. destruct (Hpend t1 v1 E1 Hn1). split; [by apply Hnew|done].
      + destruct Hu1 as [[-> ->]|[Hn Eu1]]; [by destruct (Hcl t1 v1)|]. apply (H2 t1 t2 u1 v1 v2 vu1); try done; congruence.
    - intros t1 v1 [[-> ->]|[Hn E1]]%Hl; [|by apply (H3 t1)]. intros Hh. destruct (Hown c (f v)) as [-> _]; [by left|done|done]. }
  case_bool_decide as Hs; [done|].
  assert (Eu2 : iv (upd c (accepted vu) (set_queue c q (upd c (v_state (settled q)) A))) !! u = Some vu).
  { rewrite upd_lookup, decide_False by done. change (iv (set_queue c q ?B)) with (iv B). by rewrite upd_lookup, decide_False. }
  apply (owed_same _ _ _ vu _ Ho2 Eu2); done.
Qed.

(** A thread that waits for a message owes nothing. *)
Lemma owed_drop A c v :
  ipc_owed (Some c) A → iv A !! c = Some v → iv_state v = IPC_EP_WAIT_RECV → ¬ in_call v → ipc_owed None A.
Proof.
  intros [H1 H2 H3] E Hst Hin.
  assert (Hno : ∀ t vt vu, iv A !! t = Some vt → holds_call vt vu → Some c ≠ Some t).
  { intros t vt vu Et (G & _) [= <-]. rewrite E in Et. injection Et as <-. by apply Hin, G. }
  split; [| |done].
  - intros t u vt vu Et Eu _ Hh. apply (H1 t u vt vu); eauto.
  - intros t1 t2 u v1 v2 vu E1 E2 Eu _ _ Hh1 Hh2. apply (H2 t1 t2 u v1 v2 vu); eauto.
Qed.

Lemma owed_recv A c v fl :
  ipc_inv A → ipc_owed (Some c) A → running_in A c v → ipc_owed None (a_recv c fl A).2.
Proof.
  intros Hi Ho Hr. pose proof (running_state _ _ _ Hi Hr) as Hst. pose proof Hr as (E & Hb & Hk).
  unfold a_recv, state_is. rewrite E. case_bool_decide as Hs; [by apply (owed_accept A c v)|]. cbn [snd].
  unfold a_block, a_enqueue. rewrite upd_queue, upd_same. apply owed_queue.
  apply (owed_drop _ c (v_cont (KRecv fl) (v_blocked true (v_state IPC_EP_WAIT_RECV v)))); [|by rewrite upd_lookup, decide_True, E|done|by intros []].
  apply (owed_upd _ _ _ v _ Ho E); try done.
  - intros w vw Ew Hw Hx Hh. assert (Hh' : holds_call vw v) by (by destruct Hh as (? & ? & ? & ?)).
    destruct (io_waiting _ _ Ho w c vw v Ew E Hx Hh') as [Hin _]. unfold in_call in Hin. by rewrite Hk in Hin.
  - intros (G & _). by destruct (G eq_refl).
Qed.

Lemma owed_call A c v target vt words fl :
  ipc_inv A → ipc_owed None A → running_in A c v → iv_state v = IPC_EP_INACTIVE → iv_call v + 1 < U64 →
  iv A !! target = Some vt → target ≠ c → (iv_state vt = IPC_EP_WAIT_RECV → ¬ in_call vt) →
  ipc_owed None (a_call c target words fl A).
Proof.
  intros Hi Ho Hr Hst Hmax Et Hne Hnc. pose proof Hr as (E & Hb & Hk).
  pose proof (ii_call _ Hi c v E) as Hc0.
  rewrite (call_steps A c target words fl v) by done. cbv zeta.
  assert (Hcall : iv_call (calling fl v) = iv_call v + 1) by (simpl; rewrite wrap64_small by lia; done).
  assert (Hserv : served (calling fl v) = served v) by (unfold served at 2; by rewrite Hk).
  set (g := λ v, v_state IPC_EP_WAIT_RECV (calling fl v)).
  assert (Hlt : ∀ w vw, iv A !! w = Some vw → served vw = iv_tid v → iv_prev vw ≠ iv_call (g v)).
  { intros w vw Ew Hs Heq. pose proof (proj1 (ii_seq _ Hi w c vw v Ew E Hs)).
    change (iv_call (g v)) with (iv_call (calling fl v)) in Heq. lia. }
  assert (Ho2 : ipc_owed None (upd c g A)).
  { apply (owed_upd _ _ _ v _ Ho E); try done.
    - intros u vu _ _ _ (_ & G2 & G3 & G4). left. split; [by rewrite Hst|]. rewrite <- Hserv. done.
    - intros w vw Ew Hw _ (_ & G2 & G3 & _). by destruct (Hlt w vw Ew G2).
    - intros (_ & G2 & G3 & _). destruct (Hlt c v E); [|exact G3]. rewrite <- Hserv. exact G2. }
  assert (Et2 : iv (upd c g A) !! target = Some vt) by (by rewrite upd_lookup, decide_False).
  assert (Ec2 : iv (upd c g A) !! c = Some (g v)) by (by rewrite upd_lookup, decide_True, E).
  unfold state_is. rewrite Et. case_bool_decide as Hrecv.
  - destruct (waiting_queue A target vt Hi Et Hrecv) as [_ [(Eq & _ & [fl' Hkt])|(_ & _ & ?)]]; [|by destruct Hnc].
    assert (Eq2 : queue target (a_enqueue c IPC_EP_WAIT_RECV (IpcWaitNode c) (upd c (calling fl) A)) = [IpcNode target]).
    { unfold a_enqueue. rewrite queue_set_ne by done. by rewrite !queue_upd. }
    rewrite (deliver_single _ _ _ _ _ _ Eq2), upd_queue, upd_same. apply owed_queue.
    unfold a_enqueue. rewrite upd_same. fold g. rewrite upd_queue. apply owed_queue.
    apply (owed_upd _ _ _ vt _ Ho2 Et2); [done|..].
    + intros u vu Eu Hut _ (_ & G2 & G3 & _). right. assert (Htid : iv_tid vu = iv_tid v).
      { rewrite <- G2. unfold served, delivered. simpl. by rewrite Hkt. }
      assert (u = c) as ->.
      { rewrite upd_lookup in Eu. destruct (decide (c = u)) as [|Hcu]; [done|]. by apply (ii_tid _ Hi u c vu v Eu E). }
      rewrite Ec2 in Eu. injection Eu as <-. split; [done|]. split; [done|].
      intros w vw Ew Hw _ (_ & K2 & K3 & _). rewrite upd_lookup in Ew. destruct (decide (c = w)) as [<-|].
      * rewrite E in Ew. injection Ew as <-. change (served (g v)) with (served (calling fl v)) in K2. rewrite Hserv in K2.
        by destruct (Hlt c v E K2).
      * by destruct (Hlt w vw Ew K2).
    + intros w vw Ew Hw _ Hh. destruct (not_owed _ _ target vt Ho2 Et2 (or_introl (Hnc Hrecv)) w vw Ew ltac:(done)).
      by destruct Hh as (? & ? & ? & ?).
    + intros (_ & G2 & _). assert (iv_tid v = iv_tid vt) as Htid.
      { etrans; [|exact G2]. unfold served, delivered. simpl. by rewrite Hkt. }
      apply Hne. symmetry. by apply (ii_tid _ Hi c target v vt E Et).
  - unfold a_enqueue. rewrite upd_queue, upd_queue. apply owed_queue, owed_queue. rewrite upd_same.
    change (λ v0, v_state IPC_EP_WAIT_RECV (calling fl v0)) with g. rewrite upd_same.
    assert (Ho3 : ipc_owed None (upd c (v_msg words) (upd c g A))).
    { apply (owed_same _ _ _ _ _ Ho2 Ec2); try done. by left. }
    rewrite upd_same in Ho3. apply (owed_same _ _ _ vt _ Ho3); try done.
    by rewrite upd_lookup, decide_False.
Qed.

(** [c] replies to [u] when it holds [u]'s call. *)
Lemma reply_cases A c v u words :
  ipc_inv A → ipc_owed None A → running_in A c v → (∀ vu, iv A !! u = Some vu → u ≠ 0 → iv_tid vu = iv_sender v) →
  a_reply c u words A = A ∨
  ∃ vu, iv A !! u = Some vu ∧ holds_call v vu ∧ u ≠ c ∧ iv_state vu = IPC_EP_WAIT_RECV ∧ in_call vu ∧
    queue u A = [IpcWaitNode u] ∧ a_reply c u words A = a_deliver u (iv_tid v) words None A.
Proof.
  intros Hi Ho Hr Hlook. pose proof (running_state _ _ _ Hi Hr) as Hst. pose proof Hr as (E & Hb & Hk).
  unfold a_reply. rewrite E. destruct (iv A !! u) as [vu|] eqn:Eu; [|by left].
  destruct (iv_prev v =? 0) eqn:E0; [by left|]. destruct (u =? 0) eqn:Eu0; [by left|]. destruct (u =? c) eqn:Euc; [by left|].
  destruct (iv_call vu =? iv_prev v) eqn:Eseq; [|by left]. cbn [orb negb].
  case_bool_decide as Hstu; [|by left]. destruct (negb _); [|by left]. cbn [andb]. right.
  apply Z.eqb_neq in E0, Eu0, Euc. apply Z.eqb_eq in Eseq.
  assert (Hh : holds_call v vu).
  { split; [done|]. split; [|done]. unfold served. rewrite Hk. symmetry. by apply Hlook. }
  destruct (io_waiting _ _ Ho c u v vu E Eu ltac:(done) Hh) as [Hin _].
  destruct (waiting_queue A u vu Hi Eu Hstu) as [_ [(_ & _ & [fl Hkf])|(Eq & _ & _)]].
  { unfold in_call in Hin. by rewrite Hkf in Hin. }
  exists vu. by split_and!.
Qed.

Lemma reply_delivered A c v u vu words :
  ipc_owed None A → iv A !! c = Some v → iv A !! u = Some vu → holds_call v vu → u ≠ c →
  iv_state vu = IPC_EP_WAIT_RECV → in_call vu → queue u A = [IpcWaitNode u] →
  ipc_owed (Some c) (a_deliver u (iv_tid v) words None A).
Proof.
  intros Ho E Eu Hh Huc Hst Hin Eq. rewrite (deliver_single _ _ _ _ _ _ Eq), upd_queue, upd_same. apply owed_queue.
  apply (owed_same _ _ _ vu _ (owed_weaken _ _ Ho) Eu); try done.
  - unfold served, delivered, in_call in *. simpl. by destruct (iv_cont vu).
  - intros _ _. right. intros w vw Ew Hx Hw. apply Hx. f_equal.
    by apply (io_uniq _ _ Ho c w u v vw vu).
Qed.

Lemma resume_inv A c v :
  ipc_inv A → ipc_owed None A → iv A !! c = Some v → iv_blocked v = false →
  ipc_inv (a_resume c A).2 ∧ ipc_owed None (a_resume c A).2.
Proof.
  intros Hi Ho E Hb. set (f := λ v, match iv_cont v with KCall _ saved => v_sender saved (v_cont KUser v) | _ => v_cont KUser v end).
  assert (Hf : (a_resume c A).2 = upd c f A).
  { unfold a_resume. rewrite E. assert (Hext : ∀ g, g v = f v → upd c g A = upd c f A).
    { intros g Hg. unfold upd. f_equal. apply alter_ext. intros w Ew. rewrite E in Ew. by injection Ew as <-. }
    destruct (iv_cont v) eqn:Ek; apply Hext; unfold f; by rewrite Ek. }
  rewrite Hf.
  assert (Hst : iv_state v ≠ IPC_EP_WAIT_RECV).
  { intros Hst. destruct (waiting_queue A c v Hi E Hst). congruence. }
  assert (Hu : unlinked_in A c).
  { intros h x Hx Hw. destruct (ii_waits _ Hi h x c Hx Hw) as (v' & E' & Hb' & _). congruence. }
  assert (Hs : served (f v) = served v) by (unfold f, served; by destruct (iv_cont v)).
  assert (Hp : iv_prev (f v) = iv_prev v ∧ iv_call (f v) = iv_call v ∧ iv_state (f v) = iv_state v ∧ iv_tid (f v) = iv_tid v)
    by (unfold f; by destruct (iv_cont v)).
  destruct Hp as (Hp & Hc & Hst' & Htid). split.
  - apply (inv_upd_free A c f v Hi E Hu); rewrite ?Hs, ?Hp, ?Hc; try done.
    + intros u vu Eu _ Hsv. by apply (ii_seq _ Hi c u v vu).
    + intros Hsv. by apply (ii_seq _ Hi c c v v).
  - apply (owed_same A c f v None Ho E); try done.
Qed.

(** ** Everything a thread may do

    The calls of ipc.c in the states in which they are meant to be used: nobody
    sends a message to a thread that waits for a reply, and a thread calls only
    when no message is pending at its own endpoint. *)

Definition waiting_reply (v : iview) : Prop := iv_state v = IPC_EP_WAIT_RECV ∧ in_call v.

Inductive istep : ipcs → ipcs → Prop :=
| is_send A c v target vt words fl :
    running_in A c v → iv A !! target = Some vt → ¬ waiting_reply vt →
    istep A (a_send c target words fl A).2
| is_recv A c v fl : running_in A c v → istep A (a_recv c fl A).2
| is_call A c v target vt words fl :
    running_in A c v → iv A !! target = Some vt → ¬ waiting_reply vt → target ≠ c →
    iv_state v = IPC_EP_INACTIVE → iv_call v + 1 < U64 →
    istep A (a_call c target words fl A)
| is_reply_recv A c v u words fl :
    running_in A c v → (∀ vu, iv A !! u = Some vu → u ≠ 0 → iv_tid vu = iv_sender v) →
    istep A (a_recv c fl (a_reply c u words A)).2
| is_resume A c v : iv A !! c = Some v → iv_blocked v = false → istep A (a_resume c A).2.

(** The whole invariant. *)
Definition ipc_ok (A : ipcs) : Prop := ipc_inv A ∧ ipc_owed None A.

Lemma reply_running A c v u words :
  ipc_inv A → ipc_owed None A → running_in A c v → (∀ vu, iv A !! u = Some vu → u ≠ 0 → iv_tid vu = iv_sender v) →
  ipc_inv (a_reply c u words A) ∧ ipc_owed (Some c) (a_reply c u words A) ∧ running_in (a_reply c u words A) c v.
Proof.
  intros Hi Ho Hr Hlook. destruct (reply_cases A c v u words Hi Ho Hr Hlook)
    as [->|(vu & Eu & Hh & Huc & Hst & Hin & Eq & ->)].
  - split; [done|]. split; [by apply owed_weaken|done].
  - pose proof Hr as (E & Hb & Hk). split; [|split].
    + apply (inv_deliver_reply A u vu); try done. apply (reply_caller A c v u vu Hi Hr Eu); try done; [|by destruct Hh as (_ & _ & ? & _)].
      destruct Hh as (_ & Hs & _). unfold served in Hs. by rewrite Hk in Hs.
    + by apply (reply_delivered A c v u vu).
    + rewrite (deliver_single _ _ _ _ _ _ Eq). unfold running_in.
      rewrite upd_lookup, decide_False by done. change (iv (set_queue u [] ?B)) with (iv B). by rewrite upd_lookup, decide_False.
Qed.

Lemma istep_ok A A' : istep A A' → ipc_ok A → ipc_ok A'.
Proof.
  intros Hst [Hi Ho]. destruct Hst as [A c v target vt words fl Hr Et Hn|A c v fl Hr|A c v target vt words fl Hr Et Hn Hne Hs Hm
    |A c v u words fl Hr Hlook|A c v E Hb].
  - assert (iv_state vt = IPC_EP_WAIT_RECV → ¬ in_call vt) by (unfold waiting_reply in Hn; tauto).
    split; [by eapply inv_send|by eapply owed_send].
  - split; [by eapply inv_recv|]. eapply owed_recv; [done|by apply owed_weaken|done].
  - assert (iv_state vt = IPC_EP_WAIT_RECV → ¬ in_call vt) by (unfold waiting_reply in Hn; tauto).
    split; [by eapply inv_call|by eapply owed_call].
  - destruct (reply_running A c v u words Hi Ho Hr Hlook) as (Hi' & Ho' & Hr').
    split; [by eapply inv_recv|by eapply owed_recv].
  - by apply (resume_inv A c v).
Qed.

(** Threads that have not used their endpoints yet. *)
Record ipc_fresh (A : ipcs) : Prop := IpcFresh {
  if_heads : ∀ h xs, il A !! h = Some xs → ¬ sched_node h → is_head h ∧ xs = [];
  if_eps : ∀ t v, iv A !! t = Some v → il A !! IpcHead t = Some [] ∧ iv_state v = IPC_EP_INACTIVE ∧
    iv_sender v = 0 ∧ iv_prev v = 0 ∧ iv_call v = 0 ∧ iv_cont v = KUser;
  if_tid : ∀ t1 t2 v1 v2, iv A !! t1 = Some v1 → iv A !! t2 = Some v2 → iv_tid v1 = iv_tid v2 → t1 = t2;
}.

Lemma fresh_ok A : ipc_fresh A → ipc_ok A.
Proof.
  intros [H1 H2 H3].
  assert (Hno : ∀ h x, ¬ linked A h x).
  { intros h x (xs & E & Hx & Hh). destruct (H1 h xs E Hh) as [_ ->]. set_solver. }
  split; split.
  - intros h xs E Hh. destruct (H1 h xs E Hh) as [? ->]. split; [done|apply NoDup_nil_2].
  - intros h x Hx. by apply Hno in Hx.
  - intros h1 h2 x Hx. by apply Hno in Hx.
  - intros t v E. destruct (H2 t v E) as (? & Hst & _). exists []. split; [done|]. unfold endpoint. by rewrite Hst.
  - intros h x u Hx. by apply Hno in Hx.
  - done.
  - intros t u v vu E Eu _. destruct (H2 t v E) as (_ & _ & _ & -> & _), (H2 u vu Eu) as (_ & _ & _ & _ & -> & _).
    split; [done|]. intros _ (t' & Hx). by apply Hno in Hx.
  - intros t v E. by destruct (H2 t v E) as (_ & _ & _ & _ & -> & _).
  - intros t u v vu E Eu _ (_ & _ & _ & G). destruct (H2 t v E) as (_ & _ & _ & ? & _). done.
  - intros t1 t2 u v1 v2 vu E1 E2 Eu _ _ (_ & _ & _ & G). by destruct (H2 t1 v1 E1) as (_ & _ & _ & ? & _).
  - intros t v E (_ & _ & _ & G). by destruct (H2 t v E) as (_ & _ & _ & ? & _).
Qed.

Lemma reachable_ok A0 A : ipc_fresh A0 → rtc istep A0 A → ipc_ok A.
Proof. intros Hf%fresh_ok Hr. induction Hr as [|A0 A1 A2 Hst _ IH]; [done|]. by apply IH, (istep_ok A0). Qed.

(** ** What the protocol promises *)

Lemma iv_upd_ne t f A w : t ≠ w → iv (upd t f A) !! w = iv A !! w.
Proof. intros. by rewrite upd_lookup, decide_False. Qed.

Lemma iv_enqueue_ne owner st n A w : owner ≠ w → iv (a_enqueue owner st n A) !! w = iv A !! w.
Proof. intros. exact (iv_upd_ne owner (v_state st) A w H). Qed.

Lemma iv_deliver_ne t sender words prev A w : t ≠ w → iv (a_deliver t sender words prev A) !! w = iv A !! w.
Proof.
  intros Hne. unfold a_deliver, a_settle. rewrite iv_upd_ne by done.
  destruct prev; case_decide; rewrite ?iv_upd_ne by done; done.
Qed.

(** Receiving changes the receiver and the sender it releases. *)
Lemma iv_recv_ne A c v fl w vw :
  ipc_inv A → running_in A c v → iv A !! w = Some vw → w ≠ c → waiting_reply vw ∨ iv_blocked vw = false →
  iv (a_recv c fl A).2 !! w = Some vw.
Proof.
  intros Hi Hr Ew Hne Hw. pose proof Hr as (E & Hb & Hk). unfold a_recv, state_is. rewrite E.
  case_bool_decide as Hst; cbn [snd].
  - destruct (first_sender A c v Hi Hr Hst) as (u & vu & q & Eq & Eu & Huc & Hbu & Hku).
    rewrite (accept_steps A c v u vu q E Hst (queue_lookup _ _ _ Eq) Eu). cbn [snd].
    assert (Hgo : iv (upd c (accepted vu) (set_queue c q (upd c (v_state (settled q)) A))) !! w = Some vw).
    { rewrite iv_upd_ne by done. change (iv (set_queue c q ?B)) with (iv B). by rewrite iv_upd_ne. }
    case_bool_decide as Hstu; [done|]. rewrite iv_upd_ne; [done|]. intros ->. rewrite Eu in Ew. injection Ew as <-.
    destruct Hw as [[? _]|?]; [done|congruence].
  - unfold a_block. rewrite iv_upd_ne by done. by rewrite iv_enqueue_ne.
Qed.



Lemma upd_idle A t v : ipc_inv A → iv A !! t = Some v → iv_state v = IPC_EP_INACTIVE → queue t A = [].
Proof.
  intros Hi E Hst. destruct (ii_ep _ Hi t v E) as (q & Eq & Hep). unfold endpoint in Hep. rewrite Hst in Hep.
  subst q. by apply queue_lookup.
Qed.


(** ** Examples *)

Definition idle_view (n : Z) : iview := IView n false KUser IPC_EP_INACTIVE [] 0 0 0.
Definition three : ipcs :=
  Ipcs {[ IpcHead 11 := []; IpcHead 12 := []; IpcHead 13 := [] ]} {[ 11 := idle_view 1; 12 := idle_view 2; 13 := idle_view 3 ]}.

Lemma three_fresh : ipc_fresh three.
Proof.
  split.
  - intros h xs E _. unfold three in E. simpl in E.
    rewrite !lookup_insert in E. repeat case_decide; simplify_map_eq; try done.
  - intros t v E. unfold three in E. simpl in E. rewrite !lookup_insert in E.
    repeat case_decide; simplify_map_eq; vm_compute; try done; split; reflexivity.
  - intros t1 t2 v1 v2 E1 E2 Heq. unfold three in E1, E2. simpl in E1, E2. rewrite !lookup_insert in E1, E2.
    repeat case_decide; simplify_map_eq; done.
Qed.

(** Thread 12 waits for a message, thread 11 calls it. *)
Definition waiting : ipcs := (a_recv 12 true three).2.
Definition called : ipcs := a_call 11 12 [7; 8; 9; 10; 11] true waiting.
Definition taken : ipcs := (a_resume 12 called).2.

Definition view_at (t : Z) (A : ipcs) : iview := default (idle_view 0) (iv A !! t).

Lemma waiting_reach : rtc istep three waiting.
Proof. apply rtc_once. apply (is_recv three 12 (idle_view 2) true). by vm_compute. Qed.

Lemma called_reach : rtc istep three called.
Proof.
  eapply rtc_r; [apply waiting_reach|]. apply (is_call waiting 11 (view_at 11 waiting) 12 (view_at 12 waiting)).
  - by vm_compute.
  - by vm_compute.
  - intros [_ H]. by vm_compute in H.
  - done.
  - by vm_compute.
  - by vm_compute.
Qed.

Lemma taken_reach : rtc istep three taken.
Proof. eapply rtc_r; [apply called_reach|]. apply (is_resume called 12 (view_at 12 called)); by vm_compute. Qed.



