(* ===== verification/IpcSpec.v ===== *)
(** * Message passing against its endpoints

    [L] gives the content of the lists that are not run queues.  An endpoint is
    idle, waits for a message or a reply, or has senders queued; the operations
    of ipc.c are shown to move between these states, to deliver exactly the
    words that were sent, and to keep the scheduler's invariant. *)

From S2P Require Export IpcAbs SchedSpec.

Section lists.
Context {T : Type}.
Implicit Types (s : kernel T) (L Q : gmap tnode (list tnode)) (rq : queues).

(** The nodes and heads that are not the scheduler's. *)
Definition other (n : tnode) : Prop := match n with RunqHead _ | SchedNode _ => False | _ => True end.

Lemma ok_lookup L s Q rq hole h : sched_inv L s Q rq hole → other h → Q !! h = L !! h.
Proof. intros Hi Hh. apply (si_others _ _ _ _ _ Hi). by intros l ->. Qed.

Lemma ok_empty L s rq hole h xs :
  sched_ok L s rq hole → other h → L !! h = Some xs → list_empty h (klinks s) = Some (bool_decide (xs = [])).
Proof.
  intros [Q Hi] Hh E. rewrite <- (ok_lookup _ _ _ _ _ _ Hi Hh) in E.
  exact (lists_empty_spec _ _ _ _ (si_lists _ _ _ _ _ Hi) E).
Qed.

Lemma ok_first L s rq hole h x xs :
  sched_ok L s rq hole → other h → L !! h = Some (x :: xs) → list_first h (klinks s) = Some x.
Proof.
  intros [Q Hi] Hh E. rewrite <- (ok_lookup _ _ _ _ _ _ Hi Hh) in E.
  exact (lists_first _ _ _ _ _ (si_lists _ _ _ _ _ Hi) E).
Qed.

(** Changing a list that is not a run queue. *)
Lemma ok_relist L s Q rq hole h xs xs' m :
  sched_inv L s Q rq hole → other h → Q !! h = Some xs →
  (∀ t, SchedNode t ∉ xs') →
  lists m (<[h := xs']> Q) → dom m = dom (klinks s) →
  sched_ok (<[h := xs']> L) (set_klinks m s) rq hole.
Proof.
  intros [H1 H2 H3 H4 H5 H6 H7 H8 H9 H10] Hh Eh Hxs Hm Hd. exists (<[h := xs']> Q). split; simpl; try done.
  - intros l. rewrite lookup_insert_ne; [done|]. by intros ->.
  - intros h' ys t. rewrite lookup_insert. case_decide; [subst h'|by apply H4].
    intros [= <-] [<-|Hin]%elem_of_cons; [done|by apply Hxs in Hin].
  - intros t th Et. destruct (H9 t th Et) as (? & ? & ?). split; [done|]. split; [|done].
    intros n Hn. apply elem_of_dom. rewrite Hd. apply elem_of_dom. auto.
  - intros h' Hh'. rewrite !lookup_insert. case_decide; [done|]. by apply H10.
Qed.

(** No list but a run queue holds a [SchedNode]. *)
Lemma ok_no_sched L s Q rq hole h xs t :
  sched_inv L s Q rq hole → other h → Q !! h = Some xs → SchedNode t ∉ xs.
Proof.
  intros Hi Hh E Hin. destruct (si_only _ _ _ _ _ Hi h xs t E) as [l ->]; [by right|done].
Qed.

Lemma ok_del L s rq hole h xs n ys :
  sched_ok L s rq hole → other h → L !! h = Some (xs ++ n :: ys) →
  ∃ m, list_del n (klinks s) = Some m ∧ sched_ok (<[h := xs ++ ys]> L) (set_klinks m s) rq hole.
Proof.
  intros [Q Hi] Hh E. rewrite <- (ok_lookup _ _ _ _ _ _ Hi Hh) in E.
  destruct (lists_del (klinks s) Q h _ _ _ (si_lists _ _ _ _ _ Hi) E) as (m & Em & Hm & Hdom & _).
  exists m. split; [done|]. apply (ok_relist _ _ _ _ _ _ _ _ _ Hi Hh E); [|done..].
  intros t Hin. apply (ok_no_sched _ _ _ _ _ _ _ t Hi Hh E). set_solver.
Qed.

Definition unused L (n : tnode) : Prop := ∀ h xs, other h → L !! h = Some xs → n ∉ xs.

Lemma ok_add_tail L s rq hole h xs n :
  sched_ok L s rq hole → other h → L !! h = Some xs → other n → is_Some (klinks s !! n) →
  unused L n → (∀ xs, L !! n ≠ Some xs) →
  ∃ m, list_add_tail n h (klinks s) = Some m ∧ sched_ok (<[h := xs ++ [n]]> L) (set_klinks m s) rq hole.
Proof.
  intros [Q Hi] Hh E Hn Hdn Hu Hnh. pose proof E as EQ. rewrite <- (ok_lookup _ _ _ _ _ _ Hi Hh) in EQ.
  destruct (lists_add_tail (klinks s) Q h xs n (si_lists _ _ _ _ _ Hi) EQ Hdn) as (m & Em & Hm & Hdom & _).
  { intros h' ys E' [->|Hin]%elem_of_cons.
    - rewrite (ok_lookup _ _ _ _ _ _ Hi Hn) in E'. by apply Hnh in E'.
    - destruct h' as [l| | | | | | | |].
      1: { rewrite (si_heads _ _ _ _ _ Hi) in E'. destruct (rq !! l); simplify_eq/=.
           apply list_elem_of_fmap in Hin as (? & -> & _). done. }
      1: { assert (is_Some (Q !! SchedNode t)) by eauto.
           destruct (si_only _ _ _ _ _ Hi _ _ t E') as [? [=]]. by left. }
      all: rewrite (ok_lookup L s Q rq hole _ Hi) in E' by exact I; eapply Hu; [|exact E'|exact Hin]; exact I. }
  exists m. split; [done|]. apply (ok_relist _ _ _ _ _ _ _ _ _ Hi Hh EQ); [|done..].
  intros t [Hin|Hin%list_elem_of_singleton]%elem_of_app; [|by subst n].
  by apply (ok_no_sched _ _ _ _ _ _ _ t Hi Hh EQ).
Qed.
End lists.

(** ** The code against the abstract operations *)

Section rep.
Context {T : Type}.
Implicit Types (s : kernel T) (A : ipcs) (rq : queues).

(** What message passing leaves alone. *)
Definition env s := (ps_mem (mm s), ps_pmaps (mm s), ps_pages (mm s), ps_glinks (mm s), sched_ticks s, fut s,
  (g_threads (reg s), g_array (reg s), g_threads_cap (reg s), g_next_tid (reg s))).

(** [s] represents [A]; the thread [c] runs with interrupt flag [fl] and [o] is
    the endpoint whose lock is held, if any. *)
Record irep (A : ipcs) (o : option Z) (c : Z) (fl : bool) E s rq : Prop := Irep {
  ir_ok : sched_ok (il A) s rq None;
  ir_views : iview_of <$> threads s = iv A;
  ir_locks : ∀ t th, threads s !! t = Some th →
    if decide (o = Some t) then ∃ l, lock_free l ∧ ep_lock (ipc th) = take l else lock_free (ep_lock (ipc th));
  ir_current : current s = c;
  ir_run : ∃ th, threads s !! c = Some th ∧ state (sch th) = THREAD_RUNNING;
  ir_irq : kirq s = fl;
  ir_env : env s = E;
  ir_reg : lock_free (g_threads_lock (reg s));
}.

Lemma ir_thread A o c fl E s rq t v :
  irep A o c fl E s rq → iv A !! t = Some v → ∃ th, threads s !! t = Some th ∧ iview_of th = v.
Proof. intros Hr Ev. rewrite <- (ir_views _ _ _ _ _ _ _ Hr), lookup_fmap in Ev. by apply fmap_Some in Ev as (th & ? & ->); eauto. Qed.

Lemma ir_view A o c fl E s rq t th :
  irep A o c fl E s rq → threads s !! t = Some th → iv A !! t = Some (iview_of th).
Proof. intros Hr Et. by rewrite <- (ir_views _ _ _ _ _ _ _ Hr), lookup_fmap, Et. Qed.

(** Updates of the message-passing fields of a thread. *)
Record ipc_upd (f : thread → thread) (g : iview → iview) : Prop := IpcUpd {
  iu_sch : ∀ th, sch (f th) = sch th;
  iu_pmap : ∀ th, th_pmap (f th) = th_pmap th;
  iu_lock : ∀ th, ep_lock (ipc (f th)) = ep_lock (ipc th);
  iu_view : ∀ th, iview_of (f th) = g (iview_of th);
}.

Lemma alter_views (ts : gmap Z thread) t th f g :
  ts !! t = Some th → iview_of (f th) = g (iview_of th) →
  iview_of <$> <[t := f th]> ts = alter g t (iview_of <$> ts).
Proof.
  intros Et Hg. apply map_eq. intros u. rewrite lookup_alter, !lookup_fmap, lookup_insert.
  case_decide; [subst|done]. rewrite Et. simpl. by rewrite Hg.
Qed.

Lemma irep_upd A o c fl E s rq t v f g :
  irep A o c fl E s rq → iv A !! t = Some v → ipc_upd f g →
  ∃ s', upd_thread t f s = Done tt s' ∧ irep (upd t g A) o c fl E s' rq.
Proof.
  intros Hr Ev [U1 U2 U3 U4]. destruct (ir_thread _ _ _ _ _ _ _ _ _ Hr Ev) as (th & Et & _).
  destruct Hr as [H1 H2 H3 H4 (thc & H5 & H5') H6 H7 H8].
  eexists. split; [by apply upd_thread_run|]. split; simpl; try done.
  - pose proof H1 as [Q Hi]. apply (ok_thread _ _ _ _ _ th); rewrite ?U1, ?U2; try done.
    apply (si_thread _ _ _ _ _ Hi _ _ Et).
  - rewrite (alter_views _ _ _ _ g) by done. by rewrite H2.
  - intros u thu. rewrite lookup_insert. case_decide; [subst u|by apply H3].
    intros [= <-]. rewrite U3. by apply H3.
  - destruct (decide (t = c)) as [->|].
    + exists (f th). rewrite lookup_insert_eq. split; [done|]. rewrite U1. congruence.
    + exists thc. by rewrite lookup_insert_ne.
Qed.

(** *** The lock of an endpoint *)

Lemma irep_relock A o o' c fl E s rq t th l :
  irep A o c fl E s rq → threads s !! t = Some th →
  (∀ u, u ≠ t → (o = Some u ↔ o' = Some u)) →
  (if decide (o' = Some t) then ∃ l0, lock_free l0 ∧ l = take l0 else lock_free l) →
  irep A o' c fl E (set_threads (<[t := set_ep_lock l th]> (threads s)) s) rq.
Proof.
  intros [H1 H2 H3 H4 (thc & H5 & H5') H6 H7 H8] Et Ho Hl. split; simpl; try done.
  - pose proof H1 as [Q Hi]. apply (ok_thread _ _ _ _ _ th); try done. apply (si_thread _ _ _ _ _ Hi _ _ Et).
  - rewrite (alter_views _ _ _ _ id) by done. rewrite <- H2. apply map_eq. intros u.
    rewrite lookup_alter. destruct (decide (t = u)) as [<-|]; [|done]. by rewrite lookup_fmap, Et.
  - intros u thu. rewrite lookup_insert. destruct (decide (t = u)) as [<-|Hu].
    + intros [= <-]. exact Hl.
    + intros Eu. specialize (H3 u thu Eu).
      destruct (decide (o = Some u)) as [Hou|Hou], (decide (o' = Some u)) as [Hou'|Hou']; try done; naive_solver.
  - destruct (decide (t = c)) as [->|].
    + exists (set_ep_lock l th). rewrite lookup_insert_eq. split; [done|]. simpl. congruence.
    + exists thc. by rewrite lookup_insert_ne.
Qed.

Lemma on_ep_lock_run {B} t (op : K spinlock B) s th b l :
  threads s !! t = Some th → op (ep_lock (ipc th)) = Done b l →
  on_ep_lock t op s = Done b (set_threads (<[t := set_ep_lock l th]> (threads s)) s).
Proof.
  intros Et Eop. unfold on_ep_lock. erewrite bind_done by by apply the_thread_run.
  unfold klift. by rewrite Eop.
Qed.

Lemma irep_lock A c fl E s rq t v :
  irep A None c fl E s rq → iv A !! t = Some v →
  ∃ s', on_ep_lock t spin_lock s = Done tt s' ∧ irep A (Some t) c fl E s' rq.
Proof.
  intros Hr Ev. destruct (ir_thread _ _ _ _ _ _ _ _ _ Hr Ev) as (th & Et & _).
  pose proof (ir_locks _ _ _ _ _ _ _ Hr _ _ Et) as Hl. simpl in Hl.
  eexists. split; [eapply on_ep_lock_run; [exact Et|by apply spin_lock_free]|].
  apply (irep_relock A None (Some t)); [done|done|naive_solver|]. rewrite decide_True by done. by eexists.
Qed.

Lemma irep_unlock A c fl E s rq t v :
  irep A (Some t) c fl E s rq → iv A !! t = Some v →
  ∃ s', on_ep_lock t spin_unlock s = Done tt s' ∧ irep A None c fl E s' rq.
Proof.
  intros Hr Ev. destruct (ir_thread _ _ _ _ _ _ _ _ _ Hr Ev) as (th & Et & _).
  pose proof (ir_locks _ _ _ _ _ _ _ Hr _ _ Et) as Hl. rewrite decide_True in Hl by done. destruct Hl as (l & Hf & El).
  eexists. split; [eapply on_ep_lock_run; [exact Et|reflexivity]|].
  apply (irep_relock A (Some t) None); [done|done|naive_solver|]. simpl. rewrite El. exact (bump_free l Hf).
Qed.

(** *** The queues *)

Lemma irep_links A o c fl E s rq m q t :
  irep A o c fl E s rq → sched_ok (<[IpcHead t := q]> (il A)) (set_klinks m s) rq None →
  irep (set_queue t q A) o c fl E (set_klinks m s) rq.
Proof. intros [H1 H2 H3 H4 H5 H6 H7 H8] Hok. by split. Qed.

Lemma irep_drop_first A o c fl E s rq t x q :
  irep A o c fl E s rq → il A !! IpcHead t = Some (x :: q) →
  ∃ s', ep_drop_first t s = Done tt s' ∧ irep (set_queue t q A) o c fl E s' rq.
Proof.
  intros Hr Eq. pose proof (ir_ok _ _ _ _ _ _ _ Hr) as Hok.
  destruct (ok_del _ _ _ _ (IpcHead t) [] x q Hok I Eq) as (m & Em & Hok').
  exists (set_klinks m s). split; [|by apply irep_links].
  unfold ep_drop_first. erewrite bind_done; [|apply kread_done; by eapply (ok_first _ _ _ _ (IpcHead t)); [done|exact I|]].
  unfold on_klinks. apply kupdate_done. by rewrite Em.
Qed.

Lemma irep_settle A o c fl E s rq t v q :
  irep A o c fl E s rq → iv A !! t = Some v → il A !! IpcHead t = Some q →
  ∃ s', ep_settle t s = Done tt s' ∧ irep (a_settle t A) o c fl E s' rq.
Proof.
  intros Hr Ev Eq. unfold ep_settle, a_settle. rewrite (queue_lookup _ _ _ Eq).
  erewrite bind_done; [|apply kread_done, (ok_empty _ _ _ _ (IpcHead t) q (ir_ok _ _ _ _ _ _ _ Hr) I Eq)].
  case_bool_decide as Hq.
  - destruct (decide (q = [])); [|done]. eapply irep_upd; [done|done|by split].
  - destruct (decide (q = [])); [done|]. by exists s.
Qed.

Lemma irep_wake A o c fl E s rq t v :
  irep A o c fl E s rq → iv A !! t = Some v →
  ∃ s', wake_blocked t s = Done tt s' ∧
    irep (upd t (v_blocked false) A) o c fl E s' (if iv_blocked v then rq_push 0 t rq else rq).
Proof.
  intros Hr Ev. destruct (ir_thread _ _ _ _ _ _ _ _ _ Hr Ev) as (th & Et & Hv).
  unfold wake_blocked. erewrite bind_done by by apply the_thread_run. rewrite <- Hv. cbn [iv_blocked iview_of].
  case_bool_decide as Hb; cycle 1.
  { exists s. split; [done|]. rewrite (upd_id A t _ v); [done|done|]. rewrite <- Hv. unfold v_blocked, iview_of. simpl.
    by rewrite bool_decide_false. }
  destruct Hr as [H1 H2 H3 H4 (thc & H5 & H5') H6 H7 H8].
  destruct (sched_enqueue_run _ s rq t th H1 Et) as (m & Em & Hok); [by split; congruence|].
  eexists. split; [exact Em|]. split; simpl; try done.
  - rewrite (alter_views _ _ _ _ (v_blocked false)); [by rewrite H2|done|done].
  - intros u thu. rewrite lookup_insert. destruct (decide (t = u)) as [<-|]; [|by apply H3].
    intros [= <-]. by apply (H3 t th).
  - destruct (decide (t = c)) as [->|]; [congruence|]. exists thc. by rewrite lookup_insert_ne.
Qed.

Lemma irep_enqueue A o c fl E s rq owner vo st n q :
  irep A o c fl E s rq → iv A !! owner = Some vo → il A !! IpcHead owner = Some q →
  other n → n ∈ thread_nodes c → unused (il A) n → (∀ xs, il A !! n ≠ Some xs) →
  ∃ s', ep_enqueue owner st n s = Done tt s' ∧ irep (a_enqueue owner st n A) o c fl E s' rq.
Proof.
  intros Hr Ev Eq Hn Hnode Hun Hnh. unfold ep_enqueue, a_enqueue. rewrite (queue_lookup _ _ _ Eq).
  destruct (irep_upd A o c fl E s rq owner vo (set_ep_state st) (v_state st) Hr Ev) as (s1 & E1 & Hr1); [by split|].
  erewrite bind_done by exact E1. pose proof (ir_ok _ _ _ _ _ _ _ Hr1) as Hok1.
  assert (Hd : is_Some (klinks s1 !! n)).
  { destruct (ir_run _ _ _ _ _ _ _ Hr1) as (thc & Ec & _). pose proof Hok1 as [Q Hi].
    destruct (si_thread _ _ _ _ _ Hi _ _ Ec) as (_ & Hns & _). by apply Hns. }
  destruct (ok_add_tail (il A) s1 rq None (IpcHead owner) q n Hok1 I Eq Hn Hd Hun Hnh) as (m & Em & Hok2).
  exists (set_klinks m s1). split; [|by apply irep_links].
  unfold on_klinks. apply kupdate_done. by rewrite Em.
Qed.

(** *** Leaving the processor *)

Lemma irep_block A c fl E s rq k v :
  irep A None c fl E s rq → iv A !! c = Some v →
  match rq_pick rq with
  | None => ∃ s', sched_block k s = Halted s'
  | Some (t, rq') => ∃ s', sched_block k s = Done tt s' ∧ irep (a_block c k A) None t fl E s' rq'
  end.
Proof.
  intros [H1 H2 H3 H4 (th & Et & Hst) H6 H7 H8] Ev. rewrite <- H4 in Et.
  pose proof (sched_leave_run _ s rq th THREAD_BLOCKED k H1 Et Hst ltac:(by left)) as Hl.
  destruct (rq_pick rq) as [[t rq']|]; [|destruct Hl as [Hl _]; eauto].
  destruct Hl as (m & s' & Es & [D1 D2 D2' (thp & tht & Ep & Ett & Hready & D3) _ (M1 & M2 & M3 & M4) (R1 & R2 & R3 & R4)]).
  exists s'. split; [exact Es|]. rewrite H4 in *. simpl in Ep, Ett, D3. rewrite lookup_insert_eq in Ep. injection Ep as <-.
  rewrite lookup_insert_ne in Ett by done.
  assert (Hkeep : ∀ u thu, threads s' !! u = Some thu → ∃ thu0, threads s !! u = Some thu0 ∧ ep_lock (ipc thu) = ep_lock (ipc thu0)).
  { intros u thu. rewrite D3, lookup_insert. destruct (decide (c = u)) as [<-|Hcu]; [intros [= <-]; by exists th|].
    rewrite lookup_insert. destruct (decide (t = u)) as [<-|Htu]; [|rewrite lookup_insert_ne by done; by exists thu].
    intros [= <-]. by exists tht. }
  split; simpl; try done.
  - rewrite D3, <- H2. apply map_eq. intros u. rewrite lookup_fmap, lookup_alter, lookup_fmap, lookup_insert.
    destruct (decide (c = u)) as [<-|Hcu]; [by rewrite Et|].
    rewrite !lookup_insert, lookup_fmap. destruct (decide (t = u)) as [<-|Htu]; [|by rewrite decide_False].
    rewrite Ett. cbn [fmap option_fmap option_map]. f_equal. unfold iview_of. simpl. by rewrite Hready.
  - intros u thu Eu. destruct (Hkeep u thu Eu) as (thu0 & Eu0 & ->). by apply (H3 u thu0).
  - exists (set_state THREAD_RUNNING tht). rewrite D3, lookup_insert_ne, lookup_insert_eq by done. done.
  - by rewrite R1.
  - unfold env. rewrite M1, M2, M3, M4, R2, R3, R4. exact H7.
  - by rewrite R3.
Qed.

(** *** Delivery and acceptance *)

Lemma upd_msg w : ipc_upd (set_msg w) (v_msg w).
Proof. by split. Qed.
Lemma upd_sender x : ipc_upd (set_sender x) (v_sender x).
Proof. by split. Qed.
Lemma upd_prev x : ipc_upd (set_prev_seq x) (v_prev x).
Proof. by split. Qed.
Lemma upd_call x : ipc_upd (set_call_seq x) (v_call x).
Proof. by split. Qed.

Lemma settle_view t A u : iv (a_settle t A) !! u = if decide (t = u ∧ queue t A = []) then v_state IPC_EP_INACTIVE <$> iv A !! u else iv A !! u.
Proof.
  unfold a_settle. destruct (decide (queue t A = [])).
  - rewrite upd_lookup. destruct (decide (t = u)); [by rewrite decide_True|by rewrite decide_False by tauto].
  - by rewrite decide_False by tauto.
Qed.

Lemma irep_deliver A o c fl E s rq t v x q sender words prev :
  irep A o c fl E s rq → iv A !! t = Some v → il A !! IpcHead t = Some (x :: q) →
  ∃ s', ipc_deliver_msg t sender words prev s = Done tt s' ∧
    irep (a_deliver t sender words (Some prev) A) o c fl E s' (if iv_blocked v then rq_push 0 t rq else rq).
Proof.
  intros Hr Ev Eq. unfold ipc_deliver_msg, a_deliver. rewrite (queue_lookup _ _ _ Eq). cbn [tail].
  destruct (irep_drop_first _ _ _ _ _ _ _ _ _ _ Hr Eq) as (s1 & E1 & Hr1). erewrite bind_done by exact E1.
  destruct (irep_upd _ _ _ _ _ _ _ t v _ _ Hr1 Ev (upd_msg words)) as (s2 & E2 & Hr2). erewrite bind_done by exact E2.
  assert (Ev2 : iv (upd t (v_msg words) (set_queue t q A)) !! t = Some (v_msg words v)).
  { rewrite upd_lookup, decide_True by done. change (iv (set_queue t q A)) with (iv A). by rewrite Ev. }
  destruct (irep_upd _ _ _ _ _ _ _ t _ _ _ Hr2 Ev2 (upd_sender sender)) as (s3 & E3 & Hr3). erewrite bind_done by exact E3.
  rewrite upd_same in Hr3.
  assert (Ev3 : iv (upd t (λ v, v_sender sender (v_msg words v)) (set_queue t q A)) !! t = Some (v_sender sender (v_msg words v))).
  { rewrite upd_lookup, decide_True by done. change (iv (set_queue t q A)) with (iv A). by rewrite Ev. }
  destruct (irep_upd _ _ _ _ _ _ _ t _ _ _ Hr3 Ev3 (upd_prev prev)) as (s4 & E4 & Hr4). erewrite bind_done by exact E4.
  set (A4 := upd t (v_prev prev) _) in *.
  assert (Ev4 : iv A4 !! t = Some (v_prev prev (v_sender sender (v_msg words v)))).
  { unfold A4. by rewrite upd_lookup, decide_True, Ev3. }
  assert (Eq4 : il A4 !! IpcHead t = Some q) by (unfold A4; simpl; apply lookup_insert_eq).
  destruct (irep_settle _ _ _ _ _ _ _ t _ _ Hr4 Ev4 Eq4) as (s5 & E5 & Hr5). erewrite bind_done by exact E5.
  assert (∃ v5, iv (a_settle t A4) !! t = Some v5 ∧ iv_blocked v5 = iv_blocked v) as (v5 & Ev5 & Hb).
  { rewrite settle_view, Ev4. case_decide; eauto. }
  destruct (irep_wake _ _ _ _ _ _ _ t _ Hr5 Ev5) as (s6 & E6 & Hr6). exists s6. split; [done|]. by rewrite Hb in Hr6.
Qed.

Lemma irep_deliver_reply A o c fl E s rq t v x q sender words :
  irep A o c fl E s rq → iv A !! t = Some v → il A !! IpcHead t = Some (x :: q) →
  ∃ s', ipc_deliver_reply t sender words s = Done tt s' ∧
    irep (a_deliver t sender words None A) o c fl E s' (if iv_blocked v then rq_push 0 t rq else rq).
Proof.
  intros Hr Ev Eq. unfold ipc_deliver_reply, a_deliver. rewrite (queue_lookup _ _ _ Eq). cbn [tail].
  destruct (irep_drop_first _ _ _ _ _ _ _ _ _ _ Hr Eq) as (s1 & E1 & Hr1). erewrite bind_done by exact E1.
  destruct (irep_upd _ _ _ _ _ _ _ t v _ _ Hr1 Ev (upd_msg words)) as (s2 & E2 & Hr2). erewrite bind_done by exact E2.
  assert (Ev2 : iv (upd t (v_msg words) (set_queue t q A)) !! t = Some (v_msg words v)).
  { rewrite upd_lookup, decide_True by done. change (iv (set_queue t q A)) with (iv A). by rewrite Ev. }
  destruct (irep_upd _ _ _ _ _ _ _ t _ _ _ Hr2 Ev2 (upd_sender sender)) as (s3 & E3 & Hr3). erewrite bind_done by exact E3.
  rewrite upd_same in Hr3. set (A3 := upd t (λ v, v_sender sender (v_msg words v)) (set_queue t q A)) in *.
  assert (Ev3 : iv A3 !! t = Some (v_sender sender (v_msg words v))).
  { unfold A3. rewrite upd_lookup, decide_True by done. change (iv (set_queue t q A)) with (iv A). by rewrite Ev. }
  assert (Eq3 : il A3 !! IpcHead t = Some q) by (unfold A3; simpl; apply lookup_insert_eq).
  destruct (irep_settle _ _ _ _ _ _ _ t _ _ Hr3 Ev3 Eq3) as (s5 & E5 & Hr5). erewrite bind_done by exact E5.
  assert (∃ v5, iv (a_settle t A3) !! t = Some v5 ∧ iv_blocked v5 = iv_blocked v) as (v5 & Ev5 & Hb).
  { rewrite settle_view, Ev3. case_decide; eauto. }
  destruct (irep_wake _ _ _ _ _ _ _ t _ Hr5 Ev5) as (s6 & E6 & Hr6). exists s6. split; [done|]. by rewrite Hb in Hr6.
Qed.

(** The ready queues after [ipc_accept]: a plain sender is released, a caller
    stays blocked. *)
Definition accept_rq (c : Z) A rq : queues :=
  match queue c A with
  | IpcNode u :: _ => if state_is u IPC_EP_WAIT_RECV A then rq else rq_push 0 u rq
  | _ => rq
  end.

Lemma irep_accept A c v fl E s rq :
  ipc_inv A → running_in A c v → iv_state v = IPC_EP_WAIT_SEND → irep A (Some c) c fl E s rq →
  ∃ s' r, ipc_accept c s = Done r s' ∧ (a_accept c A).1 = Some r ∧
    irep (a_accept c A).2 (Some c) c fl E s' (accept_rq c A rq).
Proof.
  intros Hi Hrun Hst Hr. destruct (first_sender A c v Hi Hrun Hst) as (u & vu & q & Eq & Eu & Huc & Hbu & Hku).
  pose proof Hrun as (Ev & _). unfold ipc_accept, a_accept, accept_rq, state_is. rewrite (queue_lookup _ _ _ Eq), Eu. cbv zeta. cbn [fst snd].
  destruct (ir_thread _ _ _ _ _ _ _ _ _ Hr Eu) as (thu & Etu & Hvu).
  pose proof (ir_ok _ _ _ _ _ _ _ Hr) as Hok.
  erewrite bind_done by exact (kread_done (λ s, list_first (IpcHead c) (klinks s)) s _ (ok_first _ _ _ _ (IpcHead c) _ _ Hok I Eq)).
  erewrite (bind_done (ipc_thread (IpcNode u))) by reflexivity. erewrite bind_done by by apply the_thread_run. cbv zeta.
  destruct (ok_del _ _ _ _ (IpcHead c) [] _ _ Hok I Eq) as (m & Em & Hok1). cbn [app] in Hok1.
  erewrite bind_done; [|unfold on_klinks; apply kupdate_done; by rewrite Em].
  pose proof (irep_links _ _ _ _ _ _ _ _ _ _ Hr Hok1) as Hr1. set (A1 := set_queue c q A) in *.
  assert (Hmsg : iv_msg vu = ipc_msg (ipc thu) ∧ iv_tid vu = tid thu) by (by rewrite <- Hvu). destruct Hmsg as [<- <-].
  assert (Ev1 : iv A1 !! c = Some v) by done.
  destruct (irep_upd _ _ _ _ _ _ _ c v _ _ Hr1 Ev1 (upd_msg (iv_msg vu))) as (s2 & E2 & Hr2). erewrite bind_done by exact E2.
  assert (Ev2 : iv (upd c (v_msg (iv_msg vu)) A1) !! c = Some (v_msg (iv_msg vu) v)) by (by rewrite upd_lookup, decide_True, Ev1).
  destruct (irep_upd _ _ _ _ _ _ _ c _ _ _ Hr2 Ev2 (upd_sender (iv_tid vu))) as (s3 & E3 & Hr3). erewrite bind_done by exact E3.
  rewrite upd_same in Hr3. cbv beta in Hr3.
  assert (Eu3 : iv (upd c (λ v, v_sender (iv_tid vu) (v_msg (iv_msg vu) v)) A1) !! u = Some vu) by (by rewrite iv_upd_ne).
  assert (Ev3 : iv (upd c (λ v, v_sender (iv_tid vu) (v_msg (iv_msg vu) v)) A1) !! c = Some (v_sender (iv_tid vu) (v_msg (iv_msg vu) v)))
    by (by rewrite upd_lookup, decide_True, Ev1).
  destruct (ir_thread _ _ _ _ _ _ _ _ _ Hr3 Eu3) as (thu3 & Etu3 & Hvu3). erewrite bind_done by by apply the_thread_run.
  set (p := if bool_decide _ then ipc_call_seq (ipc thu3) else 0).
  assert (Hp : p = if bool_decide (iv_state vu = IPC_EP_WAIT_RECV) then iv_call vu else 0) by (by rewrite <- Hvu3).
  destruct (irep_upd _ _ _ _ _ _ _ c _ _ _ Hr3 Ev3 (upd_prev p)) as (s4 & E4 & Hr4). erewrite bind_done by exact E4.
  rewrite upd_same, Hp in Hr4. cbv beta in Hr4. match type of Hr4 with irep ?B _ _ _ _ _ _ => set (A4 := B) in * end.
  assert (Ev4 : iv A4 !! c = Some (v_prev p (v_sender (iv_tid vu) (v_msg (iv_msg vu) v)))).
  { unfold A4. rewrite upd_lookup, decide_True, Ev1 by done. cbn [fmap option_fmap option_map]. by rewrite Hp. }
  assert (Eq4 : il A4 !! IpcHead c = Some q) by (unfold A4; simpl; apply lookup_insert_eq).
  destruct (irep_settle _ _ _ _ _ _ _ c _ _ Hr4 Ev4 Eq4) as (s5 & E5 & Hr5). erewrite bind_done by exact E5.
  assert (Eu5 : iv (a_settle c A4) !! u = Some vu).
  { rewrite settle_view, decide_False by naive_solver. unfold A4. by rewrite iv_upd_ne. }
  assert (∃ v5, iv (a_settle c A4) !! c = Some v5 ∧ iv_msg v5 = iv_msg vu) as (v5 & Ev5 & Hm5).
  { rewrite settle_view, Ev4. destruct (decide (c = c ∧ queue c A4 = [])); eexists; split; reflexivity. }
  destruct (ir_thread _ _ _ _ _ _ _ _ _ Hr5 Eu5) as (thu5 & Etu5 & Hvu5). erewrite bind_done by by apply the_thread_run.
  assert (Hrecv : bool_decide (ep_state (ipc thu5) = IPC_EP_WAIT_RECV) = bool_decide (iv_state vu = IPC_EP_WAIT_RECV)) by (by rewrite <- Hvu5).
  rewrite Hrecv. destruct (bool_decide (iv_state vu = IPC_EP_WAIT_RECV)) eqn:Hs; cbn [negb].
  - erewrite (bind_done (mret tt)) by reflexivity. destruct (ir_thread _ _ _ _ _ _ _ _ _ Hr5 Ev5) as (thc & Etc & Hvc).
    erewrite bind_done by by apply the_thread_run. exists s5, (iv_tid vu, iv_msg vu).
    split; [|done]. by rewrite <- Hm5, <- Hvc.
  - destruct (irep_wake _ _ _ _ _ _ _ u _ Hr5 Eu5) as (s6 & E6 & Hr6). erewrite bind_done by exact E6.
    assert (Ev6 : iv (upd u (v_blocked false) (a_settle c A4)) !! c = Some v5) by (by rewrite iv_upd_ne).
    destruct (ir_thread _ _ _ _ _ _ _ _ _ Hr6 Ev6) as (thc & Etc & Hvc).
    erewrite bind_done by by apply the_thread_run. exists s6, (iv_tid vu, iv_msg vu).
    split; [by rewrite <- Hm5, <- Hvc|]. split; [done|]. by rewrite Hbu in Hr6.
Qed.
End rep.
