(* ===== verification/IpcRefine.v ===== *)
(** * The code of ipc.c refines the abstract protocol

    Every system call of ipc.c, run by the current thread in a state that
    represents [A], computes the abstract operation on [A]: it returns what the
    abstract operation returns, or it suspends its caller and the processor goes
    to the thread that [rq_pick] names, or halts when no thread is ready. *)

From S2P Require Export IpcSpec.

Section refine.
Context {T : Type}.
Implicit Types (s : kernel T) (A : ipcs) (rq : queues).

(** The outcome [out] of a call of [c] realises the result [r] and the state [A]. *)
Definition refines (r : option (Z * list Z)) A (c : Z) (fl : bool) E rq (out : outcome (kernel T) (option (Z * list Z))) : Prop :=
  match r with
  | Some x => ∃ s', out = Done (Some x) s' ∧ irep A None c fl E s' rq
  | None => match rq_pick rq with
            | None => ∃ s', out = Halted s'
            | Some (t, rq') => ∃ s', out = Done None s' ∧ irep A None t false E s' rq'
            end
  end.

Lemma irep_irq A o c fl fl' E s rq : irep A o c fl E s rq → irep A o c fl' E (set_kirq fl' s) rq.
Proof. intros [H1 H2 H3 H4 H5 H6 H7 H8]. split; try done. destruct H1 as [Q Hi]. exists Q. by apply (inv_other _ s). Qed.

Lemma refines_suspend A c fl E s rq k v :
  irep A None c false E s rq → iv A !! c = Some v →
  refines None (a_block c k A) c fl E rq ((sched_block k;; mret None) s).
Proof.
  intros Hr Ev. pose proof (irep_block A c false E s rq k v Hr Ev) as Hb. unfold refines.
  destruct (rq_pick rq) as [[t rq']|].
  - destruct Hb as (s' & Es & Hr'). exists s'. split; [|done]. by erewrite bind_done by exact Es.
  - destruct Hb as (s' & Es). exists s'. by erewrite bind_halted by exact Es.
Qed.

Lemma refines_return A c fl E s rq r :
  irep A None c false E s rq →
  refines (Some r) A c fl E rq ((irq_restore fl;; mret (Some r)) s).
Proof. intros Hr. exists (set_kirq fl s). split; [done|]. by apply (irep_irq _ _ _ false). Qed.

(** A node of a running thread is on no list. *)
Lemma free_node A c n :
  ipc_inv A → unlinked_in A c → waits n = Some c → other n ∧ unused (il A) n ∧ ∀ xs, il A !! n ≠ Some xs.
Proof.
  intros Hi Hu Hw. assert (Ho : other n) by (by destruct n).
  assert (Hns : ∀ h, other h → ¬ sched_node h) by (intros []; simpl; tauto).
  split; [done|]. split.
  - intros h xs Hh Eh Hin. apply (Hu h n); [|done]. exists xs. split; [done|]. split; [done|]. by apply Hns.
  - intros xs En. destruct (ii_head _ Hi n xs En) as [Hh _]; [by apply Hns|]. destruct n; simpl in *; done.
Qed.

(** ** Receiving *)

Definition recv_rq (c : Z) A rq : queues := if state_is c IPC_EP_WAIT_SEND A then accept_rq c A rq else rq.

Lemma recv_or_wait_run A c v fl E s rq :
  ipc_inv A → running_in A c v → irep A None c false E s rq →
  refines (a_recv c fl A).1 (a_recv c fl A).2 c fl E (recv_rq c A rq) (recv_or_wait c fl s).
Proof.
  intros Hi Hrun Hr. pose proof Hrun as (Ev & Hb & Hk). pose proof (running_unlinked _ _ _ Hi Hrun) as Hu.
  unfold recv_or_wait, a_recv, recv_rq, state_is. rewrite Ev.
  destruct (irep_lock A c false E s rq c v Hr Ev) as (s1 & E1 & Hr1). erewrite bind_done by exact E1.
  destruct (ir_thread _ _ _ _ _ _ _ _ _ Hr1 Ev) as (th & Et & Hv). erewrite bind_done by by apply the_thread_run.
  change (ep_state (ipc th)) with (iv_state (iview_of th)). rewrite Hv.
  case_bool_decide as Hst.
  - destruct (irep_accept A c v false E s1 rq Hi Hrun Hst Hr1) as (s2 & r & E2 & Er & Hr2). erewrite bind_done by exact E2.
    assert (is_Some (iv (a_accept c A).2 !! c)) as [v2 Ev2].
    { destruct (ir_run _ _ _ _ _ _ _ Hr2) as (thc & Ec & _). rewrite (ir_view _ _ _ _ _ _ _ _ _ Hr2 Ec). eauto. }
    destruct (irep_unlock _ _ _ _ _ _ _ _ Hr2 Ev2) as (s3 & E3 & Hr3). erewrite bind_done by exact E3.
    rewrite Er. by apply refines_return.
  - destruct (ii_ep _ Hi c v Ev) as (q & Eq & _).
    destruct (free_node A c (IpcNode c) Hi Hu eq_refl) as (Ho & Hun & Hnh).
    destruct (irep_enqueue A (Some c) c false E s1 rq c v IPC_EP_WAIT_RECV (IpcNode c) q) as (s2 & E2 & Hr2); try done.
    { unfold thread_nodes. set_solver. }
    erewrite bind_done by exact E2.
    assert (Ev2 : iv (a_enqueue c IPC_EP_WAIT_RECV (IpcNode c) A) !! c = Some (v_state IPC_EP_WAIT_RECV v)).
    { change (iv (upd c (v_state IPC_EP_WAIT_RECV) A) !! c = Some (v_state IPC_EP_WAIT_RECV v)).
      by rewrite upd_lookup, decide_True, Ev. }
    destruct (irep_unlock _ _ _ _ _ _ _ _ Hr2 Ev2) as (s3 & E3 & Hr3). erewrite bind_done by exact E3.
    by eapply refines_suspend.
Qed.

(** ** Sending *)

Definition send_rq (target : Z) A rq : queues :=
  if state_is target IPC_EP_WAIT_RECV A then rq_push 0 target rq else rq.

Lemma irep_view_of A o c fl E s rq t : irep A o c fl E s rq → t = c → is_Some (iv A !! t).
Proof.
  intros Hr ->. destruct (ir_run _ _ _ _ _ _ _ Hr) as (th & Et & _). rewrite (ir_view _ _ _ _ _ _ _ _ _ Hr Et). eauto.
Qed.

Lemma enqueued_view owner st n A t v : iv A !! t = Some v → is_Some (iv (a_enqueue owner st n A) !! t).
Proof.
  intros Ev. change (is_Some (iv (upd owner (v_state st) A) !! t)). rewrite upd_lookup, Ev. destruct (decide (owner = t)); eauto.
Qed.

Lemma delivered_view t sender words prev A u v :
  iv A !! u = Some v → is_Some (iv (a_deliver t sender words prev A) !! u).
Proof.
  intros Ev. unfold a_deliver. rewrite upd_lookup, settle_view.
  assert (H : is_Some (iv match prev with
     | Some q => upd t (v_prev q) (upd t (λ v0, v_sender sender (v_msg words v0)) (set_queue t (tail (queue t A)) A))
     | None => upd t (λ v0, v_sender sender (v_msg words v0)) (set_queue t (tail (queue t A)) A) end !! u)).
  { destruct prev; rewrite !upd_lookup; change (iv (set_queue ?t ?q ?B)) with (iv B); rewrite Ev; destruct (decide (t = u)); eauto. }
  destruct H as [w ->]. destruct (decide (t = u)), (decide (t = u ∧ _)); eauto.
Qed.

(** The hand-over of a message to [target], whose lock is held. *)
Definition handed (c target : Z) (words : list Z) (seq : Z) A : ipcs :=
  if state_is target IPC_EP_WAIT_RECV A
  then a_deliver target (tid_of c A) words (Some seq) A
  else a_enqueue target IPC_EP_WAIT_SEND (IpcNode c) (upd c (v_msg words) A).

Lemma hand_over A c v target vt words seq fl E s rq q :
  irep A (Some target) c fl E s rq → iv A !! c = Some v → iv A !! target = Some vt →
  il A !! IpcHead target = Some q → (iv_state vt = IPC_EP_WAIT_RECV → q ≠ [] ∧ iv_blocked vt = true) →
  unused (il A) (IpcNode c) → (∀ xs, il A !! IpcNode c ≠ Some xs) →
  if state_is target IPC_EP_WAIT_RECV A then
    ∃ s', ipc_deliver_msg target (tid_of c A) words seq s = Done tt s' ∧
      irep (handed c target words seq A) (Some target) c fl E s' (send_rq target A rq)
  else
    ∃ s', (upd_thread c (set_msg words);; ep_enqueue target IPC_EP_WAIT_SEND (IpcNode c)) s = Done tt s' ∧
      irep (handed c target words seq A) (Some target) c fl E s' (send_rq target A rq).
Proof.
  intros Hr Ev Evt Eq Hrecv Hun Hnh. unfold handed, send_rq. destruct (state_is target IPC_EP_WAIT_RECV A) eqn:Est.
  - unfold state_is in Est. rewrite Evt in Est. apply bool_decide_eq_true in Est. destruct (Hrecv Est) as [Hq Hb].
    destruct q as [|x q]; [done|].
    destruct (irep_deliver A (Some target) c fl E s rq target vt x q (tid_of c A) words seq Hr Evt Eq) as (s' & E' & Hr').
    exists s'. split; [done|]. by rewrite Hb in Hr'.
  - destruct (irep_upd _ _ _ _ _ _ _ c v _ _ Hr Ev (upd_msg words)) as (s1 & E1 & Hr1). erewrite bind_done by exact E1.
    assert (is_Some (iv (upd c (v_msg words) A) !! target)) as [vt1 Evt1].
    { rewrite upd_lookup, Evt. destruct (decide (c = target)); eauto. }
    apply (irep_enqueue (upd c (v_msg words) A) (Some target) c fl E s1 rq target vt1 IPC_EP_WAIT_SEND (IpcNode c) q Hr1 Evt1 Eq I);
      [unfold thread_nodes; set_solver|done|done].
Qed.

Lemma handed_view c target words seq A t v : iv A !! t = Some v → is_Some (iv (handed c target words seq A) !! t).
Proof.
  intros Ev. unfold handed. destruct (state_is target IPC_EP_WAIT_RECV A).
  - by eapply delivered_view.
  - assert (is_Some (iv (upd c (v_msg words) A) !! t)) as [w Ew].
    { rewrite upd_lookup, Ev. destruct (decide (c = t)); eauto. }
    by eapply enqueued_view.
Qed.

(** A waiting target has its node on its own queue and is blocked. *)
Lemma receiver_waits A target vt q :
  ipc_inv A → iv A !! target = Some vt → il A !! IpcHead target = Some q →
  iv_state vt = IPC_EP_WAIT_RECV → q ≠ [] ∧ iv_blocked vt = true.
Proof.
  intros Hi Evt Eq Hst.
  destruct (waiting_queue A target vt Hi Evt Hst) as [Hbt [(_ & Eq' & _)|(_ & Eq' & _)]]; split; congruence.
Qed.

(** C25: [ipc_send] computes the abstract send: a target that waits on its
    endpoint gets the words, the sender's id and sequence number 0, is made
    ready and the call returns 0 with the caller's interrupt flag restored;
    otherwise the caller is queued at the target with its words and suspended,
    and the first thread of the highest ready level runs, if there is one. *)
Theorem ipc_send_refines A c v target vt words E s rq fl :
  ipc_inv A → running_in A c v → iv A !! target = Some vt → irep A None c fl E s rq →
  refines (a_send c target words fl A).1 (a_send c target words fl A).2 c fl E (send_rq target A rq)
    (ipc_send target words s).
Proof.
  intros Hi Hrun Evt Hr. pose proof Hrun as (Ev & Hb & Hk). pose proof (running_unlinked _ _ _ Hi Hrun) as Hu.
  unfold ipc_send. erewrite bind_done by reflexivity. rewrite (ir_current _ _ _ _ _ _ _ Hr).
  erewrite bind_done by reflexivity. rewrite (ir_irq _ _ _ _ _ _ _ Hr).
  pose proof (irep_irq _ _ _ _ false _ _ _ Hr) as Hr0. 
  destruct (irep_lock A c false E _ rq target vt Hr0 Evt) as (s1 & E1 & Hr1). erewrite bind_done by exact E1.
  destruct (ir_thread _ _ _ _ _ _ _ _ _ Hr1 Evt) as (th & Et & Hv). erewrite bind_done by by apply the_thread_run.
  destruct (ii_ep _ Hi target vt Evt) as (q & Eq & _).
  destruct (free_node A c (IpcNode c) Hi Hu eq_refl) as (_ & Hun & Hnh).
  pose proof (receiver_waits A target vt q Hi Evt Eq) as Hrecv.
  pose proof (hand_over A c v target vt words 0 false E s1 rq q Hr1 Ev Evt Eq Hrecv Hun Hnh) as Hh.
  destruct (handed_view c target words 0 A target vt Evt) as [vt2 Evt2].
  destruct (handed_view c target words 0 A c v Ev) as [v2 Ev2].
  change (ep_state (ipc th)) with (iv_state (iview_of th)). rewrite Hv.
  assert (Hst : state_is target IPC_EP_WAIT_RECV A = bool_decide (iv_state vt = IPC_EP_WAIT_RECV)) by (unfold state_is; by rewrite Evt).
  unfold a_send, handed in *. rewrite Hst in *. destruct (bool_decide (iv_state vt = IPC_EP_WAIT_RECV)).
  - destruct (ir_thread _ _ _ _ _ _ _ _ _ Hr1 Ev) as (thc & Ec & Hvc). erewrite bind_done by by apply the_thread_run.
    destruct Hh as (s2 & E2 & Hr2). unfold tid_of in *. rewrite Ev in *. rewrite <- Hvc in E2 at 1.
    erewrite bind_done by exact E2.
    destruct (irep_unlock _ _ _ _ _ _ _ _ Hr2 Evt2) as (s3 & E3 & Hr3). erewrite bind_done by exact E3.
    by apply refines_return.
  - destruct Hh as (s2 & E2 & Hr2).
    destruct (irep_unlock _ _ _ _ _ _ _ _ Hr2 Evt2) as (s3 & E3 & Hr3).
    rewrite (bind_seq _ _ _ _ _ _ E2). erewrite bind_done by exact E3.
    by eapply refines_suspend.
Qed.

(** ** Calling *)

Lemma a_call_handed c target words fl A v :
  iv A !! c = Some v →
  a_call c target words fl A =
    a_block c (KCall fl (iv_sender v)) (handed c target words (wrap64 (iv_call v + 1))
      (a_enqueue c IPC_EP_WAIT_RECV (IpcWaitNode c) (upd c (λ v, v_call (wrap64 (iv_call v + 1)) v) A))).
Proof. intros Ev. unfold a_call, handed. by rewrite upd_lookup, decide_True, Ev by done. Qed.

Lemma enqueue_unused A owner st n m :
  unused (il A) m → m ≠ n → unused (il (a_enqueue owner st n A)) m.
Proof.
  intros Hu Hne h xs Hh. simpl. rewrite lookup_insert. destruct (decide (IpcHead owner = h)) as [<-|]; [|by apply Hu].
  intros [= <-] [Hin|Hin%list_elem_of_singleton]%elem_of_app; [|done].
  unfold queue in Hin. rewrite lookup_total_alt in Hin. simpl in Hin.
  destruct (il A !! IpcHead owner) as [q|] eqn:Eq; simpl in Hin; [by apply (Hu (IpcHead owner) q)|set_solver].
Qed.

(** The second half of [ipc_call]: hand the words over at the target, whether it
    waits or not, and be suspended. *)
Lemma hand_over_suspend A c v target vt words seq k E s rq q fl :
  irep A None c false E s rq → iv A !! c = Some v → iv A !! target = Some vt → il A !! IpcHead target = Some q →
  (iv_state vt = IPC_EP_WAIT_RECV → q ≠ [] ∧ iv_blocked vt = true) →
  unused (il A) (IpcNode c) → (∀ xs, il A !! IpcNode c ≠ Some xs) →
  refines None (a_block c k (handed c target words seq A)) c fl E (send_rq target A rq)
    ((on_ep_lock target spin_lock;;
      th ← the_thread target;
      (if bool_decide (ep_state (ipc th) = IPC_EP_WAIT_RECV) then
         ipc_deliver_msg target (tid_of c A) words seq
       else
         upd_thread c (set_msg words);;
         ep_enqueue target IPC_EP_WAIT_SEND (IpcNode c));;
      on_ep_lock target spin_unlock;;
      sched_block k;;
      mret None) s).
Proof.
  intros Hr Ev Evt Eq Hrecv Hun Hnh.
  destruct (irep_lock _ _ _ _ _ _ _ _ Hr Evt) as (s1 & E1 & Hr1). erewrite bind_done by exact E1.
  destruct (ir_thread _ _ _ _ _ _ _ _ _ Hr1 Evt) as (th & Et & Hv). erewrite bind_done by by apply the_thread_run.
  pose proof (hand_over A c v target vt words seq false E s1 rq q Hr1 Ev Evt Eq Hrecv Hun Hnh) as Hh.
  destruct (handed_view c target words seq A target vt Evt) as [vt2 Evt2].
  destruct (handed_view c target words seq A c v Ev) as [v2 Ev2].
  replace (ep_state (ipc th)) with (iv_state vt) by by rewrite <- Hv.
  assert (Hst : state_is target IPC_EP_WAIT_RECV A = bool_decide (iv_state vt = IPC_EP_WAIT_RECV)) by (unfold state_is; by rewrite Evt).
  rewrite Hst in Hh.
  destruct (bool_decide (iv_state vt = IPC_EP_WAIT_RECV)); destruct Hh as (s2 & E2 & Hr2); erewrite bind_done by exact E2;
    destruct (irep_unlock _ _ _ _ _ _ _ _ Hr2 Evt2) as (s3 & E3 & Hr3); erewrite bind_done by exact E3;
    by eapply refines_suspend.
Qed.

(** C27: [ipc_call] computes the abstract call: the caller takes the next sequence
    number, reserves its reply slot on its own endpoint, hands the words over to a
    waiting target or queues at it, and is suspended in either case with its
    previous sender saved. *)
Theorem ipc_call_refines A c v target vt words E s rq fl :
  ipc_inv A → running_in A c v → iv A !! target = Some vt → target ≠ c → irep A None c fl E s rq →
  refines None (a_call c target words fl A) c fl E (send_rq target A rq) (ipc_call target words s).
Proof.
  intros Hi Hrun Evt Hne Hr. pose proof Hrun as (Ev & Hb & Hk). pose proof (running_unlinked _ _ _ Hi Hrun) as Hu.
  rewrite (a_call_handed c target words fl A v Ev).
  unfold ipc_call. erewrite bind_done by reflexivity. rewrite (ir_current _ _ _ _ _ _ _ Hr).
  erewrite bind_done by reflexivity. rewrite (ir_irq _ _ _ _ _ _ _ Hr).
  pose proof (irep_irq _ _ _ _ false _ _ _ Hr) as Hr0.
  destruct (irep_upd _ _ _ _ _ _ _ c v (λ th, set_call_seq (wrap64 (ipc_call_seq (ipc th) + 1)) th)
    (λ v, v_call (wrap64 (iv_call v + 1)) v) Hr0 Ev) as (s1 & E1 & Hr1); [by split|]. erewrite bind_done by exact E1.
  set (A1 := upd c _ A) in *. set (v1 := v_call (wrap64 (iv_call v + 1)) v).
  assert (Ev1 : iv A1 !! c = Some v1) by (unfold A1; by rewrite upd_lookup, decide_True, Ev).
  destruct (ir_thread _ _ _ _ _ _ _ _ _ Hr1 Ev1) as (th1 & Et1 & Hv1). erewrite bind_done by by apply the_thread_run.
  cbv zeta. replace (ipc_call_seq (ipc th1)) with (wrap64 (iv_call v + 1)) by (change (wrap64 (iv_call v + 1)) with (iv_call v1); by rewrite <- Hv1).
  destruct (irep_lock _ _ _ _ _ _ _ _ Hr1 Ev1) as (s2 & E2 & Hr2). erewrite bind_done by exact E2.
  destruct (ir_thread _ _ _ _ _ _ _ _ _ Hr2 Ev1) as (th2 & Et2 & Hv2). erewrite bind_done by by apply the_thread_run.
  replace (ipc_sender (ipc th2)) with (iv_sender v) by (change (iv_sender v) with (iv_sender v1); by rewrite <- Hv2).
  destruct (ii_ep _ Hi c v Ev) as (qc & Eqc & _).
  destruct (free_node A c (IpcWaitNode c) Hi Hu eq_refl) as (How & Hunw & Hnhw).
  destruct (free_node A c (IpcNode c) Hi Hu eq_refl) as (_ & Hun & Hnh).
  destruct (irep_enqueue A1 (Some c) c false E s2 rq c v1 IPC_EP_WAIT_RECV (IpcWaitNode c) qc) as (s3 & E3 & Hr3); try done.
  { unfold thread_nodes. set_solver. }
  erewrite bind_done by exact E3. set (A2 := a_enqueue c _ _ A1) in *.
  assert (is_Some (iv A2 !! c)) as [v2 Ev2] by (by eapply enqueued_view).
  destruct (irep_unlock _ _ _ _ _ _ _ _ Hr3 Ev2) as (s4 & E4 & Hr4). erewrite bind_done by exact E4.
  assert (Evt2 : iv A2 !! target = Some vt).
  { unfold A2, A1. rewrite iv_enqueue_ne by done. by rewrite iv_upd_ne. }
  destruct (ii_ep _ Hi target vt Evt) as (q & Eq & _).
  assert (Hst2 : state_is target IPC_EP_WAIT_RECV A2 = state_is target IPC_EP_WAIT_RECV A) by (unfold state_is; by rewrite Evt, Evt2).
  assert (Hrq : send_rq target A2 rq = send_rq target A rq) by (unfold send_rq; by rewrite Hst2).
  assert (tid th2 = tid_of c A2) as ->.
  { unfold tid_of. rewrite Ev2. change (tid th2) with (iv_tid (iview_of th2)). rewrite Hv2.
    unfold A2 in Ev2. change (iv (a_enqueue c IPC_EP_WAIT_RECV (IpcWaitNode c) A1)) with (iv (upd c (v_state IPC_EP_WAIT_RECV) A1)) in Ev2.
    rewrite upd_lookup, decide_True, Ev1 in Ev2 by done. by injection Ev2 as <-. }
  rewrite <- Hrq. apply (hand_over_suspend A2 c v2 target vt words _ _ E s4 rq q fl Hr4 Ev2 Evt2).
  - unfold A2. simpl. rewrite lookup_insert_ne; congruence.
  - exact (receiver_waits A target vt q Hi Evt Eq).
  - by apply enqueue_unused.
  - intros xs. unfold A2. simpl. rewrite lookup_insert_ne by done. apply Hnh.
Qed.

(** ** Replying *)

(** The thread that [thread_lookup] finds. *)
Definition registered s (x : Z) : Z :=
  if negb (g_threads (reg s) =? 0) && (x <? g_threads_cap (reg s)) then default 0 (g_array (reg s) !! x) else 0.

(** The registry knows the threads of [A] by their ids. *)
Definition reg_knows s A : Prop :=
  ∀ x, registered s x ≠ 0 → ∃ v, iv A !! registered s x = Some v ∧ iv_tid v = x.

Lemma thread_lookup_run A o c fl E s rq x :
  irep A o c fl E s rq →
  ∃ s', thread_lookup x s = Done (registered s x) s' ∧ irep A o c fl E s' rq.
Proof.
  intros [H1 H2 H3 H4 H5 H6 H7 H8]. unfold thread_lookup, on_reg_lock.
  erewrite bind_done by (apply klift_done, spin_lock_irqsave_free, H8). cbv beta iota.
  erewrite bind_done by reflexivity. cbv zeta. simpl.
  erewrite bind_done; [|apply klift_done; simpl; apply spin_unlock_irqrestore_take].
  eexists. split; [reflexivity|]. split; simpl; try done.
  - destruct H1 as [Q Hi]. exists Q. by apply (inv_other _ s).
  - by apply bump_free.
Qed.

Definition reply_rq (c u : Z) A rq : queues :=
  match iv A !! c, iv A !! u with
  | Some vc, Some vu =>
      if (iv_prev vc =? 0) || (u =? 0) || (u =? c) || negb (iv_call vu =? iv_prev vc) then rq else
      if bool_decide (iv_state vu = IPC_EP_WAIT_RECV) && negb (bool_decide (queue u A = []))
      then rq_push 0 u rq else rq
  | _, _ => rq
  end.

Lemma irep_reply A c v fl E s rq words :
  ipc_inv A → running_in A c v → reg_knows s A → irep A None c fl E s rq →
  let u := registered s (iv_sender v) in
  ∃ s', ipc_reply c (iv_sender v) words s = Done tt s' ∧ irep (a_reply c u words A) None c fl E s' (reply_rq c u A rq).
Proof.
  intros Hi Hrun Hreg Hr u. pose proof Hrun as (Ev & _).
  destruct (thread_lookup_run A None c fl E s rq (iv_sender v) Hr) as (s1 & E1 & Hr1).
  unfold ipc_reply. erewrite bind_done by exact E1. fold u.
  destruct (ir_thread _ _ _ _ _ _ _ _ _ Hr1 Ev) as (th & Et & Hv). erewrite bind_done by by apply the_thread_run.
  replace (ipc_prev_seq (ipc th)) with (iv_prev v) by by rewrite <- Hv.
  replace (tid th) with (iv_tid v) by by rewrite <- Hv.
  unfold a_reply, reply_rq. rewrite Ev. destruct (u =? 0) eqn:Eu0.
  { rewrite orb_true_r. exists s1. split; [done|]. destruct (iv A !! u); by rewrite ?orb_true_r. }
  destruct (Hreg (iv_sender v)) as (vu & Eu & _); [by apply Z.eqb_neq|]. fold u in Eu. rewrite Eu.
  destruct ((iv_prev v =? 0) || false || (u =? c)) eqn:Ec; [by exists s1|]. cbn [orb].
  destruct (ir_thread _ _ _ _ _ _ _ _ _ Hr1 Eu) as (thu & Etu & Hvu). erewrite bind_done by by apply the_thread_run.
  replace (ipc_call_seq (ipc thu)) with (iv_call vu) by by rewrite <- Hvu.
  destruct (negb (iv_call vu =? iv_prev v)); [by exists s1|].
  destruct (irep_lock _ _ _ _ _ _ _ _ Hr1 Eu) as (s2 & E2 & Hr2). erewrite bind_done by exact E2.
  destruct (ir_thread _ _ _ _ _ _ _ _ _ Hr2 Eu) as (thu2 & Etu2 & Hvu2). erewrite bind_done by by apply the_thread_run.
  replace (ep_state (ipc thu2)) with (iv_state vu) by by rewrite <- Hvu2.
  destruct (bool_decide (iv_state vu = IPC_EP_WAIT_RECV)) eqn:Est; cbn [andb]; cycle 1.
  { erewrite (bind_done (mret tt)) by reflexivity. exact (irep_unlock _ _ _ _ _ _ _ _ Hr2 Eu). }
  apply bool_decide_eq_true in Est. destruct (waiting_queue A u vu Hi Eu Est) as [Hbu Hq].
  assert (∃ x, il A !! IpcHead u = Some [x]) as [x Eq] by (destruct Hq as [(_ & ? & _)|(_ & ? & _)]; eauto).
  rewrite (queue_lookup _ _ _ Eq), bool_decide_eq_false_2 by done. cbn [negb].
  destruct (irep_deliver_reply A (Some u) c fl E s2 rq u vu x [] (iv_tid v) words Hr2 Eu Eq) as (s3 & E3 & Hr3).
  erewrite bind_done.
  2: { erewrite bind_done by exact (kread_done (λ s, list_empty (IpcHead u) (klinks s)) s2 _ (ok_empty _ _ _ _ (IpcHead u) _ (ir_ok _ _ _ _ _ _ _ Hr2) I Eq)).
       rewrite bool_decide_eq_false_2 by done. exact E3. }
  destruct (delivered_view u (iv_tid v) words None A u vu Eu) as [w Ew].
  rewrite Hbu in Hr3. exact (irep_unlock _ _ _ _ _ _ _ _ Hr3 Ew).
Qed.

(** C28: [ipc_reply_recv] computes the abstract reply followed by the abstract
    receive: the reply goes to the thread registered under the last sender's id,
    only when it is still blocked in the call that was taken, and the endpoint
    then yields its first pending message or the caller waits. *)
Theorem ipc_reply_recv_refines A c v words E s rq fl :
  ipc_ok A → running_in A c v → reg_knows s A → irep A None c fl E s rq →
  let u := registered s (iv_sender v) in
  let A' := a_reply c u words A in
  refines (a_recv c fl A').1 (a_recv c fl A').2 c fl E (recv_rq c A' (reply_rq c u A rq)) (ipc_reply_recv words s).
Proof.
  intros [Hi Ho] Hrun Hreg Hr u A'. pose proof Hrun as (Ev & _).
  unfold ipc_reply_recv. erewrite bind_done by reflexivity. rewrite (ir_current _ _ _ _ _ _ _ Hr).
  erewrite bind_done by reflexivity. rewrite (ir_irq _ _ _ _ _ _ _ Hr).
  pose proof (irep_irq _ _ _ _ false _ _ _ Hr) as Hr0.
  destruct (irep_lock _ _ _ _ _ _ _ _ Hr0 Ev) as (s1 & E1 & Hr1). erewrite bind_done by exact E1.
  destruct (ir_thread _ _ _ _ _ _ _ _ _ Hr1 Ev) as (th & Et & Hv). erewrite bind_done by by apply the_thread_run.
  destruct (irep_unlock _ _ _ _ _ _ _ _ Hr1 Ev) as (s2 & E2 & Hr2). cbv zeta. erewrite bind_done by exact E2.
  replace (ipc_sender (ipc th)) with (iv_sender v) by by rewrite <- Hv.
  assert (Hsame : ∀ x, registered s2 x = registered s x).
  { intros x. pose proof (ir_env _ _ _ _ _ _ _ Hr) as He. rewrite <- (ir_env _ _ _ _ _ _ _ Hr2) in He.
    unfold env in He. injection He as _ _ _ _ _ _ G1 G2 G3 _. unfold registered. by rewrite G1, G2, G3. }
  assert (Hreg2 : reg_knows s2 A) by (intros x; rewrite Hsame; apply Hreg).
  destruct (irep_reply A c v false E s2 rq words Hi Hrun Hreg2 Hr2) as (s3 & E3 & Hr3). rewrite Hsame in Hr3. fold u in Hr3.
  erewrite bind_done by exact E3.
  assert (Hlook : ∀ vu, iv A !! u = Some vu → u ≠ 0 → iv_tid vu = iv_sender v).
  { intros vu Eu Hu. destruct (Hreg (iv_sender v) Hu) as (vu' & Eu' & <-). unfold u in Eu. congruence. }
  destruct (reply_running A c v u words Hi Ho Hrun Hlook) as (Hi' & _ & Hrun').
  by apply recv_or_wait_run with v.
Qed.

(** ** Going on after the wait *)

(** The saved interrupt flag of a thread suspended in a call of ipc.c. *)
Definition suspended_in (v : iview) : option bool :=
  match iv_cont v with KSend f | KRecv f | KCall f _ => Some f | _ => None end.

Lemma irep_ret A c fl E s rq v r :
  irep A None c fl E s rq → iv A !! c = Some v →
  ∃ s' th, upd_thread c (set_ret r) s = Done tt s' ∧ irep A None c fl E s' rq ∧ threads s' !! c = Some th ∧ th_ret th = r.
Proof.
  intros Hr Ev. destruct (irep_upd _ _ _ _ _ _ _ c v (set_ret r) id Hr Ev) as (s' & E' & Hr'); [by split|].
  rewrite (upd_id A c id v Ev eq_refl) in Hr'. exists s'.
  destruct (ir_thread _ _ _ _ _ _ _ _ _ Hr Ev) as (th & Et & _). rewrite (upd_thread_run _ _ _ _ Et) in E'.
  injection E' as <-. exists (set_ret r th). split; [by apply upd_thread_run|]. split; [done|].
  split; [apply lookup_insert_eq|done].
Qed.

Lemma recv_resume_run A c v f E s rq :
  irep A None c false E s rq → iv A !! c = Some v →
  ∃ s', recv_resume c f s = Done (iv_sender v, iv_msg v) s' ∧ irep A None c f E s' rq.
Proof.
  intros Hr Ev. unfold recv_resume.
  destruct (irep_lock _ _ _ _ _ _ _ _ Hr Ev) as (s1 & E1 & Hr1). erewrite bind_done by exact E1.
  destruct (ir_thread _ _ _ _ _ _ _ _ _ Hr1 Ev) as (th & Et & Hv). erewrite bind_done by by apply the_thread_run.
  destruct (irep_unlock _ _ _ _ _ _ _ _ Hr1 Ev) as (s2 & E2 & Hr2). erewrite bind_done by exact E2.
  erewrite bind_done by reflexivity. exists (set_kirq f s2). rewrite <- Hv. split; [done|]. by apply (irep_irq _ _ _ false).
Qed.

Lemma call_resume_run A c v f saved E s rq :
  irep A None c false E s rq → iv A !! c = Some v →
  ∃ s', call_resume c f saved s = Done (iv_sender v, iv_msg v) s' ∧ irep (upd c (v_sender saved) A) None c f E s' rq.
Proof.
  intros Hr Ev. unfold call_resume.
  destruct (irep_lock _ _ _ _ _ _ _ _ Hr Ev) as (s1 & E1 & Hr1). erewrite bind_done by exact E1.
  destruct (ir_thread _ _ _ _ _ _ _ _ _ Hr1 Ev) as (th & Et & Hv). erewrite bind_done by by apply the_thread_run.
  destruct (irep_upd _ _ _ _ _ _ _ _ _ _ _ Hr1 Ev (upd_sender saved)) as (s2 & E2 & Hr2). erewrite bind_done by exact E2.
  assert (is_Some (iv (upd c (v_sender saved) A) !! c)) as [v2 Ev2] by (rewrite upd_lookup, decide_True, Ev by done; eauto).
  destruct (irep_unlock _ _ _ _ _ _ _ _ Hr2 Ev2) as (s3 & E3 & Hr3). erewrite bind_done by exact E3.
  erewrite bind_done by reflexivity. exists (set_kirq f s3). rewrite <- Hv. split; [done|]. by apply (irep_irq _ _ _ false).
Qed.

(** C29: a thread that is dispatched again after it blocked in ipc.c finishes its
    call as the abstract protocol says: it returns the sender and the words left in
    its message buffer, a caller gets its previous sender back, and the interrupt
    flag it saved is restored. *)
Theorem ipc_resume_refines A c v f E s rq :
  irep A None c false E s rq → iv A !! c = Some v → suspended_in v = Some f →
  ∃ s' th, resume s = Done tt s' ∧ irep (a_resume c A).2 None c f E s' rq ∧
    threads s' !! c = Some th ∧ th_ret th = (a_resume c A).1.
Proof.
  intros Hr Ev Hf. unfold resume. erewrite bind_done by reflexivity. rewrite (ir_current _ _ _ _ _ _ _ Hr).
  destruct (ir_thread _ _ _ _ _ _ _ _ _ Hr Ev) as (th & Et & Hv). erewrite bind_done by by apply the_thread_run.
  destruct (irep_upd _ _ _ _ _ _ _ c v (set_cont KUser) (v_cont KUser) Hr Ev) as (s1 & E1 & Hr1); [by split|].
  erewrite bind_done by exact E1.
  assert (Ev1 : iv (upd c (v_cont KUser) A) !! c = Some (v_cont KUser v)) by by rewrite upd_lookup, decide_True, Ev.
  replace (cont th) with (iv_cont v) by by rewrite <- Hv.
  unfold a_resume, suspended_in in *. rewrite Ev. destruct (iv_cont v) as [|fl|fl|fl|fl saved| | |]; try discriminate; injection Hf as ->.
  - erewrite bind_done by reflexivity. by apply irep_ret with (v_cont KUser v); [apply (irep_irq _ _ _ false)|].
  - destruct (recv_resume_run _ _ _ f _ _ _ Hr1 Ev1) as (s2 & E2 & Hr2). erewrite bind_done by exact E2.
    by apply irep_ret with (v_cont KUser v).
  - destruct (call_resume_run _ _ _ f saved _ _ _ Hr1 Ev1) as (s2 & E2 & Hr2). erewrite bind_done by exact E2.
    rewrite upd_same in Hr2. apply irep_ret with (v_sender saved (v_cont KUser v)); [done|].
    cbn [snd]. by rewrite upd_lookup, decide_True, Ev.
Qed.

Lemma ipc_recv_run A c v E s rq fl :
  ipc_inv A → running_in A c v → irep A None c fl E s rq →
  refines (a_recv c fl A).1 (a_recv c fl A).2 c fl E (recv_rq c A rq) (ipc_recv s).
Proof.
  intros Hi Hrun Hr. unfold ipc_recv. erewrite bind_done by reflexivity. rewrite (ir_current _ _ _ _ _ _ _ Hr).
  erewrite bind_done by reflexivity. rewrite (ir_irq _ _ _ _ _ _ _ Hr).
  apply recv_or_wait_run with v; [done|done|]. by apply (irep_irq _ _ _ fl).
Qed.

(** C26: [ipc_recv] computes the abstract receive: with senders queued it takes the
    first one's message, leaves the endpoint idle exactly when none is left and
    makes a plain sender ready again; otherwise it queues its caller on its own
    endpoint and suspends it. *)
Theorem ipc_recv_refines A c v E s rq fl :
  ipc_inv A → running_in A c v → irep A None c fl E s rq →
  refines (a_recv c fl A).1 (a_recv c fl A).2 c fl E (recv_rq c A rq) (ipc_recv s).
Proof. apply ipc_recv_run. Qed.
End refine.
