(* ===== verification/TaskExamples.v ===== *)
(** * The task subsystem on a concrete machine

    Three threads, 11 running and 12 and 13 just created, and the theorems on the
    scheduler and on message passing applied to them. *)

From S2P Require Export IpcRefine PmapExamples.

Definition tf0 : trapframe := Trapframe 0 0 0 0 0 0 0.
Definition new_thread (n : Z) (st : thread_state) : thread :=
  Thread n PmapKernel tf0 (SchedPart st 0 1 0) (IpcPart SPINLOCK_INITIALIZER IPC_EP_INACTIVE [] 0 0 0) 0 0 0 KUser None.

(** The heads, after their initialisation, and the nodes. *)
Definition heads : list tnode := [RunqHead 0; RunqHead 1; RunqHead 2; RunqHead 3; IpcHead 11; IpcHead 12; IpcHead 13].
Definition nodes : list tnode := t ← [11; 12; 13]; [SchedNode t; IpcNode t; IpcWaitNode t; FutexNode t].
Definition links : gmap tnode (link tnode) :=
  foldr list_init (list_to_map ((λ n, (n, Link None None)) <$> nodes)) heads.

Definition three_threads : gmap Z thread :=
  {[ 11 := new_thread 1 THREAD_RUNNING; 12 := new_thread 2 THREAD_CREATED; 13 := new_thread 3 THREAD_CREATED ]}.
Definition three_reg : registry := Registry 0x9000 {[ 1 := 11; 2 := 12; 3 := 13 ]} 16 4 SPINLOCK_INITIALIZER.

Definition created : kernel (list Z) := Kernel booted links three_threads 11 0 true three_reg (Futexes ∅ ∅).
Definition no_ready : queues := {[ 0 := []; 1 := []; 2 := []; 3 := [] ]}.

Lemma init_all (hs : list tnode) m : NoDup hs →
  lists (foldr list_init m hs) (list_to_map ((λ h, (h, [])) <$> hs)).
Proof.
  induction hs as [|h hs IH]; intros Hnd; simpl; [by split|]. apply NoDup_cons in Hnd as [Hn Hnd].
  apply lists_init; [by apply IH|]. intros h' xs E%elem_of_list_to_map_2. apply list_elem_of_fmap in E as (g & [= -> ->] & Hg).
  intros ->%list_elem_of_singleton. done.
Qed.

Lemma three_thread t th :
  three_threads !! t = Some th → ∃ n st, th = new_thread n st ∧ t ≠ 0 ∧ st ≠ THREAD_READY ∧
    (st = THREAD_RUNNING → t = 11) ∧ ∀ x, x ∈ thread_nodes t → is_Some (links !! x).
Proof.
  unfold three_threads. rewrite !lookup_insert, ?lookup_singleton.
  destruct (decide (11 = t)) as [<-|]; [|destruct (decide (12 = t)) as [<-|]; [|destruct (decide (13 = t)) as [<-|]; [|discriminate]]];
    intros [= <-]; eexists _, _; do 4 (split; [first [reflexivity|discriminate|lia|intros [=]]|]);
    intros x Hn; unfold thread_nodes in Hn; rewrite !elem_of_cons, elem_of_nil in Hn;
    destruct Hn as [->|[->|[->|[->|[->|[]]]]]]; eexists; vm_compute; reflexivity.
Qed.

Lemma level_of (l : Z) : is_Some (no_ready !! l) ↔ 0 ≤ l < MLFQ_LEVELS.
Proof.
  unfold no_ready, MLFQ_LEVELS. rewrite !lookup_insert, ?lookup_singleton.
  repeat case_decide; subst; split; intros Hx; try lia; try (by eexists); destruct Hx as [? [=]].
Qed.

Lemma no_ready_empty l ts : no_ready !! l = Some ts → ts = [].
Proof. unfold no_ready. rewrite !lookup_insert, ?lookup_singleton. repeat case_decide; naive_solver. Qed.

Lemma created_ok : sched_ok (il three) created no_ready None.
Proof.
  set (Q := <[RunqHead 0 := []]> (<[RunqHead 1 := []]> (<[RunqHead 2 := []]> (<[RunqHead 3 := []]> (il three))))).
  exists Q. split.
  - apply (init_all heads). vm_compute. repeat constructor; set_solver.
  - apply level_of.
  - intros l. unfold Q, no_ready, three. cbn [il]. rewrite !lookup_insert, ?lookup_singleton.
    repeat case_decide; simplify_eq; try done.
  - intros h xs t. unfold Q, three. cbn [il]. rewrite !lookup_insert, ?lookup_singleton. repeat case_decide; subst; intros E; simplify_eq;
      intros [?|Hin]%elem_of_cons; simplify_eq; set_solver.
  - intros t (l & ts & E & Hin). apply no_ready_empty in E. subst. set_solver.
  - intros t th E Hr _. destruct (three_thread t th E) as (n & st & -> & _ & Hst & _). done.
  - done.
  - intros t th E Hr. destruct (three_thread t th E) as (n & st & -> & _ & _ & Hst & _). by apply Hst.
  - intros t th E. destruct (three_thread t th E) as (n & st & -> & Ht & _ & _ & Hn). split; [done|]. split; [done|].
    split; [done|]. destruct booted_space as (kpm & P & Ek & _). by exists kpm.
  - intros h Hh. unfold Q. by rewrite !lookup_insert_ne by (intros <-; by eapply Hh).
Qed.

(** Threads 12 and 13 made ready. *)
Definition two_ready : kernel (list Z) := state_of created ((sched_enqueue 12;; sched_enqueue 13) created).
Definition queue_two : queues := rq_push 0 13 (rq_push 0 12 no_ready).

Definition two_ready_threads : gmap Z thread :=
  <[13 := woken (new_thread 3 THREAD_CREATED)]> (<[12 := woken (new_thread 2 THREAD_CREATED)]> three_threads).

Lemma two_ready_run : sched_ok (il three) two_ready queue_two None ∧ threads two_ready = two_ready_threads ∧
  current two_ready = 11 ∧ kirq two_ready = true ∧ reg two_ready = three_reg.
Proof.
  destruct (sched_enqueue_run (il three) created no_ready 12 (new_thread 2 THREAD_CREATED) created_ok) as (m1 & E1 & H1); [done..|].
  match type of E1 with _ = Done tt ?x => set (s1 := x) in * end.
  destruct (sched_enqueue_run (il three) s1 _ 13 (new_thread 3 THREAD_CREATED) H1) as (m2 & E2 & H2); [done..|].
  unfold two_ready. erewrite bind_done by exact E1. rewrite E2. by split_and!.
Qed.
Lemma two_ready_ok : sched_ok (il three) two_ready queue_two None.
Proof. apply two_ready_run. Qed.

#[local] Opaque two_ready.

Lemma two_ready_rep : irep three None 11 true (env two_ready) two_ready queue_two.
Proof.
  destruct two_ready_run as (Hok & Ht & Hc & Hk & Hr). split.
  - exact Hok.
  - rewrite Ht. vm_compute. reflexivity.
  - rewrite Ht. intros t th E. rewrite decide_False by discriminate. unfold two_ready_threads in E. rewrite !lookup_insert in E.
    destruct (decide (13 = t)); [by injection E as <-|]. destruct (decide (12 = t)); [by injection E as <-|].
    destruct (three_thread t th E) as (k & st & -> & _). reflexivity.
  - exact Hc.
  - rewrite Ht. by eexists.
  - exact Hk.
  - reflexivity.
  - by rewrite Hr.
Qed.

Lemma runs_11 : running_in three 11 (view_at 11 three).
Proof. split_and!; reflexivity. Qed.

(** ** The scheduler *)

Lemma sched_wakeup_spec_witness :
  ∃ s', sched_wakeup 12 created = Done tt s' ∧ sched_ok (il three) s' (rq_push 0 12 no_ready) None.
Proof.
  destruct (sched_wakeup_spec (il three) created no_ready 12 (new_thread 2 THREAD_CREATED) created_ok) as (m & E & H); [done..|].
  eexists. split; [exact E|exact H].
Defined.

Lemma sched_yield_spec_witness :
  ∃ s', sched_yield two_ready = Done false s' ∧ current s' = 12 ∧
    sched_ok (il three) s' (rq_push 0 11 (<[0 := [13]]> queue_two)) None.
Proof.
  destruct two_ready_run as (_ & Ht & Hc & _).
  destruct (sched_yield_spec (il three) two_ready queue_two (new_thread 1 THREAD_RUNNING) two_ready_ok)
    as (t & rq' & s' & Epick & Es & Hok & Hcur & _); [by rewrite Hc, Ht|done|].
  rewrite Hc in Epick. vm_compute in Epick. injection Epick as <- <-. rewrite Hc in Es.
  exists s'. split; [exact Es|]. split; [exact Hcur|]. exact Hok.
Defined.

Lemma sched_leave_spec_witness :
  (∃ s', sched_leave THREAD_BLOCKED (KRecv true) two_ready = Done tt s' ∧ current s' = 12) ∧
  ∃ s', sched_leave THREAD_TERMINATED KDead created = Halted s'.
Proof.
  destruct two_ready_run as (_ & Ht & Hc & _). split.
  - pose proof (sched_leave_spec (il three) two_ready queue_two (new_thread 1 THREAD_RUNNING) THREAD_BLOCKED (KRecv true) two_ready_ok) as H.
    destruct H as (m & s' & E & Hd); [by rewrite Hc, Ht|done|by left|]. exists s'. split; [exact E|]. apply Hd.
  - destruct (sched_leave_spec (il three) created no_ready (new_thread 1 THREAD_RUNNING) THREAD_TERMINATED KDead created_ok)
      as [E _]; [done|done|by right|]. eexists. exact E.
Defined.

Lemma sched_boost_spec_witness :
  ∃ s', sched_boost two_ready = Done tt s' ∧ sched_ok (il three) s' (rq_boost queue_two) None.
Proof.
  destruct two_ready_run as (_ & Ht & Hc & _).
  destruct (sched_boost_spec (il three) two_ready queue_two two_ready_ok) as (m & E & H & _); [rewrite Hc, Ht; by eexists|].
  eexists. split; [exact E|exact H].
Defined.

(** The quantum of thread 11 ends with this tick: it is demoted to level 1. *)
Lemma sched_tick_spec_witness :
  ∃ s', sched_tick two_ready = Done tt s' ∧ current s' = 12 ∧
    sched_ok (il three) s' (rq_push 1 11 (<[0 := [13]]> queue_two)) None.
Proof.
  destruct two_ready_run as (_ & Ht & Hc & _).
  pose proof (sched_tick_spec (il three) two_ready queue_two two_ready_ok ltac:(intros _; rewrite Hc, Ht; by eexists)) as H.
  destruct (account two_ready queue_two) as [[exh ts1] rq1] eqn:Ea.
  assert (exh = true ∧ rq1 = rq_push 1 11 queue_two) as [-> ->].
  { unfold account, running in Ea. rewrite Hc, Ht in Ea. vm_compute in Ea. by injection Ea as <- <- <-. }
  destruct (boost_phase two_ready ts1 _) as [ts2 rq2] eqn:Eb.
  assert (rq2 = rq_push 1 11 queue_two) as -> by (vm_compute in Eb; by injection Eb as <- <-).
  destruct H as (m & Hok & t & rq3 & s' & m' & Ep & Es & Hok' & Hcur & _). vm_compute in Ep. injection Ep as <- <-.
  exists s'. split; [exact Es|]. split; [exact Hcur|exact Hok'].
Defined.

(** ** Message passing *)

Lemma three_inv : ipc_inv three.
Proof. apply (fresh_ok three three_fresh). Qed.

(** Thread 11 waits for a message, and 12 runs. *)
Definition eleven_waits : ipcs := (a_recv 11 true three).2.

Lemma eleven_waits_run : ∃ s, ipc_recv two_ready = Done None s ∧
  irep eleven_waits None 12 false (env two_ready) s (<[0 := [13]]> queue_two).
Proof.
  pose proof (ipc_recv_run three 11 (view_at 11 three) (env two_ready) two_ready queue_two true three_inv runs_11 two_ready_rep) as H.
  change (a_recv 11 true three).1 with (@None (Z * list Z)) in H. unfold refines in H.
  change (recv_rq 11 three queue_two) with queue_two in H. change (rq_pick queue_two) with (Some (12, <[0 := [13]]> queue_two)) in H.
  destruct H as (s' & E & Hr). by exists s'.
Qed.

Lemma eleven_waits_inv : ipc_inv eleven_waits.
Proof. apply (inv_recv three 11 (view_at 11 three) true three_inv runs_11). Qed.

Lemma ipc_recv_refines_witness : ∃ s, ipc_recv two_ready = Done None s ∧ current s = 12.
Proof.
  pose proof (ipc_recv_refines three 11 (view_at 11 three) (env two_ready) two_ready queue_two true three_inv runs_11 two_ready_rep) as H.
  change (a_recv 11 true three).1 with (@None (Z * list Z)) in H. unfold refines in H.
  change (recv_rq 11 three queue_two) with queue_two in H. change (rq_pick queue_two) with (Some (12, <[0 := [13]]> queue_two)) in H.
  destruct H as (s' & E & Hr). exists s'. split; [exact E|]. apply Hr.
Defined.

(** Thread 12 sends to the waiting thread 11, which becomes ready. *)
Lemma ipc_send_refines_witness : ∃ s s', ipc_recv two_ready = Done None s ∧
  ipc_send 11 [1; 2; 3; 4; 5] s = Done (Some (0, [])) s' ∧
  irep (a_send 12 11 [1; 2; 3; 4; 5] false eleven_waits).2 None 12 false (env two_ready) s' (rq_push 0 11 (<[0 := [13]]> queue_two)).
Proof.
  destruct eleven_waits_run as (s & E & Hr). exists s.
  pose proof (ipc_send_refines eleven_waits 12 (view_at 12 eleven_waits) 11 (view_at 11 eleven_waits) [1; 2; 3; 4; 5]
    (env two_ready) s (<[0 := [13]]> queue_two) false eleven_waits_inv) as H.
  destruct H as (s' & E' & Hr'); [split_and!; reflexivity|reflexivity|exact Hr|].
  exists s'. split; [exact E|]. split; [exact E'|]. exact Hr'.
Defined.

(** Thread 12 calls the waiting thread 11 and is suspended until the reply. *)
Lemma ipc_call_refines_witness : ∃ s s', ipc_recv two_ready = Done None s ∧
  ipc_call 11 [1; 2; 3; 4; 5] s = Done None s' ∧ current s' = 13.
Proof.
  destruct eleven_waits_run as (s & E & Hr). exists s.
  pose proof (ipc_call_refines eleven_waits 12 (view_at 12 eleven_waits) 11 (view_at 11 eleven_waits) [1; 2; 3; 4; 5]
    (env two_ready) s (<[0 := [13]]> queue_two) false eleven_waits_inv) as H.
  destruct H as (s' & E' & Hr'); [split_and!; reflexivity|reflexivity|discriminate|exact Hr|].
  exists s'. split; [exact E|]. split; [exact E'|]. apply Hr'.
Defined.

Lemma two_ready_knows (s : kernel (list Z)) A : reg s = three_reg → iv A !! 11 = Some (view_at 11 three) → iv A !! 12 = Some (view_at 12 three) →
  iv A !! 13 = Some (view_at 13 three) → reg_knows s A.
Proof.
  intros Hr E1 E2 E3 x. unfold registered. rewrite Hr. unfold three_reg. simpl g_threads. simpl g_threads_cap. simpl g_array.
  destruct (negb (0x9000 =? 0) && (x <? 16)); [|done]. rewrite !lookup_insert, ?lookup_singleton.
  destruct (decide (1 = x)) as [<-|]; [by exists (view_at 11 three)|].
  destruct (decide (2 = x)) as [<-|]; [by exists (view_at 12 three)|].
  destruct (decide (3 = x)) as [<-|]; [by exists (view_at 13 three)|done].
Qed.

Lemma ipc_reply_recv_refines_witness : ∃ s, ipc_reply_recv [1; 2; 3; 4; 5] two_ready = Done None s ∧ current s = 12.
Proof.
  destruct two_ready_run as (_ & _ & _ & _ & Hreg).
  pose proof (ipc_reply_recv_refines three 11 (view_at 11 three) [1; 2; 3; 4; 5] (env two_ready) two_ready queue_two true
    (fresh_ok three three_fresh) runs_11 (two_ready_knows two_ready three Hreg eq_refl eq_refl eq_refl) two_ready_rep) as H.
  cbv zeta in H. unfold registered in H. rewrite Hreg in H.
  destruct H as (s' & E & Hr). exists s'. split; [exact E|]. apply Hr.
Defined.

(** Thread 11 was dispatched again with a message of thread 2 in its buffer. *)
Lemma ipc_resume_refines_witness : ∃ (s s' : kernel (list Z)) th, resume s = Done tt s' ∧ threads s' !! 11 = Some th ∧
  th_ret th = Some (2, [1; 2; 3; 4; 5]) ∧ kirq s' = true.
Proof.
  pose proof (irep_irq _ _ _ _ false _ _ _ two_ready_rep) as Hr0.
  destruct (irep_upd _ _ _ _ _ _ _ 11 (view_at 11 three) (set_cont (KRecv true)) (v_cont (KRecv true)) Hr0 eq_refl) as (s1 & _ & Hr1); [by split|].
  destruct (irep_upd _ _ _ _ _ _ _ 11 (v_cont (KRecv true) (view_at 11 three)) _ _ Hr1 eq_refl (upd_sender 2)) as (s2 & _ & Hr2).
  destruct (irep_upd _ _ _ _ _ _ _ 11 (v_sender 2 (v_cont (KRecv true) (view_at 11 three))) _ _ Hr2 eq_refl (upd_msg [1; 2; 3; 4; 5]))
    as (s3 & _ & Hr3).
  destruct (ipc_resume_refines _ 11 (v_msg [1; 2; 3; 4; 5] (v_sender 2 (v_cont (KRecv true) (view_at 11 three)))) true _ s3 _ Hr3)
    as (s' & th & E & Hr & Et & Hret); [reflexivity|reflexivity|].
  exists s3, s', th. split; [exact E|]. split; [exact Et|]. split; [exact Hret|]. apply Hr.
Defined.
