(* ===== verification/HeapSpec.v ===== *)
(** * What the kernel heap promises to the rest of the kernel

    [HeapLaws] is the interface the clients of [kmalloc] and [kfree] are verified
    against.  [hp_inv s H Q]: the heap is consistent, [H] maps every block in use
    to the size it was asked for, and the words of [Q] belong to other parts of
    the kernel.  KmemSpec.v shows that kmem.c on TLSF and the page allocator
    implements it. *)

From S2P Require Export Mem Task.

(** The heap only changes its own memory. *)
Record heap_step {T} (H : gmap Z Z) (Q : Z → Prop) (s s' : pstate T) : Prop := HeapStep {
  hst_cr3 : ps_cr3 s' = ps_cr3 s;
  hst_irq : ps_irq s' = ps_irq s;
  hst_tlb : ps_tlb s' = ps_tlb s;
  hst_pmaps : ps_pmaps s' = ps_pmaps s;
  hst_glinks : ps_glinks s' = ps_glinks s;
  hst_other : ∀ a, Q a → rd (ps_mem s') a = rd (ps_mem s) a;
  (** the contents of the blocks in use *)
  hst_blocks : ∀ p n x, H !! p = Some n → p ≤ x < p + n → x mod 8 = 0 →
    rd (ps_mem s') (virt_to_phys x) = rd (ps_mem s) (virt_to_phys x);
}.

(** The largest request the laws speak about: one a single block of the page
    allocator can satisfy. *)
Definition HEAP_MAX : Z := 0x100000.

Class HeapLaws (T : Type) `{!KernelHeap T} := {
  hp_inv : pstate T → gmap Z Z → (Z → Prop) → Prop;
  hp_block s H Q p n : hp_inv s H Q → H !! p = Some n → 0 < p ∧ p mod 8 = 0 ∧ 0 < n ∧ p + n < U64;
  (** it does not depend on the memory of others, nor on the other fields *)
  hp_ext s s' H Q : hp_inv s H Q → ps_pages s' = ps_pages s →
    (∀ a, ¬ Q a → rd (ps_mem s') a = rd (ps_mem s) a) → hp_inv s' H Q;
  hp_malloc s H Q n : hp_inv s H Q → 0 < n ≤ HEAP_MAX →
    ∃ p s', kmalloc n s = Done p s' ∧ heap_step H Q s s' ∧
      ((p = 0 ∧ hp_inv s' H Q) ∨ (0 < p ∧ H !! p = None ∧ hp_inv s' (<[p := n]> H) Q));
  hp_free s H Q p n : hp_inv s H Q → H !! p = Some n →
    ∃ s', kfree p s = Done tt s' ∧ heap_step (delete p H) Q s s' ∧ hp_inv s' (delete p H) Q;
}.

Lemma heap_step_refl {T} H Q (s : pstate T) : heap_step H Q s s.
Proof. by split. Qed.
Lemma heap_step_trans {T} H Q (s1 s2 s3 : pstate T) : heap_step H Q s1 s2 → heap_step H Q s2 s3 → heap_step H Q s1 s3.
Proof.
  intros [A1 A2 A3 A4 A5 A6 A7] [B1 B2 B3 B4 B5 B6 B7]. split; try congruence.
  - intros a Ha. by rewrite B6, A6.
  - intros p n x E Hx H8. by rewrite (B7 p n), (A7 p n).
Qed.
(** An operation that runs with interrupts masked and restores them. *)
Lemma heap_step_irq {T} H Q (s s' : pstate T) f : heap_step H Q (set_irq f s) s' → heap_step H Q s (set_irq (ps_irq s) s').
Proof. intros [A1 A2 A3 A4 A5 A6 A7]. by split. Qed.
