(* ===== verification/Kmem.v ===== *)
(** * The kernel heap (kernel/mm/kmem.c)

    A layer over TLSF: when a request fails, the blocks other processors freed
    are reclaimed, and then the page allocator gives a new pool.  TLSF and the
    owner field of [page_t] are interfaces here; Tlsf.v models the allocator
    itself. *)

From S2P Require Export Mem Task.

(** The routines of TLSF on the heap of the running processor. *)
Class TlsfHeap (T : Type) := {
  tlsf_malloc : Z → K (pstate T) Z;
  tlsf_free : Z → K (pstate T) unit;
  tlsf_realloc : Z → Z → K (pstate T) Z;
  tlsf_add_pool : Z → Z → K (pstate T) Z;
  tlsf_create_with_pool : Z → Z → K (pstate T) unit;
  tlsf_flush_pending : K (pstate T) unit;
  tlsf_push_pending : Z → Z → K (pstate T) unit;   (* owner, ptr *)
  tlsf_block_size : Z → K (pstate T) Z;
}.
(** [tlsf_alloc_overhead()]. *)
Definition tlsf_alloc_overhead : Z := 8.

(** [pfn_to_page(pfn)->owner_cpu_id]. *)
Class PageOwner (T : Type) := {
  page_owner : Z → K T Z;
  set_page_owner : Z → Z → K T unit;
}.

Section kmem.
Context {T : Type} `{!PageAllocator T, !TlsfHeap T, !PageOwner T}.
Implicit Types (s : pstate T).

(** [curcpu->id]. *)
Variable cpu_id : Z.

Definition mm_irq_save : K (pstate T) bool := λ s, Done (ps_irq s) (set_irq false s).
Definition mm_irq_restore (flags : bool) : K (pstate T) unit := kmodify (set_irq flags).

(** [32 - __builtin_clz(x)]: the number of significant bits of a 32-bit [x].
    The C value for 0, which needs a request of 16 TiB, is undefined. *)
Definition bits32 (x : Z) : Z := let x := wrap32 x in if x =? 0 then 32 else Z.log2 x + 1.

(** The order of the pool requested for [size] more bytes. *)
Definition pool_order (size : Z) : Z :=
  let alloc_bytes := wrap64 (size + 64) in
  let pages := Z.shiftr (wrap64 (alloc_bytes + PAGE_SIZE - 1)) PAGE_SHIFT in
  let req_order := if pages <=? 1 then 0 else bits32 (pages - 1) in
  if req_order <? 4 then 4 else req_order.

(** [for (i = 0; i < page_count; i++) pfn_to_page(base_pfn + i)->owner_cpu_id = curcpu->id]. *)
Definition own_pages (base_pfn page_count : Z) : K (pstate T) unit :=
  kfor (Z.to_nat page_count) 0 (λ i, on_pages (set_page_owner (base_pfn + i) cpu_id)).

(** "buddy! help me!": a new pool for [size] bytes; [false] when memory is out. *)
Definition grow_heap (size : Z) : K (pstate T) bool :=
  let order := pool_order size in
  phys ← on_pages (pa_alloc order);
  if phys =? 0 then mret false else
  let page_count := bit order in
  own_pages (phys_to_pfn phys) page_count;;
  tlsf_add_pool (phys_to_virt phys) (wrap64 (Z.shiftl page_count PAGE_SHIFT));;
  mret true.

Definition kmalloc (size : Z) : K (pstate T) Z :=
  if size =? 0 then mret 0 else
  flags ← mm_irq_save;
  ptr ← tlsf_malloc size;
  if negb (ptr =? 0) then mm_irq_restore flags;; mret ptr else
  tlsf_flush_pending;;
  ptr ← tlsf_malloc size;
  if negb (ptr =? 0) then mm_irq_restore flags;; mret ptr else
  ok ← grow_heap size;
  if negb ok then mm_irq_restore flags;; mret 0 else
  mm_irq_restore flags;;
  tlsf_malloc size.

(** [virt_to_page(ptr)->owner_cpu_id]. *)
Definition owner_of (ptr : Z) : K (pstate T) Z := on_pages (page_owner (phys_to_pfn (virt_to_phys ptr))).

Definition kfree (ptr : Z) : K (pstate T) unit :=
  if ptr =? 0 then mret tt else
  flags ← mm_irq_save;
  owner ← owner_of ptr;
  (if owner =? cpu_id then tlsf_free ptr else tlsf_push_pending owner ptr);;
  mm_irq_restore flags.

(** [memcpy] between kernel addresses. *)
Definition kmemcpy (dst src n : Z) : K (pstate T) unit :=
  kmodify (λ s, set_mem (mem_write (virt_to_phys dst) (mem_read (virt_to_phys src) n (ps_mem s)) (ps_mem s)) s).

Definition krealloc (ptr size : Z) : K (pstate T) Z :=
  if ptr =? 0 then kmalloc size else
  if size =? 0 then kfree ptr;; mret 0 else
  flags ← mm_irq_save;
  owner ← owner_of ptr;
  if negb (owner =? cpu_id) then
    bs ← tlsf_block_size ptr;
    let old_size := wrap64 (bs - tlsf_alloc_overhead) in
    mm_irq_restore flags;;
    new_ptr ← kmalloc size;
    if new_ptr =? 0 then mret 0 else
    kmemcpy new_ptr ptr (if size <? old_size then size else old_size);;
    kfree ptr;;
    mret new_ptr
  else
  new_ptr ← tlsf_realloc ptr size;
  if negb (new_ptr =? 0) then mm_irq_restore flags;; mret new_ptr else
  tlsf_flush_pending;;
  new_ptr ← tlsf_realloc ptr size;
  if negb (new_ptr =? 0) then mm_irq_restore flags;; mret new_ptr else
  ok ← grow_heap size;
  if negb ok then mm_irq_restore flags;; mret 0 else
  mm_irq_restore flags;;
  tlsf_realloc ptr size.

Definition percpu_tlsf_init : K (pstate T) Z :=
  let order := 4 in
  let page_count := bit order in
  phys ← on_pages (pa_alloc order);
  if phys =? 0 then mret (-1) else
  own_pages (phys_to_pfn phys) page_count;;
  tlsf_create_with_pool (phys_to_virt phys) (wrap64 (Z.shiftl page_count PAGE_SHIFT));;
  mret 0.
End kmem.

(** The heap the task subsystem uses. *)
#[export] Instance kmem_heap {T} `{!PageAllocator T, !TlsfHeap T, !PageOwner T} : KernelHeap T :=
  {| Task.kmalloc := kmalloc 0; Task.krealloc := krealloc 0; Task.kfree := kfree 0 |}.

(** ** Aligned blocks

    The address of the block the heap returned is stored in the word below the
    aligned address. *)

Section aligned.
Context {T : Type} `{!KernelHeap T}.

Definition aligned_addr (raw alignment : Z) : Z :=
  let addr := wrap64 (raw + 8) in
  let rem := addr mod alignment in
  wrap64 (addr + (if rem =? 0 then 0 else alignment - rem)).

Definition kmalloc_aligned (size alignment : Z) : K (pstate T) Z :=
  if alignment =? 0 then mret 0 else
  raw ← Task.kmalloc (wrap64 (size + alignment + 8));
  if raw =? 0 then mret 0 else
  let aligned := aligned_addr raw alignment in
  kmodify (λ s, set_mem (<[virt_to_phys (aligned - 8) := raw]> (ps_mem s)) s);;
  mret aligned.

Definition kfree_aligned (ptr : Z) : K (pstate T) unit :=
  if ptr =? 0 then mret tt else
  raw ← kget (λ s, rd (ps_mem s) (virt_to_phys (ptr - 8)));
  Task.kfree raw.

Lemma aligned_addr_spec raw a size :
  0 < a → 0 < raw → 0 ≤ size → raw + size + a + 8 < U64 →
  let p := aligned_addr raw a in
  p mod a = 0 ∧ raw + 8 ≤ p < raw + 8 + a.
Proof.
  intros Ha Hr H0 Hs. unfold aligned_addr. rewrite (wrap64_small (raw + 8)) by lia.
  pose proof (Z.mod_pos_bound (raw + 8) a Ha) as Hm. destruct (Z.eqb_spec ((raw + 8) mod a) 0) as [E|E]; cbv zeta.
  - rewrite Z.add_0_r, wrap64_small by lia. lia.
  - rewrite wrap64_small by lia. split; [|lia].
    replace (raw + 8 + (a - (raw + 8) mod a)) with (((raw + 8) / a + 1) * a); [by apply Z.mod_mul; lia|].
    pose proof (Z.div_mod (raw + 8) a). lia.
Qed.
End aligned.
