(* ===== verification/KmemTlsf.v ===== *)
(** * The kernel heap on TLSF

    kmem.c calls the allocator of tlsf.c on the heap of the running processor: the
    interface [TlsfHeap] of Kmem.v implemented by the definitions of Tlsf.v on the
    kernel's memory.  The control structure is part of the state behind the page
    allocator. *)

From S2P Require Export Kmem.
From S2P Require Tlsf.

(** The heap of processor [id]; its [words] are the kernel's memory. *)
Class CpuHeaps (T : Type) := {
  cpu_heap : Z → T → Tlsf.heap;
  set_cpu_heap : Z → Tlsf.heap → T → T;
}.

Section heap.
Context {T : Type} `{!CpuHeaps T}.

Definition on_heap {A} (id : Z) : K Tlsf.heap A → K (pstate T) A :=
  klift (λ s, Tlsf.set_words (ps_mem s) (cpu_heap id (ps_pages s)))
    (λ h s, set_mem (Tlsf.words h) (set_pages (set_cpu_heap id h (ps_pages s)) s)).

(** [curcpu] is processor 0. *)
#[export] Instance tlsf_heap : TlsfHeap T := {|
  tlsf_malloc size := on_heap 0 (Tlsf.tlsf_malloc size);
  tlsf_free ptr := on_heap 0 (Tlsf.tlsf_free ptr);
  tlsf_realloc ptr size := on_heap 0 (Tlsf.tlsf_realloc ptr size);
  tlsf_add_pool mem bytes := on_heap 0 (Tlsf.tlsf_add_pool mem bytes);
  tlsf_create_with_pool mem bytes := on_heap 0 (_ ← Tlsf.tlsf_create_with_pool mem bytes; mret tt);
  tlsf_flush_pending := on_heap 0 Tlsf.tlsf_flush_pending;
  tlsf_push_pending owner ptr := on_heap owner (Tlsf.tlsf_push_pending ptr);
  tlsf_block_size ptr := on_heap 0 (Tlsf.tlsf_block_size ptr);
|}.
End heap.
