(* ===== verification/KmemSpec.v ===== *)
(** * The kernel heap keeps its promises

    [kmalloc] and [kfree] of kmem.c, on TLSF and a page allocator, implement
    [HeapLaws].  [kheap] ties the three together: the blocks of TLSF lie in frames
    the page allocator gave to the heap, these frames are marked as the running
    processor's, and nothing else of the kernel uses them. *)

From S2P Require Export HeapSpec KmemTlsf.
From S2P Require TlsfFree.
Import TlsfLists TlsfBlocks TlsfSpec TlsfFree.

(** ** What the heap needs of the pages *)

Class HeapPages (T : Type) `{!PageAllocator T, !PageOwner T, !CpuHeaps T} := {
  (** the owner of a page that exists *)
  pg_owner : T → Z → option Z;
  pg_get t f v : pg_owner t f = Some v → page_owner f t = Done v t;
  pg_set t P f v : pa_inv t P → is_Some (pg_owner t f) →
    ∃ t', set_page_owner f v t = Done tt t' ∧ pa_inv t' P ∧
      (∀ g, pg_owner t' g = if decide (g = f) then Some v else pg_owner t g) ∧ ∀ i, cpu_heap i t' = cpu_heap i t;
  pg_free t P f : pa_inv t P → P f → is_Some (pg_owner t f);
  (** the direct map, 128 TiB, covers the frames *)
  pg_direct t P f : pa_inv t P → P f → f + 1 < 0x800000000;
  pg_alloc t P o a t' : pa_inv t P → 0 ≤ o < MAX_BUDDY_ORDER → pa_alloc o t = Done a t' →
    (∀ f, pg_owner t' f = pg_owner t f) ∧ ∀ i, cpu_heap i t' = cpu_heap i t;
  pg_heap i j h t : cpu_heap i (set_cpu_heap j h t) = if decide (i = j) then h else cpu_heap i t;
  pg_heap_inv i h t P : pa_inv t P → pa_inv (set_cpu_heap i h t) P;
  pg_heap_owner i h t f : pg_owner (set_cpu_heap i h t) f = pg_owner t f;
}.

Section kmem.
Context {T : Type} `{!PageAllocator T, !PageOwner T, !CpuHeaps T, !HeapPages T}.
Implicit Types (s : pstate T).

(** The heap of processor 0 in the kernel's memory. *)
Definition hview s : Tlsf.heap := Tlsf.set_words (ps_mem s) (cpu_heap 0 (ps_pages s)).
Definition hput (h : Tlsf.heap) s : pstate T := set_mem (Tlsf.words h) (set_pages (set_cpu_heap 0 h (ps_pages s)) s).

(** The frame an address of the direct map is in. *)
Definition frame_at (x : Z) : Z := phys_to_pfn (virt_to_phys x).
(** The control structure, and the words of the blocks. *)
Definition heap_word (c : Z) (B : gmap Z hdr) (x : Z) : Prop := owned c B x ∨ c ≤ x < c + Tlsf.tlsf_size.

Record kheap_with s (H : gmap Z Z) (Q : Z → Prop) (B : gmap Z hdr) L (l : list Z) (P : Z → Prop) : Prop := KheapWith {
  kh_ok : heap_ok (hview s) B L;
  kh_pend : pends (hview s) B (Tlsf.pending (hview s)) l;
  kh_nodup : NoDup l;
  kh_pages : pa_inv (ps_pages s) P;
  kh_blocks p n : H !! p = Some n → 0 < n ∧ ∃ m, n ≤ m ∧ live B (p - 16) m ∧ p - 16 ∉ l;
  kh_words x : heap_word (Tlsf.control (hview s)) B x →
    HHDM_OFFSET ≤ x < U64 ∧ pg_owner (ps_pages s) (frame_at x) = Some 0 ∧ ¬ P (frame_at x) ∧ ¬ Q (virt_to_phys x);
  kh_others f a : P f → Q a → phys_to_pfn a ≠ f;
  kh_range a : Q a → 0 ≤ a < U64;
}.
Definition kheap s H Q : Prop := ∃ B L l P, kheap_with s H Q B L l P.

Lemma on_heap_done {A} (m : K Tlsf.heap A) s a h : m (hview s) = Done a h → on_heap 0 m s = Done a (hput h s).
Proof. intros E. unfold on_heap. by erewrite klift_done. Qed.

Lemma hview_put h s : hview (hput h s) = h.
Proof. unfold hview, hput. simpl. rewrite pg_heap, decide_True by done. by destruct h. Qed.

(** ** Addresses of the direct map *)

Lemma direct_map_phys x : HHDM_OFFSET ≤ x < U64 → virt_to_phys x = x - HHDM_OFFSET.
Proof. intros Hx. unfold virt_to_phys. apply wrap64_small. unfold HHDM_OFFSET, U64 in *. lia. Qed.
Lemma frame_at_div x : HHDM_OFFSET ≤ x < U64 → frame_at x = (x - HHDM_OFFSET) / 4096.
Proof. intros Hx. unfold frame_at, phys_to_pfn. rewrite direct_map_phys by done. rewrite Z.shiftr_div_pow2 by done. done. Qed.

Lemma phys_virt a : 0 ≤ a < U64 → virt_to_phys (wrap64 (a + HHDM_OFFSET)) = a.
Proof.
  intros Ha. unfold virt_to_phys, wrap64. rewrite Zminus_mod_idemp_l. replace (a + HHDM_OFFSET - HHDM_OFFSET) with a by lia.
  by apply Z.mod_small.
Qed.

(** ** An operation of TLSF seen from the kernel *)

Section step.
Context {s : pstate T} {H : gmap Z Z} {Q : Z → Prop} {B : gmap Z hdr} {L : Z * Z → list Z} {l : list Z} {P : Z → Prop}.
Hypothesis Hk : kheap_with s H Q B L l P.

(** Words of others are not the heap's. *)
Lemma other_word a : Q a → ∃ x, 0 ≤ x < U64 ∧ virt_to_phys x = a ∧ ¬ heap_word (Tlsf.control (hview s)) B x.
Proof.
  intros Ha. exists (wrap64 (a + HHDM_OFFSET)). pose proof (phys_virt a (kh_range _ _ _ _ _ _ _ Hk a Ha)) as E.
  split; [apply wrap64_range|]. split; [done|]. intros Hx. destruct (kh_words _ _ _ _ _ _ _ Hk _ Hx) as (_ & _ & _ & HQ). by rewrite E in HQ.
Qed.

(** An operation of TLSF that keeps to the heap changes nothing else. *)
Lemma hput_step h B' H' :
  confined (hview s) h B B' →
  (∀ p n x, H' !! p = Some n → p ≤ x < p + n → x mod 8 = 0 → word h x = word (hview s) x) →
  heap_step H' Q s (hput h s).
Proof.
  intros (Hc & _ & Hw) Hb. split; try done. intros a Ha. destruct (other_word a Ha) as (x & Hx & <- & Hn).
  apply Hw; [done|]. intros ?. apply Hn. by left.
Qed.

(** It keeps the invariant, with the blocks and the pending list it leaves. *)
Lemma hput_kheap h B' L' l' H' :
  confined (hview s) h B B' → heap_ok h B' L' → pends h B' (Tlsf.pending h) l' → NoDup l' →
  (∀ p n, H' !! p = Some n → 0 < n ∧ ∃ m, n ≤ m ∧ live B' (p - 16) m ∧ p - 16 ∉ l') →
  kheap_with (hput h s) H' Q B' L' l' P.
Proof.
  intros (Hc & Ho & Hw) Hok Hpd Hnd Hb. split; rewrite ?hview_put; try done.
  - by apply pg_heap_inv, (kh_pages _ _ _ _ _ _ _ Hk).
  - intros x Hx. simpl. rewrite pg_heap_owner. rewrite Hc in Hx. apply (kh_words _ _ _ _ _ _ _ Hk). destruct Hx; [left; auto|by right].
  - apply (kh_others _ _ _ _ _ _ _ Hk).
  - apply (kh_range _ _ _ _ _ _ _ Hk).
Qed.
End step.

(** The rest of the kernel: interrupts, locks, lists, and the words of others. *)
Lemma kheap_ext s s' H Q B L l P :
  kheap_with s H Q B L l P → ps_pages s' = ps_pages s → (∀ a, ¬ Q a → rd (ps_mem s') a = rd (ps_mem s) a) →
  kheap_with s' H Q B L l P.
Proof.
  intros Hk Ep Em. assert (Ht : touches (λ x, Q (virt_to_phys x)) (hview s) (hview s')).
  { unfold hview. rewrite Ep. do 5 (split; [done|]). intros x _ Hn. by apply Em. }
  assert (HW : ∀ x, Q (virt_to_phys x) → ¬ owned (Tlsf.control (hview s)) B x).
  { intros x Hx Ho. destruct (kh_words _ _ _ _ _ _ _ Hk x) as (_ & _ & _ & Hn); [by left|done]. }
  pose proof Ht as (Hc & _ & _ & _ & Hpe & Hw). destruct Hk as [Hok Hpd Hnd Hpg Hb Hwd Hoth Hrg]. split; rewrite ?Ep, ?Hc; try done.
  - by eapply heap_ok_frame.
  - rewrite Hpe. apply (pends_frame (hview s) _ B B); [|done]. intros b Hin. split; [|done].
    destruct (pends_live _ _ _ _ b Hpd Hin) as (m & Hm & h & E & _ & <- & _). destruct Hok as ([Hl _] & _).
    destruct (ly_range _ _ Hl b h E) as (? & ? & ?). apply Hw; [lia|]. intros Hq. apply (HW _ Hq). left. exists b, h.
    split; [done|]. right. split; [done|]. unfold span. lia.
Qed.

(** ** The calls of TLSF *)

(** A block in use is not the pending one, nor free; its bytes are in its block. *)
Lemma block_bytes s H Q B L l P p n x :
  kheap_with s H Q B L l P → H !! p = Some n → p ≤ x < p + n → ∃ m, live B (p - 16) m ∧ p - 16 ∉ l ∧ p - 16 + 16 ≤ x < p - 16 + 16 + m.
Proof. intros Hk E Hx. destruct (kh_blocks _ _ _ _ _ _ _ Hk p n E) as (_ & m & Hm & Hlv & Hl). exists m. split; [done|]. split; [done|]. lia. Qed.

Lemma malloc_run s H Q B L l P n :
  kheap_with s H Q B L l P → 0 < n ≤ HEAP_MAX →
  ∃ p s', Kmem.tlsf_malloc n s = Done p s' ∧ heap_step H Q s s' ∧
    ((p = 0 ∧ kheap_with s' H Q B L l P) ∨ (0 < p ∧ H !! p = None ∧ ∃ B' L', kheap_with s' (<[p := n]> H) Q B' L' l P)).
Proof.
  intros Hk Hn. change HEAP_MAX with 0x100000 in Hn. pose proof Hk as [Hok Hpd Hnd Hpg Hb Hwd Hoth Hrg].
  destruct (tlsf_malloc_run (hview s) B L n Hok) as [[E _]|(b & m & h & B' & L' & E & _ & Hm & Hok' & Hp & Hc & Hfr & Hlive & Hkeep)]; [unfold U64; lia| |].
  - eexists 0, _. split; [by apply on_heap_done|]. split; [by apply (hput_step Hk _ B)|]. left. split; [done|].
    by apply (hput_kheap Hk).
  - eexists (b + 16), _. split; [by apply on_heap_done|]. split.
    { apply (hput_step Hk _ B' _ Hc). intros p k x Ep Hx _. destruct (block_bytes _ _ _ _ _ _ _ _ _ _ Hk Ep Hx) as (mk & Hlv & _ & Hr). by apply (Hkeep (p - 16) mk). }
    right. assert (Hb0 : 0 < b).
    { assert (live B' b m) as (h0 & E0 & _) by (apply Hlive; by left). destruct Hok' as ([Hl' _] & _). by destruct (ly_range _ _ Hl' b h0 E0). }
    assert (Hbl : b ∉ l). { intros Hin. destruct (pends_live _ _ _ _ b Hpd Hin) as (k & _ & Hlv). by apply (Hfr k). }
    assert (Efr : H !! (b + 16) = None).
    { destruct (H !! (b + 16)) as [k|] eqn:Ek; [|done]. destruct (Hb _ _ Ek) as (_ & mk & _ & Hlv & _). replace (b + 16 - 16) with b in Hlv by lia. by destruct (Hfr mk). }
    split; [lia|]. split; [done|]. exists B', L'. apply (hput_kheap Hk); [done|done| |done|].
    + rewrite Hp. apply (pends_frame (hview s) _ B B'); [|done]. intros c Hcl. destruct (pends_live _ _ _ _ c Hpd Hcl) as (k & Hk8 & Hlv).
      split; [apply (Hkeep c k); [done|lia]|]. intros k' ?. apply Hlive. by right.
    + intros p k. rewrite lookup_insert. case_decide as Hd.
      * subst p. intros [= <-]. split; [lia|]. exists m. replace (b + 16 - 16) with b by lia. split; [lia|]. split; [|done]. apply Hlive. by left.
      * intros Ek. destruct (Hb _ _ Ek) as (? & mk & ? & Hlv & ?). split; [done|]. exists mk. split; [done|]. split; [|done]. apply Hlive. by right.
Qed.

Lemma kflush_run s H Q B L l P :
  kheap_with s H Q B L l P →
  ∃ s' B' L', Kmem.tlsf_flush_pending s = Done tt s' ∧ heap_step H Q s s' ∧ kheap_with s' H Q B' L' [] P.
Proof.
  intros Hk. pose proof Hk as [Hok Hpd Hnd Hpg Hb Hwd Hoth Hrg].
  destruct (flush_pending_run (hview s) B L l Hok Hpd Hnd) as (h & B' & L' & E & Hok' & Hp & Hc & Hlive & Hkeep).
  eexists _, B', L'. split; [by apply on_heap_done|]. split.
  - apply (hput_step Hk _ B' _ Hc). intros p k x Ep Hx _. destruct (block_bytes _ _ _ _ _ _ _ _ _ _ Hk Ep Hx) as (mk & Hlv & Hl & Hr). by apply (Hkeep (p - 16) mk).
  - apply (hput_kheap Hk); [done|done|done|by apply NoDup_nil|].
    intros p k Ek. destruct (Hb _ _ Ek) as (? & mk & ? & Hlv & ?). split; [done|]. exists mk. split; [done|]. split; [|by apply not_elem_of_nil]. by apply Hlive.
Qed.

Lemma free_run s H Q B L l P p n :
  kheap_with s H Q B L l P → H !! p = Some n →
  ∃ s' B' L', Kmem.tlsf_free p s = Done tt s' ∧ heap_step (delete p H) Q s s' ∧ kheap_with s' (delete p H) Q B' L' l P.
Proof.
  intros Hk Ep. pose proof Hk as [Hok Hpd Hnd Hpg Hb Hwd Hoth Hrg]. destruct (Hb p n Ep) as (Hn & m & Hm & Hlv & Hl).
  destruct (tlsf_free_run (hview s) B L (p - 16) m Hok Hlv) as (h & B' & L' & E & Hok' & Hp & Hc & Hlive & Hkeep).
  replace (p - 16 + 16) with p in E by lia.
  eexists _, B', L'. split; [by apply on_heap_done|]. split.
  - apply (hput_step Hk _ B' _ Hc). intros q k x Eq Hx _. apply lookup_delete_Some in Eq as [Hne Eq].
    destruct (block_bytes _ _ _ _ _ _ _ _ _ _ Hk Eq Hx) as (mk & Hlvq & _ & Hr). apply (Hkeep (q - 16) mk); [lia|done|done].
  - apply (hput_kheap Hk); [done|done| |done|].
    + rewrite Hp. apply (pends_frame (hview s) _ B B'); [|done]. intros c Hcl. destruct (pends_live _ _ _ _ c Hpd Hcl) as (k & Hk8 & Hlvc).
      assert (c ≠ p - 16) by congruence. split; [apply (Hkeep c k); [done|done|lia]|]. intros k' ?. by apply Hlive.
    + intros q k Eq. apply lookup_delete_Some in Eq as [Hne Eq]. destruct (Hb _ _ Eq) as (? & mk & ? & Hlvq & ?).
      split; [done|]. exists mk. split; [done|]. split; [|done]. apply Hlive. split; [lia|done].
Qed.

(** ** More pages *)

(** The pages change, but not those of the heap. *)
Lemma kheap_pages s H Q B L l P t P' :
  kheap_with s H Q B L l P → pa_inv t P' → (∀ f, P' f → P f) → cpu_heap 0 t = cpu_heap 0 (ps_pages s) →
  (∀ f, pg_owner (ps_pages s) f = Some 0 → pg_owner t f = Some 0) → kheap_with (set_pages t s) H Q B L l P'.
Proof.
  intros [Hok Hpd Hnd Hpg Hb Hwd Hoth Hrg] Ht HP Hh Ho. assert (Hv : hview (set_pages t s) = hview s) by (unfold hview; simpl; by rewrite Hh).
  split; rewrite ?Hv; try done.
  - intros x Hx. destruct (Hwd x Hx) as (? & ? & ? & ?). simpl. split; [done|]. split; [auto|]. split; [|done]. intros ?. auto.
  - intros f a Hf Ha. apply Hoth; auto.
Qed.

Lemma pool_order_range n : 0 < n ≤ HEAP_MAX → 4 ≤ pool_order n ≤ 9.
Proof.
  intros Hn. change HEAP_MAX with 0x100000 in Hn. unfold pool_order. change PAGE_SIZE with 4096.
  rewrite (wrap64_small (n + 64)) by (unfold U64; lia). cbv zeta. rewrite wrap64_small by (unfold U64; lia).
  change PAGE_SIZE with 4096. change PAGE_SHIFT with 12. rewrite Z.shiftr_div_pow2 by lia. change (2 ^ 12) with 4096.
  set (k := (n + 64 + 4096 - 1) / 4096). assert (Hk : 1 ≤ k ≤ 257) by (unfold k; split; [apply Z.div_le_lower_bound; lia|apply Z.lt_succ_r, Z.div_lt_upper_bound; lia]).
  destruct (Z.leb_spec k 1) as [|Hk1]; [done|]. unfold bits32. rewrite wrap32_small by (unfold U32; lia). rewrite (proj2 (Z.eqb_neq (k - 1) 0)) by lia.
  pose proof (Z.log2_le_mono (k - 1) 256 ltac:(lia)). change (Z.log2 256) with 8 in *. pose proof (Z.log2_nonneg (k - 1)).
  destruct (Z.ltb_spec (Z.log2 (k - 1) + 1) 4); lia.
Qed.

(** Marking the frames of a new pool. *)
Lemma own_pages_run s P b n : pa_inv (ps_pages s) P → 0 ≤ n → (∀ f, b ≤ f < b + n → is_Some (pg_owner (ps_pages s) f)) →
  ∃ t, own_pages 0 b n s = Done tt (set_pages t s) ∧ pa_inv t P ∧ cpu_heap 0 t = cpu_heap 0 (ps_pages s) ∧
    ∀ f, pg_owner t f = if decide (b ≤ f < b + n) then Some 0 else pg_owner (ps_pages s) f.
Proof.
  intros Hp Hn Hs. unfold own_pages.
  destruct (kfor_inv (Z.to_nat n) 0 (λ i, on_pages (set_page_owner (b + i) 0))
    (λ j s1, ∃ t, s1 = set_pages t s ∧ pa_inv t P ∧ cpu_heap 0 t = cpu_heap 0 (ps_pages s) ∧
       ∀ f, pg_owner t f = if decide (b ≤ f < b + j) then Some 0 else pg_owner (ps_pages s) f) s) as (s' & E & t & -> & ? & ? & Ho).
  - exists (ps_pages s). split; [by destruct s|]. split; [done|]. split; [done|]. intros f. by rewrite decide_False by lia.
  - intros j s1 Hj (t & -> & Ht & Hh & Ho). rewrite Z2Nat.id in Hj by lia.
    destruct (pg_set t P (b + j) 0 Ht) as (t' & E & Ht' & Ho' & Hh'); [rewrite Ho, decide_False by lia; apply Hs; lia|].
    exists (set_pages t' s). split; [unfold on_pages; by erewrite klift_done|]. exists t'. split; [done|]. split; [done|]. split; [by rewrite Hh'|].
    intros f. rewrite Ho', Ho. repeat case_decide; try done; lia.
  - rewrite Z2Nat.id in Ho by lia. exists t. split; [exact E|]. done.
Qed.

(** Where the pages [b] of order [o] are in the direct map. *)
Lemma pool_address b o (mem := phys_to_virt (b * PAGE_SIZE)) (bytes := 2 ^ o * PAGE_SIZE) :
  0 < b → b + 2 ^ o < 0x800000000 → 16 ≤ 2 ^ o ≤ 512 →
  4096 ≤ mem ∧ mem mod 8 = 0 ∧ mem + bytes < U64 ∧ wrap64 (Z.shiftl (2 ^ o) PAGE_SHIFT) = bytes ∧ 65536 ≤ bytes ≤ 0x200000 ∧
  ∀ x, mem ≤ x < mem + bytes → HHDM_OFFSET ≤ x < U64 ∧ in_block b o (frame_at x).
Proof.
  intros Hb0 Hb35 H2o. assert (Ebytes : bytes = 2 ^ o * 4096) by done.
  assert (Emem : mem = b * 4096 + HHDM_OFFSET).
  { unfold mem, phys_to_virt. change PAGE_SIZE with 4096. apply wrap64_small. unfold HHDM_OFFSET, U64; lia. }
  clearbody mem bytes. change PAGE_SIZE with 4096 in *. change HHDM_OFFSET with 0xFFFF800000000000 in *. assert (Hfit : mem + bytes < U64) by (unfold U64; lia).
  split; [lia|]. split; [rewrite Emem; mlia|]. split; [done|]. split.
  { rewrite Z.shiftl_mul_pow2 by done. change (2 ^ PAGE_SHIFT) with 4096. rewrite <- Ebytes. apply wrap64_small. unfold U64. lia. }
  split; [lia|]. intros x Hx. assert (Hr : 0xFFFF800000000000 ≤ x < U64) by lia. split; [done|]. rewrite (frame_at_div x Hr). unfold in_block.
  change HHDM_OFFSET with 0xFFFF800000000000. split; [apply Z.div_le_lower_bound; lia|apply Z.div_lt_upper_bound; lia].
Qed.

(** The pages [b] of order [o] become a pool. *)
Lemma pool_run s s2 H Q B L l P b o :
  kheap_with s H Q B L l P → kheap_with s2 H Q B L l (λ x, P x ∧ ¬ in_block b o x) →
  0 < b → b + 2 ^ o < 0x800000000 → 16 ≤ 2 ^ o ≤ 512 → (∀ x, in_block b o x → P x) →
  (∀ f, b ≤ f < b + 2 ^ o → pg_owner (ps_pages s2) f = Some 0) →
  hview s2 = hview s →
  ∃ h L', Kmem.tlsf_add_pool (phys_to_virt (b * PAGE_SIZE)) (wrap64 (Z.shiftl (2 ^ o) PAGE_SHIFT)) s2 = Done (phys_to_virt (b * PAGE_SIZE)) (hput h s2) ∧
    heap_step H Q s2 (hput h s2) ∧
    kheap_with (hput h s2) H Q (with_pool (phys_to_virt (b * PAGE_SIZE) - 8) (pool_bytes (2 ^ o * PAGE_SIZE)) B) L' l (λ x, P x ∧ ¬ in_block b o x).
Proof.
  intros Hk Hk2 Hb0 Hb40 H2o Hin Hown Em. destruct (pool_address b o Hb0 Hb40 H2o) as (Hm0 & Hm8 & Hfit & -> & Hbytes & Hnew).
  set (mem := phys_to_virt (b * PAGE_SIZE)) in *. set (bytes := 2 ^ o * PAGE_SIZE) in *.
  assert (Hsep : ∀ x, heap_word (Tlsf.control (hview s2)) B x → ¬ mem ≤ x < mem + bytes).
  { intros x Hx Hr. destruct (Hnew x Hr) as [_ Hf]. 
    assert (heap_word (Tlsf.control (hview s)) B x) as Hx1; [|by destruct (kh_words _ _ _ _ _ _ _ Hk x Hx1) as (_ & _ & Hn & _); apply Hn, Hin].
    by rewrite Em in Hx. }
  pose proof Hk2 as [Hok Hpd Hnd Hpg Hb Hwd Hoth Hrg]. set (c := Tlsf.control (hview s2)) in *.
  assert (Hpool : pool_ok c B mem bytes).
  { split; [lia|]. split; [done|]. split; [lia|].
    split; [unfold pool_bytes; change Tlsf.block_size_max with 0x100000000; mlia|]. split; [lia|]. split.
    - intros y hy Ey. destruct (decide (y + 16 + h_size hy ≤ mem)); [by left|right].
      destruct (decide (mem + bytes ≤ y + 8)); [done|exfalso]. pose proof Hok as ([Hl _] & _). pose proof (layout_size Hl y hy Ey) as [_ ?].
      apply (Hsep (Z.max (y + 8) mem)); [|lia]. left. left. exists y, hy. split; [done|]. right. split; [done|]. unfold span. lia.
    - destruct (decide (c + 40 ≤ mem)); [by left|right]. destruct (decide (mem + bytes ≤ c)); [done|exfalso].
      apply (Hsep (Z.max c mem)); [|lia]. right. change Tlsf.tlsf_size with 6536. lia. }
  destruct (add_pool_run (hview s2) B L mem bytes Hok Hpool) as (h & L' & E & Hok' & Hc & Hp & Ho & Hw & Hkeep).
  exists h, L'. split; [by apply on_heap_done|]. split.
  - split; try done.
    + intros a Ha. destruct (other_word Hk2 a Ha) as (x & Hx & <- & Hn). apply Hw; [done|intros ?; apply Hn; by left|].
      intros Hr. destruct (Hnew x Hr) as [_ Hf]. by apply (kh_others _ _ _ _ _ _ _ Hk (frame_at x) (virt_to_phys x) (Hin _ Hf) Ha).
    + intros p n x Ep Hx _. destruct (block_bytes _ _ _ _ _ _ _ _ _ _ Hk2 Ep Hx) as (mk & Hlv & _ & Hr). by apply (Hkeep (p - 16) mk).
  - assert (Hlive : ∀ y m, live B y m → live (with_pool (mem - 8) (pool_bytes bytes) B) y m).
    { intros y m (h0 & E0 & Hrest). exists h0. rewrite with_pool_lookup. destruct Hpool as (_ & _ & _ & _ & _ & Hap & _).
      pose proof Hok as ([Hl _] & _). pose proof (layout_size Hl y h0 E0) as [_ ?]. assert (Hpb : 0 ≤ pool_bytes bytes ≤ bytes - 16) by (unfold pool_bytes; mlia).
      rewrite !decide_False; [done|destruct (Hap y h0 E0); lia..]. }
    split; rewrite ?hview_put; try done.
    + rewrite Hp. apply (pends_frame (hview s2) _ B); [|done]. intros d Hd. destruct (pends_live _ _ _ _ d Hpd Hd) as (k & Hk8 & Hlv).
      split; [apply (Hkeep d k); [done|lia]|apply Hlive].
    + by apply pg_heap_inv.
    + intros p n Ep. destruct (Hb p n Ep) as (? & m & ? & Hlv & ?). split; [done|]. exists m. split; [done|]. split; [by apply Hlive|done].
    + intros x Hx. simpl. rewrite pg_heap_owner. rewrite Hc in Hx. fold c in Hx.
      assert (heap_word c B x ∨ mem ≤ x < mem + bytes) as [Hx1|Hx1]; [|by apply Hwd|].
      { destruct Hx as [Hx|Hx]; [destruct (Ho x Hx); [left; by left|by right]|left; by right]. }
      destruct (Hnew x Hx1) as [Hr Hf]. split; [done|]. split; [by apply Hown|]. split; [tauto|].
      intros HQ. by apply (kh_others _ _ _ _ _ _ _ Hk (frame_at x) (virt_to_phys x) (Hin _ Hf) HQ).
Qed.

(** Pages from the page allocator, marked as the processor's. *)
Lemma take_pages_run {A} s P o (fail : K (pstate T) A) (k : Z → K (pstate T) A) :
  pa_inv (ps_pages s) P → 4 ≤ o ≤ 9 →
  let prog := (phys ← on_pages (pa_alloc o); if phys =? 0 then fail else own_pages 0 (phys_to_pfn phys) (bit o);; k phys) in
  (∃ t, prog s = fail (set_pages t s) ∧ pa_inv t P ∧ cpu_heap 0 t = cpu_heap 0 (ps_pages s) ∧ ∀ f, pg_owner t f = pg_owner (ps_pages s) f) ∨
  (∃ b t, prog s = k (b * PAGE_SIZE) (set_pages t s) ∧ 0 < b ∧ b + 2 ^ o < 0x800000000 ∧ 16 ≤ 2 ^ o ≤ 512 ∧
     (∀ x, in_block b o x → P x) ∧ pa_inv t (λ x, P x ∧ ¬ in_block b o x) ∧ cpu_heap 0 t = cpu_heap 0 (ps_pages s) ∧
     ∀ f, pg_owner t f = if decide (b ≤ f < b + 2 ^ o) then Some 0 else pg_owner (ps_pages s) f).
Proof.
  intros Hpg Ho prog. assert (HoM : 0 ≤ o < MAX_BUDDY_ORDER) by (change MAX_BUDDY_ORDER with 11; lia).
  destruct (pa_alloc_spec (ps_pages s) P o Hpg HoM) as [(t & E & Ht)|(b & t & E & Hb0 & Hb40 & Hin & Ht)]; [left|right];
    (destruct (pg_alloc _ _ _ _ _ Hpg HoM E) as [Hown Hheap]); unfold prog;
    unfold on_pages at 1; rewrite (bind_done _ _ _ _ _ (klift_done _ _ _ _ _ _ E)).
  { exists t. done. }
  rewrite (proj2 (Z.eqb_neq _ 0)) by (change PAGE_SIZE with 4096; lia).
  assert (H2o : 16 ≤ 2 ^ o ≤ 512) by (change 16 with (2 ^ 4); change 512 with (2 ^ 9); split; apply Z.pow_le_mono_r; lia).
  assert (Hlast : in_block b o (b + 2 ^ o - 1)) by (unfold in_block; lia). pose proof (pg_direct _ _ _ Hpg (Hin _ Hlast)).
  rewrite bit_pow by lia.
  assert (Epfn : phys_to_pfn (b * PAGE_SIZE) = b).
  { unfold phys_to_pfn. rewrite Z.shiftr_div_pow2 by done. change (2 ^ PAGE_SHIFT) with PAGE_SIZE. by rewrite Z.div_mul. }
  rewrite Epfn. destruct (own_pages_run (set_pages t s) _ b (2 ^ o) Ht) as (t2 & E2 & Ht2 & Hh2 & Ho2); [lia| |].
  { intros f Hf. simpl. rewrite Hown. by apply (pg_free _ P), Hin. }
  rewrite (bind_done _ _ _ _ _ E2). exists b, t2. split; [done|]. split; [done|]. split; [lia|]. split; [done|]. split; [done|].
  split; [done|]. split; [by rewrite Hh2; simpl|]. intros f. rewrite Ho2. simpl. by rewrite Hown.
Qed.

Lemma grow_run s H Q B L l P n :
  kheap_with s H Q B L l P → 0 < n ≤ HEAP_MAX →
  ∃ ok s' B' L' P', grow_heap 0 n s = Done ok s' ∧ heap_step H Q s s' ∧ kheap_with s' H Q B' L' l P'.
Proof.
  intros Hk Hn. pose proof (pool_order_range n Hn) as Ho. unfold grow_heap. generalize dependent (pool_order n). intros o Ho.
  destruct (take_pages_run s P o (mret false) (λ phys, Kmem.tlsf_add_pool (phys_to_virt phys) (wrap64 (Z.shiftl (bit o) PAGE_SHIFT));; mret true)
    (kh_pages _ _ _ _ _ _ _ Hk) Ho) as [(t & -> & Ht & Hh & Hown)|(b & t & -> & Hb0 & Hb35 & H2o & Hin & Ht & Hh & Hown)].
  { exists false, (set_pages t s), B, L, P. split; [done|]. split; [by split|].
    apply (kheap_pages s _ _ _ _ _ P); [done|done|auto|apply Hh|intros f; by rewrite Hown]. }
  assert (Hk2 : kheap_with (set_pages t s) H Q B L l (λ x, P x ∧ ¬ in_block b o x)).
  { apply (kheap_pages s _ _ _ _ _ P); [done|done|tauto|done|]. intros f Hf. rewrite Hown. by case_decide. }
  rewrite bit_pow by lia.
  destruct (pool_run s (set_pages t s) H Q B L l P b o Hk Hk2) as (h & L' & E3 & Hst & Hk3);
    [done|done|done|done|intros f Hf; simpl; by rewrite Hown, decide_True|unfold hview; simpl; by rewrite Hh|].
  rewrite (bind_done _ _ _ _ _ E3). eexists true, _, _, L', _. split; [done|]. split; [|done]. eapply heap_step_trans; [|done]. by split.
Qed.

(** ** kmalloc and kfree *)

(** What a request leaves: a failure, or a new block. *)
Definition granted s H Q (p n : Z) : Prop := (p = 0 ∧ kheap s H Q) ∨ (0 < p ∧ H !! p = None ∧ kheap s (<[p := n]> H) Q).

Lemma kheap_irq f s H Q B L l P : kheap_with s H Q B L l P → kheap_with (set_irq f s) H Q B L l P.
Proof. intros Hk. by eapply kheap_ext. Qed.
Lemma granted_irq f s H Q p n : granted s H Q p n → granted (set_irq f s) H Q p n.
Proof.
  intros [[? (B & L & l & P & Hk)]|(? & ? & B & L & l & P & Hk)]; [left|right]; split_and?; try done; exists B, L, l, P; by apply kheap_irq.
Qed.

Lemma kmalloc_run s H Q n :
  kheap s H Q → 0 < n ≤ HEAP_MAX → ∃ p s', kmalloc 0 n s = Done p s' ∧ heap_step H Q s s' ∧ granted s' H Q p n.
Proof.
  intros (B & L & l & P & Hk) Hn. unfold kmalloc. rewrite (proj2 (Z.eqb_neq n 0)) by lia.
  rewrite (bind_done _ _ s (ps_irq s) (set_irq false s)) by done. apply (kheap_irq false) in Hk.
  destruct (malloc_run _ H Q B L l P n Hk Hn) as (p1 & s1 & E1 & S1 & C1). rewrite (bind_done _ _ _ _ _ E1).
  destruct C1 as [[-> K1]|(Hp & Hf & B1 & L1 & K1)].
  2:{ rewrite (proj2 (Z.eqb_neq p1 0)) by lia. exists p1, (set_irq (ps_irq s) s1). split; [done|]. split; [by eapply heap_step_irq|].
      apply granted_irq. right. split; [done|]. split; [done|]. by exists B1, L1, l, P. }
  cbn [negb Z.eqb]. destruct (kflush_run s1 H Q B L l P K1) as (s2 & B2 & L2 & E2 & S2 & K2). rewrite (bind_done _ _ _ _ _ E2).
  destruct (malloc_run s2 H Q B2 L2 [] P n K2 Hn) as (p3 & s3 & E3 & S3 & C3). rewrite (bind_done _ _ _ _ _ E3).
  assert (S13 : heap_step H Q (set_irq false s) s3) by (do 2 (eapply heap_step_trans; [done|]); done).
  destruct C3 as [[-> K3]|(Hp & Hf & B3 & L3 & K3)].
  2:{ rewrite (proj2 (Z.eqb_neq p3 0)) by lia. exists p3, (set_irq (ps_irq s) s3). split; [done|]. split; [by eapply heap_step_irq|].
      apply granted_irq. right. split; [done|]. split; [done|]. by exists B3, L3, [], P. }
  cbn [negb Z.eqb]. destruct (grow_run s3 H Q B2 L2 [] P n K3 Hn) as (ok & s4 & B4 & L4 & P4 & E4 & S4 & K4). rewrite (bind_done _ _ _ _ _ E4).
  assert (S14 : heap_step H Q s (set_irq (ps_irq s) s4)) by (eapply heap_step_irq; by eapply heap_step_trans).
  apply (kheap_irq (ps_irq s)) in K4. destruct ok; cbn [negb].
  - rewrite (bind_done _ _ _ tt (set_irq (ps_irq s) s4)) by done.
    destruct (malloc_run _ H Q B4 L4 [] P4 n K4 Hn) as (p5 & s5 & E5 & S5 & C5). exists p5, s5. split; [done|].
    split; [by eapply heap_step_trans|]. destruct C5 as [[-> K5]|(Hp & Hf & B5 & L5 & K5)].
    + left. split; [done|]. by exists B4, L4, [], P4.
    + right. split; [done|]. split; [done|]. by exists B5, L5, [], P4.
  - exists 0, (set_irq (ps_irq s) s4). split; [done|]. split; [done|]. left. split; [done|]. by exists B4, L4, [], P4.
Qed.

Lemma kfree_run s H Q p n :
  kheap s H Q → H !! p = Some n → ∃ s', kfree 0 p s = Done tt s' ∧ heap_step (delete p H) Q s s' ∧ kheap s' (delete p H) Q.
Proof.
  intros (B & L & l & P & Hk) Ep. pose proof (kh_blocks _ _ _ _ _ _ _ Hk p n Ep) as (Hn & m & Hm & Hlv & _).
  pose proof (kh_ok _ _ _ _ _ _ _ Hk) as ([Hl _] & _). pose proof Hlv as (h & E & _ & Eh & _). destruct (ly_range _ _ Hl _ h E) as (? & ? & ?).
  assert (Hw : heap_word (Tlsf.control (hview s)) B p) by (left; left; exists (p - 16), h; split; [done|]; right; split; [done|]; unfold span; lia).
  destruct (kh_words _ _ _ _ _ _ _ Hk p Hw) as (_ & Hown & _). 
  unfold kfree. rewrite (proj2 (Z.eqb_neq p 0)) by lia. rewrite (bind_done _ _ s (ps_irq s) (set_irq false s)) by done.
  apply (kheap_irq false) in Hk. rewrite (bind_done _ _ _ 0 (set_irq false s)).
  2:{ unfold owner_of, on_pages. erewrite klift_done by (apply pg_get; exact Hown). by destruct s. }
  rewrite Z.eqb_refl. destruct (free_run _ H Q B L l P p n Hk Ep) as (s1 & B1 & L1 & E1 & S1 & K1). rewrite (bind_done _ _ _ _ _ E1).
  exists (set_irq (ps_irq s) s1). split; [done|]. split; [by eapply heap_step_irq|]. exists B1, L1, l, P. by apply kheap_irq.
Qed.

Lemma kheap_block s H Q p n : kheap s H Q → H !! p = Some n → 0 < p ∧ p mod 8 = 0 ∧ 0 < n ∧ p + n < U64.
Proof.
  intros (B & L & l & P & Hk) Ep. destruct (kh_blocks _ _ _ _ _ _ _ Hk p n Ep) as (Hn & m & Hm & (h & E & _ & Eh & _) & _).
  pose proof (kh_ok _ _ _ _ _ _ _ Hk) as ([Hl _] & _). destruct (ly_range _ _ Hl _ h E) as (? & ? & ?). pose proof (layout_size Hl _ h E) as [_ ?].
  split; [lia|]. split; [mlia|]. lia.
Qed.

(** [percpu_tlsf_init] makes the heap of the processor, with nothing in use. *)
Lemma percpu_tlsf_init_run s P Q :
  pa_inv (ps_pages s) P → (∀ f a, P f → Q a → phys_to_pfn a ≠ f) → (∀ a, Q a → 0 ≤ a < U64) → Tlsf.pending (cpu_heap 0 (ps_pages s)) = 0 →
  ∃ v s', percpu_tlsf_init 0 s = Done v s' ∧ heap_step ∅ Q s s' ∧ (v = -1 ∨ v = 0 ∧ kheap s' ∅ Q).
Proof.
  intros Hpg Hoth Hrg Hpe. unfold percpu_tlsf_init. cbv zeta.
  destruct (take_pages_run s P 4 (mret (-1)) (λ phys, Kmem.tlsf_create_with_pool (phys_to_virt phys) (wrap64 (Z.shiftl (bit 4) PAGE_SHIFT));; mret 0)
    Hpg ltac:(lia)) as [(t & -> & Ht & Hh & Hown)|(b & t & -> & Hb0 & Hb35 & H2o & Hin & Ht & Hh & Hown)].
  { exists (-1), (set_pages t s). split; [done|]. split; [by split|]. by left. }
  destruct (pool_address b 4 Hb0 Hb35 H2o) as (Hm0 & Hm8 & Hfit & Ebytes & Hbytes & Hnew). rewrite (bit_pow 4), Ebytes by lia.
  change (2 ^ 4 * PAGE_SIZE) with 65536 in *. set (mem := phys_to_virt (b * PAGE_SIZE)) in *. set (s2 := set_pages t s).
  destruct (tlsf_create_with_pool_run (hview s2) mem 65536) as (h & L & E & Hc & Hok & Hlive & Hp & Ho & Hw); [lia|done|done|done|done|].
  rewrite (bind_done _ _ s2 tt (hput h s2)).
  2:{ apply on_heap_done. by rewrite (bind_done _ _ _ _ _ E). }
  assert (HQ : ∀ x, mem ≤ x < mem + 65536 → ¬ Q (virt_to_phys x)).
  { intros x Hx HQx. destruct (Hnew x Hx) as [_ Hf]. exact (Hoth (frame_at x) (virt_to_phys x) (Hin _ Hf) HQx eq_refl). }
  exists 0, (hput h s2). split; [done|]. split.
  - split; try done. intros a Ha. pose proof (phys_virt a (Hrg a Ha)) as Ea. rewrite <- Ea. apply Hw; [apply wrap64_range|].
    intros Hx. apply (HQ _ Hx). by rewrite Ea.
  - right. split; [done|]. eexists _, L, [], _. split; rewrite ?hview_put.
    + exact Hok.
    + simpl. rewrite Hp. unfold hview. simpl. by rewrite Hh.
    + by apply NoDup_nil.
    + apply pg_heap_inv. exact Ht.
    + intros p n Ep. by rewrite lookup_empty in Ep.
    + intros x Hx. simpl. rewrite pg_heap_owner. rewrite Hc in Hx.
      assert (Hx1 : mem ≤ x < mem + 65536). { destruct Hx as [Hx|Hx]; [by apply Ho|]. change Tlsf.tlsf_size with 6536 in Hx. lia. }
      destruct (Hnew x Hx1) as [Hr Hf]. split; [done|]. split; [by rewrite Hown, decide_True|]. split; [tauto|by apply HQ].
    + intros f a [Hf _] Ha. by apply Hoth.
    + done.
Qed.

(** The kernel heap implements the interface its clients use. *)
#[export] Instance kmem_laws : HeapLaws T.
Proof.
  refine {| hp_inv := kheap; hp_block := kheap_block |}.
  - intros s s' H Q (B & L & l & P & Hk) Ep Em. exists B, L, l, P. by apply (kheap_ext s).
  - intros s H Q n Hk Hn. destruct (kmalloc_run s H Q n Hk Hn) as (p & s' & E & S & C). by exists p, s'.
  - intros s H Q p n Hk Ep. by apply (kfree_run s H Q p n).
Defined.

(** Blocks in use do not overlap. *)
Lemma kheap_disjoint s H Q p n q m :
  kheap s H Q → H !! p = Some n → H !! q = Some m → p ≠ q → q + m ≤ p ∨ p + n ≤ q.
Proof.
  intros (B & L & l & P & Hk) Ep Eq Hne. destruct (kh_blocks _ _ _ _ _ _ _ Hk p n Ep) as (_ & n' & Hn & Hp & _).
  destruct (kh_blocks _ _ _ _ _ _ _ Hk q m Eq) as (_ & m' & Hm & Hq & _). pose proof (kh_ok _ _ _ _ _ _ _ Hk) as ([Hl _] & _).
  destruct (live_disjoint _ _ _ _ _ _ Hl Hp Hq); lia.
Qed.

End kmem.
