(* ===== verification/KernelPages.v ===== *)
(** * The pages of the kernel

    The state behind the page tables and the heap: the buddy allocator of pmm.c,
    whose page array also records the processor that owns a page of the heap, and
    the heap of each processor ([struct cpu]).  It implements the interfaces
    [PageAllocator] and [HeapPages], so that the theorems on address spaces, the
    heap and grants hold of the allocators as they are. *)

From S2P Require Export KmemSpec.

Record kpages := KPages { kp_pmm : pmm_st; kp_heaps : Z → Tlsf.heap }.
Definition set_kp_pmm (p : pmm_st) (t : kpages) : kpages := KPages p (kp_heaps t).

Definition on_kp_pmm {A} : K pmm_st A → K kpages A := klift kp_pmm set_kp_pmm.

(** [pfn_to_page(pfn)->owner_cpu_id]. *)
Definition page_owner_cpu (f : Z) : K pmm_t Z := kread (λ p, owner_cpu_id <$> mem_map p !! f).
Definition set_page_owner_cpu (f v : Z) : K pmm_t unit :=
  kupdate (λ p, pg ← mem_map p !! f; Some (set_mem_map (<[f := Page (is_free pg) v]> (mem_map p)) p)).

#[export] Instance kp_owner : PageOwner kpages := {|
  page_owner f := on_kp_pmm (on_pmm (page_owner_cpu f));
  set_page_owner f v := on_kp_pmm (on_pmm (set_page_owner_cpu f v));
|}.
#[export] Instance kp_cpu_heaps : CpuHeaps kpages := {|
  cpu_heap i t := kp_heaps t i;
  set_cpu_heap i h t := KPages (kp_pmm t) (λ j, if decide (j = i) then h else kp_heaps t j);
|}.

(** ** The page allocator *)

(** Frames whose direct-map address exists: 128 TiB. *)
Definition in_direct_map (P : Z → Prop) : Prop := ∀ f, P f → f + 1 < 0x800000000.

Definition kp_inv (t : kpages) (P : Z → Prop) : Prop := buddy_inv (kp_pmm t) P ∧ in_direct_map P.
Definition kp_free_ok (t : kpages) (P : Z → Prop) (b o : Z) : Prop :=
  buddy_free_ok (kp_pmm t) P b o ∧ in_direct_map (λ x, P x ∨ in_block b o x).

Lemma on_kp_done {A} (m : K pmm_st A) t a p : m (kp_pmm t) = Done a p → on_kp_pmm m t = Done a (set_kp_pmm p t).
Proof. intros E. unfold on_kp_pmm. by erewrite klift_done. Qed.

#[export] Instance kp_allocator : PageAllocator kpages.
Proof.
  refine {| pa_alloc o := on_kp_pmm (pmm_alloc_pages o); pa_free a o := on_kp_pmm (pmm_free_pages a o);
            pa_inv := kp_inv; pa_free_ok := kp_free_ok |}.
  - intros t P Q E [Hb Hd]. split; [exact (pa_inv_ext (T := pmm_st) (kp_pmm t) P Q E Hb)|]. intros f Hf. apply Hd. by apply E.
  - intros t P o [Hb Hd] Ho. destruct (buddy_alloc_spec (kp_pmm t) P o Hb Ho) as [(s' & E & Hs)|(b & s' & E & H1 & H2 & H3 & H4)]; [left|right].
    + eexists. split; [by apply on_kp_done|]. done.
    + eexists b, _. split; [by apply on_kp_done|]. split; [done|]. split; [done|]. split; [done|]. split; [done|].
      intros f [Hf _]. by apply Hd.
  - intros t P b o [Hb Hd]. destruct (buddy_free_spec (kp_pmm t) P b o Hb) as (s' & E & Hs).
    eexists. split; [by apply on_kp_done|]. done.
Defined.

(** ** Owners *)

Lemma set_owner_wf p F f pg v : pmm_wf p F → mem_map p !! f = Some pg →
  pmm_wf (set_mem_map (<[f := Page (is_free pg) v]> (mem_map p)) p) F.
Proof.
  intros [Hi Hc] E. split; [|done]. assert (Hd : dom (<[f := Page (is_free pg) v]> (mem_map p)) = dom (mem_map p)).
  { rewrite dom_insert_L. apply elem_of_dom_2 in E. set_solver. }
  destruct Hi as [H1 H2 H3 H4 H5 H6 H7 H8]. split; simpl; try done.
  - intros b o Hb. apply (block_ok_ext p); [done|auto].
  - intros x pg' Ex Hx. rewrite lookup_insert in Ex. case_decide; [|by apply H5]. subst x. injection Ex as <-. by apply (H5 f pg).
  - intros x Hx. apply H7. rewrite lookup_insert_is_Some' in Hx. destruct Hx as [<-|?]; [by eexists|done].
Qed.

Definition kp_page_owner (t : kpages) (f : Z) : option Z := owner_cpu_id <$> mem_map (g_pmm (kp_pmm t)) !! f.

Lemma kp_alloc_owner t P o a t' : kp_inv t P → 0 ≤ o < MAX_BUDDY_ORDER → pa_alloc o t = Done a t' →
  (∀ f, kp_page_owner t' f = kp_page_owner t f) ∧ ∀ i, cpu_heap i t' = cpu_heap i t.
Proof.
  intros [[Hlk (F & Hwf & _)] _] Ho E. simpl in E.
  destruct (alloc_scan_spec (Z.to_nat (MAX_BUDDY_ORDER - o)) (g_pmm (kp_pmm t)) F o o Hwf)
    as [[Es _]|(b & p' & F' & Es & _ & _ & _ & _ & _ & Hst)]; [lia|lia| |];
    rewrite (on_kp_done _ _ _ _ (pmm_alloc_run _ _ _ _ Hlk Ho Es)) in E; injection E as <- <-; [done|].
  split; [|done]. intros f. apply Hst.
Qed.

#[export] Instance kp_heap_pages : HeapPages kpages.
Proof.
  refine {| pg_owner := kp_page_owner |}.
  - intros [[p lk fl] hs] f v E. unfold page_owner, kp_owner. by erewrite on_kp_done by (apply klift_done, kread_done; exact E).
  - intros [[p lk fl] hs] P f v [[Hlk (F & Hwf & HP)] Hd] [o Ho]. unfold kp_page_owner in Ho. simpl in *. apply fmap_Some in Ho as (pg & E & ->).
    eexists. split; [apply on_kp_done, klift_done, kupdate_done; simpl; by rewrite E|]. split; [|split; [|done]].
    + split; [|done]. split; [done|]. exists F. split; [by apply set_owner_wf|done].
    + intros g. unfold kp_page_owner. simpl. rewrite lookup_insert. repeat case_decide; subst; done.
  - intros t P f [[_ (F & [Hi _] & HP)] _] Hf. apply HP in Hf as (b & o & Hb & Hx). apply (inv_blocks _ _ _ Hi) in Hb.
    unfold kp_page_owner. apply fmap_is_Some. by apply (bo_pages _ _ _ Hb).
  - intros t P f [_ Hd] Hf. by apply Hd.
  - apply kp_alloc_owner.
  - done.
  - done.
  - done.
Defined.
