(* ===== verification/KmemExamples.v ===== *)
(** * The kernel heap on a concrete machine

    A machine with 256 KiB above 1 MiB: the page allocator is built by [pmm_init],
    the heap by [percpu_tlsf_init]. *)

From S2P Require Export KernelPages PmmInit.
From S2P Require Import TlsfExamples.

Definition small_map : mmap_info := MmapInfo 0x140000 [MmapEntry 0x100000 0x40000 MMAP_TYPE_USABLE].
Definition small_pmm : pmm_t := state_of pmm_zero (pmm_init small_map pmm_zero).
Definition small_pages : kpages := KPages (PmmSt small_pmm SPINLOCK_INITIALIZER true) (λ _, no_heap).
Definition small : pstate kpages := PState small_pages ∅ 0x1000 true [] ∅ ∅.

(** Memory of others: the page at physical address 0x1000. *)
Definition low_page (a : Z) : Prop := 0x1000 ≤ a < 0x2000.

Lemma small_map_ok : map_ok small_map.
Proof.
  split; [done| |].
  - intros e He. simpl in He. apply list_elem_of_singleton in He as ->. done.
  - intros i j e1 e2 x E1 E2 _ _. destruct i, j; by simplify_eq/=.
Qed.

Lemma small_inv : ∃ P, pa_inv small_pages P ∧ ∀ f, P f → 0x100 ≤ f < 0x140.
Proof.
  destruct (pmm_init_done small_map pmm_zero 0x100 small_map_ok) as (p' & F & B & E & Hwf & _ & _ & _ & Hf); [done|done|].
  assert (Hr : ∀ f, free_frame F f → 0x100 ≤ f < 0x140).
  { intros f (_ & _ & e & He & _ & Hs & Hend)%Hf. apply list_elem_of_singleton in He as ->.
    change (0x100000 ≤ f * 4096) in Hs. change ((f + 1) * 4096 ≤ 0x140000) in Hend. lia. }
  exists (free_frame F). split; [|done]. split; [|intros f ?%Hr; lia]. split; [done|]. exists F. split; [|done].
  unfold small_pages, small_pmm. rewrite E. exact Hwf.
Qed.

(** The heap of the machine, with nothing in use. *)
Lemma small_heap : ∃ s, kheap s ∅ low_page.
Proof.
  destruct small_inv as (P & HP & Hr).
  destruct (percpu_tlsf_init_run small P low_page HP) as (v & s & E & _ & [->|[-> Hk]]); [| | | |by exists s].
  - intros f a Hf%Hr Ha. unfold low_page in Ha. unfold phys_to_pfn. rewrite Z.shiftr_div_pow2 by done. change (2 ^ PAGE_SHIFT) with 4096. mlia.
  - unfold low_page, U64. lia.
  - reflexivity.
  - exfalso. assert (Ev : value_of (percpu_tlsf_init 0 small) = Some 0) by (vm_compute; reflexivity). rewrite E in Ev. discriminate Ev.
Qed.

