(* ===== verification/ThreadCreate.v ===== *)
(** * Creating threads (kernel/arch/x86_64/thread.c)

    The saved register frame below [tf] on the kernel stack, through which
    [switch_to] first enters a thread, is the continuation [KUser]. *)

From S2P Require Export Kmem Sched.

(** [sizeof(struct thread)] and [offsetof(struct thread, arch.xsaves_area)]. *)
Definition SIZEOF_THREAD : Z := 16664.
Definition XSAVES_OFFSET : Z := 16.

(** The fields [thread_create_child] sets, on zeroed memory. *)
Definition child_thread (p : pmap_ref) (entry tid : Z) : thread :=
  Thread tid p (Trapframe entry 0x23 0x202 USER_STACK_TOP 0x1B 0 0) (SchedPart THREAD_CREATED 0 0 0)
    (IpcPart SPINLOCK_INITIALIZER IPC_EP_INACTIVE [0; 0; 0; 0; 0] 0 0 0) 0 0 0 KUser None.

Section create.
Context {T : Type} `{!PageAllocator T, !KernelHeap T}.
Implicit Types (s : kernel T).

(** [curcpu->arch_cpu_data->xsave_size]. *)
Variable xsave_size : Z.

(** [memset(ptr, 0, n)] and a word store, at kernel addresses; the null page is
    not mapped. *)
Definition kmemzero (ptr n : Z) : K (kernel T) unit :=
  if (ptr =? 0) && negb (n =? 0) then khalt else
  on_mm (kmodify (λ m, set_mem (mem_fill (Z.to_nat n) (virt_to_phys ptr) 0 (ps_mem m)) m)).
Definition kstore (addr v : Z) : K (kernel T) unit :=
  on_mm (kmodify (λ m, set_mem (<[virt_to_phys addr := v]> (ps_mem m)) m)).
Definition kload (addr : Z) : K (kernel T) Z := kget (λ s, rd (ps_mem (mm s)) (virt_to_phys addr)).

(** The nodes of a new thread: four initialised lists, and the zeroed
    [futex_list]. *)
Definition init_nodes (t : Z) (m : gmap tnode (link tnode)) : gmap tnode (link tnode) :=
  list_init (IpcHead t) (list_init (IpcWaitNode t) (list_init (IpcNode t) (list_init (SchedNode t)
    (<[FutexNode t := Link None None]> m)))).

(** [kfree_aligned(t->arch.xsaves_area); kfree_aligned(t);]. *)
Definition free_thread (t : Z) : K (kernel T) unit :=
  xsaves ← kload (t + XSAVES_OFFSET);
  on_mm (kfree_aligned xsaves);;
  on_mm (kfree_aligned t);;
  kmodify (λ s, set_threads (delete t (threads s)) s).

Definition thread_create_child (p : pmap_ref) (entry : Z) : K (kernel T) Z :=
  t ← on_mm (kmalloc_aligned SIZEOF_THREAD 16);
  if t =? 0 then mret 0 else
  kmemzero t SIZEOF_THREAD;;
  on_klinks (λ m, Some (init_nodes t m));;
  tid ← thread_alloc_tid;
  kmodify (λ s, set_threads (<[t := child_thread p entry tid]> (threads s)) s);;
  xsaves ← on_mm (kmalloc_aligned xsave_size 64);
  kstore (t + XSAVES_OFFSET) xsaves;;
  kmemzero xsaves xsave_size;;
  kstore (xsaves + 520) (bit 63);;
  err ← thread_register t;
  if negb (err =? 0) then
    free_thread t;;
    mret 0
  else mret t.

Definition STACK_BYTES : Z := 32 * 1024.

Definition thread_create (p : pmap_ref) (entry arg affinity : Z) : K (kernel T) Z :=
  t ← thread_create_child p entry;
  if t =? 0 then mret 0 else
  stack ← on_mm (on_pages (pa_alloc 3));
  if stack =? 0 then free_thread t;; mret 0 else
  th ← the_thread t;
  status ← on_mm (pmap_map (th_pmap th) (USER_STACK_TOP - STACK_BYTES) stack STACK_BYTES
                    (Z.lor (Z.lor PROT_READ PROT_WRITE) PROT_USER));
  if negb (status =? 0) then
    on_mm (on_pages (pa_free stack 3));;
    free_thread t;;
    mret 0
  else
    upd_thread t (set_tf (λ f, Trapframe (tf_rip f) (tf_cs f) (tf_rflags f) (tf_rsp f) (tf_ss f) arg (tf_rsi f)));;
    upd_thread t (set_affinity affinity);;
    sched_enqueue t;;
    mret t.

Definition thread_exit : K (kernel T) unit := sched_exit KDead.
End create.
