(* ===== verification/Futex.v ===== *)
(** * Futexes (kernel/task/futex.c)

    A wait queue of [struct futex_waitq] is addressed by the pointer the kernel
    heap returned for it; its node in the bucket and the head of its waiters are
    the nodes [WaitqHash] and [WaitqHead] of the link store. *)

From S2P Require Export Ipc Mem.

Definition FUTEX_BUCKETS : Z := 64.
Definition EAGAIN : Z := 11.
Definition EFAULT : Z := 14.
Definition EINVAL : Z := 22.
(** [sizeof(struct futex_waitq)]. *)
Definition SIZEOF_WAITQ : Z := 40.

Definition futex_hash (phys : Z) : Z := Z.land (Z.shiftr phys 2) (FUTEX_BUCKETS - 1).

Section futex.
Context {T : Type} `{!PageAllocator T, !KernelHeap T}.
Implicit Types (s : kernel T).

(** [futex_bucket_locks[i]]. *)
Definition on_bucket_lock {A} (i : Z) (op : K (bool * spinlock) A) : K (kernel T) A :=
  l ← kread (λ s, bucket_locks (fut s) !! i);
  klift (λ s, (kirq s, l))
    (λ '(fl, l) s, set_kirq fl (set_fut (Futexes (wq_phys (fut s)) (<[i := l]> (bucket_locks (fut s)))) s)) op.

(** [container_of(n, struct futex_waitq, hash_node)] and
    [container_of(n, struct thread, futex_list)]. *)
Definition waitq_of (n : tnode) : K (kernel T) Z :=
  match n with WaitqHash w => mret w | _ => kundef end.
Definition futex_thread (n : tnode) : K (kernel T) Z :=
  match n with FutexNode t => mret t | _ => kundef end.

(** [for (n = bucket->next; n != bucket; n = n->next)]. *)
Fixpoint find_from (fuel : nat) (bucket n : tnode) (phys : Z) : K (kernel T) Z :=
  match fuel with
  | O => kspin
  | S fuel' =>
      if bool_decide (n = bucket) then mret 0 else
      wq ← waitq_of n;
      p ← kread (λ s, wq_phys (fut s) !! wq);
      if p =? phys then mret wq else
      nxt ← kread (λ s, list_first n (klinks s));
      find_from fuel' bucket nxt phys
  end.

Definition futex_find (phys : Z) : K (kernel T) Z :=
  let bucket := Bucket (futex_hash phys) in
  n ← kread (λ s, list_first bucket (klinks s));
  fuel ← kget list_fuel;
  find_from fuel bucket n phys.

(** A fresh [struct futex_waitq]: its key, the head of its waiters, its node. *)
Definition waitq_init (wq phys : Z) : K (kernel T) unit :=
  kmodify (λ s, set_fut (Futexes (<[wq := phys]> (wq_phys (fut s))) (bucket_locks (fut s))) s);;
  on_klinks (λ m, Some (list_init (WaitqHead wq) (<[WaitqHash wq := Link None None]> m))).

(** [kfree(wq)]: its nodes are gone. *)
Definition waitq_free (wq : Z) : K (kernel T) unit :=
  kmodify (λ s, set_fut (Futexes (delete wq (wq_phys (fut s))) (bucket_locks (fut s))) s);;
  on_klinks (λ m, Some (delete (WaitqHash wq) (delete (WaitqHead wq) m)));;
  on_mm (kfree wq).

(** [None]: the caller is suspended, and returns 0 when it is woken. *)
Definition futex_wait (uaddr expected : Z) : K (kernel T) (option Z) :=
  cur ← kget current;
  if negb (Z.land uaddr 0x3 =? 0) then mret (Some (- EINVAL)) else
  th ← the_thread cur;
  phys ← on_mm (pmap_extract (th_pmap th) uaddr);
  if phys =? 0 then mret (Some (- EFAULT)) else
  v ← kget (λ s, rd32 (ps_mem (mm s)) phys);
  if negb (v =? expected) then mret (Some (- EAGAIN)) else
  let bucket := futex_hash phys in
  flags ← on_bucket_lock bucket spin_lock_irqsave;
  wq ← futex_find phys;
  wq ← (if negb (wq =? 0) then mret wq else
        wq ← on_mm (kmalloc SIZEOF_WAITQ);
        if wq =? 0 then mret 0 else
        waitq_init wq phys;;
        on_klinks (list_add_tail (WaitqHash wq) (Bucket bucket));;
        mret wq);
  if wq =? 0 then
    on_bucket_lock bucket (spin_unlock_irqrestore flags);;
    mret (Some (- EAGAIN))
  else
    on_klinks (list_add_tail (FutexNode cur) (WaitqHead wq));;
    on_bucket_lock bucket (spin_unlock_irqrestore flags);;
    sched_block KFutex;;
    mret None.

(** [while (!list_empty(&wq->waiters))]. *)
Fixpoint wake_loop (fuel : nat) (wq : Z) (all : bool) (woken : Z) : K (kernel T) Z :=
  match fuel with
  | O => kspin
  | S fuel' =>
      empty ← kread (λ s, list_empty (WaitqHead wq) (klinks s));
      if (empty : bool) then mret woken else
      n ← kread (λ s, list_first (WaitqHead wq) (klinks s));
      t ← futex_thread n;
      on_klinks (list_del n);;
      sched_wakeup t;;
      if negb all then mret (woken + 1) else wake_loop fuel' wq all (woken + 1)
  end.

Definition futex_wake (uaddr : Z) (all : bool) : K (kernel T) Z :=
  cur ← kget current;
  if negb (Z.land uaddr 0x3 =? 0) then mret (- EINVAL) else
  th ← the_thread cur;
  phys ← on_mm (pmap_extract (th_pmap th) uaddr);
  if phys =? 0 then mret (- EFAULT) else
  let bucket := futex_hash phys in
  flags ← on_bucket_lock bucket spin_lock_irqsave;
  wq ← futex_find phys;
  if wq =? 0 then
    on_bucket_lock bucket (spin_unlock_irqrestore flags);;
    mret 0
  else
    fuel ← kget list_fuel;
    woken ← wake_loop fuel wq all 0;
    empty ← kread (λ s, list_empty (WaitqHead wq) (klinks s));
    (if (empty : bool) then on_klinks (list_del (WaitqHash wq));; waitq_free wq else mret tt);;
    on_bucket_lock bucket (spin_unlock_irqrestore flags);;
    mret woken.

Definition futex_init : K (kernel T) Z :=
  kfor (Z.to_nat FUTEX_BUCKETS) 0 (λ i,
    on_klinks (λ m, Some (list_init (Bucket i) m));;
    kmodify (λ s, set_fut (Futexes (wq_phys (fut s)) (<[i := SPINLOCK_INITIALIZER]> (bucket_locks (fut s)))) s));;
  mret 0.
End futex.
