(* ===== verification/Grant.v ===== *)
(** * Frame grants (kernel/task/grant.c)

    Each address space has a list of [struct grant_entry], addressed by the
    pointers the kernel heap returned; an entry's links are the node
    [GrantNode] of the address spaces' link store.  [g_refs] and [g_maps] count
    the entries and the mappings of every frame in 16 bits. *)

From S2P Require Export Mem Task.

Definition GRANT_READ : Z := bit 0.
Definition GRANT_WRITE : Z := bit 1.
Definition GRANT_GRANT : Z := bit 2.
(** [sizeof(struct grant_entry)]. *)
Definition SIZEOF_GRANT_ENTRY : Z := 32.

Record grant_entry := GrantEntry { ge_pfn : Z; ge_rights : Z }.

(** The static variables of grant.c and the entries that are allocated. *)
Record grants := Grants {
  g_root_pmap : pmap_ref;
  g_frames : Z;
  g_refs : gmap Z Z;
  g_maps : gmap Z Z;
  g_pool : Z;        (* physical *)
  g_pool_v : Z;      (* virtual *)
  g_entries : gmap Z grant_entry;
}.

Definition set_root_pmap v g := Grants v (g_frames g) (g_refs g) (g_maps g) (g_pool g) (g_pool_v g) (g_entries g).
Definition set_frames v g := Grants (g_root_pmap g) v (g_refs g) (g_maps g) (g_pool g) (g_pool_v g) (g_entries g).
Definition set_refs v g := Grants (g_root_pmap g) (g_frames g) v (g_maps g) (g_pool g) (g_pool_v g) (g_entries g).
Definition set_maps v g := Grants (g_root_pmap g) (g_frames g) (g_refs g) v (g_pool g) (g_pool_v g) (g_entries g).
Definition set_pool p v g := Grants (g_root_pmap g) (g_frames g) (g_refs g) (g_maps g) p v (g_entries g).
Definition set_entries v g := Grants (g_root_pmap g) (g_frames g) (g_refs g) (g_maps g) (g_pool g) (g_pool_v g) v.

(** The memory subsystem with the grants. *)
Record gstate (T : Type) := GState { gs_mm : pstate T; gs : grants }.
Arguments GState {T} _ _.
Arguments gs_mm {T} _.
Arguments gs {T} _.

(** [pmm_frame_in_pool] of the page allocator. *)
Class FramePool (T : Type) := frame_in_pool : Z → T → bool.

Section grant.
Context {T : Type} `{!PageAllocator T, !KernelHeap T, !FramePool T}.
Implicit Types (s : gstate T) (g : grants).

Definition gs_lift {A} : K (pstate T) A → K (gstate T) A := klift gs_mm (λ m s, GState m (gs s)).
Definition gs_modify (f : grants → grants) : K (gstate T) unit := kmodify (λ s, GState (gs_mm s) (f (gs s))).
Definition on_glinks (f : gmap gnode (link gnode) → option (gmap gnode (link gnode))) : K (gstate T) unit :=
  gs_lift (kupdate (λ m, l ← f (ps_glinks m); Some (set_glinks l m))).

(** ** The pool bitmap *)

(** [while ((1ULL << order) < pages) order++]. *)
Fixpoint order_loop (fuel : nat) (order pages : Z) : Z :=
  match fuel with
  | O => order
  | S fuel' => if bit order <? pages then order_loop fuel' (order + 1) pages else order
  end.
Definition alloc_order (bytes : Z) : Z := order_loop 64 0 (Z.shiftr (wrap64 (bytes + PAGE_SIZE - 1)) PAGE_SHIFT).

Definition grant_set_root (p : pmap_ref) : K (gstate T) unit := gs_modify (set_root_pmap p).

Definition grant_pool_bytes g : Z := wrap64 (g_frames g + 7) / 8.
Definition grant_pool_phys g : Z := g_pool g.
Definition grant_frame_count g : Z := g_frames g.

(** [g_pool_v[i] |= v]. *)
Definition pool_or (i v : Z) : K (gstate T) unit :=
  kmodify (λ s, let a := virt_to_phys (wrap64 (g_pool_v (gs s) + i)) in
    GState (set_mem (put_byte a (Z.lor (get_byte (ps_mem (gs_mm s)) a) v) (ps_mem (gs_mm s))) (gs_mm s)) (gs s)).

Definition grant_pool_build : K (gstate T) Z :=
  bytes ← kget (λ s, grant_pool_bytes (gs s));
  mem ← gs_lift (on_pages (pa_alloc (alloc_order bytes)));
  if mem =? 0 then mret (-1) else
  gs_lift (kmodify (λ m, set_mem (mem_fill (Z.to_nat (bit (alloc_order bytes + PAGE_SHIFT))) (virt_to_phys (phys_to_virt mem)) 0 (ps_mem m)) m));;
  gs_modify (set_pool mem (phys_to_virt mem));;
  n ← kget (λ s, g_frames (gs s));
  kfor (Z.to_nat n) 0 (λ pfn,
    inp ← kget (λ s, frame_in_pool pfn (ps_pages (gs_mm s)));
    if (inp : bool) then pool_or (pfn / 8) (bit (pfn mod 8)) else mret tt);;
  mret 0.

Definition grant_pool_test (pfn : Z) s : bool :=
  if g_frames (gs s) <=? pfn then false
  else negb (Z.land (Z.shiftr (get_byte (ps_mem (gs_mm s)) (virt_to_phys (wrap64 (g_pool_v (gs s) + pfn / 8)))) (pfn mod 8)) 1 =? 0).

(** ** The counters *)

Definition ref_count (pfn : Z) : K (gstate T) Z := kread (λ s, g_refs (gs s) !! pfn).
Definition ref_add (d pfn : Z) : K (gstate T) unit :=
  n ← ref_count pfn; gs_modify (λ g, set_refs (<[pfn := wrap16 (n + d)]> (g_refs g)) g).
Definition map_count (pfn : Z) : K (gstate T) Z := kread (λ s, g_maps (gs s) !! pfn).
Definition map_add (d pfn : Z) : K (gstate T) unit :=
  n ← map_count pfn; gs_modify (λ g, set_maps (<[pfn := wrap16 (n + d)]> (g_maps g)) g).

Definition grant_mapping_add (pfn : Z) : K (gstate T) unit :=
  n ← kget (λ s, g_frames (gs s));
  if pfn <? n then map_add 1 pfn else mret tt.

Definition grant_mapping_remove (pfn : Z) : K (gstate T) unit :=
  n ← kget (λ s, g_frames (gs s));
  if pfn <? n then
    c ← map_count pfn;
    if c =? 0 then mret tt else map_add (-1) pfn
  else mret tt.

(** ** The entries *)

Definition the_entry (e : Z) : K (gstate T) grant_entry := kread (λ s, g_entries (gs s) !! e).
(** [container_of(n, struct grant_entry, node)]. *)
Definition entry_of (n : gnode) : K (gstate T) Z :=
  match n with GrantNode e => mret e | _ => kundef end.

(** [for (n = head->next; n != head; n = n->next)], up to the entry of [pfn]. *)
Fixpoint entry_from (fuel : nat) (head n : gnode) (pfn : Z) : K (gstate T) (option Z) :=
  match fuel with
  | O => kspin
  | S fuel' =>
      if bool_decide (n = head) then mret None else
      e ← entry_of n;
      ge ← the_entry e;
      if ge_pfn ge =? pfn then mret (Some e) else
      nxt ← kread (λ s, list_first n (ps_glinks (gs_mm s)));
      entry_from fuel' head nxt pfn
  end.
Definition grant_find (p : pmap_ref) (pfn : Z) : K (gstate T) (option Z) :=
  n ← kread (λ s, list_first (GrantList p) (ps_glinks (gs_mm s)));
  fuel ← kget (λ s, S (size (ps_glinks (gs_mm s))));
  entry_from fuel (GrantList p) n pfn.

Definition pmap_lock (p : pmap_ref) : K (gstate T) bool := gs_lift (on_pmap_lock p spin_lock_irqsave).
Definition pmap_unlock (p : pmap_ref) (f : bool) : K (gstate T) unit := gs_lift (on_pmap_lock p (spin_unlock_irqrestore f)).

Definition grant_holds (p : pmap_ref) (pfn rights : Z) : K (gstate T) bool :=
  n ← kget (λ s, g_frames (gs s));
  if bool_decide (p = PmapNull) || (n <=? pfn) then mret false else
  root ← kget (λ s, g_root_pmap (gs s));
  implied ← (if bool_decide (p = root) then
               inp ← kget (grant_pool_test pfn);
               if (inp : bool) then c ← ref_count pfn; mret (c =? 0) else mret false
             else mret false);
  if (implied : bool) then mret true else
  f ← pmap_lock p;
  r ← grant_find p pfn;
  match r with
  | Some e =>
      pmap_unlock p f;;
      ge ← the_entry e;
      mret (Z.land (ge_rights ge) rights =? rights)
  | None => pmap_unlock p f;; mret false
  end.

Definition grant_add (p : pmap_ref) (pfn rights : Z) : K (gstate T) Z :=
  n ← kget (λ s, g_frames (gs s));
  if bool_decide (p = PmapNull) || (n <=? pfn) then mret (-1) else
  e ← gs_lift (kmalloc SIZEOF_GRANT_ENTRY);
  if e =? 0 then mret (-1) else
  gs_modify (λ g, set_entries (<[e := GrantEntry pfn rights]> (g_entries g)) g);;
  on_glinks (λ m, Some (<[GrantNode e := Link None None]> m));;
  f ← pmap_lock p;
  r ← grant_find p pfn;
  match r with
  | Some x =>
      ge ← the_entry x;
      gs_modify (λ g, set_entries (<[x := GrantEntry (ge_pfn ge) (Z.lor (ge_rights ge) rights)]> (g_entries g)) g);;
      pmap_unlock p f;;
      gs_modify (λ g, set_entries (delete e (g_entries g)) g);;
      on_glinks (λ m, Some (delete (GrantNode e) m));;
      gs_lift (kfree e);;
      mret 0
  | None =>
      on_glinks (list_add_tail (GrantNode e) (GrantList p));;
      ref_add 1 pfn;;
      pmap_unlock p f;;
      mret 0
  end.

Definition grant_drop (p : pmap_ref) (pfn : Z) : K (gstate T) Z :=
  n ← kget (λ s, g_frames (gs s));
  if bool_decide (p = PmapNull) || (n <=? pfn) then mret (-1) else
  f ← pmap_lock p;
  r ← grant_find p pfn;
  match r with
  | Some e =>
      on_glinks (list_del (GrantNode e));;
      gs_modify (λ g, set_entries (delete e (g_entries g)) g);;
      on_glinks (λ m, Some (delete (GrantNode e) m));;
      gs_lift (kfree e);;
      c ← ref_count pfn;
      (if c =? 0 then mret tt else ref_add (-1) pfn);;
      pmap_unlock p f;;
      mret 0
  | None => pmap_unlock p f;; mret (-1)
  end.

(** [max_phys_addr] is [g_boot_info->memory.max_phys_addr]. *)
Definition grant_init (max_phys_addr : Z) : K (gstate T) Z :=
  let n := wrap64 (Z.shiftr max_phys_addr PAGE_SHIFT + 1) in
  gs_modify (set_frames n);;
  refs ← gs_lift (kmalloc (wrap64 (n * 2)));
  if refs =? 0 then mret (-1) else
  maps ← gs_lift (kmalloc (wrap64 (n * 2)));
  if maps =? 0 then mret (-1) else
  gs_modify (λ g, set_maps (gset_to_gmap 0 (list_to_set (seqZ 0 n))) (set_refs (gset_to_gmap 0 (list_to_set (seqZ 0 n))) g));;
  mret 0.
End grant.
