(* ===== verification/GrantSpec.v ===== *)
(** * Grants against a table of rights

    [G] gives, for every address space, the frames it was granted and the rights
    on them.  The lists of [struct grant_entry] and the reference counters
    represent [G]; the operations of grant.c read and update it. *)

From S2P Require Export HeapSpec Grant PmapRange.

(** [xs] are the nodes of entries that hold the table [t], one for each frame. *)
Record table (ents : gmap Z grant_entry) (xs : list gnode) (t : gmap Z Z) : Prop := Table {
  tb_node n : n ∈ xs → ∃ e g, n = GrantNode e ∧ ents !! e = Some g;
  tb_rights pfn r : t !! pfn = Some r ↔ ∃ e, GrantNode e ∈ xs ∧ ents !! e = Some (GrantEntry pfn r);
  tb_single e1 e2 g1 g2 : GrantNode e1 ∈ xs → GrantNode e2 ∈ xs → ents !! e1 = Some g1 → ents !! e2 = Some g2 →
    ge_pfn g1 = ge_pfn g2 → e1 = e2;
}.

(** The number of address spaces that hold a frame. *)
Definition holders (G : gmap pmap_ref (gmap Z Z)) (pfn : Z) : Z :=
  Z.of_nat (size (filter (λ pt : pmap_ref * gmap Z Z, is_Some (pt.2 !! pfn)) G)).

(** ** Tables *)

Section tables.
Implicit Types (ents : gmap Z grant_entry) (xs : list gnode) (t : gmap Z Z).

Lemma table_frame ents ents' xs t :
  table ents xs t → (∀ e, GrantNode e ∈ xs → ents' !! e = ents !! e) → table ents' xs t.
Proof.
  intros [Hn Hr Hs] Hf. split.
  - intros n Hin. destruct (Hn n Hin) as (e & g & -> & E). exists e, g. by rewrite Hf.
  - intros pfn r. rewrite Hr. split; intros (e & Hin & E); exists e; (split; [done|]); [by rewrite Hf|by rewrite <- Hf].
  - intros e1 e2 g1 g2 H1 H2. rewrite !Hf by done. by apply Hs.
Qed.

Lemma table_nil ents : table ents [] ∅.
Proof.
  split; [intros n Hn; set_solver| |intros e1 e2 g1 g2 Hn; set_solver].
  intros pfn r. rewrite lookup_empty. split; [done|]. intros (e & Hn & _). set_solver.
Qed.

Lemma table_add ents xs t e pfn r :
  table ents xs t → t !! pfn = None → GrantNode e ∉ xs →
  table (<[e := GrantEntry pfn r]> ents) (xs ++ [GrantNode e]) (<[pfn := r]> t).
Proof.
  intros Ht Hno He. apply (table_frame _ (<[e := GrantEntry pfn r]> ents)) in Ht.
  2:{ intros e' He'. rewrite lookup_insert_ne; [done|]. congruence. }
  destruct Ht as [Hn Hr Hs].
  assert (Hmem : ∀ e', GrantNode e' ∈ xs ++ [GrantNode e] ↔ e' = e ∨ GrantNode e' ∈ xs) by (intros e'; rewrite elem_of_app, list_elem_of_singleton; naive_solver).
  assert (Hnew : ∀ e' g, GrantNode e' ∈ xs → <[e := GrantEntry pfn r]> ents !! e' = Some g → ge_pfn g ≠ pfn).
  { intros e' [q r'] Hin E Eq. simpl in Eq. subst q. assert (is_Some (t !! pfn)) as [? ?] by (exists r'; apply Hr; eauto). congruence. }
  split.
  - intros n. rewrite elem_of_app, list_elem_of_singleton. intros [Hin|Hin]; [by apply Hn|]. subst n.
    exists e, (GrantEntry pfn r). by rewrite lookup_insert_eq.
  - intros q v. rewrite lookup_insert. case_decide as Hq.
    + subst q. split; [intros [= <-]; exists e; by rewrite Hmem, lookup_insert_eq; auto|].
      intros (e' & Hin & E). apply Hmem in Hin as [->|Hin]; [rewrite lookup_insert_eq in E; congruence|].
      by destruct (Hnew _ _ Hin E).
    + rewrite Hr. split; intros (e' & Hin & E); exists e'; [rewrite Hmem; by auto|].
      apply Hmem in Hin as [->|Hin]; [rewrite lookup_insert_eq in E; congruence|done].
  - intros e1 e2 g1 g2 H1 H2 E1 E2 Eq. apply Hmem in H1 as [->|H1]; apply Hmem in H2 as [->|H2]; [done|..].
    + rewrite lookup_insert_eq in E1. injection E1 as <-. by destruct (Hnew _ _ H2 E2).
    + rewrite lookup_insert_eq in E2. injection E2 as <-. by destruct (Hnew _ _ H1 E1).
    + by eapply Hs.
Qed.

Lemma table_set ents xs t e pfn r v :
  table ents xs t → GrantNode e ∈ xs → ents !! e = Some (GrantEntry pfn r) →
  table (<[e := GrantEntry pfn v]> ents) xs (<[pfn := v]> t).
Proof.
  intros [Hn Hr Hs] He E.
  assert (Hget : ∀ e' g, <[e := GrantEntry pfn v]> ents !! e' = Some g → ∃ g0, ents !! e' = Some g0 ∧ ge_pfn g0 = ge_pfn g ∧ (e' ≠ e → g0 = g)).
  { intros e' g. rewrite lookup_insert. case_decide as Hd; [|intros ?; by eauto]. intros [= <-]. subst e'. exists (GrantEntry pfn r). by split_and!. }
  split.
  - intros n Hin. destruct (Hn n Hin) as (e' & g & -> & E'). destruct (decide (e' = e)) as [->|Hne].
    + exists e, (GrantEntry pfn v). by rewrite lookup_insert_eq.
    + exists e', g. by rewrite lookup_insert_ne.
  - intros q w. rewrite lookup_insert. case_decide as Hq.
    + subst q. split; [intros [= <-]; exists e; by rewrite lookup_insert_eq|].
      intros (e' & Hin & E'). destruct (Hget _ _ E') as (g0 & E0 & Hp & _).
      assert (e' = e) as -> by (eapply (Hs e' e); eauto). rewrite lookup_insert_eq in E'. congruence.
    + rewrite Hr. split; intros (e' & Hin & E'); exists e'; (split; [done|]).
      * rewrite lookup_insert_ne; [done|]. intros ->. congruence.
      * rewrite lookup_insert_ne in E'; [done|]. intros ->. rewrite lookup_insert_eq in E'. congruence.
  - intros e1 e2 g1 g2 H1 H2 E1 E2 Eq. destruct (Hget _ _ E1) as (? & ? & ? & _), (Hget _ _ E2) as (? & ? & ? & _).
    eapply Hs; eauto. congruence.
Qed.

Lemma table_remove ents xs1 xs2 t e pfn r :
  table ents (xs1 ++ GrantNode e :: xs2) t → NoDup (xs1 ++ GrantNode e :: xs2) → ents !! e = Some (GrantEntry pfn r) →
  table (delete e ents) (xs1 ++ xs2) (delete pfn t).
Proof.
  intros Ht Hnd E.
  assert (Hne : GrantNode e ∉ xs1 ++ xs2).
  { apply NoDup_app in Hnd as (_ & Hd & Hnd). apply NoDup_cons in Hnd as [? _]. rewrite elem_of_app. intros [?|?]; [|done].
    by apply (Hd (GrantNode e)); [|left]. }
  assert (Hmem : ∀ n, n ∈ xs1 ++ GrantNode e :: xs2 ↔ n = GrantNode e ∨ n ∈ xs1 ++ xs2) by set_solver.
  assert (Hget : ∀ e', GrantNode e' ∈ xs1 ++ xs2 → delete e ents !! e' = ents !! e').
  { intros e' He'. apply lookup_delete_ne. congruence. }
  destruct Ht as [Hn Hr Hs]. split.
  - intros n Hin. destruct (Hn n) as (e' & g & -> & E'); [by apply Hmem; right|]. exists e', g. by rewrite Hget.
  - intros q v. rewrite lookup_delete. case_decide as Hq.
    + subst q. split; [done|]. intros (e' & Hin & E'). rewrite Hget in E' by done.
      assert (e' = e) as -> by (eapply (Hs e' e); rewrite ?Hmem; eauto). done.
    + rewrite Hr. split; intros (e' & Hin & E'); exists e'.
      * apply Hmem in Hin as [[= ->]|Hin]; [congruence|]. by rewrite Hget.
      * rewrite Hmem. rewrite Hget in E' by done. auto.
  - intros e1 e2 g1 g2 H1 H2. rewrite !Hget by done. apply Hs; apply Hmem; by right.
Qed.

Lemma holders_update (G : gmap pmap_ref (gmap Z Z)) p t t' pfn :
  G !! p = Some t →
  holders (<[p := t']> G) pfn =
    holders G pfn - (if decide (is_Some (t !! pfn)) then 1 else 0) + (if decide (is_Some (t' !! pfn)) then 1 else 0).
Proof.
  intros E. assert (Hfst : ∀ v, holders (<[p := v]> G) pfn = holders (delete p G) pfn + (if decide (is_Some (v !! pfn)) then 1 else 0)).
  { intros v. rewrite <- insert_delete_eq. unfold holders. rewrite map_filter_insert. simpl. case_decide.
    - rewrite map_size_insert_None; [lia|]. apply map_lookup_filter_None. left. apply lookup_delete_eq.
    - rewrite delete_id by (apply lookup_delete_eq). lia. }
  rewrite Hfst. rewrite <- (insert_id G p t E) at 2. rewrite Hfst. case_decide; lia.
Qed.
End tables.

Section spec.
Context {T : Type} `{!PageAllocator T, !KernelHeap T, !FramePool T, !HeapLaws T}.
Implicit Types (s : gstate T) (G : gmap pmap_ref (gmap Z Z)) (L : gmap gnode (list gnode)).

Record grants_ok s (H : gmap Z Z) (Q : Z → Prop) G : Prop := GrantsOk {
  go_heap : hp_inv (gs_mm s) H Q;
  go_lists : ∃ L, lists (ps_glinks (gs_mm s)) L ∧
    (∀ h, is_Some (L !! h) ↔ ∃ p, h = GrantList p ∧ is_Some (G !! p)) ∧
    ∀ p xs t, L !! GrantList p = Some xs → G !! p = Some t → table (g_entries (gs s)) xs t;
  (** the entries are blocks of the heap *)
  go_blocks : ∀ e g, g_entries (gs s) !! e = Some g → H !! e = Some SIZEOF_GRANT_ENTRY;
  go_frames : ∀ p t pfn, G !! p = Some t → is_Some (t !! pfn) → pfn < g_frames (gs s);
  go_refs : ∀ pfn, 0 ≤ pfn < g_frames (gs s) → g_refs (gs s) !! pfn = Some (holders G pfn) ∧ holders G pfn < 0x10000;
  go_null : G !! PmapNull = None;
  go_locks : ∀ p, is_Some (G !! p) → ∃ pm, ps_pmaps (gs_mm s) !! p = Some pm ∧ lock_free (pm_lock pm);
}.

(** Only the tickets of locks have moved. *)
Record relock s s' : Prop := Relock {
  rl_gs : gs s' = gs s;
  rl_pages : ps_pages (gs_mm s') = ps_pages (gs_mm s);
  rl_mem : ps_mem (gs_mm s') = ps_mem (gs_mm s);
  rl_cr3 : ps_cr3 (gs_mm s') = ps_cr3 (gs_mm s);
  rl_irq : ps_irq (gs_mm s') = ps_irq (gs_mm s);
  rl_tlb : ps_tlb (gs_mm s') = ps_tlb (gs_mm s);
  rl_glinks : ps_glinks (gs_mm s') = ps_glinks (gs_mm s);
  rl_pmaps q : ∀ pm, ps_pmaps (gs_mm s) !! q = Some pm → ∃ pm', ps_pmaps (gs_mm s') !! q = Some pm' ∧
    pm_root_virt pm' = pm_root_virt pm ∧ pm_root_phys pm' = pm_root_phys pm ∧ (lock_free (pm_lock pm) → lock_free (pm_lock pm'));
}.

Lemma relock_refl s : relock s s.
Proof. split; try done. intros q pm E. by exists pm. Qed.
Lemma relock_trans s1 s2 s3 : relock s1 s2 → relock s2 s3 → relock s1 s3.
Proof.
  intros [A1 A2 A3 A4 A5 A6 A7 A8] [B1 B2 B3 B4 B5 B6 B7 B8]. split; try congruence.
  intros q pm E. destruct (A8 q pm E) as (pm1 & E1 & ? & ? & ?). destruct (B8 q pm1 E1) as (pm2 & E2 & ? & ? & ?).
  exists pm2. split; [done|]. split; [congruence|]. split; [congruence|auto].
Qed.

Lemma relock_ok s s' H Q G : grants_ok s H Q G → relock s s' → grants_ok s' H Q G.
Proof.
  intros [Hh (L & HL & Hd & Ht) Hb Hf Hr Hn Hk] [A1 A2 A3 A4 A5 A6 A7 A8]. split; rewrite ?A1; try done.
  - eapply hp_ext; [done..|]. by rewrite A3.
  - exists L. by rewrite A7.
  - intros p Hp. destruct (Hk p Hp) as (pm & E & Hl). destruct (A8 p pm E) as (pm' & E' & _ & _ & ?). exists pm'. auto.
Qed.

(** ** Taking and releasing the lock of an address space *)

Lemma gs_lift_done {A} (m : K (pstate T) A) s a m' : m (gs_mm s) = Done a m' → gs_lift m s = Done a (GState m' (gs s)).
Proof. intros E. unfold gs_lift. by erewrite klift_done. Qed.

Definition with_lock (p : pmap_ref) (pm : pmap_t) (l : spinlock) (s : gstate T) : gstate T :=
  GState (set_pmaps (<[p := Pmap (pm_root_virt pm) (pm_root_phys pm) l]> (ps_pmaps (gs_mm s))) (gs_mm s)) (gs s).
Definition irq_off s : gstate T := GState (set_irq false (gs_mm s)) (gs s).

Lemma lock_run p pm s :
  ps_pmaps (gs_mm s) !! p = Some pm → lock_free (pm_lock pm) →
  Grant.pmap_lock p s = Done (ps_irq (gs_mm s)) (irq_off (with_lock p pm (take (pm_lock pm)) s)).
Proof. intros E Hl. destruct (pmap_lock_run p pm (gs_mm s) E Hl) as [E1 _]. exact (gs_lift_done _ _ _ _ E1). Qed.

Lemma unlock_run p pm f s s' :
  ps_pmaps (gs_mm s') = <[p := held pm]> (ps_pmaps (gs_mm s)) → ps_irq (gs_mm s') = false →
  Grant.pmap_unlock p f s' =
    Done tt (GState (set_irq f (set_pmaps (<[p := Pmap (pm_root_virt pm) (pm_root_phys pm) (bump (pm_lock pm))]> (ps_pmaps (gs_mm s))) (gs_mm s'))) (gs s')).
Proof.
  intros Ep Ei. apply gs_lift_done. unfold on_pmap_lock. erewrite bind_done; [|apply kread_done; rewrite Ep; apply lookup_insert_eq].
  unfold klift. rewrite Ei. cbn [held pm_lock pm_root_virt pm_root_phys]. rewrite spin_unlock_irqrestore_take.
  simpl. by rewrite Ep, insert_insert_eq.
Qed.

(** ** Finding an entry *)

Lemma entry_from_run s h pfn ys : ∀ xs fuel,
  dlist (ps_glinks (gs_mm s)) h (xs ++ ys) → (∀ n, n ∈ ys → n ≠ h ∧ ∃ e g, n = GrantNode e ∧ g_entries (gs s) !! e = Some g) →
  (length ys < fuel)%nat →
  (entry_from fuel h (default h (head ys)) pfn s = Done None s ∧
     ∀ e g, GrantNode e ∈ ys → g_entries (gs s) !! e = Some g → ge_pfn g ≠ pfn) ∨
  (∃ e r, GrantNode e ∈ ys ∧ g_entries (gs s) !! e = Some (GrantEntry pfn r) ∧
     entry_from fuel h (default h (head ys)) pfn s = Done (Some e) s).
Proof.
  induction ys as [|n ys IH]; intros xs fuel Hd Hn Hf; (destruct fuel as [|fuel]; [simpl in Hf; lia|]); simpl.
  - left. rewrite bool_decide_eq_true_2 by done. split; [done|]. intros e g He. set_solver.
  - destruct (Hn n) as (Hh & e & g & -> & E); [by left|]. rewrite bool_decide_eq_false_2 by done.
    rewrite (bind_done _ _ s e s) by done. unfold the_entry. rewrite (bind_done _ _ s g s) by by apply kread_done.
    destruct (Z.eqb_spec (ge_pfn g) pfn) as [Ep|Ep].
    { right. exists e, (ge_rights g). split; [by left|]. split; [|done]. rewrite E. by destruct g; simpl in *; subst. }
    rewrite (bind_done _ _ s (default h (head ys)) s) by (apply kread_done; by apply (dlist_next _ _ xs)).
    destruct (IH (xs ++ [GrantNode e]) fuel) as [[E1 H1]|(e1 & r & H1 & E1 & E2)].
    + by rewrite <- app_assoc.
    + intros n Hin. apply Hn. by right.
    + simpl in Hf. lia.
    + left. split; [done|]. intros e' g' He' Eg'. apply elem_of_cons in He' as [[= ->]|He']; [congruence|by eapply H1].
    + right. exists e1, r. split; [by right|done].
Qed.

Lemma grant_find_run s L p pfn xs t :
  lists (ps_glinks (gs_mm s)) L → L !! GrantList p = Some xs → table (g_entries (gs s)) xs t →
  (t !! pfn = None ∧ grant_find p pfn s = Done None s) ∨
  (∃ e r, GrantNode e ∈ xs ∧ g_entries (gs s) !! e = Some (GrantEntry pfn r) ∧ t !! pfn = Some r ∧ grant_find p pfn s = Done (Some e) s).
Proof.
  intros HL El [Hn Hr _]. pose proof (lists_dlist _ _ _ _ HL El) as Hd. pose proof (dlist_size _ _ _ Hd) as Hsz.
  unfold grant_find. rewrite (bind_done _ _ s (default (GrantList p) (head xs)) s) by (apply kread_done; exact (dlist_first _ _ _ Hd)).
  rewrite (bind_done _ _ s (S (size (ps_glinks (gs_mm s)))) s) by done.
  destruct (entry_from_run s (GrantList p) pfn xs [] (S (size (ps_glinks (gs_mm s))))) as [[E H1]|(e & r & H1 & E1 & E2)]; [done| |lia| |].
  - intros n Hin. destruct (Hn n Hin) as (e & g & -> & E). split; [done|eauto].
  - left. split; [|done]. apply eq_None_not_Some. intros [r Er]. apply Hr in Er as (e & He & Eg). by apply (H1 _ _ He Eg).
  - right. exists e, r. split; [done|]. split; [done|]. split; [|done]. apply Hr. eauto.
Qed.

Lemma unlinked_entry s G L e :
  (∀ h, is_Some (L !! h) ↔ ∃ p, h = GrantList p ∧ is_Some (G !! p)) →
  (∀ p xs t, L !! GrantList p = Some xs → G !! p = Some t → table (g_entries (gs s)) xs t) →
  g_entries (gs s) !! e = None → unlinked L (GrantNode e).
Proof.
  intros Hd Ht He h xs E Hin. destruct (proj1 (Hd h)) as (p & -> & t & Et); [by rewrite E|].
  apply elem_of_cons in Hin as [?|Hin]; [done|]. destruct (tb_node _ _ _ (Ht p xs t E Et) _ Hin) as (e' & g & [= <-] & ?). congruence.
Qed.

(** ** The operations *)

(** What an operation leaves alone. *)
Record elsewhere (Q : Z → Prop) s s' : Prop := Elsewhere {
  el_irq : ps_irq (gs_mm s') = ps_irq (gs_mm s);
  el_cr3 : ps_cr3 (gs_mm s') = ps_cr3 (gs_mm s);
  el_tlb : ps_tlb (gs_mm s') = ps_tlb (gs_mm s);
  el_mem a : Q a → rd (ps_mem (gs_mm s')) a = rd (ps_mem (gs_mm s)) a;
  el_roots q pm : ps_pmaps (gs_mm s) !! q = Some pm →
    ∃ pm', ps_pmaps (gs_mm s') !! q = Some pm' ∧ pm_root_virt pm' = pm_root_virt pm ∧ pm_root_phys pm' = pm_root_phys pm;
  el_maps : g_maps (gs s') = g_maps (gs s);
  el_pool : g_pool_v (gs s') = g_pool_v (gs s);
  el_frames : g_frames (gs s') = g_frames (gs s);
}.

Lemma relock_lock s s1 p pm :
  ps_pmaps (gs_mm s) !! p = Some pm → lock_free (pm_lock pm) → s1 = irq_off (with_lock p pm (take (pm_lock pm)) s) →
  ∃ s2, Grant.pmap_unlock p (ps_irq (gs_mm s)) s1 = Done tt s2 ∧ relock s s2.
Proof.
  intros E Hl ->. eexists. split; [apply (unlock_run p pm _ s); done|]. split; try done.
  intros q pm' Eq. simpl. rewrite lookup_insert. case_decide as Hd; [|by exists pm'].
  subst q. rewrite E in Eq. injection Eq as <-. eexists. split; [done|]. split; [done|]. split; [done|]. apply bump_free.
Qed.

(** Whether the table gives [rights] on a frame; the root server also holds the
    frames of the pool that nobody was granted. *)
Definition holds s G (p : pmap_ref) (t : gmap Z Z) (pfn rights : Z) : bool :=
  (pfn <? g_frames (gs s)) &&
  ((bool_decide (p = g_root_pmap (gs s)) && grant_pool_test pfn s && (holders G pfn =? 0)) ||
   match t !! pfn with Some r => Z.land r rights =? rights | None => false end).

Lemma grant_holds_run s H Q G p t pfn rights :
  grants_ok s H Q G → G !! p = Some t → 0 ≤ pfn →
  ∃ s', grant_holds p pfn rights s = Done (holds s G p t pfn rights) s' ∧ relock s s'.
Proof.
  intros Hok Ep Hp0. pose proof Hok as [Hh (L & HL & Hd & Ht) Hb Hf Hr Hn Hk].
  assert (Hp : p ≠ PmapNull) by congruence. unfold grant_holds, holds.
  rewrite (bind_done _ _ s (g_frames (gs s)) s), bool_decide_eq_false_2 by done. cbn [orb].
  destruct (Z.leb_spec (g_frames (gs s)) pfn) as [Hle|Hlt].
  { rewrite (proj2 (Z.ltb_ge _ _)) by done. exists s. split; [done|apply relock_refl]. }
  rewrite (proj2 (Z.ltb_lt _ _)) by done. cbn [andb]. rewrite (bind_done _ _ s (g_root_pmap (gs s)) s) by done.
  set (root := bool_decide (p = g_root_pmap (gs s)) && grant_pool_test pfn s && (holders G pfn =? 0)).
  rewrite (bind_done _ _ s root s).
  2:{ unfold root. case_bool_decide; [|done]. rewrite (bind_done _ _ s (grant_pool_test pfn s) s) by done.
      destruct (grant_pool_test pfn s); [|done]. unfold ref_count.
      rewrite (bind_done _ _ s (holders G pfn) s); [done|]. apply kread_done. by apply Hr. }
  destruct root; [exists s; split; [done|apply relock_refl]|]. cbn [orb].
  destruct (Hk p) as (pm & Epm & Hl); [by rewrite Ep|]. rewrite (bind_done _ _ _ _ _ (lock_run p pm s Epm Hl)).
  destruct (proj2 (Hd (GrantList p))) as [xs El]; [by exists p; rewrite Ep|].
  set (s1 := irq_off (with_lock p pm (take (pm_lock pm)) s)).
  destruct (relock_lock s s1 p pm Epm Hl eq_refl) as (s2 & E2 & Hs2).
  destruct (grant_find_run s1 L p pfn xs t HL El (Ht p xs t El Ep)) as [[Et E]|(e & r & _ & Ee & Et & E)];
    rewrite (bind_done _ _ _ _ _ E), (bind_done _ _ _ _ _ E2), Et; exists s2; (split; [|done]); [done|].
  unfold the_entry. rewrite (bind_done _ _ s2 (GrantEntry pfn r) s2); [done|]. apply kread_done. by rewrite (rl_gs _ _ Hs2).
Qed.

(** Frames whose counters were right stay so when one table changes. *)
Lemma refs_update s G p t pfn v :
  (∀ q, 0 ≤ q < g_frames (gs s) → g_refs (gs s) !! q = Some (holders G q) ∧ holders G q < 0x10000) →
  G !! p = Some t → 0 ≤ pfn < g_frames (gs s) →
  ∀ t', (∀ q, q ≠ pfn → (is_Some (t' !! q) ↔ is_Some (t !! q))) →
  v = holders (<[p := t']> G) pfn → v < 0x10000 →
  ∀ q, 0 ≤ q < g_frames (gs s) → <[pfn := v]> (g_refs (gs s)) !! q = Some (holders (<[p := t']> G) q) ∧ holders (<[p := t']> G) q < 0x10000.
Proof.
  intros Hr Ep Hp t' Hsame -> Hv q Hq. rewrite lookup_insert. case_decide as Hd; [subst q; done|].
  destruct (Hr q Hq) as [E Hlt]. assert (holders (<[p := t']> G) q = holders G q) as ->; [|done].
  rewrite (holders_update G p t t' q Ep). specialize (Hsame q (not_eq_sym Hd)). repeat case_decide; try lia; tauto.
Qed.

(** A state in which the new entry [e] is made and the lock of [p] is held. *)
Record adding s s1 (H : gmap Z Z) (Q : Z → Prop) (p : pmap_ref) pm (e pfn rights : Z) : Prop := Adding {
  ad_heap : hp_inv (gs_mm s1) (<[e := SIZEOF_GRANT_ENTRY]> H) Q;
  ad_fresh : 0 < e ∧ H !! e = None;
  ad_gs : gs s1 = set_entries (<[e := GrantEntry pfn rights]> (g_entries (gs s))) (gs s);
  ad_glinks : ps_glinks (gs_mm s1) = <[GrantNode e := Link None None]> (ps_glinks (gs_mm s));
  ad_pmaps : ps_pmaps (gs_mm s1) = <[p := held pm]> (ps_pmaps (gs_mm s));
  ad_irq : ps_irq (gs_mm s1) = false;
  ad_cr3 : ps_cr3 (gs_mm s1) = ps_cr3 (gs_mm s);
  ad_tlb : ps_tlb (gs_mm s1) = ps_tlb (gs_mm s);
  ad_mem a : Q a → rd (ps_mem (gs_mm s1)) a = rd (ps_mem (gs_mm s)) a;
}.

Definition released_maps (p : pmap_ref) pm s : gmap pmap_ref pmap_t :=
  <[p := Pmap (pm_root_virt pm) (pm_root_phys pm) (bump (pm_lock pm))]> (ps_pmaps (gs_mm s)).

Lemma released_roots s p pm q pq : ps_pmaps (gs_mm s) !! p = Some pm → ps_pmaps (gs_mm s) !! q = Some pq →
  ∃ pm', released_maps p pm s !! q = Some pm' ∧ pm_root_virt pm' = pm_root_virt pq ∧ pm_root_phys pm' = pm_root_phys pq.
Proof.
  intros E Eq. unfold released_maps. rewrite lookup_insert. case_decide as Hd; [|by exists pq]. subst q.
  rewrite E in Eq. injection Eq as <-. by eexists.
Qed.
Lemma released_locks s p pm q : ps_pmaps (gs_mm s) !! p = Some pm → lock_free (pm_lock pm) →
  (∃ pq, ps_pmaps (gs_mm s) !! q = Some pq ∧ lock_free (pm_lock pq)) →
  ∃ pq, released_maps p pm s !! q = Some pq ∧ lock_free (pm_lock pq).
Proof.
  intros E Hl (pq & Eq & Hq). unfold released_maps. rewrite lookup_insert. case_decide; [|by exists pq].
  eexists. split; [done|]. by apply bump_free.
Qed.

(** The first steps of [grant_add]. *)
Lemma add_start s H Q G p pm pfn rights (k : Z → bool → K (gstate T) Z) :
  grants_ok s H Q G → ps_pmaps (gs_mm s) !! p = Some pm → lock_free (pm_lock pm) →
  (∃ s', (e ← gs_lift (kmalloc SIZEOF_GRANT_ENTRY);
     if e =? 0 then mret (-1) else
     gs_modify (λ g, set_entries (<[e := GrantEntry pfn rights]> (g_entries g)) g);;
     on_glinks (λ m, Some (<[GrantNode e := Link None None]> m));;
     f ← Grant.pmap_lock p; k e f) s = Done (-1) s' ∧ grants_ok s' H Q G ∧ elsewhere Q s s') ∨
  (∃ e s1, (e ← gs_lift (kmalloc SIZEOF_GRANT_ENTRY);
     if e =? 0 then mret (-1) else
     gs_modify (λ g, set_entries (<[e := GrantEntry pfn rights]> (g_entries g)) g);;
     on_glinks (λ m, Some (<[GrantNode e := Link None None]> m));;
     f ← Grant.pmap_lock p; k e f) s = k e (ps_irq (gs_mm s)) s1 ∧ adding s s1 H Q p pm e pfn rights).
Proof.
  intros [Hh Hl Hb Hf Hr Hn Hk] Epm Hfree.
  destruct (hp_malloc (gs_mm s) H Q SIZEOF_GRANT_ENTRY Hh) as (e & m1 & E & [S1 S2 S3 S4 S5 S6 S7] & Hcase); [done|].
  apply gs_lift_done in E. rewrite (bind_done _ _ _ _ _ E). destruct Hcase as [[-> Hh1]|(He & Hfr & Hh1)].
  - left. eexists. split; [reflexivity|]. split.
    + destruct Hl as (L & ? & ? & ?). split; simpl; try done; [|by rewrite S4]. exists L. by rewrite S5.
    + split; simpl; try done. intros q pq Eq. rewrite S4. by exists pq.
  - right. rewrite (proj2 (Z.eqb_neq e 0)) by lia. rewrite (bind_done _ _ _ tt (GState m1 (set_entries (<[e := GrantEntry pfn rights]> (g_entries (gs s))) (gs s)))) by done.
    set (s1 := GState m1 _).
    rewrite (bind_done _ _ _ tt (GState (set_glinks (<[GrantNode e := Link None None]> (ps_glinks m1)) m1) (gs s1))) by done.
    set (s2 := GState _ _). assert (E2 : ps_pmaps (gs_mm s2) !! p = Some pm) by (simpl; by rewrite S4).
    rewrite (bind_done _ _ _ _ _ (lock_run p pm s2 E2 Hfree)). simpl ps_irq. rewrite S2.
    eexists e, _. split; [reflexivity|]. split; simpl; try done; [|by rewrite S5|by rewrite S4].
    eapply hp_ext; done.
Qed.

Lemma on_glinks_done f s m : f (ps_glinks (gs_mm s)) = Some m → on_glinks f s = Done tt (GState (set_glinks m (gs_mm s)) (gs s)).
Proof. intros E. apply gs_lift_done. apply kupdate_done. by rewrite E. Qed.

Lemma ref_add_done d pfn s n : g_refs (gs s) !! pfn = Some n →
  ref_add d pfn s = Done tt (GState (gs_mm s) (set_refs (<[pfn := wrap16 (n + d)]> (g_refs (gs s))) (gs s))).
Proof. intros E. unfold ref_add, ref_count. by rewrite (bind_done _ _ s n s) by by apply kread_done. Qed.

Lemma fresh_entry s H Q G e : grants_ok s H Q G → H !! e = None → g_entries (gs s) !! e = None.
Proof. intros Hok He. apply eq_None_not_Some. intros [g Eg]. apply (go_blocks _ _ _ _ Hok) in Eg. congruence. Qed.

(** The list of every other space is untouched when the list of [p] is replaced. *)
Lemma tables_update s L G ents' p xs' t' :
  (∀ q xs t, L !! GrantList q = Some xs → G !! q = Some t → table (g_entries (gs s)) xs t) →
  (∀ q xs e, q ≠ p → L !! GrantList q = Some xs → GrantNode e ∈ xs → ents' !! e = g_entries (gs s) !! e) →
  table ents' xs' t' →
  ∀ q xs t, <[GrantList p := xs']> L !! GrantList q = Some xs → <[p := t']> G !! q = Some t → table ents' xs t.
Proof.
  intros Ht Hf Hnew q xs t. rewrite !lookup_insert. destruct (decide (p = q)) as [->|Hd].
  - rewrite decide_True by done. by intros [= <-] [= <-].
  - rewrite decide_False by congruence. intros El Eq. eapply table_frame; [by eapply Ht|]. intros e He. by eapply Hf.
Qed.

Lemma heads_update L G p xs' (t' : gmap Z Z) :
  (∀ h, is_Some (L !! h) ↔ ∃ q, h = GrantList q ∧ is_Some (G !! q)) →
  ∀ h, is_Some (<[GrantList p := xs']> L !! h) ↔ ∃ q, h = GrantList q ∧ is_Some (<[p := t']> G !! q).
Proof.
  intros Hd h. rewrite lookup_insert_is_Some', Hd. setoid_rewrite lookup_insert_is_Some'.
  split; [intros [<-|(q & -> & Hq)]; eauto|]. intros (q & -> & [->|Hq]); eauto.
Qed.

(** The new entry is appended. *)
Lemma add_new s s1 H Q G p pm e pfn rights t :
  grants_ok s H Q G → adding s s1 H Q p pm e pfn rights → ps_pmaps (gs_mm s) !! p = Some pm → lock_free (pm_lock pm) →
  G !! p = Some t → t !! pfn = None → 0 ≤ pfn < g_frames (gs s) → holders G pfn < 0xFFFF →
  ∃ s', (on_glinks (list_add_tail (GrantNode e) (GrantList p));; ref_add 1 pfn;; Grant.pmap_unlock p (ps_irq (gs_mm s));; mret 0) s1 = Done 0 s' ∧
    grants_ok s' (<[e := SIZEOF_GRANT_ENTRY]> H) Q (<[p := <[pfn := rights]> t]> G) ∧ elsewhere Q s s'.
Proof.
  intros Hok [Ah [He0 Af] Ag Al Ap Ai Ac At Am] Epm Hl Ep Et Hp Hc. pose proof Hok as [Hh (L & HL & Hd & Ht) Hb Hf Hr Hn Hk].
  pose proof (fresh_entry _ _ _ _ _ Hok Af) as Efr. pose proof (unlinked_entry s G L e Hd Ht Efr) as Hun.
  destruct (proj2 (Hd (GrantList p))) as [xs El]; [by exists p; rewrite Ep|].
  assert (HL1 : lists (ps_glinks (gs_mm s1)) L) by (rewrite Al; by apply lists_touch).
  destruct (lists_add_tail _ L (GrantList p) xs (GrantNode e) HL1 El) as (m' & Em & Hm' & _); [rewrite Al, lookup_insert_eq; by eexists|done|].
  rewrite (bind_done _ _ _ _ _ (on_glinks_done _ s1 m' Em)). set (s2 := GState _ (gs s1)).
  destruct (Hr pfn Hp) as [Er Hr16].
  assert (Er2 : g_refs (gs s2) !! pfn = Some (holders G pfn)) by (simpl; rewrite Ag; done).
  rewrite (bind_done _ _ _ _ _ (ref_add_done 1 pfn s2 _ Er2)).
  rewrite (bind_done _ _ _ _ _ (unlock_run p pm (ps_irq (gs_mm s)) s (GState (gs_mm s2) (set_refs (<[pfn := wrap16 (holders G pfn + 1)]> (g_refs (gs s2))) (gs s2))) Ap Ai)).
  assert (Hcount : holders (<[p := <[pfn := rights]> t]> G) pfn = holders G pfn + 1).
  { rewrite (holders_update G p t _ pfn Ep), Et, lookup_insert_eq. rewrite decide_False by by intros [? ?]. rewrite decide_True by by eexists. lia. }
  assert (Hw : wrap16 (holders G pfn + 1) = holders G pfn + 1).
  { unfold wrap16. apply Z.mod_small. unfold holders in *. lia. }
  eexists. split; [reflexivity|]. split.
  - split; simpl.
    + eapply hp_ext; [exact Ah|done|done].
    + exists (<[GrantList p := xs ++ [GrantNode e]]> L). split; [done|]. split; [by apply heads_update|].
      rewrite Ag. simpl. apply (tables_update s); [done| |].
      * intros q ys e' _ Eq Hin. rewrite lookup_insert_ne; [done|]. intros <-. apply (Hun _ _ Eq). by right.
      * apply table_add; [by apply (Ht p)|done|]. intros Hin. apply (Hun _ _ El). by right.
    + rewrite Ag. simpl. intros e' g. rewrite !lookup_insert. case_decide; [done|apply Hb].
    + rewrite Ag. simpl. intros q tq r. rewrite lookup_insert. case_decide as Hdq; [|apply Hf]. subst q. intros [= <-].
      rewrite lookup_insert_is_Some'. intros [->|Hs]; [lia|by apply (Hf p t)].
    + rewrite Ag. simpl. rewrite Hw. apply (refs_update s G p t pfn); try done; [|lia].
      intros q Hq. by rewrite lookup_insert_ne.
    + rewrite lookup_insert_ne; [done|congruence].
    + intros q Hq. apply (released_locks s p pm q Epm Hl). apply Hk. rewrite lookup_insert_is_Some' in Hq. destruct Hq as [<-|?]; [by rewrite Ep|done].
  - split; simpl; rewrite ?Ag; try done. intros q pq Eq. by apply (released_roots s p pm q pq Epm Eq).
Qed.

Lemma gs_modify_done f s : gs_modify f s = Done tt (GState (gs_mm s) (f (gs s))).
Proof. done. Qed.

(** Freeing an entry that is on no list. *)
Lemma free_entry_run s H Q e :
  hp_inv (gs_mm s) H Q → H !! e = Some SIZEOF_GRANT_ENTRY →
  ∃ m', (∀ A (k : K (gstate T) A),
      (gs_modify (λ g, set_entries (delete e (g_entries g)) g);; on_glinks (λ m, Some (delete (GrantNode e) m));; gs_lift (kfree e);; k) s =
      k (GState m' (set_entries (delete e (g_entries (gs s))) (gs s)))) ∧
    hp_inv m' (delete e H) Q ∧ ps_glinks m' = delete (GrantNode e) (ps_glinks (gs_mm s)) ∧
    ps_pmaps m' = ps_pmaps (gs_mm s) ∧ ps_irq m' = ps_irq (gs_mm s) ∧ ps_cr3 m' = ps_cr3 (gs_mm s) ∧ ps_tlb m' = ps_tlb (gs_mm s) ∧
    ∀ a, Q a → rd (ps_mem m') a = rd (ps_mem (gs_mm s)) a.
Proof.
  intros Hh He. set (m1 := set_glinks (delete (GrantNode e) (ps_glinks (gs_mm s))) (gs_mm s)).
  assert (Hh1 : hp_inv m1 H Q) by by eapply hp_ext.
  destruct (hp_free m1 H Q e _ Hh1 He) as (m2 & E & [S1 S2 S3 S4 S5 S6 _] & Hh2).
  exists m2. split; [|by split_and!]. intros A k. rewrite (bind_done _ _ _ _ _ (gs_modify_done _ s)). set (g1 := set_entries _ _).
  rewrite (bind_done _ _ _ tt (GState m1 g1)) by exact (on_glinks_done (λ m, Some (delete (GrantNode e) m)) (GState (gs_mm s) g1) _ eq_refl).
  by rewrite (bind_done _ _ _ tt (GState m2 g1)) by exact (gs_lift_done (kfree e) (GState m1 g1) _ _ E).
Qed.

(** There is an entry already: it gets the rights and the new one is freed. *)
Lemma add_found s s1 H Q G L p pm e pfn rights xs t x r :
  grants_ok s H Q G → adding s s1 H Q p pm e pfn rights → ps_pmaps (gs_mm s) !! p = Some pm → lock_free (pm_lock pm) →
  lists (ps_glinks (gs_mm s)) L → (∀ h, is_Some (L !! h) ↔ ∃ p, h = GrantList p ∧ is_Some (G !! p)) →
  (∀ p xs t, L !! GrantList p = Some xs → G !! p = Some t → table (g_entries (gs s)) xs t) →
  G !! p = Some t → L !! GrantList p = Some xs → GrantNode x ∈ xs → g_entries (gs s) !! x = Some (GrantEntry pfn r) → t !! pfn = Some r →
  ∃ s', (ge ← the_entry x;
      gs_modify (λ g, set_entries (<[x := GrantEntry (ge_pfn ge) (Z.lor (ge_rights ge) rights)]> (g_entries g)) g);;
      Grant.pmap_unlock p (ps_irq (gs_mm s));;
      gs_modify (λ g, set_entries (delete e (g_entries g)) g);;
      on_glinks (λ m, Some (delete (GrantNode e) m));;
      gs_lift (kfree e);;
      mret 0) s1 = Done 0 s' ∧
    grants_ok s' H Q (<[p := <[pfn := Z.lor r rights]> t]> G) ∧ elsewhere Q s s'.
Proof.
  intros Hok [Ah [He0 Af] Ag Al Ap Ai Ac At Am] Epm Hl HL Hd Ht Ep El Hx Ex Et. pose proof Hok as [Hh _ Hb Hf Hr Hn Hk].
  pose proof (fresh_entry _ _ _ _ _ Hok Af) as Efr. pose proof (unlinked_entry s G L e Hd Ht Efr) as Hun.
  assert (Hxe : x ≠ e) by congruence.
  assert (Ex1 : g_entries (gs s1) !! x = Some (GrantEntry pfn r)) by (rewrite Ag; simpl; by rewrite lookup_insert_ne).
  unfold the_entry. rewrite (bind_done _ _ s1 (GrantEntry pfn r) s1) by by apply kread_done.
  rewrite (bind_done _ _ _ _ _ (gs_modify_done _ s1)). cbn [ge_pfn ge_rights].
  set (s2 := GState (gs_mm s1) _). rewrite (bind_done _ _ _ _ _ (unlock_run p pm (ps_irq (gs_mm s)) s s2 Ap Ai)).
  set (s3 := GState _ (gs s2)).
  assert (Hh3 : hp_inv (gs_mm s3) (<[e := SIZEOF_GRANT_ENTRY]> H) Q) by by eapply hp_ext.
  destruct (free_entry_run s3 _ Q e Hh3) as (m4 & E4 & Hh4 & Fl & Fp & Fi & Fc & Ft & Fm); [apply lookup_insert_eq|].
  rewrite delete_insert_id in Hh4 by done.
  rewrite E4. eexists. split; [reflexivity|].
  assert (Hents : delete e (g_entries (gs s3)) = <[x := GrantEntry pfn (Z.lor r rights)]> (g_entries (gs s))).
  { simpl. rewrite Ag. simpl. rewrite insert_insert_ne by done. rewrite delete_insert_id; [done|]. by rewrite lookup_insert_ne. }
  rewrite Hents. split.
  - split; simpl.
    + done.
    + exists L. rewrite Fl. simpl. rewrite Al, delete_insert_eq. split; [|split].
      * eapply lists_frame; [exact HL|]. intros h ys a Eh Ha. rewrite lookup_delete_ne; [done|]. intros <-. by apply (Hun _ _ Eh).
      * intros h. rewrite Hd. split; intros (q & -> & Hq); exists q; (split; [done|]); rewrite lookup_insert_is_Some' in *; [by right|].
        destruct Hq as [<-|?]; [by rewrite Ep|done].
      * rewrite <- (insert_id L (GrantList p) xs El). apply (tables_update s); [done| |].
        -- intros q ys e' Hq Eq Hin. rewrite lookup_insert_ne; [done|]. intros <-.
           assert (GrantList q = GrantList p); [|congruence]. apply (lists_same _ _ _ _ _ _ (GrantNode x) HL Eq El); by right.
        -- apply (table_set _ _ _ _ _ r); [by apply (Ht p)|done..].
    + intros e' g. rewrite lookup_insert. case_decide as He; [subst e'; intros _; by apply (Hb x (GrantEntry pfn r))|apply Hb].
    + rewrite Ag. simpl. intros q tq q'. rewrite lookup_insert. case_decide as Hdq; [|apply Hf]. subst q. intros [= <-].
      rewrite lookup_insert_is_Some'. intros [<-|Hs]; [|by apply (Hf p t)]. apply (Hf p t); [done|]. by rewrite Et.
    + rewrite Ag. simpl. intros q Hq. assert (Hsame : holders (<[p := <[pfn := Z.lor r rights]> t]> G) q = holders G q); [|rewrite Hsame; by apply Hr].
      rewrite (holders_update G p t _ q Ep). destruct (decide (is_Some (<[pfn := Z.lor r rights]> t !! q))) as [H1|H1]; rewrite lookup_insert_is_Some' in H1.
      * rewrite decide_True; [lia|]. destruct H1 as [<-|?]; [by rewrite Et|done].
      * rewrite decide_False; [lia|]. tauto.
    + rewrite lookup_insert_ne; [done|congruence].
    + rewrite Fp. intros q Hq. apply (released_locks s p pm q Epm Hl). apply Hk. rewrite lookup_insert_is_Some' in Hq. destruct Hq as [<-|?]; [by rewrite Ep|done].
  - simpl in Fi, Fc, Ft. split; simpl; rewrite ?Ag; try done; try congruence.
    + intros a Ha. rewrite Fm by done. by apply Am.
    + intros q pq Eq. rewrite Fp. by apply (released_roots s p pm q pq Epm Eq).
Qed.

Lemma grant_add_run s H Q G p t pfn rights :
  grants_ok s H Q G → G !! p = Some t → 0 ≤ pfn → holders G pfn < 0xFFFF →
  ∃ v s' H', grant_add p pfn rights s = Done v s' ∧ elsewhere Q s s' ∧
    ((v = -1 ∧ grants_ok s' H' Q G) ∨
     (v = 0 ∧ pfn < g_frames (gs s) ∧ grants_ok s' H' Q (<[p := <[pfn := Z.lor (default 0 (t !! pfn)) rights]> t]> G))).
Proof.
  intros Hok Ep Hp0 Hc. pose proof Hok as [_ (L & HL & Hd & Ht) _ _ _ Hn Hk]. assert (Hp : p ≠ PmapNull) by congruence.
  unfold grant_add. rewrite (bind_done _ _ s (g_frames (gs s)) s), bool_decide_eq_false_2 by done. cbn [orb].
  destruct (Z.leb_spec (g_frames (gs s)) pfn) as [Hle|Hlt].
  { exists (-1), s, H. split; [done|]. split; [|by left]. split; try done. intros q pq Eq. by exists pq. }
  destruct (Hk p) as (pm & Epm & Hl); [by rewrite Ep|].
  edestruct (add_start s H Q G p pm pfn rights) as [(s' & E & Hok' & Hel)|(e & s1 & E & Had)]; [exact Hok|exact Epm|exact Hl|..]; rewrite E.
  { exists (-1), s', H. split; [done|]. split; [done|by left]. }
  destruct (proj2 (Hd (GrantList p))) as [xs El]; [by exists p; rewrite Ep|].
  pose proof (Ht p xs t El Ep) as Htb.
  pose proof (fresh_entry _ _ _ _ e Hok (proj2 (ad_fresh _ _ _ _ _ _ _ _ _ Had))) as Efr.
  pose proof (unlinked_entry s G L e Hd Ht Efr) as Hun.
  assert (HL1 : lists (ps_glinks (gs_mm s1)) L) by (rewrite (ad_glinks _ _ _ _ _ _ _ _ _ Had); by apply lists_touch).
  assert (Htb1 : table (g_entries (gs s1)) xs t).
  { eapply table_frame; [exact Htb|]. intros e' He'. rewrite (ad_gs _ _ _ _ _ _ _ _ _ Had). simpl. rewrite lookup_insert_ne; [done|].
    intros <-. apply (Hun _ _ El). by right. }
  destruct (grant_find_run s1 L p pfn xs t HL1 El Htb1) as [[Et E1]|(x & r & Hx & Ex & Et & E1)]; rewrite (bind_done _ _ _ _ _ E1), Et.
  - destruct (add_new s s1 H Q G p pm e pfn rights t Hok Had Epm Hl Ep Et (conj Hp0 Hlt) Hc) as (s' & E' & Hok' & Hel).
    eexists 0, s', _. split; [exact E'|]. split; [done|]. right. split; [done|]. split; [done|]. exact Hok'.
  - assert (Ex0 : g_entries (gs s) !! x = Some (GrantEntry pfn r)).
    { rewrite (ad_gs _ _ _ _ _ _ _ _ _ Had) in Ex. simpl in Ex. rewrite lookup_insert_ne in Ex; [done|].
      intros <-. apply (Hun _ _ El). by right. }
    destruct (add_found s s1 H Q G L p pm e pfn rights xs t x r Hok Had Epm Hl HL Hd Ht Ep El Hx Ex0 Et) as (s' & E' & Hok' & Hel).
    exists 0, s', H. split; [exact E'|]. split; [done|]. by right.
Qed.

Lemma grant_drop_run s H Q G p t pfn :
  grants_ok s H Q G → G !! p = Some t → 0 ≤ pfn →
  ∃ s' H', grant_drop p pfn s = Done (if decide (is_Some (t !! pfn)) then 0 else -1) s' ∧ elsewhere Q s s' ∧
    grants_ok s' H' Q (<[p := delete pfn t]> G).
Proof.
  intros Hok Ep Hp0. pose proof Hok as [Hh (L & HL & Hd & Ht) Hb Hf Hr Hn Hk]. assert (Hp : p ≠ PmapNull) by congruence.
  assert (Hskip : ∀ s', relock s s' → t !! pfn = None → grants_ok s' H Q (<[p := delete pfn t]> G) ∧ elsewhere Q s s').
  { intros s' Hrl Et. rewrite delete_id, insert_id by done. split; [by eapply relock_ok|]. destruct Hrl as [A1 A2 A3 A4 A5 A6 A7 A8].
    split; rewrite ?A1; try done; [by rewrite A3|]. intros q pq Eq. destruct (A8 q pq Eq) as (pm' & ? & ? & ? & _). by exists pm'. }
  unfold grant_drop. rewrite (bind_done _ _ s (g_frames (gs s)) s), bool_decide_eq_false_2 by done. cbn [orb].
  destruct (Z.leb_spec (g_frames (gs s)) pfn) as [Hle|Hlt].
  { assert (Et : t !! pfn = None). { apply eq_None_not_Some. intros Hs. specialize (Hf p t pfn Ep Hs). lia. }
    exists s, H. rewrite Et, decide_False by by intros [? ?]. split; [done|]. destruct (Hskip s (relock_refl s) Et). done. }
  destruct (Hk p) as (pm & Epm & Hl); [by rewrite Ep|]. rewrite (bind_done _ _ _ _ _ (lock_run p pm s Epm Hl)).
  destruct (proj2 (Hd (GrantList p))) as [xs El]; [by exists p; rewrite Ep|].
  set (s1 := irq_off (with_lock p pm (take (pm_lock pm)) s)).
  destruct (grant_find_run s1 L p pfn xs t HL El (Ht p xs t El Ep)) as [[Et E]|(e & r & Hx & Ee & Et & E)]; rewrite (bind_done _ _ _ _ _ E), Et.
  { destruct (relock_lock s s1 p pm Epm Hl eq_refl) as (s2 & E2 & Hs2). rewrite (bind_done _ _ _ _ _ E2), decide_False by by intros [? ?].
    destruct (Hskip s2 Hs2 Et). by exists s2, H. }
  rewrite decide_True by done. apply list_elem_of_split in Hx as (xs1 & xs2 & ->).
  destruct (lists_del _ L (GrantList p) xs1 xs2 (GrantNode e) HL El) as (m' & Em & Hm' & _ & _ & Hun & _).
  rewrite (bind_done _ _ _ _ _ (on_glinks_done _ s1 m' Em)). set (s2 := GState _ (gs s1)).
  assert (Hh2 : hp_inv (gs_mm s2) H Q) by by eapply hp_ext.
  destruct (free_entry_run s2 H Q e Hh2) as (m3 & E3 & Hh3 & Fl & Fp & Fi & Fc & Ft & Fm); [by apply (Hb e _ Ee)|].
  rewrite E3. set (s3 := GState m3 _). destruct (Hr pfn (conj Hp0 Hlt)) as [Er Hr16].
  unfold ref_count. rewrite (bind_done _ _ s3 (holders G pfn) s3) by by apply kread_done.
  assert (Hcount : holders (<[p := delete pfn t]> G) pfn = holders G pfn - 1).
  { rewrite (holders_update G p t _ pfn Ep), Et, lookup_delete_eq. rewrite (decide_True (P := is_Some (Some r))) by by eexists.
    rewrite decide_False by by intros [? ?]. lia. }
  assert (0 ≤ holders (<[p := delete pfn t]> G) pfn) by (unfold holders; lia).
  rewrite (proj2 (Z.eqb_neq _ 0)) by lia. rewrite (bind_done _ _ _ _ _ (ref_add_done (-1) pfn s3 _ Er)).
  rewrite (bind_done _ _ _ _ _ (unlock_run p pm (ps_irq (gs_mm s)) s (GState (gs_mm s3) (set_refs (<[pfn := wrap16 (holders G pfn + -1)]> (g_refs (gs s3))) (gs s3))) Fp Fi)).
  assert (Hw : wrap16 (holders G pfn + -1) = holders G pfn - 1) by (unfold wrap16; rewrite Z.mod_small; lia).
  eexists _, (delete e H). split; [reflexivity|]. rewrite Hw. clear Hskip. unfold s2, s1 in Fl, Fi, Fc, Ft. simpl in Fl, Fi, Fc, Ft. split.
  - split; simpl; try done.
    intros q pq Eq. by apply (released_roots s p pm q pq Epm Eq).
  - split; simpl.
    + eapply hp_ext; [exact Hh3|done|done].
    + exists (<[GrantList p := xs1 ++ xs2]> L). rewrite Fl. split; [|split].
      * eapply lists_frame; [exact Hm'|]. intros h ys a Eh Ha. rewrite lookup_delete_ne; [done|]. intros <-. by apply (Hun _ _ Eh).
      * by apply heads_update.
      * apply (tables_update s); [done| |].
        -- intros q ys e' Hq Eq Hin. rewrite lookup_delete_ne; [done|]. intros <-.
           assert (GrantList q = GrantList p); [|congruence]. apply (lists_same _ _ _ _ _ _ (GrantNode e) HL Eq El); [by right|set_solver].
        -- apply (table_remove _ _ _ _ _ _ r); [by apply (Ht p)| |done].
           destruct (lists_dlist _ _ _ _ HL El) as [Hnd _]. by apply NoDup_cons in Hnd as [_ ?].
    + intros e' g. rewrite !lookup_delete. case_decide; [done|apply Hb].
    + intros q tq q'. rewrite lookup_insert. case_decide as Hdq; [|apply Hf]. subst q. intros [= <-].
      rewrite lookup_delete_is_Some. intros [_ Hs]. exact (Hf p t q' Ep Hs).
    + apply (refs_update s G p t pfn); try done; try lia.
      intros q Hq. by rewrite lookup_delete_ne.
    + rewrite lookup_insert_ne; [done|congruence].
    + intros q Hq. apply (released_locks s p pm q Epm Hl). apply Hk. rewrite lookup_insert_is_Some' in Hq. destruct Hq as [<-|?]; [by rewrite Ep|done].
Qed.

End spec.
