(* ===== verification/Syscall.v ===== *)
(** * System calls (kernel/task/syscall.c)

    A call that returns to its caller yields [Some (value, extra)], where
    [extra] is what it stored in the [syscall_ret]; a call that suspends its
    caller, or ends it, yields [None] (the rest is the thread's [kcont]). *)

From S2P Require Export PageTable Futex Grant ThreadCreate.

Definition SYS_THREAD_CONTROL : Z := 0.
Definition SYS_EXCHANGE_REGISTERS : Z := 1.
Definition SYS_IPC : Z := 2.
Definition SYS_MAP : Z := 3.
Definition SYS_GRANT : Z := 4.
Definition SYS_UNMAP : Z := 5.
Definition SYS_SCHEDULE : Z := 6.
Definition SYS_THREAD_SWITCH : Z := 7.
Definition SYS_WRITE : Z := 8.
Definition SYS_FUTEX : Z := 9.
Definition SYS_PROCESSOR_CONTROL : Z := 10.
Definition SYS_SPACE_CONTROL : Z := 13.
Definition TC_CREATE : Z := 0.
Definition TC_DESTROY : Z := 1.
Definition TC_BIND_SPACE : Z := 2.
Definition EXR_READ : Z := 0.
Definition EXR_WRITE : Z := 1.
Definition EXR_ACTIVATE : Z := 2.
Definition EXR_DEACTIVATE : Z := 3.
Definition EXR_SET_ENTRY : Z := 4.
Definition IPC_SEND : Z := 0.
Definition IPC_RECV : Z := 1.
Definition IPC_CALL : Z := 2.
Definition IPC_REPLY_AND_WAIT : Z := 3.
Definition FUTEX_WAIT : Z := 0.
Definition FUTEX_WAKE : Z := 1.

Definition IPC_OP (x : Z) : Z := Z.shiftr x 32.
Definition IPC_TARGET (x : Z) : Z := Z.land x 0xFFFFFFFF.

(** [(uint64_t)-1]. *)
Definition FAIL : Z := wrap64 (-1).

(** The kernel, the grants, and what [kputc] wrote. *)
Record sys (T : Type) := Sys { sk : kernel T; sg : grants; console : list Z }.
Arguments Sys {T} _ _ _.
Arguments sk {T} _.
Arguments sg {T} _.
Arguments console {T} _.

Abbreviation sysret := (option (Z * list Z)).

Section syscall.
Context {T : Type} `{!PageAllocator T, !KernelHeap T, !FramePool T}.
Implicit Types (s : sys T).

(** [&g_kernel_pmap] and the size of the extended register state. *)
Variable kernel_pmap_addr xsave_size : Z.

Definition pmap_ptr (a : Z) : pmap_ref :=
  if a =? 0 then PmapNull else if a =? kernel_pmap_addr then PmapKernel else PmapAt a.

Definition in_kernel {A} : K (kernel T) A → K (sys T) A := klift sk (λ k s, Sys k (sg s) (console s)).
Definition in_grants {A} : K (gstate T) A → K (sys T) A :=
  klift (λ s, GState (mm (sk s)) (sg s)) (λ g s, Sys (set_mm (gs_mm g) (sk s)) (gs g) (console s)).
Definition in_mm {A} (op : K (pstate T) A) : K (sys T) A := in_kernel (on_mm op).
Definition kputc (c : Z) : K (sys T) unit := kmodify (λ s, Sys (sk s) (sg s) (console s ++ [c])).

Definition sget (t : Z) : K (sys T) thread := in_kernel (the_thread t).
Definition supd (t : Z) (f : thread → thread) : K (sys T) unit := in_kernel (upd_thread t f).
Definition ret (v : Z) : K (sys T) sysret := mret (Some (v, [])).

(** ** User memory (asm/usermem.h)

    Bytes are reached through the page tables in use.  A page fault in the
    kernel ends in the halting loop of [isr_handler]. *)

Definition user_phys (va : Z) : K (sys T) Z :=
  p ← kget (λ s, translate (ps_mem (mm (sk s))) (ps_cr3 (mm (sk s))) (wrap64 va));
  match p with Some a => mret a | None => khalt end.
Definition put_user_byte (va v : Z) : K (sys T) unit :=
  a ← user_phys va;
  in_mm (kmodify (λ m, set_mem (put_byte a v (ps_mem m)) m)).
Definition get_user_byte (va : Z) : K (sys T) Z :=
  a ← user_phys va;
  kget (λ s, get_byte (ps_mem (mm (sk s))) a).

Definition put_user_u64 (dst val : Z) : K (sys T) unit :=
  kfor 8 0 (λ i, put_user_byte (dst + i) (Z.shiftr val (8 * i))).
Definition get_user_u64 (src : Z) : K (sys T) Z :=
  b0 ← get_user_byte src; b1 ← get_user_byte (src + 1); b2 ← get_user_byte (src + 2); b3 ← get_user_byte (src + 3);
  b4 ← get_user_byte (src + 4); b5 ← get_user_byte (src + 5); b6 ← get_user_byte (src + 6); b7 ← get_user_byte (src + 7);
  mret (b0 + Z.shiftl b1 8 + Z.shiftl b2 16 + Z.shiftl b3 24 + Z.shiftl b4 32 + Z.shiftl b5 40 + Z.shiftl b6 48 + Z.shiftl b7 56).

(** ** Threads *)

Definition set_rip v f := Trapframe v (tf_cs f) (tf_rflags f) (tf_rsp f) (tf_ss f) (tf_rdi f) (tf_rsi f).
Definition set_rsp v f := Trapframe (tf_rip f) (tf_cs f) (tf_rflags f) v (tf_ss f) (tf_rdi f) (tf_rsi f).
Definition set_rflags v f := Trapframe (tf_rip f) (tf_cs f) v (tf_rsp f) (tf_ss f) (tf_rdi f) (tf_rsi f).
Definition set_rdi v f := Trapframe (tf_rip f) (tf_cs f) (tf_rflags f) (tf_rsp f) (tf_ss f) v (tf_rsi f).
Definition set_rsi v f := Trapframe (tf_rip f) (tf_cs f) (tf_rflags f) (tf_rsp f) (tf_ss f) (tf_rdi f) v.

Definition tc_create (a3 a4 a5 : Z) : K (sys T) sysret :=
  p ← (if negb (a3 =? 0) then mret (pmap_ptr a3) else in_mm (pmap_create Task.kmalloc));
  if bool_decide (p = PmapNull) then ret FAIL else
  t ← in_kernel (thread_create_child xsave_size p 0);
  if t =? 0 then
    (if a3 =? 0 then in_mm (pmap_destroy Task.kfree p) else mret tt);;
    ret FAIL
  else
  supd t (set_pager a4 a5);;
  th ← sget t;
  (if negb (a5 =? 0) then
     put_user_u64 a5 (tid th);;
     put_user_u64 (a5 + 8) a4;;
     supd t (set_tf (set_rsi a5))
   else mret tt);;
  ret (tid th).

(** The target of a request of its pager; [0] when there is none. *)
Definition paged_target (t : Z) : K (sys T) Z :=
  cur ← kget (λ s, current (sk s));
  target ← in_kernel (thread_lookup t);
  if target =? 0 then mret 0 else
  cth ← sget cur;
  th ← sget target;
  mret (if pager_tid th =? tid cth then target else 0).

Definition sys_thread_control (op a2 a3 a4 a5 : Z) : K (sys T) sysret :=
  if op =? TC_CREATE then tc_create a3 a4 a5
  else if op =? TC_DESTROY then
    target ← paged_target a2;
    if target =? 0 then ret FAIL else
    th ← sget target;
    if bool_decide (state (sch th) = THREAD_READY) || bool_decide (state (sch th) = THREAD_RUNNING) then
      in_kernel (sched_exit (KDestroy target));;
      mret None
    else
      in_kernel (thread_destroy target);;
      ret 0
  else if op =? TC_BIND_SPACE then
    target ← paged_target a2;
    if target =? 0 then ret FAIL else
    if a3 =? 0 then ret FAIL else
    supd target (set_th_pmap (pmap_ptr a3));;
    ret 0
  else ret FAIL.

(** [if (ptr) { get_user_u64(ptr, &val); field = val; }]. *)
Definition read_field (target ptr : Z) (set : Z → trapframe → trapframe) : K (sys T) unit :=
  if ptr =? 0 then mret tt else v ← get_user_u64 ptr; supd target (set_tf (set v)).
Definition write_field (target ptr : Z) (field : trapframe → Z) : K (sys T) unit :=
  if ptr =? 0 then mret tt else th ← sget target; put_user_u64 ptr (field (tf th)).

Definition sys_exchange_registers (target_tid ip_ptr sp_ptr flags_ptr op : Z) : K (sys T) sysret :=
  target ← in_kernel (thread_lookup target_tid);
  if target =? 0 then ret FAIL else
  if op =? EXR_READ then
    write_field target ip_ptr tf_rip;;
    write_field target sp_ptr tf_rsp;;
    write_field target flags_ptr tf_rflags;;
    ret 0
  else if op =? EXR_WRITE then
    read_field target ip_ptr set_rip;;
    read_field target sp_ptr set_rsp;;
    read_field target flags_ptr set_rflags;;
    ret 0
  else if op =? EXR_ACTIVATE then
    th ← sget target;
    if negb (bool_decide (state (sch th) = THREAD_CREATED)) then ret FAIL else
    in_kernel (sched_enqueue target);;
    ret 0
  else if op =? EXR_DEACTIVATE then
    th ← sget target;
    if bool_decide (state (sch th) = THREAD_RUNNING) then ret FAIL else
    (if bool_decide (state (sch th) = THREAD_READY) then in_kernel (sched_dequeue target) else mret tt);;
    supd target (set_state THREAD_CREATED);;
    ret 0
  else if op =? EXR_SET_ENTRY then
    supd target (set_tf (set_rip ip_ptr));;
    supd target (set_tf (set_rdi sp_ptr));;
    supd target (set_tf (set_rsi flags_ptr));;
    ret 0
  else ret FAIL.

(** ** Message passing *)

Definition sys_ipc (packed a2 a3 a4 a5 a6 : Z) : K (sys T) sysret :=
  let op := IPC_OP packed in
  let tid := IPC_TARGET packed in
  let words := [a2; a3; a4; a5; a6] in
  if op =? IPC_SEND then
    target ← in_kernel (thread_lookup tid);
    if target =? 0 then ret FAIL else in_kernel (ipc_send target words)
  else if op =? IPC_RECV then in_kernel ipc_recv
  else if op =? IPC_CALL then
    target ← in_kernel (thread_lookup tid);
    if target =? 0 then ret FAIL else in_kernel (ipc_call target words)
  else if op =? IPC_REPLY_AND_WAIT then in_kernel (ipc_reply_recv words)
  else ret FAIL.

(** ** Memory *)

Definition page_steps (lo hi : Z) : nat := S (Z.to_nat ((hi - lo + PAGE_SIZE - 1) / PAGE_SIZE)).

(** [for (pa = lo; pa < hi; pa += PAGE_SIZE)], while the body yields [true].
    Every step stays below [hi] and [page_steps] bounds their number, unless
    [pa] wraps around, and then the C loop does not end. *)
Fixpoint page_loop (fuel : nat) (pa hi : Z) (body : Z → K (sys T) bool) : K (sys T) bool :=
  match fuel with
  | O => kspin
  | S fuel' =>
      if negb (pa <? hi) then mret true else
      ok ← body pa;
      if (ok : bool) then page_loop fuel' (wrap64 (pa + PAGE_SIZE)) hi body else mret false
  end.
Definition for_pages (lo hi : Z) := page_loop (page_steps lo hi) lo hi.

Definition cur_pmap : K (sys T) pmap_ref :=
  cur ← kget (λ s, current (sk s)); th ← sget cur; mret (th_pmap th).

Definition sys_map (a1 a2 a3 a4 a5 : Z) : K (sys T) sysret :=
  target ← paged_target a1;
  if target =? 0 then ret FAIL else
  if a4 =? 0 then ret FAIL else
  let rights := Z.lor (if has_flag a5 PROT_READ then GRANT_READ else 0) (if has_flag a5 PROT_WRITE then GRANT_WRITE else 0) in
  if rights =? 0 then ret FAIL else
  ok ← for_pages a3 (wrap64 (a3 + a4)) (λ pa, p ← cur_pmap; in_grants (grant_holds p (phys_to_pfn pa) rights));
  if negb ok then ret FAIL else
  th ← sget target;
  err ← in_mm (pmap_map (th_pmap th) a2 a3 a4 (wrap32 (Z.lor a5 PROT_USER)));
  if negb (err =? 0) then ret FAIL else
  for_pages a3 (wrap64 (a3 + a4)) (λ pa, in_grants (grant_mapping_add (phys_to_pfn pa));; mret true);;
  ret 0.

Definition sys_grant (a1 a2 a3 : Z) : K (sys T) sysret :=
  target ← in_kernel (thread_lookup a1);
  if target =? 0 then ret FAIL else
  if (a3 =? 0) || negb (Z.land a3 (bnot64 (Z.lor (Z.lor GRANT_READ GRANT_WRITE) GRANT_GRANT)) =? 0) then ret FAIL else
  let pfn := phys_to_pfn a2 in
  p ← cur_pmap;
  ok ← in_grants (grant_holds p pfn a3);
  if negb ok then ret FAIL else
  th ← sget target;
  err ← in_grants (grant_add (th_pmap th) pfn a3);
  if negb (err =? 0) then ret FAIL else ret 0.

Definition sys_unmap (a1 a2 a3 : Z) : K (sys T) sysret :=
  target ← paged_target a1;
  if target =? 0 then ret FAIL else
  if a3 =? 0 then ret FAIL else
  for_pages (Z.land a2 (bnot64 0xFFF)) (wrap64 (a2 + a3)) (λ va,
    th ← sget target;
    phys ← in_mm (pmap_extract (th_pmap th) va);
    (if phys =? 0 then mret tt else
     in_mm (pmap_unmap (th_pmap th) va PAGE_SIZE);;
     in_grants (grant_mapping_remove (phys_to_pfn phys)));;
    mret true);;
  ret 0.

Definition sys_schedule (a1 a2 a3 : Z) : K (sys T) sysret :=
  target ← in_kernel (thread_lookup a1);
  if target =? 0 then ret FAIL else
  (if negb (a2 =? FAIL) then supd target (set_level (wrap32 a2)) else mret tt);;
  (if negb (a3 =? FAIL) then supd target (set_quantum (wrap32 a3)) else mret tt);;
  ret 0.

(** [for (size_t off = 0; off < a3;)]: every round but the first handles a whole
    page, so [fuel] bounds their number. *)
Fixpoint write_loop (fuel : nat) (off a2 a3 : Z) : K (sys T) Z :=
  match fuel with
  | O => kspin
  | S fuel' =>
      if negb (off <? a3) then mret a3 else
      p ← cur_pmap;
      phys ← in_mm (pmap_extract p (wrap64 (a2 + off)));
      if phys =? 0 then mret FAIL else
      let page := Z.land phys (bnot64 0xFFF) in
      let page_off := Z.land (wrap64 (a2 + off)) 0xFFF in
      let chunk := PAGE_SIZE - page_off in
      let chunk := if a3 - off <? chunk then a3 - off else chunk in
      kfor (Z.to_nat chunk) 0 (λ i,
        c ← kget (λ s, get_byte (ps_mem (mm (sk s))) (page + page_off + i)); kputc c);;
      write_loop fuel' (off + chunk) a2 a3
  end.
Definition sys_write (a1 a2 a3 : Z) : K (sys T) sysret :=
  if negb (a1 =? 1) && negb (a1 =? 2) then ret FAIL else
  if a3 =? 0 then ret 0 else
  v ← write_loop (S (S (Z.to_nat (a3 / PAGE_SIZE + 1)))) 0 a2 a3;
  ret v.

(** ** The dispatcher *)

Definition sys_futex (a1 a2 a3 : Z) : K (sys T) sysret :=
  if a2 =? FUTEX_WAIT then
    r ← in_kernel (futex_wait a1 (wrap32 a3));
    match r with Some v => ret (wrap64 v) | None => mret None end
  else if a2 =? FUTEX_WAKE then
    v ← in_kernel (futex_wake a1 (negb (wrap32 a3 =? 0)));
    ret (wrap64 v)
  else ret FAIL.

Definition do_syscall (num a1 a2 a3 a4 a5 a6 : Z) : K (sys T) sysret :=
  if num =? SYS_THREAD_CONTROL then sys_thread_control a1 a2 a3 a4 a5
  else if num =? SYS_EXCHANGE_REGISTERS then sys_exchange_registers a1 a2 a3 a4 a5
  else if num =? SYS_IPC then sys_ipc a1 a2 a3 a4 a5 a6
  else if num =? SYS_MAP then sys_map a1 a2 a3 a4 a5
  else if num =? SYS_GRANT then sys_grant a1 a2 a3
  else if num =? SYS_UNMAP then sys_unmap a1 a2 a3
  else if num =? SYS_SCHEDULE then sys_schedule a1 a2 a3
  else if num =? SYS_THREAD_SWITCH then
    back ← in_kernel sched_yield;
    if (back : bool) then ret 0 else mret None
  else if num =? SYS_WRITE then sys_write a1 a2 a3
  else if num =? SYS_FUTEX then sys_futex a1 a2 a3
  else if (SYS_PROCESSOR_CONTROL <=? num) && (num <=? SYS_SPACE_CONTROL) then ret FAIL
  else ret 0.

(** ** Return to user mode (syscall_dispatch in cpu.c)

    The registers a call leaves to user mode: [rax], and for [SYS_IPC]
    [rdi, rsi, rdx, r10, r8].  [stack] is what the uninitialised [syscall_ret]
    holds. *)

Record user_regs := UserRegs { rax : Z; rdi : Z; rsi : Z; rdx : Z; r10 : Z; r8 : Z; r9 : Z }.

Definition syscall_result (r : user_regs) (stack : list Z) (v : Z * list Z) : user_regs :=
  let extra := match v.2 with [] => stack | ws => ws end in
  if rax r =? SYS_IPC
  then UserRegs v.1 (extra !!! 0%nat) (extra !!! 1%nat) (extra !!! 2%nat) (extra !!! 3%nat) (extra !!! 4%nat) (r9 r)
  else UserRegs v.1 (rdi r) (rsi r) (rdx r) (r10 r) (r8 r) (r9 r).

Definition syscall_dispatch (r : user_regs) (stack : list Z) : K (sys T) (option user_regs) :=
  v ← do_syscall (rax r) (rdi r) (rsi r) (rdx r) (r10 r) (r8 r) (r9 r);
  mret (syscall_result r stack <$> v).
End syscall.
