(* ===== verification/SyscallSpec.v ===== *)
(** * System calls against the kernel's tables

    What the guards of syscall.c enforce: memory is mapped for a thread only by
    its pager, and only frames the pager was granted. *)

From S2P Require Export IpcRefine GrantSpec Syscall.

(** ** Loops over the pages of a range *)

Definition page_count (lo hi : Z) : Z := (hi - lo + PAGE_SIZE - 1) / PAGE_SIZE.
Definition pages (lo hi : Z) : list Z := (λ k, lo + PAGE_SIZE * k) <$> seqZ 0 (page_count lo hi).

Lemma page_count_step lo hi : lo < hi → page_count lo hi = 1 + page_count (lo + PAGE_SIZE) hi ∧ 0 ≤ page_count (lo + PAGE_SIZE) hi.
Proof. unfold page_count; change PAGE_SIZE with 4096. mlia. Qed.

Lemma pages_step lo hi : lo < hi → pages lo hi = lo :: pages (lo + PAGE_SIZE) hi.
Proof.
  intros Hlt. destruct (page_count_step lo hi Hlt) as [E H0]. unfold pages. rewrite E, seqZ_cons by lia. cbn [fmap list_fmap]. f_equal; [lia|].
  replace (Z.pred (1 + page_count (lo + PAGE_SIZE) hi)) with (page_count (lo + PAGE_SIZE) hi) by lia.
  rewrite <- (fmap_add_seqZ 1 0), <- list_fmap_compose. apply list_fmap_ext. intros i k _. simpl. lia.
Qed.

Lemma pages_done lo hi : hi ≤ lo → pages lo hi = [].
Proof. intros Hle. unfold pages. rewrite seqZ_nil; [done|]. unfold page_count; change PAGE_SIZE with 4096. mlia. Qed.

Lemma pages_elem lo hi a : a ∈ pages lo hi ↔ lo ≤ a < hi ∧ (a - lo) mod PAGE_SIZE = 0.
Proof.
  unfold pages. rewrite list_elem_of_fmap. setoid_rewrite elem_of_seqZ. unfold page_count; change PAGE_SIZE with 4096. split.
  - intros (k & -> & Hk). split; [mlia|]. replace (lo + 4096 * k - lo) with (k * 4096) by lia. by apply Z.mod_mul.
  - intros [Hr Hm]. exists ((a - lo) / 4096). mlia.
Qed.

Lemma forallb_agree {A} (f g : A → bool) l : (∀ x, f x = g x) → forallb f l = forallb g l.
Proof. intros E. induction l as [|x l IH]; simpl; [done|]. by rewrite E, IH. Qed.

Section spec.
Context {T : Type} `{!PageAllocator T, !KernelHeap T, !FramePool T, !HeapLaws T}.
Implicit Types (s : sys T) (G : gmap pmap_ref (gmap Z Z)).

(** A loop whose body only answers yes or no. *)
Lemma page_loop_all (I : sys T → Prop) (ok : Z → bool) body hi :
  (∀ pa s, 0 ≤ pa < hi → I s → ∃ s', body pa s = Done (ok pa) s' ∧ I s') → hi ≤ U64 - PAGE_SIZE →
  ∀ fuel lo s, 0 ≤ lo → (Z.to_nat (page_count lo hi) < fuel)%nat → I s →
  ∃ s', page_loop fuel lo hi body s = Done (forallb ok (pages lo hi)) s' ∧ I s'.
Proof.
  intros Hb Hhi. induction fuel as [|fuel IH]; intros lo s Hlo Hf Hs; [lia|]. simpl.
  destruct (Z.ltb_spec lo hi) as [Hlt|Hge]; cbn [negb].
  - destruct (Hb lo s) as (s1 & E1 & H1); [lia|done|]. rewrite (bind_done _ _ _ _ _ E1), (pages_step lo hi Hlt). cbn [forallb].
    destruct (ok lo); cbn [andb]; [|by exists s1]. destruct (page_count_step lo hi Hlt) as [E H0]. change PAGE_SIZE with 4096 in *.
    rewrite wrap64_small by lia. apply IH; [lia|lia|done].
  - rewrite pages_done by done. by exists s.
Qed.

Lemma for_pages_all (I : sys T → Prop) (ok : Z → bool) body lo hi s :
  (∀ pa s, 0 ≤ pa < hi → I s → ∃ s', body pa s = Done (ok pa) s' ∧ I s') → 0 ≤ lo → hi ≤ U64 - PAGE_SIZE → I s →
  ∃ s', for_pages lo hi body s = Done (forallb ok (pages lo hi)) s' ∧ I s'.
Proof. intros Hb Hlo Hhi Hs. apply (page_loop_all I); try done. unfold page_steps, page_count. lia. Qed.

(** ** Callers and targets *)

(** The state of the grants inside the system's. *)
Definition gst s : gstate T := GState (mm (sk s)) (sg s).

(** [cur] runs, and is the pager of [target], the thread [a1]. *)
Record pager_of s (cur : Z) (ct : thread) (a1 target : Z) (tt : thread) : Prop := PagerOf {
  po_current : current (sk s) = cur;
  po_cur : threads (sk s) !! cur = Some ct;
  po_reg : registered (sk s) a1 = target ∧ target ≠ 0;
  po_target : threads (sk s) !! target = Some tt;
  po_pager : pager_tid tt = tid ct;
  po_lock : lock_free (g_threads_lock (reg (sk s)));
}.

(** Only tickets of locks differ. *)
Record quiet s s' : Prop := Quiet {
  qt_relock : relock (gst s) (gst s');
  qt_current : current (sk s') = current (sk s);
  qt_threads : threads (sk s') = threads (sk s);
  qt_klinks : klinks (sk s') = klinks (sk s);
  qt_kirq : kirq (sk s') = kirq (sk s);
  qt_console : console s' = console s;
}.
Lemma quiet_refl s : quiet s s.
Proof. split; try done. apply relock_refl. Qed.
Lemma quiet_trans s1 s2 s3 : quiet s1 s2 → quiet s2 s3 → quiet s1 s3.
Proof. intros [A1 A2 A3 A4 A5 A6] [B1 B2 B3 B4 B5 B6]. split; try congruence. by eapply relock_trans. Qed.

Lemma in_kernel_done {A} (m : K (kernel T) A) s a k : m (sk s) = Done a k → in_kernel m s = Done a (Sys k (sg s) (console s)).
Proof. intros E. unfold in_kernel. by erewrite klift_done. Qed.

Lemma lookup_quiet s x : lock_free (g_threads_lock (reg (sk s))) →
  ∃ s', in_kernel (thread_lookup x) s = Done (registered (sk s) x) s' ∧ quiet s s'.
Proof.
  intros Hl. eexists. split.
  - apply in_kernel_done. unfold thread_lookup, on_reg_lock.
    erewrite bind_done by (apply klift_done, spin_lock_irqsave_free, Hl). cbv beta iota.
    erewrite bind_done by reflexivity. cbv zeta. simpl.
    erewrite bind_done; [|apply klift_done; simpl; apply spin_unlock_irqrestore_take]. reflexivity.
  - split; simpl; try done. apply relock_refl.
Qed.

Lemma sget_done t s th : threads (sk s) !! t = Some th → sget t s = Done th s.
Proof. intros E. unfold sget. rewrite (in_kernel_done _ s th (sk s)); [by destruct s|]. by apply kread_done. Qed.

Lemma paged_target_run s cur ct a1 target tt :
  pager_of s cur ct a1 target tt → ∃ s', paged_target a1 s = Done target s' ∧ quiet s s'.
Proof.
  intros [Hc Hct [Hr Ht0] Htt Hp Hl]. unfold paged_target. rewrite (bind_done _ _ s cur s) by (unfold kget; by rewrite Hc).
  destruct (lookup_quiet s a1 Hl) as (s1 & E1 & Q1). rewrite (bind_done _ _ _ _ _ E1), Hr, (proj2 (Z.eqb_neq _ _)) by done.
  rewrite (bind_done _ _ s1 ct s1) by (apply sget_done; by rewrite (qt_threads _ _ Q1)).
  rewrite (bind_done _ _ s1 tt s1) by (apply sget_done; by rewrite (qt_threads _ _ Q1)).
  rewrite Hp, Z.eqb_refl. by exists s1.
Qed.

Lemma cur_pmap_run s cur ct : current (sk s) = cur → threads (sk s) !! cur = Some ct → cur_pmap s = Done (th_pmap ct) s.
Proof.
  intros Hc Hct. unfold cur_pmap. rewrite (bind_done _ _ s cur s) by (unfold kget; by rewrite Hc).
  by rewrite (bind_done _ _ s ct s) by by apply sget_done.
Qed.

Lemma in_grants_done {A} (m : K (gstate T) A) s a g : m (gst s) = Done a g →
  in_grants m s = Done a (Sys (set_mm (gs_mm g) (sk s)) (gs g) (console s)).
Proof. intros E. unfold in_grants. by erewrite klift_done. Qed.

(** ** SYS_MAP *)

(** The rights that mapping with protection [a5] needs. *)
Definition map_rights (a5 : Z) : Z :=
  Z.lor (if has_flag a5 PROT_READ then GRANT_READ else 0) (if has_flag a5 PROT_WRITE then GRANT_WRITE else 0).

(** Every frame of the range is held with these rights. *)
Definition range_held s G (p : pmap_ref) (t : gmap Z Z) (lo hi rights : Z) : bool :=
  forallb (λ pa, holds (gst s) G p t (phys_to_pfn pa) rights) (pages lo hi).

Lemma holds_relock (g g' : gstate T) G p t pfn rights : relock g g' → holds g' G p t pfn rights = holds g G p t pfn rights.
Proof. intros [A1 A2 A3 _ _ _ _ _]. unfold holds, grant_pool_test. by rewrite A1, A3. Qed.

Lemma check_range_run s H Q G cur ct t lo hi rights :
  grants_ok (gst s) H Q G → current (sk s) = cur → threads (sk s) !! cur = Some ct → G !! th_pmap ct = Some t →
  0 ≤ lo → hi ≤ U64 - PAGE_SIZE →
  ∃ s', for_pages lo hi (λ pa, p ← cur_pmap; in_grants (grant_holds p (phys_to_pfn pa) rights)) s =
      Done (range_held s G (th_pmap ct) t lo hi rights) s' ∧ quiet s s'.
Proof.
  intros Hok Hc Hct Ep Hlo Hhi. apply (for_pages_all (quiet s)); [|done..|apply quiet_refl].
  intros pa s1 Hpa Q1. rewrite (bind_done _ _ s1 (th_pmap ct) s1) by (apply (cur_pmap_run s1 cur ct); [by rewrite (qt_current _ _ Q1)|by rewrite (qt_threads _ _ Q1)]).
  pose proof (relock_ok _ _ _ _ _ Hok (qt_relock _ _ Q1)) as Hok1.
  destruct (grant_holds_run (gst s1) H Q G (th_pmap ct) t (phys_to_pfn pa) rights Hok1 Ep) as (g & E & Hr).
  { unfold phys_to_pfn. apply Z.shiftr_nonneg. lia. }
  rewrite (in_grants_done _ _ _ _ E), (holds_relock _ _ _ _ _ _ _ (qt_relock _ _ Q1)). eexists. split; [reflexivity|].
  eapply quiet_trans; [exact Q1|]. split; simpl; try done. destruct g. exact Hr.
Qed.

End spec.
