(* ===== verification/GrantExamples.v ===== *)
(** * Grants on a concrete machine

    One address space that was granted nothing, on the machine and the heap of
    KmemExamples.v, and two threads, 12 with the pager 11. *)

From S2P Require Export KmemExamples SyscallSpec TaskExamples.

#[local] Instance small_pool : FramePool kpages := λ pfn t, pmm_frame_in_pool small_map pfn (g_pmm (kp_pmm t)).

Definition one_space (s : pstate kpages) : pstate kpages :=
  set_glinks (list_init (GrantList PmapKernel) ∅) (set_pmaps {[ PmapKernel := Pmap 0 0 SPINLOCK_INITIALIZER ]} s).
Definition no_refs (n : Z) : gmap Z Z := gset_to_gmap 0 (list_to_set (seqZ 0 n)).
Definition no_grants : grants := Grants PmapNull 320 (no_refs 320) ∅ 0 0 ∅.
Definition no_rights : gmap pmap_ref (gmap Z Z) := {[ PmapKernel := ∅ ]}.

Lemma no_refs_lookup n pfn : 0 ≤ pfn < n → no_refs n !! pfn = Some 0.
Proof.
  intros Hp. apply lookup_gset_to_gmap_Some. split; [|done]. apply elem_of_list_to_set, elem_of_seqZ. lia.
Qed.
Lemma no_rights_inv p t : no_rights !! p = Some t → p = PmapKernel ∧ t = ∅.
Proof. unfold no_rights. by intros [<- <-]%lookup_singleton_Some. Qed.

Lemma no_holders pfn : holders no_rights pfn = 0.
Proof.
  unfold holders, no_rights. rewrite map_filter_singleton_False; [done|]. simpl. rewrite lookup_empty. by intros [? ?].
Qed.

Lemma no_grants_ok s : kheap s ∅ low_page → grants_ok (GState (one_space s) no_grants) ∅ low_page no_rights.
Proof.
  intros Hk. split; cbn -[no_refs].
  - exact (hp_ext (HeapLaws := kmem_laws) s (one_space s) ∅ low_page Hk eq_refl (λ a _, eq_refl)).
  - exists {[ GrantList PmapKernel := [] ]}. split; [|split].
    + rewrite <- insert_empty. apply lists_init; [by split|]. intros h xs E. by rewrite lookup_empty in E.
    + intros h. unfold no_rights. split.
      * intros [xs [<- _]%lookup_singleton_Some]. exists PmapKernel. split; [done|]. rewrite lookup_singleton_eq. by eexists.
      * intros (p & -> & t & [<- _]%lookup_singleton_Some). rewrite lookup_singleton_eq. by eexists.
    + intros p xs t E1 E2. destruct (no_rights_inv p t E2) as [-> ->]. apply lookup_singleton_Some in E1 as [_ <-]. apply table_nil.
  - intros e g E. by rewrite lookup_empty in E.
  - intros p t pfn E [x Ex]. destruct (no_rights_inv p t E) as [_ ->]. by rewrite lookup_empty in Ex.
  - intros pfn Hp. rewrite no_holders. split; [by apply no_refs_lookup|done].
  - done.
  - intros p [t E]. destruct (no_rights_inv p t E) as [-> _]. eexists. split; [by rewrite lookup_singleton_eq|done].
Qed.


(** Thread 2, whose pager is thread 1. *)
Definition paged_thread : thread := set_pager 1 0 (new_thread 2 THREAD_CREATED).
Definition two_threads (s : pstate kpages) : sys kpages :=
  Sys (Kernel (one_space s) ∅ {[ 11 := new_thread 1 THREAD_RUNNING; 12 := paged_thread ]} 11 0 true three_reg (Futexes ∅ ∅)) no_grants [].

