(* ===== verification/RbTree.v ===== *)
(** * Rank-balanced trees (the RB macros of user/include/tree.h)

    The functions [RB_GENERATE] makes, for elements addressed by pointers that
    are multiples of 4 ([0] is [NULL]); the two low bits of [rbe_parent] say
    whether the left and the right child are "red".  [key] is the part of an
    element that [cmp] compares. *)

From S2P Require Export Prelude.

Record rb_entry := RbEntry { rbe_left : Z; rbe_right : Z; rbe_parent : Z }.

(** The head and the [RB_ENTRY] fields of the elements. *)
Record rb_tree := RbTree { rbh_root : Z; rb_nodes : gmap Z rb_entry }.

Definition RB_RED_L : Z := 1.
Definition RB_RED_R : Z := 2.
Definition RB_RED_MASK : Z := 3.

Definition set_left (v : Z) e := RbEntry v (rbe_right e) (rbe_parent e).
Definition set_right (v : Z) e := RbEntry (rbe_left e) v (rbe_parent e).
Definition set_bits (v : Z) e := RbEntry (rbe_left e) (rbe_right e) v.

(** ** The access macros *)

Definition rb_node (x : Z) : K rb_tree rb_entry := kread (λ s, rb_nodes s !! x).
Definition rb_upd (x : Z) (f : rb_entry → rb_entry) : K rb_tree unit :=
  kupdate (λ s, e ← rb_nodes s !! x; Some (RbTree (rbh_root s) (<[x := f e]> (rb_nodes s)))).

Definition RB_LEFT (x : Z) : K rb_tree Z := e ← rb_node x; mret (rbe_left e).
Definition RB_RIGHT (x : Z) : K rb_tree Z := e ← rb_node x; mret (rbe_right e).
Definition RB_BITS (x : Z) : K rb_tree Z := e ← rb_node x; mret (rbe_parent e).
Definition RB_SET_LEFT (x v : Z) : K rb_tree unit := rb_upd x (set_left v).
Definition RB_SET_RIGHT (x v : Z) : K rb_tree unit := rb_upd x (set_right v).
Definition RB_SET_BITS (x : Z) (f : Z → Z) : K rb_tree unit := rb_upd x (λ e, set_bits (f (rbe_parent e)) e).

Definition RB_FLIP_LEFT (x : Z) : K rb_tree unit := RB_SET_BITS x (λ b, Z.lxor b RB_RED_L).
Definition RB_FLIP_RIGHT (x : Z) : K rb_tree unit := RB_SET_BITS x (λ b, Z.lxor b RB_RED_R).
Definition RB_RED_LEFT (x : Z) : K rb_tree bool := b ← RB_BITS x; mret (has_flag b RB_RED_L).
Definition RB_RED_RIGHT (x : Z) : K rb_tree bool := b ← RB_BITS x; mret (has_flag b RB_RED_R).
Definition RB_PARENT (x : Z) : K rb_tree Z := b ← RB_BITS x; mret (Z.land b (bnot64 RB_RED_MASK)).
Definition RB_CLEAR (x : Z) : K rb_tree unit := RB_SET_BITS x (λ b, Z.land b (bnot64 RB_RED_MASK)).
Definition RB_SET_PARENT (dst src : Z) : K rb_tree unit :=
  RB_SET_BITS dst (λ b, Z.lor (Z.land b RB_RED_MASK) src).
Definition RB_ROOT : K rb_tree Z := kget rbh_root.
Definition RB_SET_ROOT (v : Z) : K rb_tree unit := kmodify (λ s, RbTree v (rb_nodes s)).

(** [RB_UP(elm) = parent; RB_LEFT(elm) = RB_RIGHT(elm) = NULL]; this also
    initialises the fields of a new element. *)
Definition RB_SET (x parent : Z) : K rb_tree unit :=
  kmodify (λ s, RbTree (rbh_root s) (<[x := RbEntry 0 0 parent]> (rb_nodes s))).

Definition RB_SWAP_CHILD (out inn : Z) : K rb_tree unit :=
  p ← RB_PARENT out;
  if p =? 0 then RB_SET_ROOT inn else
  l ← RB_LEFT p;
  if out =? l then RB_SET_LEFT p inn else RB_SET_RIGHT p inn.

(** The rotations return the new root of the subtree, [tmp]. *)
Definition RB_ROTATE_LEFT (elm : Z) : K rb_tree Z :=
  tmp ← RB_RIGHT elm;
  l ← RB_LEFT tmp;
  RB_SET_RIGHT elm l;;
  (if negb (l =? 0) then RB_SET_PARENT l elm else mret tt);;
  p ← RB_PARENT elm;
  RB_SET_PARENT tmp p;;
  RB_SWAP_CHILD elm tmp;;
  RB_SET_LEFT tmp elm;;
  RB_SET_PARENT elm tmp;;
  mret tmp.

Definition RB_ROTATE_RIGHT (elm : Z) : K rb_tree Z :=
  tmp ← RB_LEFT elm;
  r ← RB_RIGHT tmp;
  RB_SET_LEFT elm r;;
  (if negb (r =? 0) then RB_SET_PARENT r elm else mret tt);;
  p ← RB_PARENT elm;
  RB_SET_PARENT tmp p;;
  RB_SWAP_CHILD elm tmp;;
  RB_SET_RIGHT tmp elm;;
  RB_SET_PARENT elm tmp;;
  mret tmp.

(** A bound on the length of a path in the tree. *)
Definition rb_fuel (s : rb_tree) : nat := S (size (rb_nodes s)).

(** ** Insertion *)

(** [while ((parent = RB_PARENT(elm)) != NULL)] of [RB_INSERT_COLOR]; the two
    [break]s and the [return]s end the function. *)
Fixpoint insert_color (fuel : nat) (elm : Z) : K rb_tree unit :=
  match fuel with
  | O => kspin
  | S fuel' =>
      parent ← RB_PARENT elm;
      if parent =? 0 then mret tt else
      l ← RB_LEFT parent;
      if l =? elm then
        red ← RB_RED_LEFT parent;
        if (red : bool) then RB_FLIP_LEFT parent else
        RB_FLIP_RIGHT parent;;
        red ← RB_RED_RIGHT parent;
        if (red : bool) then insert_color fuel' parent else
        red ← RB_RED_RIGHT elm;
        (if negb red then
           RB_FLIP_LEFT elm;;
           child ← RB_ROTATE_LEFT elm;
           cl ← RB_RED_LEFT child;
           (if (cl : bool) then RB_FLIP_RIGHT elm
            else cr ← RB_RED_RIGHT child;
                 if (cr : bool) then RB_FLIP_LEFT parent else mret tt)
         else mret tt);;
        elm ← RB_ROTATE_RIGHT parent;
        RB_CLEAR elm
      else
        red ← RB_RED_RIGHT parent;
        if (red : bool) then RB_FLIP_RIGHT parent else
        RB_FLIP_LEFT parent;;
        red ← RB_RED_LEFT parent;
        if (red : bool) then insert_color fuel' parent else
        red ← RB_RED_LEFT elm;
        (if negb red then
           RB_FLIP_RIGHT elm;;
           child ← RB_ROTATE_RIGHT elm;
           cr ← RB_RED_RIGHT child;
           (if (cr : bool) then RB_FLIP_LEFT elm
            else cl ← RB_RED_LEFT child;
                 if (cl : bool) then RB_FLIP_RIGHT parent else mret tt)
         else mret tt);;
        elm ← RB_ROTATE_LEFT parent;
        RB_CLEAR elm
  end.
Definition RB_INSERT_COLOR (elm : Z) : K rb_tree unit := fuel ← kget rb_fuel; insert_color fuel elm.

(** ** Removal *)

(** The body of [RB_REMOVE_COLOR] from its [do] on. *)
Fixpoint remove_color (fuel : nat) (parent elm : Z) : K rb_tree unit :=
  match fuel with
  | O => kspin
  | S fuel' =>
      let again elm := (parent ← RB_PARENT elm; if parent =? 0 then mret tt else remove_color fuel' parent elm) in
      l ← RB_LEFT parent;
      if l =? elm then
        red ← RB_RED_LEFT parent;
        if negb red then RB_FLIP_LEFT parent else
        red ← RB_RED_RIGHT parent;
        if (red : bool) then RB_FLIP_RIGHT parent;; again parent else
        sib ← RB_RIGHT parent;
        b ← RB_BITS sib;
        if Z.land (bnot64 b) RB_RED_MASK =? 0 then RB_CLEAR sib;; again parent else
        RB_FLIP_RIGHT sib;;
        sl ← RB_RED_LEFT sib;
        (if (sl : bool) then RB_FLIP_LEFT parent
         else
           sr ← RB_RED_RIGHT sib;
           if negb sr then
             RB_FLIP_LEFT parent;;
             elm ← RB_ROTATE_RIGHT sib;
             er ← RB_RED_RIGHT elm;
             (if (er : bool) then RB_FLIP_LEFT sib else mret tt);;
             el ← RB_RED_LEFT elm;
             (if (el : bool) then RB_FLIP_RIGHT parent else mret tt);;
             RB_SET_BITS elm (λ b, Z.lor b RB_RED_MASK)
           else mret tt);;
        RB_ROTATE_LEFT parent;;
        mret tt
      else
        red ← RB_RED_RIGHT parent;
        if negb red then RB_FLIP_RIGHT parent else
        red ← RB_RED_LEFT parent;
        if (red : bool) then RB_FLIP_LEFT parent;; again parent else
        sib ← RB_LEFT parent;
        b ← RB_BITS sib;
        if Z.land (bnot64 b) RB_RED_MASK =? 0 then RB_CLEAR sib;; again parent else
        RB_FLIP_LEFT sib;;
        sr ← RB_RED_RIGHT sib;
        (if (sr : bool) then RB_FLIP_RIGHT parent
         else
           sl ← RB_RED_LEFT sib;
           if negb sl then
             RB_FLIP_RIGHT parent;;
             elm ← RB_ROTATE_LEFT sib;
             el ← RB_RED_LEFT elm;
             (if (el : bool) then RB_FLIP_RIGHT sib else mret tt);;
             er ← RB_RED_RIGHT elm;
             (if (er : bool) then RB_FLIP_LEFT parent else mret tt);;
             RB_SET_BITS elm (λ b, Z.lor b RB_RED_MASK)
           else mret tt);;
        RB_ROTATE_RIGHT parent;;
        mret tt
  end.

Definition RB_REMOVE_COLOR (parent elm : Z) : K rb_tree unit :=
  fuel ← kget rb_fuel;
  l ← RB_LEFT parent;
  r ← RB_RIGHT parent;
  if (l =? elm) && (r =? elm) then
    RB_CLEAR parent;;
    p ← RB_PARENT parent;
    if p =? 0 then mret tt else remove_color fuel p parent
  else remove_color fuel parent elm.

(** [do elm = child; while ((child = RB_LEFT(elm)) != NULL)]. *)
Fixpoint leftmost (fuel : nat) (elm : Z) : K rb_tree Z :=
  match fuel with
  | O => kspin
  | S fuel' => child ← RB_LEFT elm; if child =? 0 then mret elm else leftmost fuel' child
  end.
Fixpoint rightmost (fuel : nat) (elm : Z) : K rb_tree Z :=
  match fuel with
  | O => kspin
  | S fuel' => child ← RB_RIGHT elm; if child =? 0 then mret elm else rightmost fuel' child
  end.

(** The element that takes the place of [old], the child that moves up and its
    new parent. *)
Definition remove_pick (old : Z) : K rb_tree (Z * Z * Z) :=
  fuel ← kget rb_fuel;
  parent ← RB_PARENT old;
  right ← RB_RIGHT old;
  left ← RB_LEFT old;
  if left =? 0 then mret (right, right, parent)
  else if right =? 0 then mret (left, left, parent)
  else
    child ← RB_LEFT right;
    r ← (if child =? 0 then
           child ← RB_RIGHT right;
           RB_SET_RIGHT old child;;
           mret (right, child, right)
         else
           elm ← leftmost fuel child;
           child ← RB_RIGHT elm;
           parent ← RB_PARENT elm;
           RB_SET_LEFT parent child;;
           right ← RB_RIGHT old;
           RB_SET_PARENT right elm;;
           mret (elm, child, parent));
    let '(elm, child, parent) := r in
    left ← RB_LEFT old;
    RB_SET_PARENT left elm;;
    e ← rb_node old;
    rb_upd elm (λ _, e);;
    mret (elm, child, parent).

Definition RB_REMOVE (old : Z) : K rb_tree Z :=
  r ← remove_pick old;
  let '(elm, child, parent) := r in
  RB_SWAP_CHILD old elm;;
  (if negb (child =? 0) then RB_SET_PARENT child parent else mret tt);;
  (if negb (parent =? 0) then RB_REMOVE_COLOR parent child else mret tt);;
  mret old.

(** ** Search *)

Section keyed.
Variable cmp : Z → Z → Z.     (* on keys *)
Variable key : Z → Z.

Definition rb_cmp (k x : Z) : Z := cmp k (key x).

(** The insertion point: the last node visited and the last comparison, or the
    element with an equal key. *)
Fixpoint insert_point (fuel : nat) (k tmp parent comp : Z) : K rb_tree (Z + Z * Z) :=
  match fuel with
  | O => kspin
  | S fuel' =>
      if tmp =? 0 then mret (inr (parent, comp)) else
      let comp := rb_cmp k tmp in
      if comp <? 0 then l ← RB_LEFT tmp; insert_point fuel' k l tmp comp
      else if 0 <? comp then r ← RB_RIGHT tmp; insert_point fuel' k r tmp comp
      else mret (inl tmp)
  end.

Definition RB_INSERT (elm : Z) : K rb_tree Z :=
  fuel ← kget rb_fuel;
  root ← RB_ROOT;
  p ← insert_point fuel (key elm) root 0 0;
  match p with
  | inl tmp => mret tmp
  | inr (parent, comp) =>
      RB_SET elm parent;;
      (if parent =? 0 then RB_SET_ROOT elm
       else if comp <? 0 then RB_SET_LEFT parent elm
       else RB_SET_RIGHT parent elm);;
      RB_INSERT_COLOR elm;;
      mret 0
  end.

Fixpoint find_loop (fuel : nat) (k tmp : Z) : K rb_tree Z :=
  match fuel with
  | O => kspin
  | S fuel' =>
      if tmp =? 0 then mret 0 else
      let comp := rb_cmp k tmp in
      if comp <? 0 then l ← RB_LEFT tmp; find_loop fuel' k l
      else if 0 <? comp then r ← RB_RIGHT tmp; find_loop fuel' k r
      else mret tmp
  end.
Definition RB_FIND (k : Z) : K rb_tree Z := fuel ← kget rb_fuel; root ← RB_ROOT; find_loop fuel k root.

Fixpoint nfind_loop (fuel : nat) (k tmp res : Z) : K rb_tree Z :=
  match fuel with
  | O => kspin
  | S fuel' =>
      if tmp =? 0 then mret res else
      let comp := rb_cmp k tmp in
      if comp <? 0 then l ← RB_LEFT tmp; nfind_loop fuel' k l tmp
      else if 0 <? comp then r ← RB_RIGHT tmp; nfind_loop fuel' k r res
      else mret tmp
  end.
Definition RB_NFIND (k : Z) : K rb_tree Z := fuel ← kget rb_fuel; root ← RB_ROOT; nfind_loop fuel k root 0.
End keyed.

(** ** Traversal *)

(** [while (RB_PARENT(elm) && elm == CHILD(RB_PARENT(elm))) elm = RB_PARENT(elm);
    elm = RB_PARENT(elm)]. *)
Fixpoint climb (fuel : nat) (child : Z → K rb_tree Z) (elm : Z) : K rb_tree Z :=
  match fuel with
  | O => kspin
  | S fuel' =>
      p ← RB_PARENT elm;
      if p =? 0 then mret 0 else
      c ← child p;
      if elm =? c then climb fuel' child p else mret p
  end.

Definition RB_NEXT (elm : Z) : K rb_tree Z :=
  fuel ← kget rb_fuel;
  r ← RB_RIGHT elm;
  if negb (r =? 0) then leftmost fuel r else
  p ← RB_PARENT elm;
  l ← (if p =? 0 then mret 0 else RB_LEFT p);
  if negb (p =? 0) && (elm =? l) then mret p else climb fuel RB_RIGHT elm.

Definition RB_PREV (elm : Z) : K rb_tree Z :=
  fuel ← kget rb_fuel;
  l ← RB_LEFT elm;
  if negb (l =? 0) then rightmost fuel l else
  p ← RB_PARENT elm;
  r ← (if p =? 0 then mret 0 else RB_RIGHT p);
  if negb (p =? 0) && (elm =? r) then mret p else climb fuel RB_LEFT elm.

Fixpoint minmax_loop (fuel : nat) (val tmp parent : Z) : K rb_tree Z :=
  match fuel with
  | O => kspin
  | S fuel' =>
      if tmp =? 0 then mret parent else
      nxt ← (if val <? 0 then RB_LEFT tmp else RB_RIGHT tmp);
      minmax_loop fuel' val nxt tmp
  end.
Definition RB_MINMAX (val : Z) : K rb_tree Z := fuel ← kget rb_fuel; root ← RB_ROOT; minmax_loop fuel val root 0.
