(* ===== verification/RbNode.v ===== *)
(** * Nodes of rank-balanced trees

    The parent field of an element packs the parent's address with the two "red"
    bits; this file gives the effect of every access macro on a node whose field
    is so packed. *)

From S2P Require Export RbTree.

(** ** The packed field *)

Definition bits (bl br : bool) : Z := Z.b2z bl + 2 * Z.b2z br.
(** An address that leaves the two low bits free, or [NULL]. *)
Definition link (p : Z) : Prop := 0 ≤ p < U64 ∧ p mod 4 = 0.

Section pack.
Implicit Types (a c : Z) (x y : bool).

Lemma testbit_pack (f : Z → Z → Z) (g : bool → bool → bool) a c x y :
  (∀ a c i, Z.testbit (f a c) i = g (Z.testbit a i) (Z.testbit c i)) →
  f (2 * a + Z.b2z x) (2 * c + Z.b2z y) = 2 * f a c + Z.b2z (g x y).
Proof.
  intros H. apply Z.bits_inj'. intros i Hi. rewrite H. destruct (decide (i = 0)) as [->|].
  - by rewrite !Z.testbit_0_r.
  - replace i with (Z.succ (Z.pred i)) by lia. rewrite !Z.testbit_succ_r by lia. by rewrite H.
Qed.
Lemma land_pack a c x y : Z.land (2 * a + Z.b2z x) (2 * c + Z.b2z y) = 2 * Z.land a c + Z.b2z (x && y).
Proof. apply testbit_pack. intros. by rewrite Z.land_spec. Qed.
Lemma lor_pack a c x y : Z.lor (2 * a + Z.b2z x) (2 * c + Z.b2z y) = 2 * Z.lor a c + Z.b2z (x || y).
Proof. apply testbit_pack. intros. by rewrite Z.lor_spec. Qed.
Lemma lxor_pack a c x y : Z.lxor (2 * a + Z.b2z x) (2 * c + Z.b2z y) = 2 * Z.lxor a c + Z.b2z (xorb x y).
Proof. apply testbit_pack. intros. by rewrite Z.lxor_spec. Qed.

Lemma pack_up p x y : p mod 4 = 0 → p + bits x y = 2 * (2 * (p / 4) + Z.b2z y) + Z.b2z x.
Proof. unfold bits. intros. Z.div_mod_to_equations. lia. Qed.
Lemma pack_low x y : bits x y = 2 * (2 * 0 + Z.b2z y) + Z.b2z x.
Proof. unfold bits. lia. Qed.

Lemma land_up p x y x' y' : p mod 4 = 0 → Z.land (p + bits x y) (bits x' y') = bits (x && x') (y && y').
Proof. intros Hp. rewrite pack_up, pack_low, !land_pack, Z.land_0_r by done. unfold bits. lia. Qed.
Lemma lxor_up p x y x' y' : p mod 4 = 0 → Z.lxor (p + bits x y) (bits x' y') = p + bits (xorb x x') (xorb y y').
Proof. intros Hp. rewrite pack_up, pack_low, !lxor_pack, Z.lxor_0_r by done. unfold bits. Z.div_mod_to_equations. lia. Qed.
Lemma lor_up p x y : p mod 4 = 0 → Z.lor (bits x y) p = p + bits x y.
Proof.
  intros Hp. rewrite (pack_low x y). replace p with (2 * (2 * (p / 4) + Z.b2z false) + Z.b2z false) at 1 by (simpl; Z.div_mod_to_equations; lia).
  rewrite !lor_pack, Z.lor_0_l. unfold bits. rewrite !orb_false_r. Z.div_mod_to_equations. lia.
Qed.
Lemma land_mask_up p x y : link p → Z.land (p + bits x y) (bnot64 RB_RED_MASK) = p.
Proof.
  intros [Hr Hp]. rewrite pack_up by done.
  replace (bnot64 RB_RED_MASK) with (2 * (2 * Z.ones 62 + Z.b2z false) + Z.b2z false) by done.
  rewrite !land_pack, Z.land_ones, !andb_false_r by lia. unfold U64 in Hr. rewrite Z.mod_small; simpl; Z.div_mod_to_equations; lia.
Qed.
Lemma red_l_up p x y : p mod 4 = 0 → has_flag (p + bits x y) RB_RED_L = x.
Proof. intros. unfold has_flag. change RB_RED_L with (bits true false). rewrite land_up by done. by destruct x, y. Qed.
Lemma red_r_up p x y : p mod 4 = 0 → has_flag (p + bits x y) RB_RED_R = y.
Proof. intros. unfold has_flag. change RB_RED_R with (bits false true). rewrite land_up by done. by destruct x, y. Qed.
End pack.

(** ** A node and the macros on it *)

Abbreviation rb_nodes_map := (gmap Z rb_entry).

(** The element [x] has these children, this parent and these bits. *)
Definition node (m : rb_nodes_map) (x l r p : Z) (bl br : bool) : Prop :=
  x ≠ 0 ∧ link x ∧ link p ∧ m !! x = Some (RbEntry l r (p + bits bl br)).

Section macros.
Implicit Types (m : rb_nodes_map).

Lemma node_lookup m x l r p bl br : node m x l r p bl br → m !! x = Some (RbEntry l r (p + bits bl br)).
Proof. by intros (_ & _ & _ & ?). Qed.
Lemma node_frame m m' x l r p bl br : m' !! x = m !! x → node m x l r p bl br → node m' x l r p bl br.
Proof. intros E (? & ? & ? & ?). by rewrite <- E in *. Qed.
Lemma node_set m x l r p bl br e :
  x ≠ 0 → link x → link p → e = RbEntry l r (p + bits bl br) → node (<[x := e]> m) x l r p bl br.
Proof. intros ? ? ? ->. split_and!; try done. apply lookup_insert_eq. Qed.

Section reads.
Context {root : Z} {m : rb_nodes_map} {x l r p : Z} {bl br : bool} (Hn : node m x l r p bl br).
Let s := RbTree root m.

Lemma rb_node_run : rb_node x s = Done (RbEntry l r (p + bits bl br)) s.
Proof. apply kread_done. exact (node_lookup _ _ _ _ _ _ _ Hn). Qed.
Lemma left_run : RB_LEFT x s = Done l s.
Proof. unfold RB_LEFT. by rewrite (bind_done _ _ _ _ _ rb_node_run). Qed.
Lemma right_run : RB_RIGHT x s = Done r s.
Proof. unfold RB_RIGHT. by rewrite (bind_done _ _ _ _ _ rb_node_run). Qed.
Lemma bits_run : RB_BITS x s = Done (p + bits bl br) s.
Proof. unfold RB_BITS. by rewrite (bind_done _ _ _ _ _ rb_node_run). Qed.
Lemma parent_run : RB_PARENT x s = Done p s.
Proof. unfold RB_PARENT. rewrite (bind_done _ _ _ _ _ bits_run). f_equal. apply land_mask_up. apply Hn. Qed.
Lemma red_left_run : RB_RED_LEFT x s = Done bl s.
Proof. unfold RB_RED_LEFT. rewrite (bind_done _ _ _ _ _ bits_run). f_equal. apply red_l_up. apply Hn. Qed.
Lemma red_right_run : RB_RED_RIGHT x s = Done br s.
Proof. unfold RB_RED_RIGHT. rewrite (bind_done _ _ _ _ _ bits_run). f_equal. apply red_r_up. apply Hn. Qed.

Lemma upd_run f : rb_upd x f s = Done tt (RbTree root (<[x := f (RbEntry l r (p + bits bl br))]> m)).
Proof. apply kupdate_done. simpl. by rewrite (node_lookup _ _ _ _ _ _ _ Hn). Qed.
Lemma set_left_run v : RB_SET_LEFT x v s = Done tt (RbTree root (<[x := RbEntry v r (p + bits bl br)]> m)).
Proof. apply upd_run. Qed.
Lemma set_right_run v : RB_SET_RIGHT x v s = Done tt (RbTree root (<[x := RbEntry l v (p + bits bl br)]> m)).
Proof. apply upd_run. Qed.
Lemma flip_left_run : RB_FLIP_LEFT x s = Done tt (RbTree root (<[x := RbEntry l r (p + bits (negb bl) br)]> m)).
Proof.
  unfold RB_FLIP_LEFT, RB_SET_BITS. rewrite upd_run. unfold set_bits. simpl. change RB_RED_L with (bits true false).
  rewrite lxor_up by apply Hn. by rewrite xorb_true_r, xorb_false_r.
Qed.
Lemma flip_right_run : RB_FLIP_RIGHT x s = Done tt (RbTree root (<[x := RbEntry l r (p + bits bl (negb br))]> m)).
Proof.
  unfold RB_FLIP_RIGHT, RB_SET_BITS. rewrite upd_run. unfold set_bits. simpl. change RB_RED_R with (bits false true).
  rewrite lxor_up by apply Hn. by rewrite xorb_true_r, xorb_false_r.
Qed.
Lemma clear_run : RB_CLEAR x s = Done tt (RbTree root (<[x := RbEntry l r (p + bits false false)]> m)).
Proof.
  unfold RB_CLEAR, RB_SET_BITS. rewrite upd_run. unfold set_bits. simpl. rewrite land_mask_up by apply Hn.
  unfold bits. simpl. by rewrite Z.add_0_r.
Qed.
Lemma set_parent_run q : link q → RB_SET_PARENT x q s = Done tt (RbTree root (<[x := RbEntry l r (q + bits bl br)]> m)).
Proof.
  intros Hq. unfold RB_SET_PARENT, RB_SET_BITS. rewrite upd_run. unfold set_bits. simpl.
  change RB_RED_MASK with (bits true true). rewrite land_up by apply Hn. rewrite !andb_true_r, lor_up by apply Hq. done.
Qed.
End reads.
End macros.
