(* ===== verification/RbSpec.v ===== *)
(** * Trees and their zippers

    A subtree of a store of nodes, with the context that leads to it, and the
    effect of the access macros, of the rotations and of the moves of a loop from
    a node to its parent. *)

From S2P Require Export RbNode.

(** [N bl br l x r]: the element [x], whether its left and right edge are red, and
    its subtrees. *)
Inductive tree := Nil | N (bl br : bool) (l : tree) (x : Z) (r : tree).
(** One step of the way from a subtree to the root: the subtree is the left, or
    the right, child of [x]. *)
Inductive frame :=
| FL (bl br : bool) (x : Z) (r : tree)
| FR (bl br : bool) (l : tree) (x : Z).
Abbreviation ctx := (list frame).

Definition top (t : tree) : Z := match t with Nil => 0 | N _ _ _ x _ => x end.
Fixpoint elems (t : tree) : list Z := match t with Nil => [] | N _ _ l x r => elems l ++ x :: elems r end.
(** The parent of the hole of a context. *)
Definition above (c : ctx) : Z := match c with [] => 0 | FL _ _ x _ :: _ | FR _ _ _ x :: _ => x end.
(** The elements in front of the hole and behind it. *)
Fixpoint before (c : ctx) : list Z :=
  match c with [] => [] | FL _ _ _ _ :: c => before c | FR _ _ l x :: c => before c ++ elems l ++ [x] end.
Fixpoint after (c : ctx) : list Z :=
  match c with [] => [] | FL _ _ x r :: c => x :: elems r ++ after c | FR _ _ _ _ :: c => after c end.
Fixpoint plug (c : ctx) (t : tree) : tree :=
  match c with
  | [] => t
  | FL bl br x r :: c => plug c (N bl br t x r)
  | FR bl br l x :: c => plug c (N bl br l x t)
  end.

(** The subtree [t], below [p], and the context [c], with [y] in its hole. *)
Fixpoint sub (m : rb_nodes_map) (p : Z) (t : tree) : Prop :=
  match t with
  | Nil => True
  | N bl br l x r => node m x (top l) (top r) p bl br ∧ sub m x l ∧ sub m x r
  end.
Fixpoint path (m : rb_nodes_map) (root : Z) (c : ctx) (y : Z) : Prop :=
  match c with
  | [] => root = y
  | FL bl br x r :: c => node m x y (top r) (above c) bl br ∧ sub m x r ∧ path m root c x
  | FR bl br l x :: c => node m x (top l) y (above c) bl br ∧ sub m x l ∧ path m root c x
  end.

(** The store is the tree [plug c t]. *)
Definition zip (s : rb_tree) (c : ctx) (t : tree) : Prop :=
  path (rb_nodes s) (rbh_root s) c (top t) ∧ sub (rb_nodes s) (above c) t ∧ NoDup (before c ++ elems t ++ after c).

Lemma nodup_mid {A} (xs ys : list A) x : NoDup (xs ++ x :: ys) → x ∉ xs ∧ x ∉ ys ∧ NoDup (xs ++ ys).
Proof.
  intros H. rewrite <- Permutation_middle, NoDup_cons, elem_of_app in H. tauto.
Qed.
Lemma nodup_ends {A} (xs ys zs : list A) : NoDup (xs ++ ys ++ zs) → NoDup (xs ++ zs).
Proof. rewrite (app_assoc xs), (Permutation_app_comm xs ys), <- app_assoc, NoDup_app. tauto. Qed.

Section zip.
Implicit Types (m : rb_nodes_map) (s : rb_tree) (c : ctx) (t l r : tree).

Lemma elems_plug c t : elems (plug c t) = before c ++ elems t ++ after c.
Proof.
  revert t. induction c as [|[bl br x r|bl br l x] c IH]; intros t; simpl; [by rewrite app_nil_r|rewrite IH; simpl..].
  - by rewrite <- app_assoc.
  - by rewrite <- !app_assoc.
Qed.

(** ** Frames *)

Lemma sub_frame m m' p t : (∀ x, x ∈ elems t → m' !! x = m !! x) → sub m p t → sub m' p t.
Proof.
  revert p. induction t as [|bl br l IHl x r IHr]; intros p; simpl; [done|]. intros E (Hn & Hl & Hr). split_and!.
  - apply (node_frame m); [apply E; set_solver|done].
  - apply IHl; [|done]. intros y Hy. apply E. set_solver.
  - apply IHr; [|done]. intros y Hy. apply E. set_solver.
Qed.
Lemma path_frame m m' root c y :
  (∀ x, x ∈ before c ++ after c → m' !! x = m !! x) → path m root c y → path m' root c y.
Proof.
  revert y. induction c as [|[bl br x r|bl br l x] c IH]; intros y; simpl; [done|intros E (Hn & Hs & Hp); split_and!..].
  1,4: apply (node_frame m); [apply E; set_solver|done].
  1,3: apply (sub_frame m); [|done]; intros z Hz; apply E; set_solver.
  all: apply IH; [|done]; intros z Hz; apply E; set_solver.
Qed.

Lemma link_0 : link 0.
Proof. by split. Qed.
Lemma link_above m root c y : path m root c y → link (above c).
Proof. destruct c as [|[bl br x r|bl br l x] c]; simpl; [intros; apply link_0|intros ((_ & H & _) & _); exact H..]. Qed.

(** ** Moves *)

Lemma zip_left s c bl br l x r : zip s c (N bl br l x r) ↔ zip s (FL bl br x r :: c) l.
Proof. unfold zip. simpl. rewrite <- app_assoc. simpl. tauto. Qed.
Lemma zip_right s c bl br l x r : zip s c (N bl br l x r) ↔ zip s (FR bl br l x :: c) r.
Proof. unfold zip. simpl. rewrite <- !app_assoc. simpl. tauto. Qed.
Lemma up_left s c bl br l x r : zip s (FL bl br x r :: c) l → zip s c (N bl br l x r).
Proof. apply zip_left. Qed.
Lemma up_right s c bl br l x r : zip s (FR bl br l x :: c) r → zip s c (N bl br l x r).
Proof. apply zip_right. Qed.
Lemma down_left s c bl br l x r : zip s c (N bl br l x r) → zip s (FL bl br x r :: c) l.
Proof. apply zip_left. Qed.
Lemma down_right s c bl br l x r : zip s c (N bl br l x r) → zip s (FR bl br l x :: c) r.
Proof. apply zip_right. Qed.
Lemma zip_close s c t : zip s c t ↔ zip s [] (plug c t).
Proof.
  revert t. induction c as [|[bl br x r|bl br l x] c IH]; intros t; simpl; [done|rewrite <- IH..].
  - symmetry. apply zip_left.
  - symmetry. apply zip_right.
Qed.
Lemma zip_node s c bl br l x r : zip s c (N bl br l x r) → node (rb_nodes s) x (top l) (top r) (above c) bl br.
Proof. intros (_ & (H & _) & _). exact H. Qed.
Lemma zip_nodup s c bl br l x r :
  zip s c (N bl br l x r) → x ∉ before c ∧ x ∉ after c ∧ x ∉ elems l ∧ x ∉ elems r ∧ NoDup (before c ++ after c).
Proof.
  intros (_ & _ & H). simpl in H. rewrite <- app_assoc, app_assoc in H. simpl in H. apply nodup_mid in H as (H1 & H2 & H).
  rewrite elem_of_app in H1, H2. split_and!; try tauto.
  rewrite <- app_assoc, (app_assoc (elems l)) in H. by apply nodup_ends in H.
Qed.

Lemma keeps m x e (xs : list Z) : x ∉ xs → ∀ z, z ∈ xs → <[x := e]> m !! z = m !! z.
Proof. intros Hx z Hz. apply lookup_insert_ne. by intros ->. Qed.

(** A change of the bits of the top element. *)
Lemma zip_bits root m c bl br bl' br' l x r :
  zip (RbTree root m) c (N bl br l x r) →
  zip (RbTree root (<[x := RbEntry (top l) (top r) (above c + bits bl' br')]> m)) c (N bl' br' l x r).
Proof.
  intros Hz. destruct (zip_nodup _ _ _ _ _ _ _ Hz) as (Hb & Ha & Hl & Hr & _). destruct (zip_node _ _ _ _ _ _ _ Hz) as (Hx & Lx & Lp & _).
  destruct Hz as (Hp & (_ & Sl & Sr) & Hnd). split_and!; [|split_and!|done]; simpl.
  - apply (path_frame m); [|done]. apply keeps. rewrite elem_of_app. tauto.
  - by apply node_set.
  - apply (sub_frame m); [|done]. by apply keeps.
  - apply (sub_frame m); [|done]. by apply keeps.
Qed.

Lemma top_elem t : t ≠ Nil → top t ∈ elems t.
Proof. destruct t as [|bl br l x r]; [done|]. intros _. simpl. apply elem_of_app. right. by left. Qed.
Lemma top_ne0 m p t : sub m p t → t ≠ Nil → top t ≠ 0.
Proof. destruct t; [done|]. intros ((? & _) & _) _. done. Qed.
Lemma zip_top_ne s c bl br l x r : zip s (FR bl br l x :: c) r → r ≠ Nil → top l ≠ top r.
Proof.
  intros (_ & Hs & Hnd) Hr E. apply NoDup_app in Hnd as (_ & Hnd & _). destruct l as [|b1 b2 ll y lr] eqn:El.
  - by apply (top_ne0 _ _ _ Hs Hr).
  - apply (Hnd y); simpl.
    + rewrite !elem_of_app. right. left. right. by left.
    + simpl in E. rewrite E. apply elem_of_app. left. by apply top_elem.
Qed.

(** ** Rotations *)

Lemma reparent_run root m p q t :
  sub m p t → NoDup (elems t) → link q →
  ∃ m', (if negb (top t =? 0) then RB_SET_PARENT (top t) q else mret tt) (RbTree root m) = Done tt (RbTree root m') ∧
    sub m' q t ∧ (∀ z, z ∉ elems t → m' !! z = m !! z).
Proof.
  destruct t as [|bl br l x r]; [by exists m|]. intros (Hn & Hl & Hr) Hnd Hq. simpl top.
  rewrite (proj2 (Z.eqb_neq _ _)) by apply Hn. simpl negb. cbn iota. simpl in Hnd. apply nodup_mid in Hnd as (Xl & Xr & _).
  eexists. split; [by apply (set_parent_run Hn)|]. split.
  - split_and!.
    + destruct Hn as (? & ? & _). by apply node_set.
    + apply (sub_frame m); [by apply keeps|done].
    + apply (sub_frame m); [by apply keeps|done].
  - intros z Hz. apply lookup_insert_ne. intros <-. apply Hz. apply elem_of_app. right. by left.
Qed.

Lemma swap_child_run root m c lo ro bl br out inn :
  path m root c out → node m out lo ro (above c) bl br → out ∉ before c → NoDup (before c ++ after c) →
  ∃ root' m', RB_SWAP_CHILD out inn (RbTree root m) = Done tt (RbTree root' m') ∧ path m' root' c inn ∧
    (∀ z, z ∉ before c ++ after c → m' !! z = m !! z).
Proof.
  intros Hp Ho Hout Hnd. unfold RB_SWAP_CHILD. rewrite (bind_done _ _ _ _ _ (parent_run Ho)).
  destruct c as [|[b1 b2 x t|b1 b2 t x] c]; simpl above.
  - exists inn, m. done.
  - destruct Hp as (Hn & Hs & Hp). rewrite (proj2 (Z.eqb_neq _ _)) by apply Hn. rewrite (bind_done _ _ _ _ _ (left_run Hn)).
    rewrite Z.eqb_refl. eexists _, _. split; [by apply (set_left_run Hn)|]. simpl in Hnd.
    apply nodup_mid in Hnd as (Xb & Xa & Hnd). rewrite elem_of_app in Xa. split.
    + split_and!; [destruct Hn as (? & ? & ? & _); by apply node_set| |].
      * apply (sub_frame m); [apply keeps; tauto|done].
      * apply (path_frame m); [apply keeps; rewrite elem_of_app; tauto|done].
    + intros z Hz. apply lookup_insert_ne. intros <-. apply Hz. apply elem_of_app. right. by left.
  - destruct Hp as (Hn & Hs & Hp). rewrite (proj2 (Z.eqb_neq _ _)) by apply Hn. rewrite (bind_done _ _ _ _ _ (left_run Hn)).
    rewrite (proj2 (Z.eqb_neq _ _)).
    2: { intros ->. destruct t as [|b3 b4 tl y tr]; [by apply (proj1 Ho)|]. apply Hout. simpl. rewrite !elem_of_app. right. left. right. by left. }
    eexists _, _. split; [by apply (set_right_run Hn)|]. simpl in Hnd.
    rewrite <- !app_assoc in Hnd. simpl in Hnd. rewrite app_assoc in Hnd. apply nodup_mid in Hnd as (Xb & Xa & Hnd). rewrite elem_of_app in Xb. split.
    + split_and!; [destruct Hn as (? & ? & ? & _); by apply node_set| |].
      * apply (sub_frame m); [apply keeps; tauto|done].
      * apply (path_frame m); [apply keeps; rewrite elem_of_app; tauto|done].
    + intros z Hz. apply lookup_insert_ne. intros <-. apply Hz. simpl. rewrite !elem_of_app. left. right. right. by left.
Qed.

(** The elements around an edge that is rotated. *)
Definition apart (B A L M R : list Z) (e f : Z) : Prop :=
  e ≠ f ∧ (e ∉ B ++ A ∧ e ∉ L ∧ e ∉ M ∧ e ∉ R) ∧ (f ∉ B ++ A ∧ f ∉ L ∧ f ∉ M ∧ f ∉ R) ∧
  NoDup (B ++ A) ∧ NoDup M ∧
  (∀ z, z ∈ B ++ A → z ∉ L ∧ z ∉ M ∧ z ∉ R) ∧ (∀ z, z ∈ L → z ∉ M) ∧ (∀ z, z ∈ R → z ∉ M).
Lemma apart_intro B A L M R e f : NoDup (e :: f :: (B ++ A) ++ L ++ M ++ R) → apart B A L M R e f.
Proof.
  rewrite !NoDup_cons, (NoDup_app (B ++ A)), (NoDup_app L), (NoDup_app M). rewrite elem_of_cons.
  intros (He & Hf & HBA & HX & HL & HY & HM & HZ & HR). split_and!; try done.
  - intros ->. apply He. by left.
  - clear -He. set_solver.
  - clear -He. set_solver.
  - clear -He. set_solver.
  - clear -He. set_solver.
  - clear -Hf. set_solver.
  - clear -Hf. set_solver.
  - clear -Hf. set_solver.
  - clear -Hf. set_solver.
  - clear -HX. set_solver.
  - clear -HY. set_solver.
  - clear -HZ. set_solver.
Qed.

(** What the last writes of a rotation leave: the rotated edge, in the hole of a
    context that was linked to [f], below which nothing else was touched. *)
Lemma rotated root m4 m c b1 b2 b3 b4 e f L M R (u : tree) :
  apart (before c) (after c) (elems L) (elems M) (elems R) e f → link e → e ≠ 0 → link f → f ≠ 0 →
  path m4 root c f → sub m e L → sub m4 e M → sub m f R →
  (∀ z, z ∈ elems L ++ elems R → m4 !! z = m !! z) →
  (u = N b3 b4 (N b1 b2 L e M) f R ∧ NoDup (before c ++ elems u ++ after c) →
   zip (RbTree root (<[e := RbEntry (top L) (top M) (f + bits b1 b2)]> (<[f := RbEntry e (top R) (above c + bits b3 b4)]> m4))) c u) ∧
  (u = N b3 b4 R f (N b1 b2 M e L) ∧ NoDup (before c ++ elems u ++ after c) →
   zip (RbTree root (<[e := RbEntry (top M) (top L) (f + bits b1 b2)]> (<[f := RbEntry (top R) e (above c + bits b3 b4)]> m4))) c u).
Proof.
  intros (Hef & (e1 & e2 & e3 & e4) & (f1 & f2 & f3 & f4) & _) Le E0 Lf F0 Hp Sl Sm Sr Hk.
  assert (La : link (above c)) by by eapply link_above.
  assert (Hkeep : ∀ x y z, z ≠ e → z ≠ f → <[e := x]> (<[f := y]> m4) !! z = m4 !! z) by (intros; by rewrite !lookup_insert_ne).
  assert (Hs : ∀ p t x y, e ∉ elems t → f ∉ elems t → (∀ z, z ∈ elems t → m4 !! z = m !! z) → sub m p t → sub (<[e := x]> (<[f := y]> m4)) p t).
  { intros p t x y X1 X2 X3. apply sub_frame. intros z Hz. rewrite Hkeep; [by apply X3|by intros ->..]. }
  assert (HsM : ∀ x y, sub (<[e := x]> (<[f := y]> m4)) e M).
  { intros x y. apply (sub_frame m4); [|done]. intros z Hz. apply Hkeep; by intros ->. }
  assert (Hpath : ∀ x y, path (<[e := x]> (<[f := y]> m4)) root c f).
  { intros x y. apply (path_frame m4); [|done]. intros z Hz. apply Hkeep; by intros ->. }
  assert (HL : ∀ x y, sub (<[e := x]> (<[f := y]> m4)) e L) by (intros; apply Hs; try done; intros z Hz; apply Hk, elem_of_app; by left).
  assert (HR : ∀ x y, sub (<[e := x]> (<[f := y]> m4)) f R) by (intros; apply Hs; try done; intros z Hz; apply Hk, elem_of_app; by right).
  assert (Hf : ∀ x u1 u2, node (<[e := x]> (<[f := RbEntry u1 u2 (above c + bits b3 b4)]> m4)) f u1 u2 (above c) b3 b4).
  { intros. split_and!; try done. by rewrite lookup_insert_ne, lookup_insert_eq. }
  assert (He : ∀ y u1 u2, node (<[e := RbEntry u1 u2 (f + bits b1 b2)]> (<[f := y]> m4)) e u1 u2 f b1 b2).
  { intros. split_and!; try done. by rewrite lookup_insert_eq. }
  split; intros [-> Hnd]; (split_and!; [apply Hpath| |exact Hnd]); simpl; split_and!; auto.
Qed.

(** The first writes of a rotation: the middle subtree moves under [e], and the
    context is linked to [f]. *)
Lemma rotating root m c e f b1 b2 b3 b4 lo ro lo' ro' L M R :
  apart (before c) (after c) (elems L) (elems M) (elems R) e f →
  path m root c e → node m e lo ro (above c) b1 b2 → node m f lo' ro' e b3 b4 → sub m f M →
  ∀ x y, ∃ root' m4,
    (∀ B (k : K rb_tree B),
      ((if negb (top M =? 0) then RB_SET_PARENT (top M) e else mret tt);;
       p ← RB_PARENT e; RB_SET_PARENT f p;; RB_SWAP_CHILD e f;; k)
        (RbTree root (<[e := RbEntry x y (above c + bits b1 b2)]> m)) = k (RbTree root' m4)) ∧
    path m4 root' c f ∧ sub m4 e M ∧ node m4 e x y (above c) b1 b2 ∧ node m4 f lo' ro' (above c) b3 b4 ∧
    (∀ z, z ∈ elems L ++ elems R → m4 !! z = m !! z).
Proof.
  intros (Hef & (e1 & e2 & e3 & e4) & (f1 & f2 & f3 & f4) & HBA & HM & HX & HL & HR) Hp He Hf Sm x y.
  pose proof He as (E0 & Le & La & _). set (m1 := <[e := _]> m).
  assert (H1 : sub m1 f M) by (apply (sub_frame m); [by apply keeps|done]).
  destruct (reparent_run root m1 f e M H1 HM Le) as (m2 & R2 & S2 & K2).
  assert (E2 : node m2 e x y (above c) b1 b2) by (apply (node_frame m1); [by apply K2|by apply node_set]).
  assert (F2 : node m2 f lo' ro' e b3 b4).
  { apply (node_frame m); [|done]. rewrite K2 by done. unfold m1. by rewrite lookup_insert_ne. }
  set (m3 := <[f := RbEntry lo' ro' (above c + bits b3 b4)]> m2).
  assert (E3 : node m3 e x y (above c) b1 b2) by (apply (node_frame m2); [by apply lookup_insert_ne|done]).
  assert (P3 : path m3 root c e).
  { apply (path_frame m); [|done]. intros z Hz. destruct (HX z Hz) as (_ & ? & _). unfold m3, m1 in *.
    rewrite lookup_insert_ne by (by intros ->). rewrite K2 by done. apply lookup_insert_ne. by intros ->. }
  destruct (swap_child_run root m3 c x y b1 b2 e f P3 E3) as (root' & m4 & R4 & P4 & K4); [|done|].
  { intros H. apply e1, elem_of_app. by left. }
  exists root', m4. split_and!; [|done|..].
  - intros B k. rewrite (bind_done _ _ _ _ _ R2), (bind_done _ _ _ _ _ (parent_run E2)).
    rewrite (bind_done _ _ _ _ _ (set_parent_run F2 (above c) La)). by rewrite (bind_done _ _ _ _ _ R4).
  - apply (sub_frame m2); [|done]. intros z Hz. rewrite K4 by (intros H; by destruct (HX z H) as (_ & ? & _)).
    apply lookup_insert_ne. by intros ->.
  - apply (node_frame m3); [by apply K4|done].
  - apply (node_frame m3); [by apply K4|]. apply node_set; try done; apply Hf.
  - intros z Hz. assert (Hm : z ∉ elems M ∧ z ∉ before c ++ after c ∧ z ≠ e ∧ z ≠ f).
    { apply elem_of_app in Hz as [Hz|Hz]; (split_and!; [by auto|intros H; by destruct (HX z H) as (? & _ & ?)|by intros ->..]). }
    destruct Hm as (? & ? & ? & ?). rewrite K4 by done. unfold m3, m1 in *. rewrite lookup_insert_ne by done. rewrite K2 by done.
    by apply lookup_insert_ne.
Qed.

Lemma rotate_left_run root m c b1 b2 b3 b4 e f L M R :
  zip (RbTree root m) c (N b1 b2 L e (N b3 b4 M f R)) →
  ∃ s', RB_ROTATE_LEFT e (RbTree root m) = Done f s' ∧ zip s' c (N b3 b4 (N b1 b2 L e M) f R).
Proof.
  intros (Hp & (He & Sl & Hf & Sm & Sr) & Hnd). cbn [rb_nodes rbh_root top] in *.
  assert (Ha : apart (before c) (after c) (elems L) (elems M) (elems R) e f).
  { apply apart_intro. revert Hnd. simpl. apply NoDup_Permutation_proper. solve_Permutation. }
  destruct (rotating root m c e f b1 b2 b3 b4 _ _ _ _ L M R Ha Hp He Hf Sm (top L) (top M)) as (root' & m4 & E4 & P4 & S4 & E & F & K4).
  assert (E5 : node (<[f := RbEntry e (top R) (above c + bits b3 b4)]> m4) e (top L) (top M) (above c) b1 b2).
  { apply (node_frame m4); [|done]. apply lookup_insert_ne. intros ->. by destruct Ha as [? _]. }
  eexists. split.
  - unfold RB_ROTATE_LEFT. rewrite (bind_done _ _ _ _ _ (right_run He)), (bind_done _ _ _ _ _ (left_run Hf)).
    rewrite (bind_done _ _ _ _ _ (set_right_run He _)), E4. rewrite (bind_done _ _ _ _ _ (set_left_run F e)).
    rewrite (bind_done _ _ _ _ _ (set_parent_run E5 f (proj1 (proj2 Hf)))). reflexivity.
  - refine (proj1 (rotated root' m4 m c b1 b2 b3 b4 e f L M R _ Ha _ _ _ _ P4 Sl S4 Sr K4) _); try apply He; try apply Hf.
    split; [done|]. revert Hnd. apply NoDup_Permutation_proper. simpl. solve_Permutation.
Qed.

Lemma rotate_right_run root m c b1 b2 b3 b4 e f L M R :
  zip (RbTree root m) c (N b1 b2 (N b3 b4 R f M) e L) →
  ∃ s', RB_ROTATE_RIGHT e (RbTree root m) = Done f s' ∧ zip s' c (N b3 b4 R f (N b1 b2 M e L)).
Proof.
  intros (Hp & (He & (Hf & Sr & Sm) & Sl) & Hnd). cbn [rb_nodes rbh_root top] in *.
  assert (Ha : apart (before c) (after c) (elems L) (elems M) (elems R) e f).
  { apply apart_intro. revert Hnd. simpl. apply NoDup_Permutation_proper. solve_Permutation. }
  destruct (rotating root m c e f b1 b2 b3 b4 _ _ _ _ L M R Ha Hp He Hf Sm (top M) (top L)) as (root' & m4 & E4 & P4 & S4 & E & F & K4).
  assert (E5 : node (<[f := RbEntry (top R) e (above c + bits b3 b4)]> m4) e (top M) (top L) (above c) b1 b2).
  { apply (node_frame m4); [|done]. apply lookup_insert_ne. intros ->. by destruct Ha as [? _]. }
  eexists. split.
  - unfold RB_ROTATE_RIGHT. rewrite (bind_done _ _ _ _ _ (left_run He)), (bind_done _ _ _ _ _ (right_run Hf)).
    rewrite (bind_done _ _ _ _ _ (set_left_run He _)), E4. rewrite (bind_done _ _ _ _ _ (set_right_run F e)).
    rewrite (bind_done _ _ _ _ _ (set_parent_run E5 f (proj1 (proj2 Hf)))). reflexivity.
  - refine (proj2 (rotated root' m4 m c b1 b2 b3 b4 e f L M R _ Ha _ _ _ _ P4 Sl S4 Sr K4) _); try apply He; try apply Hf.
    split; [done|]. revert Hnd. apply NoDup_Permutation_proper. simpl. solve_Permutation.
Qed.
End zip.
