(* ===== verification/RbInsert.v ===== *)
(** * Insertion into rank-balanced trees

    Every element has a rank; the red bit of an edge says whether the ranks at its
    ends differ by two or by one.  [RB_INSERT_COLOR] restores this after a new
    leaf, and keeps the order of the elements. *)

From stdpp Require Export sorting.
From S2P Require Export RbSpec.
#[local] Open Scope Z_scope.

(** ** Ranks *)

(** [t] has rank [h]; a leaf has rank 1. *)
Fixpoint ranked (t : tree) (h : Z) : Prop :=
  match t with
  | Nil => h = 0
  | N bl br l x r => ranked l (h - 1 - Z.b2z bl) ∧ ranked r (h - 1 - Z.b2z br) ∧ (l = Nil → r = Nil → h = 1)
  end.
(** The context is balanced when a subtree of rank [k] is in its hole. *)
Fixpoint cranked (c : ctx) (k : Z) : Prop :=
  match c with
  | [] => True
  | FL bl br x r :: c =>
      let h := k + 1 + Z.b2z bl in ranked r (h - 1 - Z.b2z br) ∧ (k = 0 → r = Nil → h = 1) ∧ cranked c h
  | FR bl br l x :: c =>
      let h := k + 1 + Z.b2z br in ranked l (h - 1 - Z.b2z bl) ∧ (k = 0 → l = Nil → h = 1) ∧ cranked c h
  end.
(** A tree whose rank has just grown by one: a new leaf, or a promoted element
    with one red edge, whose other child has just grown. *)
Fixpoint fresh (t : tree) : Prop :=
  match t with
  | Nil => False
  | N bl br l x r =>
      (bl = false ∧ br = false ∧ l = Nil ∧ r = Nil) ∨ (bl = false ∧ br = true ∧ fresh l) ∨ (bl = true ∧ br = false ∧ fresh r)
  end.

(** A balanced search tree in the store. *)
Definition rb_ok (s : rb_tree) (t : tree) : Prop := zip s [] t ∧ ∃ h, ranked t h.

Section insert.
Implicit Types (s : rb_tree) (c : ctx) (t l r : tree).

Lemma ranked_nonneg t h : ranked t h → 0 ≤ h.
Proof.
  revert h. induction t as [|bl br l IHl x r IHr]; intros h; simpl; [lia|]. intros (Hl & _). apply IHl in Hl. destruct bl; simpl in Hl; lia.
Qed.
Lemma ranked_nil t h : ranked t h → (h = 0 ↔ t = Nil).
Proof.
  destruct t as [|bl br l x r]; [done|]. intros (Hl%ranked_nonneg & _). split; [|done]. destruct bl; simpl in Hl; lia.
Qed.
Lemma ranked_plug c t k : ranked t k → cranked c k → ∃ h, ranked (plug c t) h.
Proof.
  revert t k. induction c as [|[bl br x r|bl br l x] c IH]; intros t k Ht; simpl; [by exists k| |].
  - intros (Hr & Hn & Hc). refine (IH _ _ _ Hc). simpl. split_and!; [|done|].
    + by replace (k + 1 + Z.b2z bl - 1 - Z.b2z bl) with k by lia.
    + intros Et. apply Hn. by apply (ranked_nil t).
  - intros (Hl & Hn & Hc). refine (IH _ _ _ Hc). simpl. split_and!; [done| |].
    + by replace (k + 1 + Z.b2z br - 1 - Z.b2z br) with k by lia.
    + intros El Et. apply Hn; [by apply (ranked_nil t)|done].
Qed.

(** ** Flips *)

Lemma flip_left_zip s c bl br l x r :
  zip s c (N bl br l x r) → ∃ s', RB_FLIP_LEFT x s = Done tt s' ∧ zip s' c (N (negb bl) br l x r).
Proof.
  destruct s as [root m]. intros Hz. eexists. split; [exact (flip_left_run (zip_node _ _ _ _ _ _ _ Hz))|by eapply zip_bits].
Qed.
Lemma flip_right_zip s c bl br l x r :
  zip s c (N bl br l x r) → ∃ s', RB_FLIP_RIGHT x s = Done tt s' ∧ zip s' c (N bl (negb br) l x r).
Proof.
  destruct s as [root m]. intros Hz. eexists. split; [exact (flip_right_run (zip_node _ _ _ _ _ _ _ Hz))|by eapply zip_bits].
Qed.
Lemma clear_zip s c bl br l x r :
  zip s c (N bl br l x r) → ∃ s', RB_CLEAR x s = Done tt s' ∧ zip s' c (N false false l x r).
Proof.
  destruct s as [root m]. intros Hz. eexists. split; [exact (clear_run (zip_node _ _ _ _ _ _ _ Hz))|by eapply zip_bits].
Qed.
Lemma rotate_left_zip s c b1 b2 b3 b4 e f L M R :
  zip s c (N b1 b2 L e (N b3 b4 M f R)) →
  ∃ s', RB_ROTATE_LEFT e s = Done f s' ∧ zip s' c (N b3 b4 (N b1 b2 L e M) f R).
Proof. destruct s. apply rotate_left_run. Qed.
Lemma rotate_right_zip s c b1 b2 b3 b4 e f L M R :
  zip s c (N b1 b2 (N b3 b4 R f M) e L) →
  ∃ s', RB_ROTATE_RIGHT e s = Done f s' ∧ zip s' c (N b3 b4 R f (N b1 b2 M e L)).
Proof. destruct s. apply rotate_right_run. Qed.

Section reads.
Context {s c bl br l x r} (Hz : zip s c (N bl br l x r)).
Lemma zip_red_left : RB_RED_LEFT x s = Done bl s.
Proof. destruct s. exact (red_left_run (zip_node _ _ _ _ _ _ _ Hz)). Qed.
Lemma zip_red_right : RB_RED_RIGHT x s = Done br s.
Proof. destruct s. exact (red_right_run (zip_node _ _ _ _ _ _ _ Hz)). Qed.
Lemma zip_left_child : RB_LEFT x s = Done (top l) s.
Proof. destruct s. exact (left_run (zip_node _ _ _ _ _ _ _ Hz)). Qed.
Lemma zip_right_child : RB_RIGHT x s = Done (top r) s.
Proof. destruct s. exact (right_run (zip_node _ _ _ _ _ _ _ Hz)). Qed.
Lemma zip_parent : RB_PARENT x s = Done (above c) s.
Proof. destruct s. exact (parent_run (zip_node _ _ _ _ _ _ _ Hz)). Qed.
Lemma zip_ne0 : x ≠ 0.
Proof. apply (zip_node _ _ _ _ _ _ _ Hz). Qed.
End reads.

Lemma zip_above s bl br x r c t : zip s (FL bl br x r :: c) t → x ≠ 0.
Proof. intros Hz%up_left. exact (zip_ne0 Hz). Qed.
Lemma zip_above_r s bl br l x c t : zip s (FR bl br l x :: c) t → x ≠ 0.
Proof. intros Hz%up_right. exact (zip_ne0 Hz). Qed.

(** ** The rotations of an insertion *)

(** The end of the loop body for a left child, and its mirror image. *)
Definition settle_left (parent elm : Z) : K rb_tree unit :=
  red ← RB_RED_RIGHT elm;
  (if negb red then
     RB_FLIP_LEFT elm;;
     child ← RB_ROTATE_LEFT elm;
     cl ← RB_RED_LEFT child;
     (if (cl : bool) then RB_FLIP_RIGHT elm
      else cr ← RB_RED_RIGHT child;
           if (cr : bool) then RB_FLIP_LEFT parent else mret tt)
   else mret tt);;
  elm ← RB_ROTATE_RIGHT parent;
  RB_CLEAR elm.
Definition settle_right (parent elm : Z) : K rb_tree unit :=
  red ← RB_RED_LEFT elm;
  (if negb red then
     RB_FLIP_RIGHT elm;;
     child ← RB_ROTATE_RIGHT elm;
     cr ← RB_RED_RIGHT child;
     (if (cr : bool) then RB_FLIP_LEFT elm
      else cl ← RB_RED_LEFT child;
           if (cl : bool) then RB_FLIP_RIGHT parent else mret tt)
   else mret tt);;
  elm ← RB_ROTATE_LEFT parent;
  RB_CLEAR elm.

Lemma rotate_clear_right s c b1 b2 b3 b4 e f L M R :
  zip s c (N b1 b2 (N b3 b4 R f M) e L) →
  ∃ s', (elm ← RB_ROTATE_RIGHT e; RB_CLEAR elm) s = Done tt s' ∧ zip s' c (N false false R f (N b1 b2 M e L)).
Proof.
  intros Hz. destruct (rotate_right_zip _ _ _ _ _ _ _ _ _ _ _ Hz) as (s1 & E1 & Z1).
  destruct (clear_zip _ _ _ _ _ _ _ Z1) as (s2 & E2 & Z2). exists s2. by rewrite (bind_done _ _ _ _ _ E1).
Qed.
Lemma rotate_clear_left s c b1 b2 b3 b4 e f L M R :
  zip s c (N b1 b2 L e (N b3 b4 M f R)) →
  ∃ s', (elm ← RB_ROTATE_LEFT e; RB_CLEAR elm) s = Done tt s' ∧ zip s' c (N false false (N b1 b2 L e M) f R).
Proof.
  intros Hz. destruct (rotate_left_zip _ _ _ _ _ _ _ _ _ _ _ Hz) as (s1 & E1 & Z1).
  destruct (clear_zip _ _ _ _ _ _ _ Z1) as (s2 & E2 & Z2). exists s2. by rewrite (bind_done _ _ _ _ _ E1).
Qed.

Lemma settle_left_single s c b1 b2 tl e tr x r :
  zip s c (N b1 b2 (N false true tl e tr) x r) →
  ∃ s', settle_left x e s = Done tt s' ∧ zip s' c (N false false tl e (N b1 b2 tr x r)).
Proof.
  intros Hz. pose proof (down_left _ _ _ _ _ _ _ Hz) as Hl. unfold settle_left.
  rewrite (bind_done _ _ _ _ _ (zip_red_right Hl)). cbn [negb]. rewrite (bind_done _ _ s tt s) by done. by eapply rotate_clear_right.
Qed.
Lemma settle_right_single s c b1 b2 l x tl e tr :
  zip s c (N b1 b2 l x (N true false tl e tr)) →
  ∃ s', settle_right x e s = Done tt s' ∧ zip s' c (N false false (N b1 b2 l x tl) e tr).
Proof.
  intros Hz. pose proof (down_right _ _ _ _ _ _ _ Hz) as Hl. unfold settle_right.
  rewrite (bind_done _ _ _ _ _ (zip_red_left Hl)). cbn [negb]. rewrite (bind_done _ _ s tt s) by done. by eapply rotate_clear_left.
Qed.

Lemma settle_left_double s c b3 b4 tl e cl d cr x r :
  b3 && b4 = false → zip s c (N false false (N true false tl e (N b3 b4 cl d cr)) x r) →
  ∃ s', settle_left x e s = Done tt s' ∧ zip s' c (N false false (N false b3 tl e cl) d (N b4 false cr x r)).
Proof.
  intros Hb Hz. pose proof (down_left _ _ _ _ _ _ _ Hz) as Hl. unfold settle_left.
  rewrite (bind_done _ _ _ _ _ (zip_red_right Hl)). cbn [negb].
  destruct (flip_left_zip _ _ _ _ _ _ _ Hl) as (s1 & E1 & Z1). destruct (rotate_left_zip _ _ _ _ _ _ _ _ _ _ _ Z1) as (s2 & E2 & Z2).
  assert (Hfix : ∃ s3, (cl ← RB_RED_LEFT d; if (cl : bool) then RB_FLIP_RIGHT e
                        else cr ← RB_RED_RIGHT d; if (cr : bool) then RB_FLIP_LEFT x else mret tt) s2 = Done tt s3 ∧
                 zip s3 c (N b4 false (N b3 b4 (N false b3 tl e cl) d cr) x r)).
  { rewrite (bind_done _ _ _ _ _ (zip_red_left Z2)). destruct b3.
    - destruct b4; [done|]. apply down_left in Z2. destruct (flip_right_zip _ _ _ _ _ _ _ Z2) as (s3 & E3 & Z3).
      exists s3. split; [done|]. by apply up_left, up_left.
    - rewrite (bind_done _ _ _ _ _ (zip_red_right Z2)). apply up_left in Z2. destruct b4; [|by exists s2].
      by destruct (flip_left_zip _ _ _ _ _ _ _ Z2) as (s3 & E3 & Z3); exists s3. }
  destruct Hfix as (s3 & E3 & Z3). destruct (rotate_clear_right _ _ _ _ _ _ _ _ _ _ _ Z3) as (s4 & E4 & Z4).
  exists s4. split; [|done]. rewrite (bind_done _ _ s tt s3); [done|].
  by rewrite (bind_done _ _ _ _ _ E1), (bind_done _ _ _ _ _ E2).
Qed.
Lemma settle_right_double s c b3 b4 l x cl d cr e tr :
  b3 && b4 = false → zip s c (N false false l x (N false true (N b3 b4 cl d cr) e tr)) →
  ∃ s', settle_right x e s = Done tt s' ∧ zip s' c (N false false (N false b3 l x cl) d (N b4 false cr e tr)).
Proof.
  intros Hb Hz. pose proof (down_right _ _ _ _ _ _ _ Hz) as Hl. unfold settle_right.
  rewrite (bind_done _ _ _ _ _ (zip_red_left Hl)). cbn [negb].
  destruct (flip_right_zip _ _ _ _ _ _ _ Hl) as (s1 & E1 & Z1). destruct (rotate_right_zip _ _ _ _ _ _ _ _ _ _ _ Z1) as (s2 & E2 & Z2).
  assert (Hfix : ∃ s3, (cr ← RB_RED_RIGHT d; if (cr : bool) then RB_FLIP_LEFT e
                        else cl ← RB_RED_LEFT d; if (cl : bool) then RB_FLIP_RIGHT x else mret tt) s2 = Done tt s3 ∧
                 zip s3 c (N false b3 l x (N b3 b4 cl d (N b4 false cr e tr)))).
  { rewrite (bind_done _ _ _ _ _ (zip_red_right Z2)). destruct b4.
    - destruct b3; [done|]. apply down_right in Z2. destruct (flip_left_zip _ _ _ _ _ _ _ Z2) as (s3 & E3 & Z3).
      exists s3. split; [done|]. by apply up_right, up_right.
    - rewrite (bind_done _ _ _ _ _ (zip_red_left Z2)). apply up_right in Z2. destruct b3; [|by exists s2].
      by destruct (flip_right_zip _ _ _ _ _ _ _ Z2) as (s3 & E3 & Z3); exists s3. }
  destruct Hfix as (s3 & E3 & Z3). destruct (rotate_clear_left _ _ _ _ _ _ _ _ _ _ _ Z3) as (s4 & E4 & Z4).
  exists s4. split; [|done]. rewrite (bind_done _ _ s tt s3); [done|].
  by rewrite (bind_done _ _ _ _ _ E1), (bind_done _ _ _ _ _ E2).
Qed.

(** The ranks after the rotations. *)
Lemma settled_left s c k br t x r (elm : Z) :
  top t = elm → zip s c (N false false t x r) → br = true → fresh t → ranked t (k + 1) → ranked r (k + 1 - 1 - Z.b2z br) →
  ∃ s' t', settle_left x elm s = Done tt s' ∧ zip s' c t' ∧ ranked t' (k + 1) ∧ elems t' = elems t ++ x :: elems r.
Proof.
  intros <- Hz -> Hf Ht Hr. destruct t as [|b1 b2 tl e tr]; [done|].
  destruct Hf as [(-> & -> & -> & ->)|[(-> & -> & Hf)|(-> & -> & Hf)]]; destruct Ht as (Hl & Hrr & Hleaf); simpl in *.
  - apply ranked_nonneg in Hr. specialize (Hleaf eq_refl eq_refl). lia.
  - destruct (settle_left_single _ _ _ _ _ _ _ _ _ Hz) as (s' & E & Z'). eexists s', _. split; [exact E|]. split; [exact Z'|].
    pose proof (ranked_nil _ _ Hrr) as Hn. split; [|simpl; by rewrite <- app_assoc].
    simpl. split_and!; [done| | | |].
    + by replace (k + 1 - 1 - 0 - 1 - 0) with (k + 1 - 1 - 1) by lia.
    + by replace (k + 1 - 1 - 0 - 1 - 0) with (k + 1 - 1 - 1) by lia.
    + intros Et _. apply Hn in Et. lia.
    + intros _ [=].
  - destruct tr as [|b3 b4 cl d cr]; [done|].
    assert (Hb : b3 && b4 = false) by (destruct Hf as [(-> & -> & _)|[(-> & -> & _)|(-> & -> & _)]]; done).
    destruct (settle_left_double _ _ _ _ _ _ _ _ _ _ _ Hb Hz) as (s' & E & Z'). eexists s', _. split; [exact E|]. split; [exact Z'|].
    pose proof (ranked_nil _ _ Hr) as Hn. pose proof (ranked_nil _ _ Hl) as Hn'. destruct Hrr as (Hcl & Hcr & _).
    split; [|simpl; by repeat (rewrite <- ?app_assoc; simpl)].
    simpl. split_and!.
    + by replace (k + 1 - 1 - 0 - 1 - 0) with (k + 1 - 1 - 1) by lia.
    + by replace (k + 1 - 1 - 0 - 1 - Z.b2z b3) with (k + 1 - 1 - 0 - 1 - Z.b2z b3) by lia.
    + intros Et _. apply Hn' in Et. lia.
    + by replace (k + 1 - 1 - 0 - 1 - Z.b2z b4) with (k + 1 - 1 - 0 - 1 - Z.b2z b4) by lia.
    + by replace (k + 1 - 1 - 0 - 1 - 0) with (k + 1 - 1 - 1) by lia.
    + intros _ Et. apply Hn in Et. lia.
    + intros [=].
Qed.
Lemma settled_right s c k bl l x t (elm : Z) :
  top t = elm → zip s c (N false false l x t) → bl = true → fresh t → ranked t (k + 1) → ranked l (k + 1 - 1 - Z.b2z bl) →
  ∃ s' t', settle_right x elm s = Done tt s' ∧ zip s' c t' ∧ ranked t' (k + 1) ∧ elems t' = elems l ++ x :: elems t.
Proof.
  intros <- Hz -> Hf Ht Hr. destruct t as [|b1 b2 tl e tr]; [done|].
  destruct Hf as [(-> & -> & -> & ->)|[(-> & -> & Hf)|(-> & -> & Hf)]]; destruct Ht as (Hl & Hrr & Hleaf); simpl in *.
  - apply ranked_nonneg in Hr. specialize (Hleaf eq_refl eq_refl). lia.
  - destruct tl as [|b3 b4 cl d cr]; [done|].
    assert (Hb : b3 && b4 = false) by (destruct Hf as [(-> & -> & _)|[(-> & -> & _)|(-> & -> & _)]]; done).
    destruct (settle_right_double _ _ _ _ _ _ _ _ _ _ _ Hb Hz) as (s' & E & Z'). eexists s', _. split; [exact E|]. split; [exact Z'|].
    pose proof (ranked_nil _ _ Hr) as Hn. pose proof (ranked_nil _ _ Hrr) as Hn'. destruct Hl as (Hcl & Hcr & _).
    split; [|simpl; by repeat (rewrite <- ?app_assoc; simpl)].
    simpl. split_and!; [|done|..].
    + by replace (k + 1 - 1 - 0 - 1 - 0) with (k + 1 - 1 - 1) by lia.
    + intros Et _. apply Hn in Et. lia.
    + done.
    + by replace (k + 1 - 1 - 0 - 1 - 0) with (k + 1 - 1 - 1) by lia.
    + intros _ Et. apply Hn' in Et. lia.
    + intros [=].
  - destruct (settle_right_single _ _ _ _ _ _ _ _ _ Hz) as (s' & E & Z'). eexists s', _. split; [exact E|]. split; [exact Z'|].
    pose proof (ranked_nil _ _ Hl) as Hn. split; [|simpl; by rewrite <- app_assoc].
    simpl. split_and!; [| | |done|].
    + by replace (k + 1 - 1 - 0 - 1 - 0) with (k + 1 - 1 - 1) by lia.
    + by replace (k + 1 - 1 - 0 - 1 - 0) with (k + 1 - 1 - 1) by lia.
    + intros _ Et. apply Hn in Et. lia.
    + intros [=].
Qed.

Lemma zip_done s c t k : zip s c t → ranked t k → cranked c k → ∃ t', rb_ok s t' ∧ elems t' = before c ++ elems t ++ after c.
Proof.
  intros Hz Ht Hc. exists (plug c t). split; [split; [by apply (proj1 (zip_close s c t))|by eapply ranked_plug]|apply elems_plug].
Qed.

Lemma insert_color_run c : ∀ fuel k t s,
  zip s c t → fresh t → ranked t (k + 1) → cranked c k → (length c < fuel)%nat →
  ∃ s' t', insert_color fuel (top t) s = Done tt s' ∧ rb_ok s' t' ∧ elems t' = before c ++ elems t ++ after c.
Proof.
  induction c as [|[bl br x r|bl br l x] c IH]; intros [|fuel] k t s Hz Hf Ht Hc Hfuel; simpl in Hfuel; try lia.
  all: destruct t as [|b1 b2 tl e tr] eqn:Et; [done|]; cbn [top insert_color];
    rewrite (bind_done _ _ _ _ _ (zip_parent Hz)); cbn [above]; rewrite <- Et in *; assert (Hne : t ≠ Nil) by (by rewrite Et).
  - destruct (zip_done s [] t (k + 1) Hz Ht I) as (t' & Hok & El). exists s, t'. done.
  - apply up_left in Hz. rewrite (proj2 (Z.eqb_neq _ _) (zip_ne0 Hz)). assert (Etop : top t = e) by (by rewrite Et).
    rewrite (bind_done _ _ _ _ _ (zip_left_child Hz)), Etop, Z.eqb_refl.
    rewrite (bind_done _ _ _ _ _ (zip_red_left Hz)). destruct Hc as (Hr & Hn & Hc). destruct bl; simpl in Hr, Hc.
    + destruct (flip_left_zip _ _ _ _ _ _ _ Hz) as (s1 & E1 & Z1). destruct (zip_done _ _ _ (k + 1 + 1) Z1) as (t' & Hok & El); [|done|].
      { simpl. split_and!; [by replace (k + 1 + 1 - 1 - 0) with (k + 1) by lia|done|done]. }
      exists s1, t'. split_and!; try done. rewrite El. simpl. by rewrite <- app_assoc.
    + destruct (flip_right_zip _ _ _ _ _ _ _ Hz) as (s1 & E1 & Z1). rewrite (bind_done _ _ _ _ _ E1).
      rewrite (bind_done _ _ _ _ _ (zip_red_right Z1)). destruct br; simpl negb in *; cbn iota.
      * destruct (settled_left _ _ k true _ _ _ e Etop Z1 eq_refl Hf Ht) as (s2 & t2 & E2 & Z2 & R2 & El2); [by simpl in Hr |- *; replace (k + 1 + 0 - 1 - 1) with (k + 1 - 1 - 1) in Hr by lia|].
        rewrite Z.add_0_r in Hc. destruct (zip_done _ _ _ _ Z2 R2 Hc) as (t' & Hok & El). exists s2, t'. split_and!; [exact E2|done|].
        rewrite El, El2. simpl. by rewrite <- app_assoc.
      * rewrite Z.add_0_r in *. destruct (IH fuel (k + 1) _ _ Z1) as (s2 & t2 & E2 & Hok & El); [by right; left| |done|lia|].
        { simpl in Hr |- *. split_and!; [by replace (k + 1 + 1 - 1 - 0) with (k + 1) by lia| |done].
          by replace (k + 1 + 1 - 1 - 1) with (k + 1 - 1 - 0) by lia. }
        exists s2, t2. split_and!; try done. rewrite El. simpl. by rewrite <- app_assoc.
  - assert (Hneq : top l ≠ top t) by (by eapply zip_top_ne).
    apply up_right in Hz. rewrite (proj2 (Z.eqb_neq _ _) (zip_ne0 Hz)). assert (Etop : top t = e) by (by rewrite Et).
    rewrite (bind_done _ _ _ _ _ (zip_left_child Hz)). rewrite Etop in Hneq. rewrite (proj2 (Z.eqb_neq _ _) Hneq).
    rewrite (bind_done _ _ _ _ _ (zip_red_right Hz)). destruct Hc as (Hr & Hn & Hc). destruct br; simpl in Hr, Hc.
    + destruct (flip_right_zip _ _ _ _ _ _ _ Hz) as (s1 & E1 & Z1). destruct (zip_done _ _ _ (k + 1 + 1) Z1) as (t' & Hok & El); [|done|].
      { simpl. split_and!; [done|by replace (k + 1 + 1 - 1 - 0) with (k + 1) by lia|done]. }
      exists s1, t'. split_and!; try done. rewrite El. simpl. by rewrite <- !app_assoc.
    + destruct (flip_left_zip _ _ _ _ _ _ _ Hz) as (s1 & E1 & Z1). rewrite (bind_done _ _ _ _ _ E1).
      rewrite (bind_done _ _ _ _ _ (zip_red_left Z1)). destruct bl; simpl negb in *; cbn iota.
      * destruct (settled_right _ _ k true _ _ _ e Etop Z1 eq_refl Hf Ht) as (s2 & t2 & E2 & Z2 & R2 & El2); [by simpl in Hr |- *; replace (k + 1 + 0 - 1 - 1) with (k + 1 - 1 - 1) in Hr by lia|].
        rewrite Z.add_0_r in Hc. destruct (zip_done _ _ _ _ Z2 R2 Hc) as (t' & Hok & El). exists s2, t'. split_and!; [exact E2|done|].
        rewrite El, El2. simpl. by rewrite <- !app_assoc.
      * rewrite Z.add_0_r in *. destruct (IH fuel (k + 1) _ _ Z1) as (s2 & t2 & E2 & Hok & El); [by right; right| |done|lia|].
        { simpl in Hr |- *. split_and!; [|by replace (k + 1 + 1 - 1 - 0) with (k + 1) by lia|done].
          by replace (k + 1 + 1 - 1 - 1) with (k + 1 - 1 - 0) by lia. }
        exists s2, t2. split_and!; try done. rewrite El. simpl. by rewrite <- !app_assoc.
Qed.
End insert.

(** ** The place of a new element *)

(** In the order of the keys. *)
Abbreviation ordered key := (StronglySorted (λ a b : Z, key a < key b)).

Lemma sorted_mid {A} (R : relation A) xs x ys :
  StronglySorted R (xs ++ x :: ys) → Forall (λ y, R y x) xs ∧ Forall (R x) ys.
Proof.
  induction xs as [|z xs IH]; simpl; intros H; apply StronglySorted_inv in H as [H HF]; [by split|].
  destruct (IH H) as [H1 H2]. split; [|done]. constructor; [|done]. rewrite Forall_forall in HF. apply HF, elem_of_app. right. by left.
Qed.
Lemma ordered_mid (key : Z → Z) xs x ys :
  ordered key (xs ++ x :: ys) → Forall (λ y, key y < key x) xs ∧ Forall (λ y, key x < key y) ys.
Proof. apply (sorted_mid (λ a b, key a < key b)). Qed.

Lemma sorted_insert {A} (R : relation A) la lb v :
  StronglySorted R (la ++ lb) → Forall (λ x, R x v) la → Forall (R v) lb → StronglySorted R (la ++ v :: lb).
Proof.
  induction la as [|x la IH]; simpl; intros Hs Hx Hy; [by constructor|].
  apply StronglySorted_inv in Hs as [Hs Hf]. apply Forall_cons in Hx as [Hx Hxs]. constructor; [by apply IH|].
  apply Forall_app in Hf as [F1 F2]. apply Forall_app. split; [done|]. by constructor.
Qed.
Lemma sub_dom m p (t : tree) x : sub m p t → x ∈ elems t → is_Some (m !! x).
Proof.
  revert p. induction t as [|bl br l IHl y r IHr]; intros p; simpl; [by intros _ ?%elem_of_nil|].
  intros (Hn & Hl & Hr). rewrite elem_of_app, elem_of_cons. intros [H|[->|H]]; [by eapply IHl| |by eapply IHr].
  eexists. exact (node_lookup _ _ _ _ _ _ _ Hn).
Qed.
Lemma zip_dom s c t x : zip s c t → x ∈ before c ++ elems t ++ after c → is_Some (rb_nodes s !! x).
Proof.
  intros Hz. rewrite <- elems_plug. apply (proj1 (zip_close _ _ _)) in Hz. destruct Hz as (_ & Hs & _). by eapply sub_dom.
Qed.
Lemma zip_size s c t : zip s c t → (length (before c ++ elems t ++ after c) < rb_fuel s)%nat.
Proof.
  intros Hz. unfold rb_fuel. rewrite <- size_dom. pose proof Hz as (_ & _ & Hnd).
  rewrite <- (size_list_to_set (C := gset Z)) by done. apply Nat.lt_succ_r, subseteq_size.
  intros x Hx%elem_of_list_to_set. apply elem_of_dom. by eapply zip_dom.
Qed.
Lemma ctx_length c : (length c ≤ length (before c ++ after c))%nat.
Proof.
  rewrite length_app. induction c as [|[bl br x r|bl br l x] c IH]; simpl; [done|rewrite ?length_app; simpl; lia..].
Qed.

Section place.
Variable cmp : Z → Z → Z.
Variable key : Z → Z.
Hypothesis Hcmp : ∀ a b, (cmp a b <? 0) = (a <? b) ∧ (0 <? cmp a b) = (b <? a).

(** On which side of its parent the hole is, by the sign of the last comparison. *)
Definition side (comp : Z) (c : ctx) : Prop :=
  match c with [] => True | FL _ _ _ _ :: _ => (comp <? 0) = true | FR _ _ _ _ :: _ => (comp <? 0) = false end.

Lemma insert_point_run k t : ∀ fuel c h comp s,
  zip s c t → ordered key (before c ++ elems t ++ after c) → Forall (λ x, key x ≠ k) (elems t) →
  Forall (λ x, key x < k) (before c) → Forall (λ x, k < key x) (after c) →
  ranked t h → cranked c h → side comp c → (length (elems t) < fuel)%nat →
  ∃ c' comp', insert_point cmp key fuel k (top t) (above c) comp s = Done (inr (above c', comp')) s ∧
    zip s c' Nil ∧ before c' ++ after c' = before c ++ elems t ++ after c ∧
    Forall (λ x, key x < k) (before c') ∧ Forall (λ x, k < key x) (after c') ∧ cranked c' 0 ∧ side comp' c'.
Proof.
  induction t as [|bl br l IHl x r IHr]; intros [|fuel] c h comp s Hz Ho Hk Hb Ha Ht Hc Hs Hf; try (simpl in Hf; lia).
  { exists c, comp. simpl in Ht. subst h. done. }
  cbn [top insert_point]. rewrite (proj2 (Z.eqb_neq _ _) (zip_ne0 Hz)). unfold rb_cmp. destruct (Hcmp k (key x)) as [-> ->].
  simpl elems in *. rewrite length_app in Hf. simpl in Hf. rewrite Forall_app, Forall_cons in Hk. destruct Hk as (Kl & Kx & Kr).
  rewrite <- app_assoc in Ho. simpl in Ho. pose proof Ho as Ho'. rewrite app_assoc in Ho'. destruct (ordered_mid _ _ _ _ Ho') as [O1 O2].
  destruct Ht as (Rl & Rr & Rn). destruct (Z.ltb_spec k (key x)) as [Hlt|Hge].
  - rewrite (bind_done _ _ _ _ _ (zip_left_child Hz)). apply down_left in Hz.
    destruct (IHl fuel (FL bl br x r :: c) (h - 1 - Z.b2z bl) (cmp k (key x)) s) as (c' & comp' & E & Z' & El & H');
      [done|exact Ho|done|done| |done| | |lia|].
    + simpl. constructor; [done|]. rewrite Forall_app. split; [|done].
      apply Forall_app in O2 as [O2 _]. eapply Forall_impl; [exact O2|]. simpl. lia.
    + simpl. replace (h - 1 - Z.b2z bl + 1 + Z.b2z bl) with h by lia. split_and!; [done| |done].
      intros E0 ->. apply Rn; [|done]. by apply (ranked_nil l _ Rl).
    + simpl. rewrite (proj1 (Hcmp _ _)). by apply Z.ltb_lt.
    + exists c', comp'. split; [exact E|]. split; [exact Z'|]. split; [|exact H']. rewrite El. simpl. by rewrite <- app_assoc.
  - rewrite (proj2 (Z.ltb_lt _ _)) by lia. rewrite (bind_done _ _ _ _ _ (zip_right_child Hz)). apply down_right in Hz.
    destruct (IHr fuel (FR bl br l x :: c) (h - 1 - Z.b2z br) (cmp k (key x)) s) as (c' & comp' & E & Z' & El & H');
      [done| |done| |done|done| | |lia|].
    + simpl. rewrite <- !app_assoc. exact Ho.
    + simpl. rewrite !Forall_app, Forall_singleton. apply Forall_app in O1 as [_ O1]. split_and!; [done| |lia].
      eapply Forall_impl; [exact O1|]. simpl. lia.
    + simpl. replace (h - 1 - Z.b2z br + 1 + Z.b2z br) with h by lia. split_and!; [done| |done].
      intros E0 ->. apply Rn; [done|]. by apply (ranked_nil r _ Rr).
    + simpl. rewrite (proj1 (Hcmp _ _)). by apply Z.ltb_ge.
    + exists c', comp'. split; [exact E|]. split; [exact Z'|]. split; [|exact H']. rewrite El. simpl. by rewrite <- !app_assoc.
Qed.

(** The new element is linked into the hole. *)
Lemma link_child_run root m c e comp :
  path m root c 0 → side comp c → NoDup (before c ++ after c) → e ∉ before c ++ after c →
  ∃ root' m', (if above c =? 0 then RB_SET_ROOT e else if comp <? 0 then RB_SET_LEFT (above c) e else RB_SET_RIGHT (above c) e)
      (RbTree root m) = Done tt (RbTree root' m') ∧ path m' root' c e ∧ m' !! e = m !! e.
Proof.
  intros Hp Hs Hnd He. destruct c as [|[b1 b2 x t|b1 b2 t x] c]; simpl in *; [by exists e, m| |];
    destruct Hp as (Hn & Ht & Hp); rewrite (proj2 (Z.eqb_neq _ _)) by apply Hn; rewrite Hs.
  - eexists _, _. split; [by apply (set_left_run Hn)|]. apply nodup_mid in Hnd as (Xb & Xa & Hnd). rewrite elem_of_app in Xa.
    split; [split_and!; [destruct Hn as (? & ? & ? & _); by apply node_set| |]|].
    + apply (sub_frame m); [apply keeps; tauto|done].
    + apply (path_frame m); [apply keeps; rewrite elem_of_app; tauto|done].
    + apply lookup_insert_ne. intros ->. apply He, elem_of_app. right. by left.
  - eexists _, _. split; [by apply (set_right_run Hn)|]. rewrite <- !app_assoc in Hnd. simpl in Hnd. rewrite app_assoc in Hnd.
    apply nodup_mid in Hnd as (Xb & Xa & Hnd). rewrite elem_of_app in Xb.
    split; [split_and!; [destruct Hn as (? & ? & ? & _); by apply node_set| |]|].
    + apply (sub_frame m); [apply keeps; tauto|done].
    + apply (path_frame m); [apply keeps; rewrite elem_of_app; tauto|done].
    + apply lookup_insert_ne. intros ->. apply He. rewrite !elem_of_app. left. right. right. by left.
Qed.

(** [RB_INSERT] of an element whose key is new. *)
Lemma rb_insert_run s t e :
  rb_ok s t → ordered key (elems t) → link e → e ≠ 0 → e ∉ elems t → Forall (λ x, key x ≠ key e) (elems t) →
  ∃ s' t' xs ys, RB_INSERT cmp key e s = Done 0 s' ∧ rb_ok s' t' ∧
    elems t = xs ++ ys ∧ elems t' = xs ++ e :: ys ∧ Forall (λ x, key x < key e) xs ∧ Forall (λ x, key e < key x) ys.
Proof.
  intros (Hz & h & Hr) Ho Le E0 He Hk. unfold RB_INSERT. rewrite (bind_done _ _ s (rb_fuel s) s) by done.
  rewrite (bind_done _ _ s (top t) s) by (by destruct Hz as (Hp & _); simpl in Hp; unfold RB_ROOT, kget; rewrite Hp).
  pose proof (zip_size _ _ _ Hz) as Hsz. simpl in Hsz. rewrite app_nil_r in Hsz.
  destruct (insert_point_run (key e) t (rb_fuel s) [] h 0 s) as (c & comp & E & Zc & El & Fb & Fa & Hc & Hs);
    [done|by simpl; rewrite app_nil_r|done|done|done|done|done|done|done|].
  simpl in El. rewrite app_nil_r in El. simpl above in E. rewrite (bind_done _ _ _ _ _ E). cbn iota.
  assert (He' : e ∉ before c ++ after c) by by rewrite El.
  destruct s as [root m]. destruct Zc as (Pc & _ & Nc). simpl in Pc, Nc.
  set (m1 := <[e := RbEntry 0 0 (above c)]> m). rewrite (bind_done _ _ _ tt (RbTree root m1)) by done.
  assert (P1 : path m1 root c 0) by (apply (path_frame m); [by apply keeps|done]).
  destruct (link_child_run root m1 c e comp P1 Hs Nc He') as (root2 & m2 & E2 & P2 & M2).
  rewrite (bind_done _ _ _ _ _ E2).
  assert (Z2 : zip (RbTree root2 m2) c (N false false Nil e Nil)).
  { split_and!; [exact P2| |].
    - simpl. split; [|done]. unfold node. split; [done|]. split; [done|]. split; [exact (link_above _ _ _ _ P2)|]. rewrite M2. unfold m1. rewrite lookup_insert_eq. unfold bits. simpl. by rewrite Z.add_0_r.
    - simpl. rewrite <- Permutation_middle. by constructor. }
  assert (Hlen : (length c < rb_fuel (RbTree root2 m2))%nat).
  { pose proof (zip_size _ _ _ Z2) as H2. pose proof (ctx_length c) as H3. simpl in H2. rewrite !length_app in *. simpl in H2. lia. }
  destruct (insert_color_run c (rb_fuel (RbTree root2 m2)) 0 (N false false Nil e Nil) (RbTree root2 m2) Z2) as (s3 & t3 & E3 & Hok & El3);
    [by left|done|done|done|].
  exists s3, t3, (before c), (after c). split_and!; try done.
  unfold RB_INSERT_COLOR. rewrite (bind_done _ _ (RbTree root2 m2) tt s3); [done|].
  rewrite (bind_done _ _ (RbTree root2 m2) (rb_fuel (RbTree root2 m2)) (RbTree root2 m2)) by done. exact E3.
Qed.

(** ** The height *)

Fixpoint height (t : tree) : Z := match t with Nil => 0 | N _ _ l _ r => 1 + Z.max (height l) (height r) end.

Lemma ranked_size t h : ranked t h → height t ≤ h ∧ 2 ^ (h / 2) ≤ Z.of_nat (length (elems t)) + 1.
Proof.
  revert h. induction t as [|bl br l IHl x r IHr]; intros h; simpl; [by intros ->|]. intros (Hl & Hr & Hn).
  pose proof (ranked_nonneg _ _ Hl) as L0. pose proof (ranked_nonneg _ _ Hr) as R0.
  destruct (IHl _ Hl) as [A1 B1], (IHr _ Hr) as [A2 B2]. rewrite length_app. simpl length.
  split; [destruct bl, br; simpl in *; lia|].
  assert (Hh : 0 < h) by (destruct bl; simpl in L0; lia).
  destruct (decide (h = 1)) as [->|]; [change (2 ^ (1 / 2)) with 1; lia|].
  assert (E : h / 2 = (h - 2) / 2 + 1) by (replace h with (h - 2 + 1 * 2) at 1 by lia; by rewrite Z.div_add by lia).
  assert (Hp : ∀ b : bool, 2 ^ ((h - 2) / 2) ≤ 2 ^ ((h - 1 - Z.b2z b) / 2)).
  { intros b. apply Z.pow_le_mono_r; [lia|]. apply Z.div_le_mono; [lia|]. destruct b; simpl; lia. }
  rewrite E, Z.pow_add_r by (try lia; apply Z.div_pos; lia). specialize (Hp bl) as Pl. specialize (Hp br) as Pr. change (2 ^ 1) with 2. lia.
Qed.

(** C10: insertion into a rank-balanced tree.  For an element with a new key,
    [RB_INSERT] returns [NULL], and the store holds a balanced tree again, with the
    element at its place in the order of the keys and all others as they were; a
    tree of [n] elements has a height of at most about twice the logarithm of [n]. *)
Theorem rb_insert_spec s t e :
  rb_ok s t → ordered key (elems t) → link e → e ≠ 0 → e ∉ elems t → Forall (λ x, key x ≠ key e) (elems t) →
  ∃ s' t' xs ys, RB_INSERT cmp key e s = Done 0 s' ∧ rb_ok s' t' ∧ ordered key (elems t') ∧
    elems t = xs ++ ys ∧ elems t' = xs ++ e :: ys ∧ 2 ^ (height t' / 2) ≤ Z.of_nat (length (elems t')) + 1.
Proof.
  intros Hok Ho Le E0 He Hk. destruct (rb_insert_run s t e Hok Ho Le E0 He Hk) as (s' & t' & xs & ys & E & Hok' & E1 & E2 & F1 & F2).
  exists s', t', xs, ys. split_and!; try done.
  - rewrite E2. rewrite E1 in Ho. by apply sorted_insert.
  - destruct Hok' as (_ & h & Hr). destruct (ranked_size _ _ Hr) as [H1 H2].
    etrans; [|exact H2]. apply Z.pow_le_mono_r; [lia|]. apply Z.div_le_mono; lia.
Qed.
End place.

(** The tree that inserting 4, 8, .. 24 in this order makes, each element its own
    key; the next one, 28, makes it rotate. *)
Definition leaf (x : Z) : tree := N false false Nil x Nil.
Definition six_tree : tree := N false false (N false false (leaf 4) 8 (leaf 12)) 16 (N true false Nil 20 (leaf 24)).
Definition six : rb_tree := state_of (RbTree 0 ∅) (kfor 6 1 (λ i, RB_INSERT Z.sub id (4 * i);; mret tt) (RbTree 0 ∅)).

Lemma sub_cmp a b : (a - b <? 0) = (a <? b) ∧ (0 <? a - b) = (b <? a).
Proof. destruct (Z.ltb_spec (a - b) 0), (Z.ltb_spec a b), (Z.ltb_spec 0 (a - b)), (Z.ltb_spec b a); split; try done; lia. Qed.
Lemma six_ok : rb_ok six six_tree.
Proof.
  assert (Hroot : rbh_root six = 16) by (vm_compute; reflexivity).
  assert (Hnodes : rb_nodes six = list_to_map [(4, RbEntry 0 0 8); (8, RbEntry 4 12 16); (12, RbEntry 0 0 8);
    (16, RbEntry 8 20 0); (20, RbEntry 0 24 17); (24, RbEntry 0 0 20)]) by (vm_compute; reflexivity).
  split; [|exists 3; cbn; split_and!; done]. split_and!; [exact Hroot| |apply (bool_decide_unpack _); vm_compute; exact I].
  rewrite Hnodes. cbn. unfold node, link. split_and!; done.
Qed.

Lemma rb_insert_spec_witness :
  rb_ok six six_tree ∧ ∃ s' t', RB_INSERT Z.sub id 28 six = Done 0 s' ∧ rb_ok s' t' ∧ elems t' = [4; 8; 12; 16; 20; 24; 28].
Proof.
  split; [exact six_ok|].
  destruct (rb_insert_spec Z.sub id sub_cmp six six_tree 28 six_ok) as (s' & t' & xs & ys & E & Hok & Ho & E1 & E2 & _).
  - cbn. repeat constructor; lia.
  - done.
  - done.
  - apply (bool_decide_unpack _). vm_compute. exact I.
  - cbn. repeat constructor; done.
  - exists s', t'. split_and!; [exact E|exact Hok|].
    assert (Hys : ys = []).
    { destruct ys as [|y ys]; [done|]. exfalso. rewrite E2 in Ho. destruct (sorted_mid _ _ _ _ Ho) as [_ [Hy _]%Forall_cons].
      assert (Hi : y ∈ elems six_tree) by (rewrite E1; apply elem_of_app; right; by left).
      cbn in Hi. rewrite !elem_of_cons, elem_of_nil in Hi. cbn in Hy. lia. }
    rewrite E2, Hys in *. rewrite app_nil_r in E1. by rewrite <- E1.
Defined.
