(* ===== verification/RbSearch.v ===== *)
(** * Searching and walking rank-balanced trees

    What [RB_NFIND], [RB_MINMAX] and [RB_PREV] return, in terms of the ordered
    list of the elements. *)

From S2P Require Export RbInsert.

Section search.
Implicit Types (s : rb_tree) (c : ctx) (t l r : tree).

Lemma last_snoc_app (xs ys : list Z) y : default 0 (last (xs ++ ys ++ [y])) = y.
Proof. rewrite app_assoc, last_snoc. done. Qed.

(** ** The first element that is not smaller *)

Section nfind.
Variable cmp : Z → Z → Z.
Variable key : Z → Z.
Hypothesis Hcmp : ∀ a b, (cmp a b <? 0) = (a <? b) ∧ (0 <? cmp a b) = (b <? a).

Lemma nfind_loop_run k t : ∀ fuel c s,
  zip s c t → ordered key (before c ++ elems t ++ after c) →
  Forall (λ x, key x < k) (before c) → Forall (λ x, k < key x) (after c) → (length (elems t) < fuel)%nat →
  ∃ xs ys, nfind_loop cmp key fuel k (top t) (hd 0 (after c)) s = Done (hd 0 ys) s ∧
    before c ++ elems t ++ after c = xs ++ ys ∧ Forall (λ x, key x < k) xs ∧ Forall (λ x, k ≤ key x) ys.
Proof.
  induction t as [|bl br l IHl x r IHr]; intros [|fuel] c s Hz Ho Hb Ha Hf; try (simpl in Hf; lia).
  { exists (before c), (after c). split_and!; try done. eapply Forall_impl; [exact Ha|]. simpl. lia. }
  cbn [top nfind_loop]. rewrite (proj2 (Z.eqb_neq _ _) (zip_ne0 Hz)). unfold rb_cmp. destruct (Hcmp k (key x)) as [-> ->].
  simpl elems in *. rewrite length_app in Hf. simpl in Hf. rewrite <- app_assoc in Ho. simpl in Ho.
  pose proof Ho as Ho'. rewrite app_assoc in Ho'. destruct (ordered_mid _ _ _ _ Ho') as [O1 O2].
  destruct (Z.ltb_spec k (key x)) as [Hlt|Hge]; [|destruct (Z.ltb_spec (key x) k) as [Hgt|Heq]].
  - rewrite (bind_done _ _ _ _ _ (zip_left_child Hz)). apply down_left in Hz.
    destruct (IHl fuel (FL bl br x r :: c) s Hz Ho Hb) as (xs & ys & E & El & H'); [|lia|].
    + simpl. constructor; [done|]. eapply Forall_impl; [exact O2|]. simpl. lia.
    + exists xs, ys. split; [exact E|]. split; [|exact H']. rewrite <- El. simpl. by rewrite <- app_assoc.
  - rewrite (bind_done _ _ _ _ _ (zip_right_child Hz)). apply down_right in Hz.
    destruct (IHr fuel (FR bl br l x :: c) s Hz) as (xs & ys & E & El & H'); [| |done|lia|].
    + simpl. rewrite <- !app_assoc. exact Ho.
    + simpl. rewrite app_assoc, Forall_app, Forall_singleton. split; [|done]. eapply Forall_impl; [exact O1|]. simpl. lia.
    + exists xs, ys. split; [exact E|]. split; [|exact H']. rewrite <- El. simpl. by rewrite <- !app_assoc.
  - exists (before c ++ elems l), (x :: elems r ++ after c). split_and!; [done|by rewrite <- !app_assoc| |].
    + eapply Forall_impl; [exact O1|]. simpl. lia.
    + constructor; [lia|]. eapply Forall_impl; [exact O2|]. simpl. lia.
Qed.

Lemma rb_root_run s t : rb_ok s t → RB_ROOT s = Done (top t) s.
Proof. intros [(Hp & _) _]. simpl in Hp. unfold RB_ROOT, kget. by rewrite Hp. Qed.
Lemma rb_fuel_ok s t : rb_ok s t → (length (elems t) < rb_fuel s)%nat.
Proof. intros [Hz _]. pose proof (zip_size _ _ _ Hz) as H. simpl in H. by rewrite app_nil_r in H. Qed.

Lemma rb_nfind_run s t k :
  rb_ok s t → ordered key (elems t) →
  ∃ xs ys, RB_NFIND cmp key k s = Done (hd 0 ys) s ∧ elems t = xs ++ ys ∧
    Forall (λ x, key x < k) xs ∧ Forall (λ x, k ≤ key x) ys.
Proof.
  intros Hok Ho. unfold RB_NFIND. rewrite (bind_done _ _ s (rb_fuel s) s) by done. rewrite (bind_done _ _ _ _ _ (rb_root_run _ _ Hok)).
  destruct (nfind_loop_run k t (rb_fuel s) [] s) as (xs & ys & E & El & H');
    [apply Hok|by simpl; rewrite app_nil_r|done|done|by apply rb_fuel_ok|].
  simpl in El. rewrite app_nil_r in El. by exists xs, ys.
Qed.
End nfind.

(** ** The last element *)

Lemma minmax_loop_run t : ∀ fuel c s,
  zip s c t → (length (elems t) < fuel)%nat →
  minmax_loop fuel 1 (top t) (default 0 (last (before c))) s = Done (default 0 (last (before c ++ elems t))) s.
Proof.
  induction t as [|bl br l IHl x r IHr]; intros [|fuel] c s Hz Hf; try (simpl in Hf; lia); [by simpl; rewrite app_nil_r|].
  cbn [top minmax_loop]. rewrite (proj2 (Z.eqb_neq _ _) (zip_ne0 Hz)). change (1 <? 0) with false. cbn iota.
  rewrite (bind_done _ _ _ _ _ (zip_right_child Hz)). apply down_right in Hz. simpl in Hf. rewrite length_app in Hf. simpl in Hf.
  pose proof (IHr fuel _ _ Hz ltac:(lia)) as E. simpl before in E. rewrite last_snoc_app in E. rewrite E. simpl.
  by rewrite <- !app_assoc.
Qed.
Lemma rb_max_run s t : rb_ok s t → RB_MINMAX 1 s = Done (default 0 (last (elems t))) s.
Proof.
  intros Hok. unfold RB_MINMAX. rewrite (bind_done _ _ s (rb_fuel s) s) by done. rewrite (bind_done _ _ _ _ _ (rb_root_run _ _ Hok)).
  apply (minmax_loop_run t (rb_fuel s) []); [apply Hok|by apply rb_fuel_ok].
Qed.

Lemma rightmost_run t : ∀ fuel c s,
  zip s c t → t ≠ Nil → (length (elems t) < fuel)%nat → rightmost fuel (top t) s = Done (default 0 (last (elems t))) s.
Proof.
  induction t as [|bl br l IHl x r IHr]; intros [|fuel] c s Hz Hn Hf; try done; try (simpl in Hf; lia).
  cbn [top rightmost]. rewrite (bind_done _ _ _ _ _ (zip_right_child Hz)). simpl in Hf. rewrite length_app in Hf. simpl in Hf.
  apply down_right in Hz. destruct r as [|b3 b4 rl y rr] eqn:Er; [simpl; by rewrite last_snoc|]. rewrite <- Er in *.
  assert (Hr : r ≠ Nil) by by rewrite Er. pose proof (top_ne0 _ _ _ (proj1 (proj2 Hz)) Hr) as Hy.
  rewrite (proj2 (Z.eqb_neq _ _) Hy). rewrite (IHr _ _ _ Hz Hr) by lia. simpl. f_equal.
  rewrite last_app_cons. destruct (elems r) eqn:E2; [|done]. rewrite Er in E2. simpl in E2. by destruct (elems rl).
Qed.

(** ** The element in front *)

Lemma climb_left_run c : ∀ fuel t s,
  zip s c t → t ≠ Nil → (length c < fuel)%nat → climb fuel RB_LEFT (top t) s = Done (default 0 (last (before c))) s.
Proof.
  induction c as [|[bl br x r|bl br l x] c IH]; intros [|fuel] t s Hz Ht Hf; simpl in Hf; try lia.
  all: destruct t as [|b1 b2 tl e tr] eqn:Et; [done|]; cbn [top climb]; rewrite (bind_done _ _ _ _ _ (zip_parent Hz)); cbn [above];
    rewrite <- Et in *; assert (Etop : e = top t) by (by rewrite Et).
  - done.
  - apply up_left in Hz. rewrite (proj2 (Z.eqb_neq _ _) (zip_ne0 Hz)). rewrite (bind_done _ _ _ _ _ (zip_left_child Hz)).
    rewrite Etop, Z.eqb_refl. exact (IH fuel _ _ Hz ltac:(done) ltac:(lia)).
  - pose proof (zip_top_ne _ _ _ _ _ _ _ Hz Ht) as Hne. apply up_right in Hz. rewrite (proj2 (Z.eqb_neq _ _) (zip_ne0 Hz)).
    rewrite (bind_done _ _ _ _ _ (zip_left_child Hz)). rewrite Etop. rewrite (proj2 (Z.eqb_neq _ _)) by congruence.
    simpl before. by rewrite last_snoc_app.
Qed.

Lemma zip_locate t : ∀ s c x,
  zip s c t → x ∈ elems t →
  ∃ c' bl br l r, zip s c' (N bl br l x r) ∧ before c' ++ elems (N bl br l x r) ++ after c' = before c ++ elems t ++ after c.
Proof.
  induction t as [|bl br l IHl y r IHr]; intros s c x Hz; [by intros ?%elem_of_nil|].
  simpl. rewrite elem_of_app, elem_of_cons. intros [Hx|[->|Hx]].
  - destruct (IHl s _ x (down_left _ _ _ _ _ _ _ Hz) Hx) as (c' & b1 & b2 & l' & r' & Z' & E). exists c', b1, b2, l', r'. split; [done|].
    simpl in E |- *. rewrite E. simpl. by rewrite <- app_assoc.
  - by exists c, bl, br, l, r.
  - destruct (IHr s _ x (down_right _ _ _ _ _ _ _ Hz) Hx) as (c' & b1 & b2 & l' & r' & Z' & E). exists c', b1, b2, l', r'. split; [done|].
    simpl in E |- *. rewrite E. simpl. by rewrite <- !app_assoc.
Qed.

Lemma split_unique (xs ys xs' ys' : list Z) x : NoDup (xs ++ x :: ys) → xs ++ x :: ys = xs' ++ x :: ys' → xs = xs'.
Proof.
  revert xs'. induction xs as [|z xs IH]; intros [|z' xs'] Hnd E; simpl in *; [done|..].
  - injection E as -> ->. apply NoDup_cons in Hnd as [Hx _]. destruct Hx. apply elem_of_app. right. by left.
  - injection E as -> <-. apply NoDup_cons in Hnd as [Hx _]. destruct Hx. apply elem_of_app. right. by left.
  - injection E as -> E. f_equal. apply NoDup_cons in Hnd as [_ Hnd]. by apply IH.
Qed.

Lemma rb_prev_run s t xs x ys : rb_ok s t → elems t = xs ++ x :: ys → RB_PREV x s = Done (default 0 (last xs)) s.
Proof.
  intros [Hz _] El. destruct (zip_locate t s [] x Hz) as (c & bl & br & l & r & Zx & E); [rewrite El; apply elem_of_app; right; by left|].
  simpl in E. rewrite app_nil_r, El, <- app_assoc in E. simpl in E. rewrite app_assoc in E.
  assert (Exs : before c ++ elems l = xs).
  { eapply split_unique; [|exact E]. rewrite E, <- El. destruct Hz as (_ & _ & Hnd). simpl in Hnd. by rewrite app_nil_r in Hnd. }
  rewrite <- Exs. pose proof (zip_size _ _ _ Zx) as Hsz. simpl in Hsz. rewrite !length_app in Hsz. simpl in Hsz.
  pose proof (ctx_length c) as Hc. rewrite length_app in Hc.
  unfold RB_PREV. rewrite (bind_done _ _ s (rb_fuel s) s) by done. rewrite (bind_done _ _ _ _ _ (zip_left_child Zx)).
  destruct l as [|b3 b4 ll y lr] eqn:Ell; rewrite <- Ell in *.
  - rewrite Ell. simpl. rewrite app_nil_r. rewrite (bind_done _ _ _ _ _ (zip_parent Zx)).
    pose proof (climb_left_run c (rb_fuel s) _ _ Zx ltac:(done) ltac:(lia)) as Hcl. cbn [top] in Hcl.
    destruct c as [|[b5 b6 z u|b5 b6 u z] c]; cbn [above] in *.
    + rewrite (bind_done _ _ s 0 s) by done. exact Hcl.
    + pose proof (up_left _ _ _ _ _ _ _ Zx) as Zu. rewrite (proj2 (Z.eqb_neq _ _) (zip_ne0 Zu)).
      rewrite (bind_done _ _ _ _ _ (zip_right_child Zu)). destruct ((negb false) && (x =? top u)) eqn:Eb; [|exact Hcl].
      exfalso. apply andb_true_iff in Eb as [_ Eb%Z.eqb_eq]. destruct (zip_nodup _ _ _ _ _ _ _ Zx) as (_ & Ha & _).
      apply Ha. simpl. right. apply elem_of_app. left. rewrite Eb. apply top_elem. intros ->. simpl in Eb. by apply (zip_ne0 Zx).
    + pose proof (up_right _ _ _ _ _ _ _ Zx) as Zu. rewrite (proj2 (Z.eqb_neq _ _) (zip_ne0 Zu)).
      rewrite (bind_done _ _ _ _ _ (zip_right_child Zu)). cbn [top]. rewrite Z.eqb_refl. simpl. by rewrite last_snoc_app.
  - assert (Hl : l ≠ Nil) by by rewrite Ell. apply down_left in Zx. pose proof (top_ne0 _ _ _ (proj1 (proj2 Zx)) Hl) as Hy.
    rewrite (proj2 (Z.eqb_neq _ _) Hy). cbn [negb]. rewrite (rightmost_run _ _ _ _ Zx Hl) by lia.
    rewrite last_app. destruct (last (elems l)) eqn:E2; [done|]. apply last_None in E2. rewrite Ell in E2. simpl in E2. by destruct (elems ll).
Qed.
End search.
