(* ===== verification/Vma.v ===== *)
(** * Address ranges of the child (user/vma.c)

    A [struct vma] is addressed by its pointer into [vma_pool].  Its [RB_ENTRY]
    is in the tree's state, its other fields here; [next] also links the free
    elements. *)

From S2P Require Export RbTree.

Definition VMA_POOL_MAX : Z := 256.
(** [sizeof(struct vma)]. *)
Definition SIZEOF_VMA : Z := 72.

Record vma := Vma { v_start : Z; v_end : Z; v_prot : Z; v_kind : Z; v_prev : Z; v_next : Z }.

(** The pool, the head of its free list, and a [struct vma_set]. *)
Record vmas := Vmas { vm_pool : gmap Z vma; vma_free : Z; vs_tree : rb_tree; vs_first : Z; vs_last : Z }.

Definition vm_set_pool p s := Vmas p (vma_free s) (vs_tree s) (vs_first s) (vs_last s).
Definition vm_set_free f s := Vmas (vm_pool s) f (vs_tree s) (vs_first s) (vs_last s).
Definition vm_set_first f s := Vmas (vm_pool s) (vma_free s) (vs_tree s) f (vs_last s).
Definition vm_set_last l s := Vmas (vm_pool s) (vma_free s) (vs_tree s) (vs_first s) l.

Definition the_vma (v : Z) : K vmas vma := kread (λ s, vm_pool s !! v).
Definition upd_vma (v : Z) (f : vma → vma) : K vmas unit :=
  kupdate (λ s, x ← vm_pool s !! v; Some (vm_set_pool (<[v := f x]> (vm_pool s)) s)).
Definition set_v_next n x := Vma (v_start x) (v_end x) (v_prot x) (v_kind x) (v_prev x) n.
Definition set_v_prev p x := Vma (v_start x) (v_end x) (v_prot x) (v_kind x) p (v_next x).

Definition on_tree {A} : K rb_tree A → K vmas A :=
  klift vs_tree (λ t s, Vmas (vm_pool s) (vma_free s) t (vs_first s) (vs_last s)).

Definition vma_alloc : K vmas Z :=
  v ← kget vma_free;
  (if negb (v =? 0) then x ← the_vma v; kmodify (vm_set_free (v_next x)) else mret tt);;
  mret v.

Definition vma_release (v : Z) : K vmas unit :=
  f ← kget vma_free;
  upd_vma v (set_v_next f);;
  kmodify (vm_set_free v).

(** On the [start] fields. *)
Definition vma_cmp (a b : Z) : Z := if a <? b then -1 else if b <? a then 1 else 0.
Definition start_of (s : vmas) (v : Z) : Z := default 0 (v_start <$> vm_pool s !! v).

Definition vma_nfind (k : Z) : K vmas Z := key ← kget start_of; on_tree (RB_NFIND vma_cmp key k).

(** [&vma_pool[i]], with the array at [base]. *)
Definition pool_elem (base i : Z) : Z := base + SIZEOF_VMA * i.

Definition vma_set_init (base : Z) : K vmas unit :=
  kmodify (λ s, Vmas (vm_pool s) (vma_free s) (RbTree 0 (rb_nodes (vs_tree s))) 0 0);;
  f ← kget vma_free;
  if f =? 0 then
    kfor (Z.to_nat (VMA_POOL_MAX - 1)) 0 (λ i, upd_vma (pool_elem base i) (set_v_next (pool_elem base (i + 1))));;
    upd_vma (pool_elem base (VMA_POOL_MAX - 1)) (set_v_next 0);;
    kmodify (vm_set_free base)
  else mret tt.

Definition vma_insert (start fin prot kind : Z) : K vmas Z :=
  next ← vma_nfind start;
  prev ← (if negb (next =? 0) then on_tree (RB_PREV next) else on_tree (RB_MINMAX 1));
  bad ← (if prev =? 0 then mret false else p ← the_vma prev; mret (start <? v_end p));
  if (bad : bool) then mret (-1) else
  bad ← (if next =? 0 then mret false else n ← the_vma next; mret (v_start n <? fin));
  if (bad : bool) then mret (-1) else
  v ← vma_alloc;
  if v =? 0 then mret (-1) else
  upd_vma v (λ _, Vma start fin prot kind prev next);;
  (if negb (prev =? 0) then upd_vma prev (set_v_next v) else kmodify (vm_set_first v));;
  (if negb (next =? 0) then upd_vma next (set_v_prev v) else kmodify (vm_set_last v));;
  key ← kget start_of;
  on_tree (RB_INSERT vma_cmp key v);;
  mret 0.

Definition contains (x : vma) (addr : Z) : bool := (v_start x <=? addr) && (addr <? v_end x).

Definition vma_find (addr : Z) : K vmas Z :=
  v ← vma_nfind addr;
  v ← (if v =? 0 then on_tree (RB_MINMAX 1) else mret v);
  hit ← (if v =? 0 then mret false else x ← the_vma v; mret (contains x addr));
  if (hit : bool) then mret v else
  prev ← on_tree (RB_PREV v);
  hit ← (if prev =? 0 then mret false else x ← the_vma prev; mret (contains x addr));
  mret (if (hit : bool) then prev else 0).

Definition vma_remove (v : Z) : K vmas unit :=
  x ← the_vma v;
  (if negb (v_prev x =? 0) then upd_vma (v_prev x) (set_v_next (v_next x)) else kmodify (vm_set_first (v_next x)));;
  (if negb (v_next x =? 0) then upd_vma (v_next x) (set_v_prev (v_prev x)) else kmodify (vm_set_last (v_prev x)));;
  on_tree (RB_REMOVE v);;
  vma_release v.
