(* ===== verification/VmaSpec.v ===== *)
(** * The address ranges of the child, as an ordered set of disjoint ranges

    A set of ranges is a list of elements: the rank-balanced tree holds exactly
    these, in the order of their addresses; the [prev] and [next] fields thread
    them in the same order; the rest of the pool is on the free list. *)

From S2P Require Export RbSearch Vma.

Definition end_of (s : vmas) (v : Z) : Z := default 0 (v_end <$> vm_pool s !! v).
(** What the caller stored in an element. *)
Definition range_of (s : vmas) (v : Z) : option (Z * Z * Z * Z) :=
  (λ x, (v_start x, v_end x, v_prot x, v_kind x)) <$> vm_pool s !! v.

(** The elements [xs] are linked to each other, behind [p] and in front of [n]. *)
Fixpoint chain (P : gmap Z vma) (p : Z) (xs : list Z) (n : Z) : Prop :=
  match xs with
  | [] => True
  | x :: xs' => (∃ v, P !! x = Some v ∧ v_prev v = p ∧ v_next v = hd n xs') ∧ chain P x xs' n
  end.
(** The free list that starts at [f]. *)
Fixpoint free_chain (P : gmap Z vma) (f : Z) (fs : list Z) : Prop :=
  match fs with
  | [] => f = 0
  | x :: fs' => f = x ∧ ∃ v, P !! x = Some v ∧ free_chain P (v_next v) fs'
  end.

(** The ranges are the elements [xs], in order; [fs] are free. *)
Record vma_inv (s : vmas) (xs fs : list Z) : Prop := {
  vi_tree : ∃ t, rb_ok (vs_tree s) t ∧ elems t = xs;
  vi_nodup : NoDup (xs ++ fs);
  vi_ptr : ∀ x, x ∈ xs ++ fs → x ≠ 0 ∧ link x;
  vi_first : vs_first s = hd 0 xs;
  vi_last : vs_last s = default 0 (last xs);
  vi_chain : chain (vm_pool s) 0 xs 0;
  vi_free : free_chain (vm_pool s) (vma_free s) fs;
  (** they are not empty, and disjoint *)
  vi_sizes : Forall (λ x, start_of s x < end_of s x) xs;
  vi_apart : StronglySorted (λ x y, end_of s x ≤ start_of s y) xs;
}.

Section spec.
Implicit Types (s : vmas) (P : gmap Z vma) (xs ys fs : list Z).

Lemma vma_cmp_spec a b : (vma_cmp a b <? 0) = (a <? b) ∧ (0 <? vma_cmp a b) = (b <? a).
Proof. unfold vma_cmp. destruct (Z.ltb_spec a b), (Z.ltb_spec b a); split; try done; lia. Qed.

(** ** Chains *)

Lemma chain_app P p xs ys n : chain P p (xs ++ ys) n ↔ chain P p xs (hd n ys) ∧ chain P (default p (last xs)) ys n.
Proof.
  revert p. induction xs as [|x xs IH]; intros p; simpl; [tauto|]. rewrite IH.
  replace (hd n (xs ++ ys)) with (hd (hd n ys) xs) by (by destruct xs).
  replace (default p (last (x :: xs))) with (default x (last xs)).
  2: { rewrite last_cons. by destruct (last xs). }
  tauto.
Qed.
Lemma chain_frame P P' p xs n : (∀ x, x ∈ xs → P' !! x = P !! x) → chain P p xs n → chain P' p xs n.
Proof.
  revert p. induction xs as [|x xs IH]; intros p; simpl; [done|]. intros E ((v & Hv & H) & Hc). split.
  - exists v. by rewrite E by by left.
  - apply IH; [|done]. intros y Hy. apply E. by right.
Qed.
Lemma free_chain_frame P P' f fs : (∀ x, x ∈ fs → P' !! x = P !! x) → free_chain P f fs → free_chain P' f fs.
Proof.
  revert f. induction fs as [|x fs IH]; intros f; simpl; [done|]. intros E (-> & v & Hv & Hc). split; [done|].
  exists v. rewrite E by (by left). split; [done|]. apply IH; [|done]. intros y Hy. apply E. by right.
Qed.
Lemma chain_elem P p xs n x : chain P p xs n → x ∈ xs → is_Some (P !! x).
Proof.
  revert p. induction xs as [|y xs IH]; intros p; simpl; [by intros _ ?%elem_of_nil|].
  intros ((v & Hv & _) & Hc) [->|Hx]%elem_of_cons; [by exists v|by eapply IH].
Qed.

(** The chain around a new element [v]: its neighbours point to it. *)
Lemma chain_insert P P' xs ys v e :
  chain P 0 (xs ++ ys) 0 → NoDup (xs ++ ys) → P' !! v = Some e → v_prev e = default 0 (last xs) → v_next e = hd 0 ys →
  (∀ x y, last xs = Some x → P !! x = Some y → P' !! x = Some (set_v_next v y)) →
  (∀ x y, head ys = Some x → P !! x = Some y → P' !! x = Some (set_v_prev v y)) →
  (∀ x, x ∈ xs ++ ys → last xs ≠ Some x → head ys ≠ Some x → P' !! x = P !! x) →
  chain P' 0 (xs ++ v :: ys) 0.
Proof.
  intros Hc Hnd Hv Hp Hn Hl Hh Ho. apply chain_app in Hc as [Hx Hy]. apply NoDup_app in Hnd as (Nx & Nxy & Ny).
  apply chain_app. simpl. split_and!; [|by exists e|].
  - destruct xs as [|z zs _] using rev_ind; [done|]. rewrite last_snoc in *. apply chain_app in Hx as [Hz [(y & Ey & E1 & E2) _]].
    apply chain_app. simpl in *. apply NoDup_app in Nx as (_ & Nz & _). split.
    + apply (chain_frame P); [|done]. intros x Hi. apply Ho; [set_solver|intros [= ->]; apply (Nz x Hi); by left|].
      intros E%head_Some_elem_of. apply (Nxy x); [set_solver|done].
    + split; [|done]. exists (set_v_next v y). split_and!; [by apply Hl|done|done].
  - destruct ys as [|z zs]; [done|]. simpl in *. destruct Hy as ((y & Ey & E1 & E2) & Hy). apply NoDup_cons in Ny as [Nz _]. split.
    + exists (set_v_prev v y). split_and!; [by apply Hh|done|done].
    + apply (chain_frame P); [|done]. intros x Hi. apply Ho; [set_solver| |intros [= ->]; done].
      intros E%last_Some_elem_of. apply (Nxy x); [done|by right].
Qed.

(** ** Search *)

Lemma ranges_ordered s xs fs : vma_inv s xs fs → ordered (start_of s) xs.
Proof.
  intros H. pose proof (vi_sizes _ _ _ H) as Hs. pose proof (vi_apart _ _ _ H) as Ha. clear H.
  induction xs as [|x xs IH]; [constructor|]. apply StronglySorted_inv in Ha as [Ha Hx]. apply Forall_cons in Hs as [H1 Hs].
  constructor; [by apply IH|]. eapply Forall_impl; [exact Hx|]. simpl. lia.
Qed.

Lemma on_tree_read {A} (c : K rb_tree A) s a : c (vs_tree s) = Done a (vs_tree s) → on_tree c s = Done a s.
Proof. intros E. unfold on_tree. rewrite (klift_done _ _ _ _ _ _ E). by destruct s. Qed.

Lemma vma_nfind_run s xs fs k :
  vma_inv s xs fs → ∃ xs1 xs2, vma_nfind k s = Done (hd 0 xs2) s ∧ xs = xs1 ++ xs2 ∧
    Forall (λ x, start_of s x < k) xs1 ∧ Forall (λ x, k ≤ start_of s x) xs2.
Proof.
  intros H. destruct (vi_tree _ _ _ H) as (t & Hok & El). pose proof (ranges_ordered _ _ _ H) as Ho. rewrite <- El in Ho.
  destruct (rb_nfind_run vma_cmp (start_of s) vma_cmp_spec _ _ k Hok Ho) as (xs1 & xs2 & E & Es & H1 & H2).
  exists xs1, xs2. split_and!; [|congruence|done|done].
  unfold vma_nfind. rewrite (bind_done _ _ s (start_of s) s) by done. by apply on_tree_read.
Qed.
Lemma vma_prev_run s xs fs a x b : vma_inv s xs fs → xs = a ++ x :: b → on_tree (RB_PREV x) s = Done (default 0 (last a)) s.
Proof.
  intros H E. destruct (vi_tree _ _ _ H) as (t & Hok & El). apply on_tree_read. apply (rb_prev_run _ t a x b); [done|by rewrite El].
Qed.
Lemma vma_max_run s xs fs : vma_inv s xs fs → on_tree (RB_MINMAX 1) s = Done (default 0 (last xs)) s.
Proof. intros H. destruct (vi_tree _ _ _ H) as (t & Hok & <-). apply on_tree_read. by apply rb_max_run. Qed.

Lemma vma_lookup s xs fs x : vma_inv s xs fs → x ∈ xs → ∃ v, vm_pool s !! x = Some v ∧ start_of s x = v_start v ∧ end_of s x = v_end v.
Proof.
  intros H Hx. destruct (chain_elem _ _ _ _ x (vi_chain _ _ _ H) Hx) as [v E]. exists v. unfold start_of, end_of. by rewrite E.
Qed.
Lemma vma_ne0 s xs fs x : vma_inv s xs fs → x ∈ xs → x ≠ 0.
Proof. intros H Hx. apply (vi_ptr _ _ _ H). apply elem_of_app. by left. Qed.

(** The neighbours of the address [k]. *)
Lemma last_default xs : xs ≠ [] → default 0 (last xs) ∈ xs.
Proof. destruct xs as [|x xs _] using rev_ind; [done|]. intros _. rewrite last_snoc. apply elem_of_app. right. by left. Qed.
Lemma hd_elem xs : xs ≠ [] → hd 0 xs ∈ xs.
Proof. destruct xs; [done|]. intros _. by left. Qed.

(** [vma_find], when there is a range at all. *)
Definition holds_addr s (addr x : Z) : Prop := start_of s x ≤ addr < end_of s x.

Lemma hit_run s xs fs x addr :
  vma_inv s xs fs → (x = 0 ∨ x ∈ xs) →
  (if x =? 0 then mret false else v ← the_vma x; mret (contains v addr)) s =
    Done (bool_decide (x ≠ 0 ∧ holds_addr s addr x)) s.
Proof.
  intros H [->|Hx]; [done|]. pose proof (vma_ne0 _ _ _ _ H Hx) as Hn. rewrite (proj2 (Z.eqb_neq _ _) Hn).
  destruct (vma_lookup _ _ _ _ H Hx) as (v & E & Es & Ee). rewrite (bind_done _ _ s v s) by (by apply kread_done).
  unfold contains, holds_addr. rewrite Es, Ee. f_equal. apply eq_true_iff_eq. rewrite bool_decide_eq_true, andb_true_iff, Z.leb_le, Z.ltb_lt. lia.
Qed.

Lemma ranges_mid s xs fs a x b :
  vma_inv s xs fs → xs = a ++ x :: b →
  Forall (λ y, end_of s y ≤ start_of s x) a ∧ Forall (λ y, end_of s x ≤ start_of s y) b.
Proof. intros H E. pose proof (vi_apart _ _ _ H) as Ha. rewrite E in Ha. exact (sorted_mid _ _ _ _ Ha). Qed.
Lemma range_size s xs fs x : vma_inv s xs fs → x ∈ xs → start_of s x < end_of s x.
Proof. intros H Hx. pose proof (vi_sizes _ _ _ H) as Hs. rewrite Forall_forall in Hs. by apply Hs. Qed.
Lemma holds_unique s xs fs addr x y :
  vma_inv s xs fs → x ∈ xs → y ∈ xs → holds_addr s addr x → holds_addr s addr y → x = y.
Proof.
  unfold holds_addr. intros H Hx Hy H1 H2. apply list_elem_of_split in Hx as (a & b & E). destruct (ranges_mid _ _ _ _ _ _ H E) as [Fa Fb].
  rewrite Forall_forall in Fa, Fb. rewrite E in Hy. apply elem_of_app in Hy as [Hy|[->|Hy]%elem_of_cons]; [|done|].
  - specialize (Fa y Hy). lia.
  - specialize (Fb y Hy). lia.
Qed.

Lemma vma_find_run s xs fs addr :
  vma_inv s xs fs → xs ≠ [] →
  ∃ r, vma_find addr s = Done r s ∧ (r = 0 ∨ r ∈ xs) ∧ ∀ x, x ∈ xs → holds_addr s addr x ↔ x = r.
Proof.
  intros H Hxs. destruct (vma_nfind_run _ _ _ addr H) as (xs1 & xs2 & E & Es & H1 & H2).
  (* the element looked at first, and what is known when neither it nor the one in front is it *)
  assert (Hv : ∃ v a b, xs = a ++ v :: b ∧ (if hd 0 xs2 =? 0 then on_tree (RB_MINMAX 1) else mret (hd 0 xs2)) s = Done v s ∧
    (¬ holds_addr s addr v → (∀ p, last a = Some p → ¬ holds_addr s addr p) → ∀ x, x ∈ xs → ¬ holds_addr s addr x)).
  { destruct xs2 as [|n ws].
    - rewrite app_nil_r in Es. subst xs1. simpl hd. rewrite Z.eqb_refl, (vma_max_run _ _ _ H). destruct xs as [|v a _] using rev_ind; [done|].
      exists v, a, []. split_and!; [done|by rewrite last_snoc|]. intros Hnv _ x Hx. destruct (ranges_mid _ _ _ a v [] H eq_refl) as [Fa _].
      apply Forall_app in H1 as [_ [Hlt _]%Forall_cons]. apply elem_of_app in Hx as [Hx| ->%list_elem_of_singleton]; [|done].
      rewrite Forall_forall in Fa. specialize (Fa x Hx). unfold holds_addr. lia.
    - exists n, xs1, ws. simpl hd. rewrite (proj2 (Z.eqb_neq _ _)) by (apply (vma_ne0 _ _ _ _ H); rewrite Es; apply elem_of_app; right; by left).
      split_and!; [done..|]. intros Hnv Hp x Hx. destruct (ranges_mid _ _ _ _ _ _ H Es) as [Fa Fb]. apply Forall_cons in H2 as [Hn H2].
      assert (Hsz : start_of s n < end_of s n) by (apply (range_size _ _ _ _ H); rewrite Es; apply elem_of_app; right; by left).
      rewrite Es in Hx. apply elem_of_app in Hx as [Hx|[->|Hx]%elem_of_cons]; [|done|].
      + destruct xs1 as [|p zs _] using rev_ind; [by apply elem_of_nil in Hx|]. rewrite last_snoc in Hp.
        apply elem_of_app in Hx as [Hx| ->%list_elem_of_singleton]; [|by apply Hp].
        rewrite <- app_assoc in Es. destruct (ranges_mid _ _ _ _ _ _ H Es) as [Fz _]. rewrite Forall_forall in Fz. specialize (Fz x Hx).
        apply Forall_app in H1 as [_ [Hlt _]%Forall_cons]. unfold holds_addr. lia.
      + rewrite Forall_forall in Fb. specialize (Fb x Hx). unfold holds_addr in *. lia. }
  destruct Hv as (v & a & b & Ex & Ev & Hnone). assert (Hin : v ∈ xs) by (rewrite Ex; apply elem_of_app; right; by left).
  unfold vma_find. rewrite (bind_done _ _ _ _ _ E), (bind_done _ _ _ _ _ Ev). rewrite (bind_done _ _ _ _ _ (hit_run _ _ _ v addr H (or_intror Hin))).
  destruct (decide (holds_addr s addr v)) as [Hh|Hh].
  - rewrite bool_decide_eq_true_2 by (split; [by eapply vma_ne0|done]). exists v. split; [done|]. split; [by right|].
    intros x Hx. split; [intros; by eapply holds_unique|by intros ->].
  - rewrite bool_decide_eq_false_2 by tauto. rewrite (bind_done _ _ _ _ _ (vma_prev_run _ _ _ _ _ _ H Ex)).
    assert (Hp : default 0 (last a) = 0 ∨ default 0 (last a) ∈ xs).
    { destruct a as [|z a]; [by left|]. right. rewrite Ex. apply elem_of_app. left. by apply last_default. }
    rewrite (bind_done _ _ _ _ _ (hit_run _ _ _ _ addr H Hp)).
    destruct (decide (default 0 (last a) ≠ 0 ∧ holds_addr s addr (default 0 (last a)))) as [Hd|Hd].
    + rewrite bool_decide_eq_true_2 by done. destruct Hd as [Hn0 Hd]. destruct Hp as [?|Hp]; [done|]. eexists. split; [done|]. split; [by right|].
      intros x Hx. split; [intros; by eapply holds_unique|by intros ->].
    + rewrite bool_decide_eq_false_2 by done. exists 0. split; [done|]. split; [by left|]. intros x Hx. split.
      * intros Hc. exfalso. revert Hc. apply Hnone; [done| |done]. intros p Ep. rewrite Ep in Hd, Hp. simpl in Hd, Hp.
        destruct Hp as [->|Hp]; [|intros Hc; apply Hd; split; [by eapply vma_ne0|done]].
        exfalso. apply (vma_ne0 _ _ _ 0 H); [|done]. rewrite Ex. apply elem_of_app. left. by apply last_Some_elem_of.
      * intros ->. by destruct (vma_ne0 _ _ _ 0 H Hx).
Qed.

(** ** Insertion *)

(** The new range overlaps the one of [x]. *)
Definition clash s (start fin x : Z) : Prop := start_of s x < fin ∧ start < end_of s x.

Lemma clash_neighbours s xs fs xs1 xs2 start fin :
  vma_inv s xs fs → xs = xs1 ++ xs2 → start < fin →
  Forall (λ x, start_of s x < start) xs1 → Forall (λ x, start ≤ start_of s x) xs2 →
  Exists (clash s start fin) xs ↔
    (∃ p, last xs1 = Some p ∧ start < end_of s p) ∨ (∃ n, head xs2 = Some n ∧ start_of s n < fin).
Proof.
  intros H Ex Hf H1 H2. rewrite Exists_exists. unfold clash. rewrite Forall_forall in H1, H2. split.
  - intros (x & Hx & C1 & C2). rewrite Ex in Hx. apply elem_of_app in Hx as [Hx|Hx].
    + left. destruct xs1 as [|p zs _] using rev_ind; [by apply elem_of_nil in Hx|]. exists p. rewrite last_snoc. split; [done|].
      apply elem_of_app in Hx as [Hx| ->%list_elem_of_singleton]; [|done]. rewrite <- app_assoc in Ex.
      destruct (ranges_mid _ _ _ _ _ _ H Ex) as [Fz _]. rewrite Forall_forall in Fz. specialize (Fz x Hx).
      assert (Hp : start_of s p < start) by (apply H1, elem_of_app; right; by left). lia.
    + right. destruct xs2 as [|n ws]; [by apply elem_of_nil in Hx|]. exists n. split; [done|].
      apply elem_of_cons in Hx as [->|Hx]; [done|]. destruct (ranges_mid _ _ _ _ _ _ H Ex) as [_ Fb]. rewrite Forall_forall in Fb. specialize (Fb x Hx).
      assert (start_of s n < end_of s n) by (apply (range_size _ _ _ _ H); rewrite Ex; apply elem_of_app; right; by left). lia.
  - intros [(p & Ep & Hp)|(n & En & Hn)].
    + apply last_Some_elem_of in Ep. exists p. split; [rewrite Ex; apply elem_of_app; by left|]. specialize (H1 p Ep). lia.
    + apply head_Some_elem_of in En. exists n. assert (Hi : n ∈ xs) by (rewrite Ex; apply elem_of_app; by right). split; [done|].
      pose proof (range_size _ _ _ _ H Hi). specialize (H2 n En). lia.
Qed.

(** The search for the neighbours, and the two tests. *)
Lemma neighbours_run s xs fs xs1 xs2 :
  vma_inv s xs fs → xs = xs1 ++ xs2 →
  (if negb (hd 0 xs2 =? 0) then on_tree (RB_PREV (hd 0 xs2)) else on_tree (RB_MINMAX 1)) s = Done (default 0 (last xs1)) s.
Proof.
  intros H Ex. destruct xs2 as [|n ws]; simpl hd.
  - rewrite app_nil_r in Ex. subst xs1. by apply (vma_max_run _ _ fs).
  - rewrite (proj2 (Z.eqb_neq _ _)); [by eapply vma_prev_run|]. apply (vma_ne0 _ _ _ _ H). rewrite Ex. apply elem_of_app. right. by left.
Qed.
Lemma prev_test_run s xs fs xs1 xs2 start :
  vma_inv s xs fs → xs = xs1 ++ xs2 →
  (if default 0 (last xs1) =? 0 then mret false else p ← the_vma (default 0 (last xs1)); mret (start <? v_end p)) s =
    Done (match last xs1 with Some p => start <? end_of s p | None => false end) s.
Proof.
  intros H Ex. destruct (last xs1) as [p|] eqn:Ep; [|done]. simpl default.
  assert (Hp : p ∈ xs) by (rewrite Ex; apply elem_of_app; left; by apply last_Some_elem_of).
  rewrite (proj2 (Z.eqb_neq _ _)) by (by eapply vma_ne0). destruct (vma_lookup _ _ _ _ H Hp) as (v & E & _ & ->).
  by rewrite (bind_done _ _ s v s) by (by apply kread_done).
Qed.
Lemma next_test_run s xs fs xs1 xs2 fin :
  vma_inv s xs fs → xs = xs1 ++ xs2 →
  (if hd 0 xs2 =? 0 then mret false else n ← the_vma (hd 0 xs2); mret (v_start n <? fin)) s =
    Done (match head xs2 with Some n => start_of s n <? fin | None => false end) s.
Proof.
  intros H Ex. destruct xs2 as [|n ws]; [done|]. simpl.
  assert (Hp : n ∈ xs) by (rewrite Ex; apply elem_of_app; right; by left).
  rewrite (proj2 (Z.eqb_neq _ _)) by (by eapply vma_ne0). destruct (vma_lookup _ _ _ _ H Hp) as (v & E & -> & _).
  by rewrite (bind_done _ _ s v s) by (by apply kread_done).
Qed.

Lemma upd_vma_run v f s x : vm_pool s !! v = Some x → upd_vma v f s = Done tt (vm_set_pool (<[v := f x]> (vm_pool s)) s).
Proof. intros E. apply kupdate_done. by rewrite E. Qed.

(** The last element of [xs] points to [v], and nothing else changes. *)
Lemma vma_link_prev_run s xs v :
  (∀ p, last xs = Some p → p ≠ 0 ∧ is_Some (vm_pool s !! p)) →
  ∃ s', (if negb (default 0 (last xs) =? 0) then upd_vma (default 0 (last xs)) (set_v_next v) else kmodify (vm_set_first v)) s = Done tt s' ∧
    (∀ x y, last xs = Some x → vm_pool s !! x = Some y → vm_pool s' !! x = Some (set_v_next v y)) ∧
    (∀ x, last xs ≠ Some x → vm_pool s' !! x = vm_pool s !! x) ∧
    vma_free s' = vma_free s ∧ vs_tree s' = vs_tree s ∧ vs_last s' = vs_last s ∧
    vs_first s' = match last xs with None => v | Some _ => vs_first s end.
Proof.
  intros Hp. destruct (last xs) as [p|] eqn:Ep; simpl.
  - destruct (Hp p eq_refl) as [Hn [y Ey]]. rewrite (proj2 (Z.eqb_neq _ _) Hn). eexists. split; [by apply upd_vma_run|]. split_and!; try done.
    + intros x y' [= ->] Ey'. assert (y' = y) by congruence. subst y'. apply lookup_insert_eq.
    + intros x Hx. apply lookup_insert_ne. congruence.
  - eexists. split; [done|]. by split_and!.
Qed.
Lemma vma_link_next_run s ys v :
  (∀ n, head ys = Some n → n ≠ 0 ∧ is_Some (vm_pool s !! n)) →
  ∃ s', (if negb (hd 0 ys =? 0) then upd_vma (hd 0 ys) (set_v_prev v) else kmodify (vm_set_last v)) s = Done tt s' ∧
    (∀ x y, head ys = Some x → vm_pool s !! x = Some y → vm_pool s' !! x = Some (set_v_prev v y)) ∧
    (∀ x, head ys ≠ Some x → vm_pool s' !! x = vm_pool s !! x) ∧
    vma_free s' = vma_free s ∧ vs_tree s' = vs_tree s ∧ vs_first s' = vs_first s ∧
    vs_last s' = match head ys with None => v | Some _ => vs_last s end.
Proof.
  intros Hp. destruct ys as [|n ws]; simpl.
  - eexists. split; [done|]. by split_and!.
  - destruct (Hp n eq_refl) as [Hn [y Ey]]. rewrite (proj2 (Z.eqb_neq _ _) Hn). eexists. split; [by apply upd_vma_run|]. split_and!; try done.
    + intros x y' [= ->] Ey'. assert (y' = y) by congruence. subst y'. apply lookup_insert_eq.
    + intros x Hx. apply lookup_insert_ne. congruence.
Qed.

Lemma sorted_ext {A} (R R' : relation A) l :
  (∀ x y, x ∈ l → y ∈ l → R x y → R' x y) → StronglySorted R l → StronglySorted R' l.
Proof.
  induction l as [|x l IH]; intros He Hs; [constructor|]. apply StronglySorted_inv in Hs as [Hs Hx]. constructor.
  - apply IH; [|done]. intros y z Hy Hz. apply He; by right.
  - rewrite Forall_forall in Hx |- *. intros y Hy. apply He; [by left|by right|by apply Hx].
Qed.
Lemma split_by (f : Z → Z) k (a b a' b' : list Z) :
  a ++ b = a' ++ b' → Forall (λ x, f x < k) a → Forall (λ x, k ≤ f x) b → Forall (λ x, f x < k) a' → Forall (λ x, k ≤ f x) b' → a = a' ∧ b = b'.
Proof.
  revert a'. induction a as [|x a IH]; intros [|x' a'] E Ha Hb Ha' Hb'; simpl in *; try done.
  - subst b. apply Forall_cons in Ha' as [? _]. apply Forall_cons in Hb as [? _]. lia.
  - subst b'. apply Forall_cons in Ha as [? _]. apply Forall_cons in Hb' as [? _]. lia.
  - injection E as -> E. apply Forall_cons in Ha as [_ Ha]. apply Forall_cons in Ha' as [_ Ha']. by destruct (IH a' E) as [-> ->].
Qed.

Lemma range_parts s s' x : range_of s' x = range_of s x → start_of s' x = start_of s x ∧ end_of s' x = end_of s x.
Proof. unfold range_of, start_of, end_of. destruct (vm_pool s' !! x), (vm_pool s !! x); simpl; intros [=]; split; congruence. Qed.

(** The element is filled and linked between its neighbours. *)
Lemma link_in_run s xs xs1 xs2 v fs f start fin prot kind :
  vma_inv s xs (v :: fs) → xs = xs1 ++ xs2 →
  ∃ s',
    (∀ B (k : K vmas B),
      (upd_vma v (λ _, Vma start fin prot kind (default 0 (last xs1)) (hd 0 xs2));;
       (if negb (default 0 (last xs1) =? 0) then upd_vma (default 0 (last xs1)) (set_v_next v) else kmodify (vm_set_first v));;
       (if negb (hd 0 xs2 =? 0) then upd_vma (hd 0 xs2) (set_v_prev v) else kmodify (vm_set_last v));; k) (vm_set_free f s) = k s') ∧
    chain (vm_pool s') 0 (xs1 ++ v :: xs2) 0 ∧ (∀ x, x ∉ v :: xs → vm_pool s' !! x = vm_pool s !! x) ∧
    range_of s' v = Some (start, fin, prot, kind) ∧ (∀ x, x ∈ xs → range_of s' x = range_of s x) ∧
    vma_free s' = f ∧ vs_tree s' = vs_tree s ∧
    vs_first s' = hd 0 (xs1 ++ v :: xs2) ∧ vs_last s' = default 0 (last (xs1 ++ v :: xs2)).
Proof.
  intros H Ex. pose proof (vi_nodup _ _ _ H) as Hnd. pose proof (vi_chain _ _ _ H) as Hc.
  assert (Hv : v ∉ xs) by (intros Hv; apply NoDup_app in Hnd as (_ & Hd & _); apply (Hd v Hv); by left).
  apply NoDup_app in Hnd as (Nxs & _ & _). destruct (vi_free _ _ _ H) as (_ & e & Ev & _).
  set (new := Vma start fin prot kind (default 0 (last xs1)) (hd 0 xs2)). set (s2 := vm_set_pool (<[v := new]> (vm_pool s)) (vm_set_free f s)).
  assert (Hold : ∀ x, x ∈ xs → x ≠ 0 ∧ vm_pool s2 !! x = vm_pool s !! x ∧ is_Some (vm_pool s !! x)).
  { intros x Hx. split; [by eapply vma_ne0|]. split; [apply lookup_insert_ne; by intros ->|by eapply chain_elem]. }
  assert (Hin1 : ∀ p, last xs1 = Some p → p ∈ xs) by (intros p Ep; rewrite Ex; apply elem_of_app; left; by apply last_Some_elem_of).
  assert (Hin2 : ∀ n, head xs2 = Some n → n ∈ xs) by (intros n En; rewrite Ex; apply elem_of_app; right; by apply head_Some_elem_of).
  assert (Hpn : ∀ x, last xs1 = Some x → head xs2 ≠ Some x).
  { intros x Ep%last_Some_elem_of En%head_Some_elem_of. rewrite Ex in Nxs. apply NoDup_app in Nxs as (_ & Hd & _). by apply (Hd x). }
  destruct (vma_link_prev_run s2 xs1 v) as (s3 & E3 & A3 & B3 & F3 & T3 & L3 & G3).
  { intros p Ep. destruct (Hold p (Hin1 p Ep)) as (? & -> & ?). done. }
  destruct (vma_link_next_run s3 xs2 v) as (s4 & E4 & A4 & B4 & F4 & T4 & G4 & L4).
  { intros n En. destruct (Hold n (Hin2 n En)) as (? & Eq & ?). rewrite B3 by (intros Ep; by apply (Hpn n)). by rewrite Eq. }
  assert (Pv : vm_pool s4 !! v = Some new).
  { rewrite B4 by (intros En; by apply Hv, Hin2). rewrite B3 by (intros Ep; by apply Hv, Hin1). apply lookup_insert_eq. }
  assert (Pp : ∀ x y, last xs1 = Some x → vm_pool s !! x = Some y → vm_pool s4 !! x = Some (set_v_next v y)).
  { intros x y Ep Ey. rewrite B4 by by apply Hpn. apply A3; [done|]. destruct (Hold x (Hin1 x Ep)) as (_ & -> & _). done. }
  assert (Pn : ∀ x y, head xs2 = Some x → vm_pool s !! x = Some y → vm_pool s4 !! x = Some (set_v_prev v y)).
  { intros x y En Ey. apply A4; [done|]. rewrite B3 by (intros Ep; by apply (Hpn x)). destruct (Hold x (Hin2 x En)) as (_ & -> & _). done. }
  assert (Po : ∀ x, x ≠ v → last xs1 ≠ Some x → head xs2 ≠ Some x → vm_pool s4 !! x = vm_pool s !! x).
  { intros x X1 X2 X3. rewrite B4, B3 by done. by apply lookup_insert_ne. }
  exists s4. split_and!.
  - intros B k. rewrite (bind_done _ _ _ _ _ (upd_vma_run v _ (vm_set_free f s) e Ev)). fold new. change (vm_set_pool _ (vm_set_free f s)) with s2.
    by rewrite (bind_done _ _ _ _ _ E3), (bind_done _ _ _ _ _ E4).
  - rewrite Ex in Hc, Nxs. apply (chain_insert (vm_pool s) _ _ _ v new); try done. intros x Hx. apply Po. intros ->. apply Hv. by rewrite Ex.
  - intros x Hx. apply not_elem_of_cons in Hx as [X1 X2]. apply Po; [done|intros E; by apply X2, Hin1|intros E; by apply X2, Hin2].
  - unfold range_of. by rewrite Pv.
  - intros x Hx. destruct (Hold x Hx) as (_ & _ & y & Ey). unfold range_of.
    destruct (decide (last xs1 = Some x)) as [Ep|Ep]; [by rewrite (Pp _ _ Ep Ey), Ey|].
    destruct (decide (head xs2 = Some x)) as [En|En]; [by rewrite (Pn _ _ En Ey), Ey|].
    rewrite Po; [done| |done|done]. intros ->. done.
  - by rewrite F4, F3.
  - by rewrite T4, T3.
  - rewrite G4, G3. destruct xs1 as [|x zs]; [done|]. simpl. rewrite last_cons. destruct (last zs); simpl; rewrite (vi_first _ _ _ H), Ex; done.
  - rewrite L4, L3. rewrite last_app_cons, last_cons. destruct xs2 as [|n ws]; [done|]. simpl head. cbn iota.
    change (vs_last s2) with (vs_last s). rewrite (vi_last _ _ _ H), Ex, last_app_cons. destruct (last (n :: ws)) eqn:E; [done|]. by apply last_None in E.
Qed.

(** The invariant after the new element has been entered everywhere. *)
Lemma vma_inv_insert s s5 xs xs1 xs2 v fs start fin prot kind t' f :
  vma_inv s xs (v :: fs) → xs = xs1 ++ xs2 → start < fin → ¬ Exists (clash s start fin) xs →
  Forall (λ x, start_of s x < start) xs1 → Forall (λ x, start ≤ start_of s x) xs2 →
  rb_ok (vs_tree s5) t' → elems t' = xs1 ++ v :: xs2 → chain (vm_pool s5) 0 (xs1 ++ v :: xs2) 0 →
  (∀ x, x ∉ v :: xs → vm_pool s5 !! x = vm_pool s !! x) → free_chain (vm_pool s) f fs → vma_free s5 = f →
  range_of s5 v = Some (start, fin, prot, kind) → (∀ x, x ∈ xs → range_of s5 x = range_of s x) →
  vs_first s5 = hd 0 (xs1 ++ v :: xs2) → vs_last s5 = default 0 (last (xs1 ++ v :: xs2)) →
  vma_inv s5 (xs1 ++ v :: xs2) fs.
Proof.
  intros H Ex Hf Hn H1 H2 Hok Et Hc Ho Hfs Ff Rv Rx Hfst Hlst. rewrite Forall_forall in H1, H2.
  assert (Hst : ∀ x, x ∈ xs → start_of s5 x = start_of s x ∧ end_of s5 x = end_of s x) by (intros x Hx; by apply range_parts, Rx).
  assert (Hsv : start_of s5 v = start ∧ end_of s5 v = fin).
  { unfold range_of in Rv. unfold start_of, end_of. destruct (vm_pool s5 !! v); [|done]. simpl in *. by injection Rv. }
  assert (Hlt : ∀ x, x ∈ xs → end_of s x ≤ start ∨ fin ≤ start_of s x).
  { intros x Hx. destruct (decide (clash s start fin x)) as [Hcl|Hcl]; [|unfold clash in Hcl; lia].
    exfalso. apply Hn, Exists_exists. by exists x. }
  assert (Hle : ∀ x, x ∈ xs → start_of s x < end_of s x) by (intros x Hx; by eapply range_size).
  assert (In1 : ∀ x, x ∈ xs1 → x ∈ xs) by (intros x Hx; rewrite Ex; apply elem_of_app; by left).
  assert (In2 : ∀ x, x ∈ xs2 → x ∈ xs) by (intros x Hx; rewrite Ex; apply elem_of_app; by right).
  pose proof (vi_nodup _ _ _ H) as Hnd. split; try done.
  - by exists t'.
  - rewrite <- app_assoc. simpl. rewrite Ex, <- app_assoc in Hnd. rewrite <- Permutation_middle. rewrite (app_assoc xs1) in Hnd.
    rewrite <- Permutation_middle in Hnd. by rewrite <- app_assoc in Hnd.
  - intros x Hx. apply (vi_ptr _ _ _ H). rewrite Ex. revert Hx. rewrite !elem_of_app, !elem_of_cons. tauto.
  - rewrite Ff. apply (free_chain_frame (vm_pool s)); [|done]. intros x Hx. apply Ho.
    apply NoDup_app in Hnd as (_ & Hd & Hnv). apply NoDup_cons in Hnv as [Hnv _]. rewrite elem_of_cons. intros [->|Hi]; [done|].
    apply (Hd x Hi). by right.
  - rewrite Forall_forall. intros x. rewrite elem_of_app, elem_of_cons.
    intros [Hx|[->|Hx]]; [|destruct Hsv as [-> ->]; done|]; destruct (Hst x ltac:(auto)) as [-> ->]; apply Hle; auto.
  - apply sorted_insert.
    + rewrite <- Ex. eapply sorted_ext; [|exact (vi_apart _ _ _ H)]. intros x y Hx Hy. simpl.
      destruct (Hst x Hx) as [_ ->], (Hst y Hy) as [-> _]. done.
    + rewrite Forall_forall. intros x Hx. destruct (Hst x (In1 x Hx)) as [_ ->], Hsv as [-> _]. specialize (H1 x Hx). destruct (Hlt x (In1 x Hx)); lia.
    + rewrite Forall_forall. intros x Hx. destruct (Hst x (In2 x Hx)) as [-> _], Hsv as [_ ->].
      specialize (H2 x Hx). specialize (Hle x (In2 x Hx)). destruct (Hlt x (In2 x Hx)); lia.
Qed.

(** The tests of [vma_insert] fail exactly when the new range overlaps another. *)
Lemma vma_insert_tests s xs fs xs1 xs2 start fin prot kind :
  vma_inv s xs fs → xs = xs1 ++ xs2 → start < fin → vma_nfind start s = Done (hd 0 xs2) s →
  Forall (λ x, start_of s x < start) xs1 → Forall (λ x, start ≤ start_of s x) xs2 →
  vma_insert start fin prot kind s =
    if bool_decide (Exists (clash s start fin) xs) then Done (-1) s
    else (v ← vma_alloc;
          if v =? 0 then mret (-1) else
          upd_vma v (λ _, Vma start fin prot kind (default 0 (last xs1)) (hd 0 xs2));;
          (if negb (default 0 (last xs1) =? 0) then upd_vma (default 0 (last xs1)) (set_v_next v) else kmodify (vm_set_first v));;
          (if negb (hd 0 xs2 =? 0) then upd_vma (hd 0 xs2) (set_v_prev v) else kmodify (vm_set_last v));;
          key ← kget start_of;
          on_tree (RB_INSERT vma_cmp key v);;
          mret 0) s.
Proof.
  intros H Ex Hf E H1 H2. pose proof (clash_neighbours _ _ _ _ _ start fin H Ex Hf H1 H2) as Hc.
  unfold vma_insert. rewrite (bind_done _ _ _ _ _ E), (bind_done _ _ _ _ _ (neighbours_run _ _ _ _ _ H Ex)).
  rewrite (bind_done _ _ _ _ _ (prev_test_run _ _ _ _ _ start H Ex)). case_bool_decide as Hcl.
  - apply Hc in Hcl as [(p & -> & Hp)|(n & En & Hn)]; [by rewrite (proj2 (Z.ltb_lt _ _) Hp)|].
    destruct (match last xs1 with Some p => start <? end_of s p | None => false end); [done|].
    rewrite (bind_done _ _ _ _ _ (next_test_run _ _ _ _ _ fin H Ex)), En. by rewrite (proj2 (Z.ltb_lt _ _) Hn).
  - rewrite Hc in Hcl. destruct (match last xs1 with Some p => start <? end_of s p | None => false end) eqn:B1.
    { exfalso. apply Hcl. left. destruct (last xs1) as [p|]; [|done]. exists p. split; [done|]. by apply Z.ltb_lt. }
    cbn iota. rewrite (bind_done _ _ _ _ _ (next_test_run _ _ _ _ _ fin H Ex)).
    destruct (match head xs2 with Some n => start_of s n <? fin | None => false end) eqn:B2; [|done].
    exfalso. apply Hcl. right. destruct (head xs2) as [n|]; [|done]. exists n. split; [done|]. by apply Z.ltb_lt.
Qed.

Lemma vma_insert_new s xs v fs start fin prot kind :
  vma_inv s xs (v :: fs) → start < fin → ¬ Exists (clash s start fin) xs →
  ∃ s' xs1 xs2, vma_insert start fin prot kind s = Done 0 s' ∧ xs = xs1 ++ xs2 ∧ vma_inv s' (xs1 ++ v :: xs2) fs ∧
    range_of s' v = Some (start, fin, prot, kind) ∧ (∀ x, x ∈ xs → range_of s' x = range_of s x).
Proof.
  intros H Hf Hn. destruct (vma_nfind_run _ _ _ start H) as (xs1 & xs2 & E & Ex & H1 & H2).
  rewrite (vma_insert_tests _ _ _ _ _ _ _ prot kind H Ex Hf E H1 H2), bool_decide_eq_false_2 by done.
  destruct (vi_free _ _ _ H) as (Fv & e & Ev & Fs). destruct (vi_ptr _ _ _ H v) as [V0 Lv]; [apply elem_of_app; right; by left|].
  destruct (link_in_run _ _ _ _ _ _ (v_next e) start fin prot kind H Ex) as (s4 & E4 & C4 & O4 & R4 & X4 & F4 & T4 & Fst & Lst).
  assert (Hst : ∀ x, x ∈ xs → start_of s4 x = start_of s x) by (intros x Hx; by apply range_parts, X4).
  assert (Hsv : start_of s4 v = start).
  { unfold range_of in R4. unfold start_of. destruct (vm_pool s4 !! v); [|done]. simpl in *. by injection R4. }
  destruct (vi_tree _ _ _ H) as (t & Hok & El).
  assert (Ho : ordered (start_of s4) (elems t)).
  { rewrite El. eapply sorted_ext; [|by eapply ranges_ordered]. intros x y Hx Hy. simpl. by rewrite (Hst x Hx), (Hst y Hy). }
  assert (Hne : Forall (λ x, start_of s4 x ≠ start_of s4 v) (elems t)).
  { rewrite El, Forall_forall. intros x Hx Heq. apply Hn, Exists_exists. exists x. split; [done|]. rewrite Hsv, (Hst x Hx) in Heq.
    pose proof (range_size _ _ _ _ H Hx). unfold clash. lia. }
  assert (Hvt : v ∉ elems t).
  { rewrite El. pose proof (vi_nodup _ _ _ H) as Hd. apply NoDup_app in Hd as (_ & Hd & _). intros Hi. apply (Hd v Hi). by left. }
  rewrite <- T4 in Hok.
  destruct (rb_insert_run vma_cmp (start_of s4) vma_cmp_spec _ _ v Hok Ho Lv V0 Hvt Hne) as (tr & t' & ys1 & ys2 & E5 & Hok' & El1 & El2 & K1 & K2).
  assert (Hsplit : xs1 = ys1 ∧ xs2 = ys2).
  { apply (split_by (start_of s4) start); [congruence|..]; rewrite ?Hsv in K1, K2; [..|done|].
    - rewrite Forall_forall in H1 |- *. intros x Hx. rewrite Hst; [by apply H1|]. rewrite Ex. apply elem_of_app. by left.
    - rewrite Forall_forall in H2 |- *. intros x Hx. rewrite Hst; [by apply H2|]. rewrite Ex. apply elem_of_app. by right.
    - eapply Forall_impl; [exact K2|]. simpl. lia. }
  destruct Hsplit as [<- <-]. set (s5 := Vmas (vm_pool s4) (vma_free s4) tr (vs_first s4) (vs_last s4)).
  exists s5, xs1, xs2. split_and!; [|done|by eapply (vma_inv_insert s s5)|done|done].
  rewrite (bind_done _ _ s v (vm_set_free (v_next e) s)).
  2: { unfold vma_alloc. rewrite (bind_done _ _ s v s) by (unfold kget; by rewrite Fv). rewrite (proj2 (Z.eqb_neq _ _) V0). cbn [negb].
       rewrite (bind_done _ _ s tt (vm_set_free (v_next e) s)); [done|]. by rewrite (bind_done _ _ s e s) by (by apply kread_done). }
  rewrite (proj2 (Z.eqb_neq _ _) V0), E4. rewrite (bind_done _ _ s4 (start_of s4) s4) by done.
  rewrite (bind_done _ _ s4 0 s5); [done|]. unfold on_tree. by rewrite (klift_done _ _ _ _ _ _ E5).
Qed.

(** ** The pool *)

Definition pool_elems (base i n : Z) : list Z := pool_elem base <$> seqZ i n.

Lemma free_chain_pool P base n : ∀ i,
  (∀ k, i ≤ k < i + Z.of_nat n → ∃ v, P !! pool_elem base k = Some v ∧
     v_next v = if decide (k = i + Z.of_nat n - 1) then 0 else pool_elem base (k + 1)) →
  free_chain P (if decide (n = O) then 0 else pool_elem base i) (pool_elems base i (Z.of_nat n)).
Proof.
  induction n as [|n IH]; intros i H; [done|]. unfold pool_elems in *. rewrite decide_False by done. rewrite seqZ_cons by lia.
  replace (Z.pred (Z.of_nat (S n))) with (Z.of_nat n) by lia. rewrite fmap_cons. cbn [free_chain]. split; [done|].
  destruct (H i) as (v & Ev & En); [lia|]. exists v. split; [done|].
  assert (Hnx : v_next v = if decide (n = O) then 0 else pool_elem base (Z.succ i)).
  { rewrite En. clear. destruct (decide (i = _)), (decide (n = O)); try lia; done. }
  rewrite Hnx. apply IH. intros k Hk. destruct (H k) as (u & Eu & Hu); [lia|]. exists u. split; [done|]. rewrite Hu.
  clear. destruct (decide (k = _)), (decide (k = _)); try lia; done.
Qed.

Lemma upd_pool_run base s i n :
  is_Some (vm_pool s !! pool_elem base i) →
  ∃ s' v, upd_vma (pool_elem base i) (set_v_next n) s = Done tt s' ∧ s' = vm_set_pool (<[pool_elem base i := set_v_next n v]> (vm_pool s)) s.
Proof. intros [v Ev]. exists (vm_set_pool (<[pool_elem base i := set_v_next n v]> (vm_pool s)) s), v. split; [by apply upd_vma_run|done]. Qed.

(** Before its first use, [vma_pool] is a static array of zeroes. *)
Lemma vma_set_init_run s base :
  vma_free s = 0 → 0 < base → base mod 4 = 0 → pool_elem base VMA_POOL_MAX < U64 →
  (∀ k, 0 ≤ k < VMA_POOL_MAX → is_Some (vm_pool s !! pool_elem base k)) →
  ∃ s', vma_set_init base s = Done tt s' ∧ vma_inv s' [] (pool_elems base 0 VMA_POOL_MAX).
Proof.
  intros Hf Hb Hm Hu Hp. set (s0 := Vmas (vm_pool s) (vma_free s) (RbTree 0 (rb_nodes (vs_tree s))) 0 0).
  set (I := λ (j : Z) (t : vmas), vs_tree t = vs_tree s0 ∧ vs_first t = 0 ∧ vs_last t = 0 ∧
    (∀ k, 0 ≤ k < VMA_POOL_MAX → ∃ v, vm_pool t !! pool_elem base k = Some v ∧ (k < j → v_next v = pool_elem base (k + 1)))).
  assert (Hinj : ∀ i k, pool_elem base i = pool_elem base k → i = k) by (unfold pool_elem, SIZEOF_VMA; lia).
  destruct (kfor_inv (Z.to_nat (VMA_POOL_MAX - 1)) 0 (λ i, upd_vma (pool_elem base i) (set_v_next (pool_elem base (i + 1)))) I s0) as (s1 & E1 & T1 & F1 & L1 & P1).
  { split_and!; [done..|]. intros k Hk. destruct (Hp k Hk) as [v Ev]. exists v. split; [done|lia]. }
  { intros j t Hj (Tt & Ft & Lt & Pt). destruct (Pt j) as (vj & Ej & _); [change VMA_POOL_MAX with 256 in *; lia|].
    destruct (upd_pool_run base t j (pool_elem base (j + 1))) as (t' & v & Et & ->); [by exists vj|]. eexists. split; [exact Et|].
    split_and!; [done..|]. intros k Hk. simpl. destruct (decide (k = j)) as [->|Hn].
    - exists (set_v_next (pool_elem base (j + 1)) v). by rewrite lookup_insert_eq.
    - destruct (Pt k Hk) as (u & Eu & Hku). exists u. rewrite lookup_insert_ne by (intros E; by apply Hn, Hinj). split; [done|]. intros. apply Hku. lia. }
  change (Z.of_nat (Z.to_nat (VMA_POOL_MAX - 1))) with 255 in P1. change (0 + 255) with 255 in P1.
  destruct (upd_pool_run base s1 255 0) as (s2 & v & E2 & E2').
  { destruct (P1 255) as (v & Ev & _); [done|]. by exists v. }
  exists (vm_set_free base s2). split.
  - unfold vma_set_init. rewrite (bind_done _ _ s tt s0) by done. rewrite (bind_done _ _ s0 0 s0) by (unfold kget; simpl; by rewrite Hf).
    rewrite Z.eqb_refl, (bind_done _ _ _ _ _ E1). by rewrite (bind_done _ _ _ _ _ E2).
  - subst s2. split; simpl; try done.
    + exists Nil. split; [|done]. rewrite T1. split; [|by exists 0]. split_and!; [done|done|constructor].
    + unfold pool_elems. apply NoDup_fmap; [intros i k; apply Hinj|apply NoDup_seqZ].
    + intros x (k & -> & Hk%elem_of_seqZ)%list_elem_of_fmap. unfold link, pool_elem, SIZEOF_VMA in *. change VMA_POOL_MAX with 256 in *.
      split; [lia|]. split; [lia|]. Z.div_mod_to_equations. lia.
    + replace base with (pool_elem base 0) at 1 by (unfold pool_elem; lia). apply (free_chain_pool _ base 256 0). intros k Hk.
      destruct (decide (k = 255)) as [->|Hn].
      * exists (set_v_next 0 v). by rewrite lookup_insert_eq.
      * destruct (P1 k) as (u & Eu & Hku); [done|]. exists u. rewrite lookup_insert_ne by (intros E; apply Hn; symmetry; by apply Hinj). split; [done|].
        rewrite decide_False by lia. apply Hku. lia.
    + constructor.
Qed.

(** C9: [vma_insert] and [vma_find] on the set of ranges.  A range that overlaps
    another, or for which the pool has no element, is refused and nothing changes.
    Otherwise the next element of the pool holds it: the set is again an ordered
    list of disjoint ranges, in the tree and in the chain, with the new one at its
    place and the others untouched.  [vma_find] then gives, for every address, the
    one range that contains it, so for each address of the new range the new
    element, and [NULL] where there is none. *)
Theorem vma_insert_spec s xs fs start fin prot kind :
  vma_inv s xs fs → start < fin →
  (Exists (clash s start fin) xs ∨ fs = [] → vma_insert start fin prot kind s = Done (-1) s) ∧
  (∀ v fs', ¬ Exists (clash s start fin) xs → fs = v :: fs' →
    ∃ s' xs1 xs2, vma_insert start fin prot kind s = Done 0 s' ∧ xs = xs1 ++ xs2 ∧ vma_inv s' (xs1 ++ v :: xs2) fs' ∧
      range_of s' v = Some (start, fin, prot, kind) ∧ (∀ x, x ∈ xs → range_of s' x = range_of s x) ∧
      ∀ addr, ∃ r, vma_find addr s' = Done r s' ∧ (r = 0 ∨ r ∈ v :: xs) ∧
        (start ≤ addr < fin → r = v) ∧ (∀ x, x ∈ v :: xs → holds_addr s' addr x ↔ x = r)).
Proof.
  intros H Hf. split.
  - intros Hc. destruct (vma_nfind_run _ _ _ start H) as (xs1 & xs2 & E & Ex & H1 & H2).
    rewrite (vma_insert_tests _ _ _ _ _ _ _ prot kind H Ex Hf E H1 H2). case_bool_decide; [done|]. destruct Hc as [?| ->]; [done|].
    pose proof (vi_free _ _ _ H) as Hfr. simpl in Hfr.
    rewrite (bind_done _ _ s 0 s); [done|]. unfold vma_alloc. by rewrite (bind_done _ _ s 0 s) by (unfold kget; by rewrite Hfr).
  - intros v fs' Hn ->. destruct (vma_insert_new _ _ _ _ _ _ prot kind H Hf Hn) as (s' & xs1 & xs2 & E & Ex & H' & Rv & Rx).
    exists s', xs1, xs2. split_and!; try done. intros addr.
    assert (Hel : ∀ x, x ∈ v :: xs ↔ x ∈ xs1 ++ v :: xs2) by (intros x; rewrite Ex, !elem_of_app, !elem_of_cons, elem_of_app; tauto).
    destruct (vma_find_run _ _ _ addr H') as (r & Er & Hr & Hh); [by destruct xs1|]. exists r. split_and!; [done| | |].
    + by rewrite Hel.
    + intros Ha. symmetry. apply Hh; [apply Hel; by left|]. unfold range_of in Rv. unfold holds_addr, start_of, end_of.
      destruct (vm_pool s' !! v); [|done]. simpl in *. by injection Rv as -> ->.
    + intros x Hx. apply Hh. by apply Hel.
Qed.
End spec.

(** ** A concrete set: the stack of the child *)

Definition zero_vma : vma := Vma 0 0 0 0 0 0.
Definition boot_vmas : vmas := Vmas (list_to_map ((λ x, (x, zero_vma)) <$> pool_elems 4096 0 VMA_POOL_MAX)) 0 (RbTree 0 ∅) 0 0.

Lemma zero_pool_lookup base n k :
  0 ≤ k < n → (list_to_map ((λ x, (x, zero_vma)) <$> pool_elems base 0 n) : gmap Z vma) !! pool_elem base k = Some zero_vma.
Proof.
  intros Hk. apply elem_of_list_to_map_1.
  - rewrite <- list_fmap_compose. unfold pool_elems. rewrite <- list_fmap_compose. apply NoDup_fmap; [|apply NoDup_seqZ].
    intros i j. unfold compose. simpl. unfold pool_elem, SIZEOF_VMA. lia.
  - apply list_elem_of_fmap. exists (pool_elem base k). split; [done|]. unfold pool_elems. apply list_elem_of_fmap. exists k. split; [done|].
    apply elem_of_seqZ. lia.
Qed.
Lemma boot_vmas_ok : ∃ s, vma_set_init 4096 boot_vmas = Done tt s ∧ vma_inv s [] (pool_elems 4096 0 VMA_POOL_MAX).
Proof.
  apply vma_set_init_run; [done..|]. intros k Hk. exists zero_vma. unfold boot_vmas. cbn [vm_pool]. by apply zero_pool_lookup.
Qed.

Lemma vma_insert_spec_witness :
  ∃ s s', vma_inv s [] (pool_elems 4096 0 VMA_POOL_MAX) ∧ vma_insert 0x7ffffffdf000 0x7ffffffff000 3 3 s = Done 0 s' ∧
    vma_find 0x7fffffff0000 s' = Done 4096 s'.
Proof.
  destruct boot_vmas_ok as (s & _ & H).
  destruct (vma_insert_spec s [] (pool_elems 4096 0 VMA_POOL_MAX) 0x7ffffffdf000 0x7ffffffff000 3 3 H ltac:(lia)) as [_ Hi].
  destruct (Hi 4096 (pool_elems 4096 1 255)) as (s' & xs1 & xs2 & E & _ & _ & _ & _ & Hfind).
  - intros Hc. by apply Exists_nil in Hc.
  - unfold pool_elems. change VMA_POOL_MAX with 256. rewrite (seqZ_cons 0 256) by lia. reflexivity.
  - exists s, s'. split; [exact H|]. split; [exact E|]. destruct (Hfind 0x7fffffff0000) as (r & Er & _ & Hr & _).
    rewrite <- (Hr ltac:(lia)). exact Er.
Defined.

(** An empty range, which a request for no memory makes ([serve_alloc] with a
    length of 0), stands in the way of every later range at its address. *)
Definition two_vmas : vmas :=
  Vmas {[ 4096 := Vma 0 0 0 0 0 4168; 4168 := zero_vma ]} 4096 (RbTree 0 ∅) 0 0.
Example vma_insert_empty_range :
  value_of ((vma_insert 0x700000000000 0x700000000000 3 4;; vma_insert 0x700000000000 0x700000001000 3 4) two_vmas) = Some (-1) ∧
  value_of (vma_insert 0x700000000000 0x700000001000 3 4 two_vmas) = Some 0.
Proof. split; vm_compute; reflexivity. Qed.
