(* ===== verification/Elf.v ===== *)
(** * ELF images (kernel/task/init.c: elf_load; kernel/mm/vmm.c; user/elf.c)

    An image is read through its bytes: [b i] is the byte at offset [i]. *)

From S2P Require Export Mem.

(** The little-endian field of [n] bytes at offset [o]. *)
Fixpoint field (n : nat) (b : Z → Z) (o : Z) : Z :=
  match n with O => 0 | S n' => b o + Z.shiftl (field n' b (o + 1)) 8 end.
Definition u16 := field 2.
Definition u32 := field 4.
Definition u64 := field 8.

(** [sizeof] and field offsets of [Elf64_Ehdr], [Elf64_Phdr] and [Elf64_Shdr]. *)
Definition SIZEOF_EHDR : Z := 64.
Definition SIZEOF_PHDR : Z := 56.
Definition SIZEOF_SHDR : Z := 64.
Definition e_type b := u16 b 16.
Definition e_machine b := u16 b 18.
Definition e_entry b := u64 b 24.
Definition e_phoff b := u64 b 32.
Definition e_shoff b := u64 b 40.
Definition e_phentsize b := u16 b 54.
Definition e_phnum b := u16 b 56.
Definition e_shnum b := u16 b 60.

Record phdr := Phdr { p_type : Z; p_flags : Z; p_offset : Z; p_vaddr : Z; p_filesz : Z; p_memsz : Z }.
Definition phdr_at (b : Z → Z) (o : Z) : phdr :=
  Phdr (u32 b o) (u32 b (o + 4)) (u64 b (o + 8)) (u64 b (o + 16)) (u64 b (o + 32)) (u64 b (o + 40)).
(** [phdr[i]]. *)
Definition phdr_nth b (i : Z) : phdr := phdr_at b (wrap64 (e_phoff b + i * SIZEOF_PHDR)).

Definition ELFCLASS64 : Z := 2.
Definition ELFDATA2LSB : Z := 1.
Definition ET_EXEC : Z := 2.
Definition EM_X86_64 : Z := 62.
Definition PT_LOAD : Z := 1.
Definition PF_X : Z := 1.
Definition PF_W : Z := 2.
Definition PF_R : Z := 4.

(** The checks of [elf_load] and of [elf_check] (user/elf.c), in their order. *)
Definition elf_check (b : Z → Z) (size : Z) : Z :=
  if size <? SIZEOF_EHDR then -1
  else if negb ((b 0 =? 0x7F) && (b 1 =? 69) && (b 2 =? 76) && (b 3 =? 70)) then -1
  else if negb (b 4 =? ELFCLASS64) then -1
  else if negb (b 5 =? ELFDATA2LSB) then -1
  else if negb (e_type b =? ET_EXEC) then -1
  else if negb (e_machine b =? EM_X86_64) then -1
  else if negb (e_phentsize b =? SIZEOF_PHDR) then -1
  else if size <? wrap64 (e_phoff b + e_phnum b * SIZEOF_PHDR) then -1
  else 0.

(** ** Loading into an address space (elf_load) *)

Section load.
Context {T : Type} `{!PageAllocator T}.
Implicit Types (s : pstate T).

Variable p : pmap_ref.
(** The image, at the kernel address [elf]. *)
Variable elf : Z.

Definition image s (i : Z) : Z := get_byte (ps_mem s) (virt_to_phys (wrap64 (elf + i))).

Definition seg_prot (ph : phdr) : Z :=
  let f := PROT_USER in
  let f := if has_flag (p_flags ph) PF_R then Z.lor f PROT_READ else f in
  let f := if has_flag (p_flags ph) PF_W then Z.lor f PROT_WRITE else f in
  if has_flag (p_flags ph) PF_X then Z.lor f PROT_EXEC else f.

(** The part of a page at [va] that lies between [lo] and [hi]. *)
Definition clip_lo (va lo : Z) : Z := if lo <? va then va else lo.
Definition clip_hi (va hi : Z) : Z := if wrap64 (va + PAGE_SIZE) <? hi then wrap64 (va + PAGE_SIZE) else hi.

Definition file_end (ph : phdr) : Z := wrap64 (p_vaddr ph + p_filesz ph).
Definition mem_end (ph : phdr) : Z := wrap64 (p_vaddr ph + p_memsz ph).

(** The file bytes and the zeroes of the page at [va], backed by [phys]. *)
Definition load_page (ph : phdr) (va phys : Z) : K (pstate T) unit :=
  let f_lo := clip_lo va (p_vaddr ph) in
  let f_hi := clip_hi va (file_end ph) in
  (if f_lo <? f_hi then
     kmodify (λ s,
       let src := (λ i, image s (p_offset ph + (f_lo - p_vaddr ph) + i)) <$> seqZ 0 (f_hi - f_lo) in
       set_mem (mem_write (phys + (f_lo - va)) src (ps_mem s)) s)
   else mret tt);;
  let z_lo := clip_lo va (file_end ph) in
  let z_hi := clip_hi va (mem_end ph) in
  (if z_lo <? z_hi then
     kmodify (λ s, set_mem (mem_fill (Z.to_nat (z_hi - z_lo)) (phys + (z_lo - va)) 0 (ps_mem s)) s)
   else mret tt).

(** [for (; va < va_end; va += PAGE_SIZE)]: both are page aligned, so [va] does not
    pass [va_end] and [fuel] is the number of pages. *)
Fixpoint load_pages (fuel : nat) (ph : phdr) (va va_end : Z) : K (pstate T) Z :=
  match fuel with
  | O => kspin
  | S fuel' =>
      if negb (va <? va_end) then mret 0 else
      phys ← on_pages (pa_alloc 0);
      if phys =? 0 then mret (-1) else
      err ← pmap_map p va phys PAGE_SIZE (seg_prot ph);
      if negb (err =? 0) then mret (-1) else
      load_page ph va phys;;
      load_pages fuel' ph (wrap64 (va + PAGE_SIZE)) va_end
  end.

Definition load_segment (size : Z) (ph : phdr) : K (pstate T) Z :=
  if negb (p_type ph =? PT_LOAD) then mret 0 else
  if size <? wrap64 (p_offset ph + p_filesz ph) then mret (-1) else
  let va := Z.land (p_vaddr ph) (bnot64 (PAGE_SIZE - 1)) in
  let va_end := ALIGN_UP (mem_end ph) PAGE_SIZE in
  load_pages (S (Z.to_nat ((va_end - va) / PAGE_SIZE))) ph va va_end.

(** [for (i = 0; i < e_phnum; i++)]. *)
Fixpoint load_segments (n : nat) (i size : Z) : K (pstate T) Z :=
  match n with
  | O => mret 0
  | S n' =>
      ph ← kget (λ s, phdr_nth (image s) i);
      err ← load_segment size ph;
      if negb (err =? 0) then mret (-1) else load_segments n' (i + 1) size
  end.

(** The status and the value of [*entry_out]. *)
Definition elf_load (size : Z) : K (pstate T) (Z * Z) :=
  ok ← kget (λ s, elf_check (image s) size);
  if negb (ok =? 0) then mret (-1, 0) else
  n ← kget (λ s, e_phnum (image s));
  err ← load_segments (Z.to_nat n) 0 size;
  if negb (err =? 0) then mret (-1, 0) else
  entry ← kget (λ s, e_entry (image s));
  mret (0, entry).
End load.

(** ** The kernel's own address space (kernel/mm/vmm.c) *)

Definition SHF_WRITE : Z := 1.
Definition SHF_ALLOC : Z := 2.
Definition SHF_EXECINSTR : Z := 4.
Definition KERNEL_BASE : Z := 0xFFFFFFFF80000000.

Record shdr := Shdr { sh_flags : Z; sh_addr : Z; sh_size : Z }.
Definition shdr_nth (b : Z → Z) (i : Z) : shdr :=
  let o := wrap64 (e_shoff b + i * SIZEOF_SHDR) in Shdr (u64 b (o + 8)) (u64 b (o + 16)) (u64 b (o + 32)).

Section vmm.
Context {T : Type} `{!PageAllocator T}.
Implicit Types (s : pstate T).

Definition section_prot (sec : shdr) : Z :=
  let f := PROT_READ in
  let f := if has_flag (sh_flags sec) SHF_WRITE then Z.lor f PROT_WRITE else f in
  if has_flag (sh_flags sec) SHF_EXECINSTR then Z.lor f PROT_EXEC else f.

(** [for (i = 0; i < e_shnum; i++)]. *)
Fixpoint map_sections (n : nat) (i kernel_src : Z) : K (pstate T) Z :=
  match n with
  | O => mret 0
  | S n' =>
      sec ← kget (λ s, shdr_nth (image kernel_src s) i);
      if negb (has_flag (sh_flags sec) SHF_ALLOC) || (sh_size sec =? 0) then map_sections n' (i + 1) kernel_src else
      err ← pmap_map PmapKernel (sh_addr sec) (wrap64 (sh_addr sec - KERNEL_BASE)) (sh_size sec) (section_prot sec);
      if negb (err =? 0) then mret err else map_sections n' (i + 1) kernel_src
  end.

Definition map_kernel (kernel_src : Z) : K (pstate T) Z :=
  magic ← kget (λ s, let b := image kernel_src s in (b 0 =? 0x7F) && (b 1 =? 69) && (b 2 =? 76) && (b 3 =? 70));
  if negb magic then mret (-1) else
  n ← kget (λ s, e_shnum (image kernel_src s));
  map_sections (Z.to_nat n) 0 kernel_src.

Definition vmm_init (max_phys_addr kernel_src : Z) : K (pstate T) Z :=
  pmap_init;;
  err ← pmap_map PmapKernel HHDM_OFFSET 0 max_phys_addr (Z.lor (Z.lor PROT_READ PROT_WRITE) PROT_HUGE);
  if negb (err =? 0) then mret err else
  err ← map_kernel kernel_src;
  if negb (err =? 0) then mret err else
  pmap_activate PmapKernel;;
  mret 0.
End vmm.
