(* ===== verification/ElfSpec.v ===== *)
(** * What the kernel's ELF loader leaves in an address space (kernel/task/init.c)

    After a successful [elf_load] every byte of every loadable segment is mapped, on
    a frame of its own, and holds the byte of the image or zero. *)

From S2P Require Export PmapRange PmmInit Elf.

(** ** Bytes and frames *)

(** The words of frame [f] are the same in two memories. *)
Definition frame_same (m m' : gmap Z Z) (f : Z) : Prop :=
  ∀ i, index i → entry m' (f * PAGE_SIZE) i = entry m (f * PAGE_SIZE) i.
Lemma frame_same_trans m1 m2 m3 f : frame_same m1 m2 f → frame_same m2 m3 f → frame_same m1 m3 f.
Proof. intros H1 H2 i Hi. by rewrite H2, H1. Qed.

Lemma word_frame a : word_at a = a / PAGE_SIZE * PAGE_SIZE + 8 * (a mod PAGE_SIZE / 8) ∧ index (a mod PAGE_SIZE / 8).
Proof. unfold word_at, index. change PAGE_SIZE with 4096. split; Z.div_mod_to_equations; lia. Qed.
Lemma get_byte_same m m' a : frame_same m m' (a / PAGE_SIZE) → get_byte m' a = get_byte m a.
Proof.
  intros H. destruct (word_frame a) as [E Hi]. specialize (H _ Hi). unfold entry in H. unfold get_byte. by rewrite E, H.
Qed.
Lemma put_byte_frame a v m f : a / PAGE_SIZE ≠ f → frame_same m (put_byte a v m) f.
Proof.
  intros Hf i Hi. unfold put_byte, entry, rd at 1. rewrite lookup_insert_ne; [done|]. destruct (word_frame a) as [E Hj]. rewrite E.
  intros Heq. by apply word_inj in Heq as [? _].
Qed.
Lemma mem_write_frame bs : ∀ a m f, (∀ j, 0 ≤ j < Z.of_nat (length bs) → (a + j) / PAGE_SIZE ≠ f) → frame_same m (mem_write a bs m) f.
Proof.
  induction bs as [|b bs IH]; intros a m f H; simpl; [done|]. eapply frame_same_trans; [apply put_byte_frame|apply IH].
  - rewrite <- (Z.add_0_r a). apply H. simpl. lia.
  - intros j Hj. replace (a + 1 + j) with (a + (j + 1)) by lia. apply H. simpl. lia.
Qed.
Lemma mem_fill_frame n : ∀ a v m f, (∀ j, 0 ≤ j < Z.of_nat n → (a + j) / PAGE_SIZE ≠ f) → frame_same m (mem_fill n a v m) f.
Proof.
  induction n as [|n IH]; intros a v m f H; simpl; [done|]. eapply frame_same_trans; [apply put_byte_frame|apply IH].
  - rewrite <- (Z.add_0_r a). apply H. lia.
  - intros j Hj. replace (a + 1 + j) with (a + (j + 1)) by lia. apply H. lia.
Qed.

(** Every path is on the walk of some address. *)
Lemma path_address q : wf_path q → ∃ va, q `prefix_of` idx3 va.
Proof.
  intros [Hl Hq].
  assert (H3 : ∀ a b c, index a → index b → index c → idx3 (a * 2 ^ 39 + b * 2 ^ 30 + c * 2 ^ 21) = [a; b; c]).
  { unfold index, idx3, PML4_INDEX, PDPT_INDEX, PD_INDEX. intros a b c Ha Hb Hc. rewrite !index_mod by lia.
    change (2 ^ 39) with (2 ^ 21 * 262144). change (2 ^ 30) with (2 ^ 21 * 512). rewrite <- !Z.div_div by lia.
    replace ((a * (2 ^ 21 * 262144) + b * (2 ^ 21 * 512) + c * 2 ^ 21) / 2 ^ 21) with (a * 262144 + b * 512 + c)
      by (change (2 ^ 21) with 2097152; Z.div_mod_to_equations; lia).
    f_equal; [|f_equal; [|f_equal]]; Z.div_mod_to_equations; lia. }
  assert (H0 : index 0) by (unfold index; lia).
  destruct q as [|a [|b [|c [|]]]]; simpl in Hl; try lia; repeat (apply Forall_cons in Hq as [? Hq]).
  - exists 0. apply prefix_nil.
  - exists (a * 2 ^ 39 + 0 * 2 ^ 30 + 0 * 2 ^ 21). rewrite H3 by done. by exists [0; 0].
  - exists (a * 2 ^ 39 + b * 2 ^ 30 + 0 * 2 ^ 21). rewrite H3 by done. by exists [0].
  - eexists. by rewrite (H3 a b c).
Qed.

(** The little-endian fields depend on their bytes only. *)
Lemma field_ext n : ∀ b b' o, (∀ j, o ≤ j < o + Z.of_nat n → b j = b' j) → field n b o = field n b' o.
Proof.
  induction n as [|n IH]; intros b b' o H; [done|]. cbn [field]. rewrite (H o) by lia. rewrite (IH b b'); [done|]. intros j Hj. apply H. lia.
Qed.

Lemma field_range n : ∀ b o, (∀ j, 0 ≤ b j < 256) → 0 ≤ field n b o.
Proof.
  induction n as [|n IH]; intros b o Hb; [done|]. cbn [field]. rewrite Z.shiftl_mul_pow2 by lia. specialize (IH b (o + 1) Hb). specialize (Hb o). lia.
Qed.

(** ** Segments *)

Definition seg_lo (ph : phdr) : Z := p_vaddr ph / PAGE_SIZE.
Definition seg_hi (ph : phdr) : Z := (p_vaddr ph + p_memsz ph + 0xFFF) / PAGE_SIZE.
Definition in_seg (ph : phdr) (v : Z) : Prop := p_type ph = PT_LOAD ∧ seg_lo ph ≤ v < seg_hi ph.
(** What a sensible image has: segments in the lower half, and in the file. *)
Record seg_ok (size : Z) (ph : phdr) : Prop := SegOk {
  so_vaddr : 0 ≤ p_vaddr ph;
  so_sizes : 0 ≤ p_filesz ph ≤ p_memsz ph;
  so_user : p_vaddr ph + p_memsz ph ≤ 2 ^ 47;
  so_file : 0 ≤ p_offset ph ∧ p_offset ph + p_filesz ph ≤ size;
}.
(** The byte at address [a] of the segment. *)
Definition seg_byte (img : Z → Z) (ph : phdr) (a : Z) : Z :=
  if a <? p_vaddr ph + p_filesz ph then img (p_offset ph + (a - p_vaddr ph)) else 0.

Lemma seg_prot_not_huge ph : has_flag (seg_prot ph) PROT_HUGE = false.
Proof. unfold seg_prot. by destruct (has_flag (p_flags ph) PF_R), (has_flag (p_flags ph) PF_W), (has_flag (p_flags ph) PF_X). Qed.
Lemma vpn_user a : 0 ≤ a < 2 ^ 47 → vpn a = a / PAGE_SIZE.
Proof. intros Ha. unfold vpn. apply Z.mod_small. change PAGE_SIZE with 4096. change (2 ^ 36) with 0x1000000000. Z.div_mod_to_equations. lia. Qed.

(** ** Loading *)

Lemma clip_lo_max va lo : clip_lo va lo = Z.max va lo.
Proof. unfold clip_lo. destruct (Z.ltb_spec lo va); lia. Qed.
Lemma clip_hi_min va hi : 0 ≤ va + PAGE_SIZE < U64 → clip_hi va hi = Z.min (va + PAGE_SIZE) hi.
Proof. intros H. unfold clip_hi. rewrite wrap64_small by done. destruct (Z.ltb_spec (va + PAGE_SIZE) hi); lia. Qed.

Lemma in_page b k : 0 ≤ k < PAGE_SIZE → (b * PAGE_SIZE + k) / PAGE_SIZE = b.
Proof. change PAGE_SIZE with 4096. intros. Z.div_mod_to_equations. lia. Qed.

Section load.
Context {T : Type} `{!PageAllocator T}.
Implicit Types (s : pstate T).
Variable p : pmap_ref.
Hypothesis Hp : p ≠ PmapNull.
(** The root of the address space; the image of [size] bytes [img], at [elf]. *)
Variable R : Z.
Variable elf size : Z.
Variable img : Z → Z.

(** The address space [p] is there and unlocked, with free frames [P]. *)
Definition ready s (P : Z → Prop) : Prop :=
  ∃ pm, ps_pmaps s !! p = Some pm ∧ lock_free (pm_lock pm) ∧ pm_root_phys pm = R ∧ space pm s P.
(** A frame that is neither free nor a table. *)
Definition data_frame s (P : Z → Prop) (f : Z) : Prop := ¬ P f ∧ ∀ va, ¬ path_frame (ps_mem s) R va f.
Definition image_ok s (P : Z → Prop) : Prop :=
  ∀ i, 0 ≤ i < size → data_frame s P (virt_to_phys (wrap64 (elf + i)) / PAGE_SIZE) ∧ image elf s i = img i.

(** The loader goes on: data stays, and frames are only taken. *)
Record goes_on s s' (P P' : Z → Prop) : Prop := GoesOn {
  go_ready : ready s' P';
  go_free : ∀ x, P' x → P x;
  go_data : ∀ f, data_frame s P f → data_frame s' P' f ∧ frame_same (ps_mem s) (ps_mem s') f;
}.
Lemma goes_on_refl s P : ready s P → goes_on s s P P.
Proof. by split. Qed.
Lemma goes_on_trans s1 s2 s3 P1 P2 P3 : goes_on s1 s2 P1 P2 → goes_on s2 s3 P2 P3 → goes_on s1 s3 P1 P3.
Proof.
  intros [_ F1 D1] [R2 F2 D2]. split; [done|auto|]. intros f [H1 E1]%D1. destruct (D2 f H1) as [H2 E2].
  split; [done|]. by eapply frame_same_trans.
Qed.
Lemma image_goes_on s s' P P' : goes_on s s' P P' → image_ok s P → image_ok s' P'.
Proof.
  intros Hg Hi i Hr. destruct (Hi i Hr) as [Hd E]. destruct (go_data _ _ _ _ Hg _ Hd) as [Hd' Hf].
  split; [done|]. rewrite <- E. unfold image. by apply get_byte_same.
Qed.

(** Byte [a] of the segment is mapped, with the protection of the segment. *)
Definition loaded s (P : Z → Prop) (ph : phdr) (a : Z) : Prop :=
  ∃ f, 0 < f < 2 ^ 40 ∧ data_frame s P f ∧ leaf (ps_mem s) R a = Some (false, page_entry (f * PAGE_SIZE) (seg_prot ph)) ∧
    get_byte (ps_mem s) (f * PAGE_SIZE + a mod PAGE_SIZE) = seg_byte img ph a.
Lemma loaded_goes_on s s' P P' ph a :
  goes_on s s' P P' → leaf (ps_mem s') R a = leaf (ps_mem s) R a → loaded s P ph a → loaded s' P' ph a.
Proof.
  intros Hg El (f & Hf & Hd & Ea & Eb). destruct (go_data _ _ _ _ Hg _ Hd) as [Hd' Hs]. exists f. split_and!; [lia|lia|done|by rewrite El|].
  rewrite <- Eb. apply get_byte_same. replace ((f * PAGE_SIZE + a mod PAGE_SIZE) / PAGE_SIZE) with f; [done|].
  change PAGE_SIZE with 4096. Z.div_mod_to_equations. lia.
Qed.
Lemma loaded_translate s P ph a :
  loaded s P ph a → ∃ pa, translate (ps_mem s) R a = Some pa ∧ get_byte (ps_mem s) pa = seg_byte img ph a.
Proof.
  intros (f & Hf & _ & Ea & Eb). eexists. unfold translate. rewrite Ea. split; [reflexivity|].
  rewrite page_entry_addr, mask_page by lia. change 0xFFF with (Z.ones 12). by rewrite Z.land_ones.
Qed.

(** A write to a data frame leaves the address space and the other data alone. *)
Lemma data_write s P b m :
  ready s P → data_frame s P b → (∀ f, f ≠ b → frame_same (ps_mem s) m f) →
  ready (set_mem m s) P ∧ (∀ f, data_frame s P f → data_frame (set_mem m s) P f) ∧ ∀ va, leaf m R va = leaf (ps_mem s) R va.
Proof.
  intros (pm & Ep & Hl & ER & [Hv Hw Hinv]) [HP Hb] Hm. rewrite ER in *.
  assert (Hag : ∀ q t i, wf_path q → tbl (ps_mem s) R q = Some t → index i → entry m t i = entry (ps_mem s) t i).
  { intros q t i Hq Ht Hi. destruct (table_page _ _ _ Hw q t Hq Ht) as (f & -> & _ & _). apply Hm; [|done]. intros ->.
    destruct (path_address q Hq) as [va Hva]. apply (Hb va). by exists q. }
  pose proof (tbl_agree _ _ _ Hag) as Ht. split.
  - exists pm. do 3 (split; [done|]). split; [by rewrite ER| |done]. simpl. rewrite ER. by apply (pt_wf_agree (ps_mem s)).
  - split; [|by apply leaf_agree]. intros f [Hf Hva]. split; [done|]. intros va (q & Hq & E). apply (Hva va). exists q. split; [done|].
    rewrite <- Ht; [done|]. eapply wf_path_prefix; [done|apply idx3_wf].
Qed.

(** ** One page *)

(** The bytes from [lo] to [hi] of the image, written to the same place of the page. *)
Lemma image_slice s o lo n k : 0 ≤ k < n → ((λ i, image elf s (o + i)) <$> seqZ lo n) !!! Z.to_nat k = image elf s (o + (lo + k)).
Proof.
  intros Hk. rewrite list_lookup_total_alt, list_lookup_fmap, lookup_seqZ_lt by lia. simpl. do 2 f_equal. lia.
Qed.

Lemma load_page_run s P ph v b :
  ready s P → image_ok s P → seg_ok size ph → seg_lo ph ≤ v < seg_hi ph → 0 < b →
  ∃ m, load_page elf ph (v * PAGE_SIZE) (b * PAGE_SIZE) s = Done tt (set_mem m s) ∧
    (∀ f, f ≠ b → frame_same (ps_mem s) m f) ∧
    ∀ a, a / PAGE_SIZE = v → p_vaddr ph ≤ a < p_vaddr ph + p_memsz ph →
      get_byte m (b * PAGE_SIZE + a mod PAGE_SIZE) = seg_byte img ph a.
Proof.
  intros Hr Hi [Hv Hsz Hu Hf] Hvr Hb. unfold seg_lo, seg_hi in Hvr. change (2 ^ 47) with 0x800000000000 in Hu.
  assert (Hva : 0 ≤ v * PAGE_SIZE < 0x800000000000).
  { change PAGE_SIZE with 4096 in *. Z.div_mod_to_equations. lia. }
  set (va := v * PAGE_SIZE) in *. unfold load_page, file_end, mem_end.
  rewrite !(wrap64_small (p_vaddr ph + _)) by (unfold U64; lia).
  rewrite !clip_lo_max, !clip_hi_min by (change PAGE_SIZE with 4096; unfold U64; lia).
  set (fe := p_vaddr ph + p_filesz ph) in *. set (me := p_vaddr ph + p_memsz ph) in *.
  set (fl := Z.max va (p_vaddr ph)). set (fh := Z.min (va + PAGE_SIZE) fe).
  set (zl := Z.max va fe). set (zh := Z.min (va + PAGE_SIZE) me).
  set (src := (λ i, image elf s (p_offset ph + (fl - p_vaddr ph) + i)) <$> seqZ 0 (fh - fl)).
  assert (Hls : Z.of_nat (length src) = Z.max 0 (fh - fl)) by (unfold src; rewrite length_fmap, length_seqZ; lia).
  set (m1 := if fl <? fh then mem_write (b * PAGE_SIZE + (fl - va)) src (ps_mem s) else ps_mem s).
  set (m2 := if zl <? zh then mem_fill (Z.to_nat (zh - zl)) (b * PAGE_SIZE + (zl - va)) 0 m1 else m1).
  assert (Hm1 : ∀ a, a / PAGE_SIZE = v → p_vaddr ph ≤ a < fe → get_byte m1 (b * PAGE_SIZE + a mod PAGE_SIZE) = img (p_offset ph + (a - p_vaddr ph))).
  { intros a Ea Ha. assert (Hax : va ≤ a < va + PAGE_SIZE ∧ a mod PAGE_SIZE = a - va).
    { unfold va. change PAGE_SIZE with 4096 in *. Z.div_mod_to_equations. lia. }
    unfold m1. rewrite (proj2 (Z.ltb_lt fl fh)) by lia. rewrite get_mem_write.
    rewrite decide_True by lia.
    replace (b * PAGE_SIZE + a mod PAGE_SIZE - (b * PAGE_SIZE + (fl - va))) with (a - fl) by lia. unfold src.
    rewrite image_slice by lia. replace (p_offset ph + (fl - p_vaddr ph) + (0 + (a - fl))) with (p_offset ph + (a - p_vaddr ph)) by lia.
    rewrite (proj2 (Hi (p_offset ph + (a - p_vaddr ph)) ltac:(lia))).
    assert (Hr8 : 0 ≤ img (p_offset ph + (a - p_vaddr ph)) < 2 ^ 8).
    { rewrite <- (proj2 (Hi (p_offset ph + (a - p_vaddr ph)) ltac:(lia))). apply get_byte_range. }
    change 0xFF with (Z.ones 8). rewrite Z.land_ones by lia. by apply Z.mod_small. }
  exists m2. split; [|split].
  - assert (E1 : (if fl <? fh then kmodify (λ s, set_mem (mem_write (b * PAGE_SIZE + (fl - va)) ((λ i, image elf s (p_offset ph + (fl - p_vaddr ph) + i)) <$> seqZ 0 (fh - fl)) (ps_mem s)) s) else mret tt) s = Done tt (set_mem m1 s)).
    { unfold m1. destruct (fl <? fh); [done|]. by destruct s. }
    cbv zeta. rewrite (bind_done _ _ _ _ _ E1). unfold m2. destruct (zl <? zh); done.
  - intros f Hfb. apply (frame_same_trans _ m1).
    + unfold m1. destruct (Z.ltb_spec fl fh); [|done]. apply mem_write_frame.
      intros j Hj. rewrite <- Z.add_assoc, in_page by lia. by intros <-.
    + unfold m2. destruct (Z.ltb_spec zl zh); [|done]. apply mem_fill_frame. intros j Hj. rewrite <- Z.add_assoc, in_page by lia. by intros <-.
  - intros a Ea Ha. assert (Hax : va ≤ a < va + PAGE_SIZE ∧ a mod PAGE_SIZE = a - va).
    { unfold va. change PAGE_SIZE with 4096 in *. Z.div_mod_to_equations. lia. }
    unfold m2, seg_byte. fold fe. destruct (Z.ltb_spec a fe).
    + rewrite <- Hm1 by (done || lia). destruct (Z.ltb_spec zl zh); [|done]. rewrite get_mem_fill, decide_False by lia. done.
    + rewrite (proj2 (Z.ltb_lt zl zh)) by lia. by rewrite get_mem_fill, decide_True by lia.
Qed.

Lemma path_frame_not_free s P va f : ready s P → P f → ¬ path_frame (ps_mem s) R va f.
Proof.
  intros (pm & _ & _ & ER & Hsp) HP (q & Hq & Ht). rewrite <- ER in Ht.
  destruct (table_page _ _ _ (sp_tree _ _ _ Hsp) q _ (wf_path_prefix _ _ Hq (idx3_wf va)) Ht) as (g & E & _ & Hg).
  apply frame_eq in E as ->. done.
Qed.

Lemma alloc_run s P :
  ready s P →
  (∃ s', on_pages (pa_alloc 0) s = Done 0 s' ∧ goes_on s s' P P ∧ ps_mem s' = ps_mem s) ∨
  ∃ b s' P', on_pages (pa_alloc 0) s = Done (b * PAGE_SIZE) s' ∧ 0 < b < 2 ^ 40 ∧ P b ∧ goes_on s s' P P' ∧ data_frame s' P' b ∧
    ps_mem s' = ps_mem s.
Proof.
  intros Hr. assert (Hr' := Hr). destruct Hr' as (pm & Ep & Hl & ER & Hsp).
  destruct (pa_alloc_spec _ _ 0 (sp_inv _ _ _ Hsp) ltac:(done)) as [(t & E & Hinv)|(b & t & E & Hb0 & Hb1 & Hin & Hinv)]; [left|right].
  - eexists. split; [by apply klift_done|]. split; [|done]. split; [|done|by intros f]. exists pm. do 3 (split; [done|]). split; [apply Hsp..|done].
  - exists b. eexists _, (λ x, P x ∧ ¬ in_block b 0 x). split; [by apply klift_done|].
    assert (HPb : P b) by by apply Hin, in_block_0. change (2 ^ 0) with 1 in Hb1.
    split; [lia|]. split; [done|]. split; [|split; [|done]].
    + split; [|by intros x []|].
      * exists pm. do 3 (split; [done|]). split; [apply Hsp|eapply pt_wf_mono; [apply Hsp|by intros x []]|done].
      * intros f [Hf Ht]. split; [|done]. split; [by intros []|done].
    + split; [|intros va; by apply (path_frame_not_free s P)]. intros [_ Hn]. by apply Hn, in_block_0.
Qed.

Lemma map_page_run s P v b prot :
  ready s P → has_flag prot PROT_HUGE = false → 0 ≤ v < 2 ^ 35 → 0 < b < 2 ^ 40 → data_frame s P b →
  (∀ e, leaf (ps_mem s) R (v * PAGE_SIZE) ≠ Some (true, e)) →
  ∃ r s' P', pmap_map p (v * PAGE_SIZE) (b * PAGE_SIZE) PAGE_SIZE prot s = Done r s' ∧ goes_on s s' P P' ∧ 
    (r = -1 ∧ (∀ a, leaf (ps_mem s') R a = leaf (ps_mem s) R a) ∨
     r = 0 ∧ ∀ a, leaf (ps_mem s') R a = if decide (vpn a = v) then Some (false, page_entry (b * PAGE_SIZE) prot) else leaf (ps_mem s) R a).
Proof.
  intros (pm & Ep & Hl & ER & Hsp) Hfl Hv Hb Hd Hh. change (2 ^ 35) with 0x800000000 in Hv. change (2 ^ 40) with 0x10000000000 in Hb.
  assert (Hspan : page_span (v * PAGE_SIZE) PAGE_SIZE = 1).
  { unfold page_span. change PAGE_SIZE with 4096. Z.div_mod_to_equations. lia. }
  assert (Hdown : ∀ x, page_down (x * PAGE_SIZE) = x * PAGE_SIZE).
  { intros x. unfold page_down. rewrite Z.div_mul by done. lia. }
  assert (Hvpn : vpn (v * PAGE_SIZE) = v).
  { unfold vpn. rewrite Z.div_mul by done. apply Z.mod_small. change (2 ^ 36) with 0x1000000000. lia. }
  destruct (pmap_map_run p pm s P (v * PAGE_SIZE) (b * PAGE_SIZE) PAGE_SIZE prot) as (r & k & s' & P' & E & [Hres Hlf Hsp' HP' Htb Hfr Hrel _]);
    try done; try (change PAGE_SIZE with 4096; unfold U64; lia); [rewrite Hspan; done| |].
  { rewrite Hspan, Hdown. intros j e Hj. replace j with 0 by lia. rewrite Z.mul_0_l, Z.add_0_r, ER. apply Hh. }
  exists r, s', P'. split; [done|]. rewrite Hspan, !Hdown in *. rewrite ER in *. split.
  - split; [|done|].
    + destruct Hrel as (_ & _ & _ & Epm). eexists. split; [rewrite Epm; apply lookup_insert_eq|]. split; [by apply bump_free|].
      split; [done|]. by apply (space_ext pm _ s').
    + intros f [Hf Ht]. split; [split; [by intros ?%HP'|by intros va [?|?]%Htb; [eapply Ht|]]|].
      intros i Hi. apply Hfr; [done| |done]. intros (j & _ & Hj). by eapply Ht.
  - destruct Hres as [[-> ->]|[-> Hk]]; [right|left]; (split; [done|]); intros a; rewrite Hlf; unfold mapped_leaf; pose proof (page_dist_range (v * PAGE_SIZE) a).
    + assert (Hz := page_dist_zero (v * PAGE_SIZE) a). rewrite same_page_vpn, Hvpn in Hz.
      destruct (decide (vpn a = v)) as [Ha|Ha].
      * rewrite decide_True by lia. rewrite (proj2 Hz Ha), Z.mul_0_l, Z.add_0_r. by rewrite wrap64_small by (change PAGE_SIZE with 4096; unfold U64; lia).
      * rewrite decide_False; [done|]. intros Hlt. apply Ha, Hz. lia.
    + rewrite decide_False by lia. done.
Qed.

(** ** The loops *)

(** One round of [load_pages] for page [v]: the page is mapped and filled, or a call
    has failed and no translation has changed. *)
Lemma load_round s P ph v fuel va_end :
  ready s P → image_ok s P → seg_ok size ph → seg_lo ph ≤ v < seg_hi ph → v * PAGE_SIZE < va_end →
  (∀ e, leaf (ps_mem s) R (v * PAGE_SIZE) ≠ Some (true, e)) →
  ∃ s' P', goes_on s s' P P' ∧
    ((load_pages p elf (S fuel) ph (v * PAGE_SIZE) va_end s = Done (-1) s' ∧ ∀ a, leaf (ps_mem s') R a = leaf (ps_mem s) R a) ∨
     (load_pages p elf (S fuel) ph (v * PAGE_SIZE) va_end s = load_pages p elf fuel ph ((v + 1) * PAGE_SIZE) va_end s' ∧
      (∀ a, vpn a ≠ v → leaf (ps_mem s') R a = leaf (ps_mem s) R a) ∧
      ∀ a, a / PAGE_SIZE = v → p_vaddr ph ≤ a < p_vaddr ph + p_memsz ph → loaded s' P' ph a)).
Proof.
  intros Hr Hi Hok Hv Hlt Hh. assert (Hv35 : 0 ≤ v < 2 ^ 35).
  { destruct Hok as [Ho _ Hu _]. unfold seg_lo, seg_hi in Hv. change PAGE_SIZE with 4096 in *. change (2 ^ 47) with (34359738368 * 4096) in Hu.
    change (2 ^ 35) with 34359738368. Z.div_mod_to_equations. lia. }
  change (2 ^ 35) with 34359738368 in Hv35. cbn [load_pages]. rewrite (proj2 (Z.ltb_lt _ _) Hlt). cbn [negb].
  destruct (alloc_run s P Hr) as [(s1 & E1 & Hg1 & Em1)|(b & s1 & P1 & E1 & Hb & HPb & Hg1 & Hd1 & Em1)]; rewrite (bind_done _ _ _ _ _ E1).
  { exists s1, P. split; [done|]. left. split; [done|]. intros a. by rewrite Em1. }
  rewrite (proj2 (Z.eqb_neq (b * PAGE_SIZE) 0)) by (change PAGE_SIZE with 4096; lia).
  destruct (map_page_run s1 P1 v b (seg_prot ph) (go_ready _ _ _ _ Hg1) (seg_prot_not_huge ph) ltac:(done) Hb Hd1) as (r & s2 & P2 & E2 & Hg2 & Hres).
  { by rewrite Em1. }
  rewrite (bind_done _ _ _ _ _ E2). pose proof (goes_on_trans _ _ _ _ _ _ Hg1 Hg2) as Hg12. rewrite Em1 in Hres.
  destruct Hres as [[-> Hl]|[-> Hl]]; cbn [Z.eqb negb]; [by exists s2, P2; split; [|left]|].
  destruct (go_data _ _ _ _ Hg2 b Hd1) as [Hd2 _].
  destruct (load_page_run s2 P2 ph v b (go_ready _ _ _ _ Hg2) (image_goes_on _ _ _ _ Hg12 Hi) Hok Hv ltac:(lia)) as (m & E3 & Hm & Hbyte).
  rewrite (bind_done _ _ _ _ _ E3). destruct (data_write s2 P2 b m (go_ready _ _ _ _ Hg2) Hd2 Hm) as (Hr3 & Hd3 & Hl3).
  exists (set_mem m s2), P2. split.
  - split; [done|by apply Hg12|]. intros f Hf. destruct (go_data _ _ _ _ Hg12 f Hf) as [Hf2 Hs2]. split; [by apply Hd3|].
    eapply frame_same_trans; [exact Hs2|]. apply Hm. intros ->. by apply Hf.
  - right. split.
    { rewrite wrap64_small by (change PAGE_SIZE with 4096; unfold U64; lia). by replace (v * PAGE_SIZE + PAGE_SIZE) with ((v + 1) * PAGE_SIZE) by lia. }
    simpl ps_mem. split; [intros a Ha; by rewrite Hl3, Hl, decide_False|].
    intros a Ea Ha. exists b. split; [done|]. split; [by apply Hd3|]. simpl ps_mem. split; [|by apply Hbyte].
    rewrite Hl3, Hl, decide_True; [done|]. rewrite vpn_user; [done|]. destruct Hok. lia.
Qed.

(** The rest of the pages of a segment, from page [v] on. *)
Lemma load_pages_run fuel : ∀ s P ph v,
  ready s P → image_ok s P → seg_ok size ph → seg_lo ph ≤ v ≤ seg_hi ph → seg_hi ph - v < Z.of_nat fuel →
  (∀ w e, v ≤ w < seg_hi ph → leaf (ps_mem s) R (w * PAGE_SIZE) ≠ Some (true, e)) →
  ∃ r s' P', load_pages p elf fuel ph (v * PAGE_SIZE) (seg_hi ph * PAGE_SIZE) s = Done r s' ∧ goes_on s s' P P' ∧
    (∀ a, ¬ (v ≤ vpn a < seg_hi ph) → leaf (ps_mem s') R a = leaf (ps_mem s) R a) ∧
    (r = -1 ∨ r = 0 ∧ ∀ a, v ≤ a / PAGE_SIZE → p_vaddr ph ≤ a < p_vaddr ph + p_memsz ph → loaded s' P' ph a).
Proof.
  induction fuel as [|fuel IH]; intros s P ph v Hr Hi Hok Hv Hf Hh; [lia|].
  destruct (decide (v = seg_hi ph)) as [->|Hne].
  { exists 0, s, P. cbn [load_pages]. rewrite Z.ltb_irrefl. split; [done|]. split; [by apply goes_on_refl|]. split; [done|]. right. split; [done|].
    intros a Ha Hm. exfalso. unfold seg_hi in Ha. change PAGE_SIZE with 4096 in Ha. Z.div_mod_to_equations. lia. }
  destruct (load_round s P ph v fuel (seg_hi ph * PAGE_SIZE) Hr Hi Hok) as (s1 & P1 & Hg & Hres);
    [lia|change PAGE_SIZE with 4096; lia|intros e; apply Hh; lia|].
  destruct Hres as [[E Hl]|(E & Hl & Hd)]; rewrite E; [exists (-1), s1, P1; split_and!; try done; by left|].
  assert (Hlo : 0 ≤ v < 2 ^ 35).
  { destruct Hok as [Ho _ Hu _]. unfold seg_lo, seg_hi in *. change PAGE_SIZE with 4096 in *. change (2 ^ 47) with (34359738368 * 4096) in Hu.
    change (2 ^ 35) with 34359738368. Z.div_mod_to_equations. lia. }
  destruct (IH s1 P1 ph (v + 1) (go_ready _ _ _ _ Hg) (image_goes_on _ _ _ _ Hg Hi) Hok) as (r & s2 & P2 & E2 & Hg2 & Hl2 & Hres); [lia|lia| |].
  { intros w e Hw. rewrite Hl; [apply Hh; lia|]. unfold vpn. rewrite Z.div_mul by done. rewrite Z.mod_small; [lia|].
    destruct Hok as [Ho _ Hu _]. unfold seg_hi in *. change PAGE_SIZE with 4096 in *. change (2 ^ 47) with (34359738368 * 4096) in Hu.
    change (2 ^ 36) with 68719476736. change (2 ^ 35) with 34359738368 in Hlo. Z.div_mod_to_equations. lia. }
  exists r, s2, P2. split; [done|]. split; [by eapply goes_on_trans|]. split.
  - intros a Ha. rewrite Hl2 by lia. apply Hl. lia.
  - destruct Hres as [->|[-> Hd2]]; [by left|]. right. split; [done|]. intros a Ha Hm.
    destruct (decide (a / PAGE_SIZE = v)) as [Ea|Hna]; [|apply Hd2; [lia|done]].
    eapply loaded_goes_on; [exact Hg2| |by apply Hd]. apply Hl2. rewrite vpn_user; [lia|]. destruct Hok. lia.
Qed.

Lemma load_segment_run s P ph :
  ready s P → image_ok s P → p_type ph = PT_LOAD → seg_ok size ph → 0 ≤ size < U64 →
  (∀ w e, in_seg ph w → leaf (ps_mem s) R (w * PAGE_SIZE) ≠ Some (true, e)) →
  ∃ r s' P', load_segment p elf size ph s = Done r s' ∧ goes_on s s' P P' ∧
    (∀ a, ¬ in_seg ph (vpn a) → leaf (ps_mem s') R a = leaf (ps_mem s) R a) ∧
    (r = -1 ∨ r = 0 ∧ ∀ a, p_vaddr ph ≤ a < p_vaddr ph + p_memsz ph → loaded s' P' ph a).
Proof.
  intros Hr Hi Ht Hok Hsz Hh. assert (Hok' := Hok). destruct Hok' as [Ho Hfm Hu Hfile]. change (2 ^ 47) with 140737488355328 in Hu.
  unfold load_segment, mem_end. rewrite (proj2 (Z.eqb_eq _ _) Ht). cbn [negb].
  rewrite !wrap64_small by (unfold U64 in *; lia). rewrite (proj2 (Z.ltb_ge _ _)) by lia.
  change (PAGE_SIZE - 1) with 0xFFF. rewrite (page_mask (p_vaddr ph)) by (unfold U64; lia). unfold page_down.
  rewrite ALIGN_UP_page by (change PAGE_SIZE with 4096; unfold U64; lia).
  change ((p_vaddr ph + p_memsz ph + (PAGE_SIZE - 1)) / PAGE_SIZE) with (seg_hi ph). change (p_vaddr ph / PAGE_SIZE) with (seg_lo ph).
  rewrite !(Z.mul_comm PAGE_SIZE).
  assert (Hle : seg_lo ph ≤ seg_hi ph) by (apply Z.div_le_mono; [done|]; lia).
  destruct (load_pages_run (S (Z.to_nat ((seg_hi ph * PAGE_SIZE - seg_lo ph * PAGE_SIZE) / PAGE_SIZE))) s P ph (seg_lo ph) Hr Hi Hok)
    as (r & s' & P' & E & Hg & Hl & Hres); [lia| | |].
  { rewrite <- Z.mul_sub_distr_r, Z.div_mul by done. lia. }
  { intros w e Hw. by apply Hh. }
  exists r, s', P'. split; [done|]. split; [done|]. split; [intros a Ha; apply Hl; by intros ?; apply Ha|].
  destruct Hres as [->|[-> Hd]]; [by left|right]. split; [done|]. intros a Ha. apply Hd; [|done]. apply Z.div_le_mono; [done|lia].
Qed.

(** ** The whole image *)

Section headers.
Hypothesis Hbytes : ∀ i, 0 ≤ img i < 256.
Hypothesis Hsize : SIZEOF_EHDR ≤ size < U64.
Hypothesis Htable : e_phoff img + e_phnum img * SIZEOF_PHDR ≤ size.

Lemma header_same b : (∀ i, 0 ≤ i < size → b i = img i) →
  e_phnum b = e_phnum img ∧ e_phoff b = e_phoff img ∧ e_entry b = e_entry img ∧ elf_check b size = elf_check img size.
Proof.
  unfold SIZEOF_EHDR in Hsize. intros Hb.
  assert (Hf : ∀ n o, 0 ≤ o → o + Z.of_nat n ≤ 64 → field n b o = field n img o).
  { intros n o Ho Hn. apply field_ext. intros j Hj. apply Hb. lia. }
  assert (E : e_phnum b = e_phnum img ∧ e_phoff b = e_phoff img ∧ e_entry b = e_entry img ∧ e_type b = e_type img ∧
    e_machine b = e_machine img ∧ e_phentsize b = e_phentsize img).
  { unfold e_phnum, e_phoff, e_entry, e_type, e_machine, e_phentsize, u16, u64. rewrite !Hf by lia. done. }
  destruct E as (E1 & E2 & E3 & E4 & E5 & E6). split_and!; try done. unfold elf_check. rewrite E1, E2, E4, E5, E6.
  by rewrite !(Hb 0), !(Hb 1), !(Hb 2), !(Hb 3), !(Hb 4), !(Hb 5) by lia.
Qed.
Lemma phdr_same b i : (∀ i, 0 ≤ i < size → b i = img i) → 0 ≤ i < e_phnum img → phdr_nth b i = phdr_nth img i.
Proof.
  intros Hb Hi. destruct (header_same b Hb) as (_ & E & _). unfold phdr_nth. rewrite E.
  pose proof (field_range 8 img 32 Hbytes). change (field 8 img 32) with (e_phoff img) in *. unfold SIZEOF_PHDR in *.
  rewrite wrap64_small by (unfold U64 in *; lia). unfold phdr_at, u32, u64.
  f_equal; apply field_ext; intros j Hj; apply Hb; lia.
Qed.

Lemma load_segments_run n : ∀ s P i,
  ready s P → image_ok s P → 0 ≤ i → i + Z.of_nat n = e_phnum img →
  (∀ j, i ≤ j < e_phnum img → p_type (phdr_nth img j) = PT_LOAD → seg_ok size (phdr_nth img j)) →
  (∀ j k w, i ≤ j < k → k < e_phnum img → in_seg (phdr_nth img j) w → ¬ in_seg (phdr_nth img k) w) →
  (∀ j w e, i ≤ j < e_phnum img → in_seg (phdr_nth img j) w → leaf (ps_mem s) R (w * PAGE_SIZE) ≠ Some (true, e)) →
  ∃ r s' P', load_segments p elf n i size s = Done r s' ∧ goes_on s s' P P' ∧
    (∀ a, (∀ j, i ≤ j < e_phnum img → ¬ in_seg (phdr_nth img j) (vpn a)) → leaf (ps_mem s') R a = leaf (ps_mem s) R a) ∧
    (r = -1 ∨ r = 0 ∧ ∀ j a, i ≤ j < e_phnum img → p_type (phdr_nth img j) = PT_LOAD →
       p_vaddr (phdr_nth img j) ≤ a < p_vaddr (phdr_nth img j) + p_memsz (phdr_nth img j) → loaded s' P' (phdr_nth img j) a).
Proof.
  induction n as [|n IH]; intros s P i Hr Hi Hi0 Hn Hok Hdis Hh; cbn [load_segments].
  { exists 0, s, P. split; [done|]. split; [by apply goes_on_refl|]. split; [done|]. right. split; [done|]. lia. }
  rewrite (bind_done _ _ _ (phdr_nth img i) s).
  2: { unfold kget. f_equal. apply phdr_same; [|lia]. intros j Hj. by apply Hi. }
  set (ph := phdr_nth img i) in *.
  assert (Hseg : ∃ r s1 P1, load_segment p elf size ph s = Done r s1 ∧ goes_on s s1 P P1 ∧
    (∀ a, ¬ in_seg ph (vpn a) → leaf (ps_mem s1) R a = leaf (ps_mem s) R a) ∧
    (r = -1 ∨ r = 0 ∧ (p_type ph = PT_LOAD → ∀ a, p_vaddr ph ≤ a < p_vaddr ph + p_memsz ph → loaded s1 P1 ph a))).
  { destruct (decide (p_type ph = PT_LOAD)) as [Ht|Ht].
    - destruct (load_segment_run s P ph Hr Hi Ht (Hok i ltac:(lia) Ht)) as (r & s1 & P1 & E & Hg & Hl & Hres);
        [unfold SIZEOF_EHDR in Hsize; lia|intros w e; apply Hh; lia|].
      exists r, s1, P1. split; [done|]. split; [done|]. split; [done|]. destruct Hres as [->|[-> ?]]; [by left|by right].
    - exists 0, s, P. unfold load_segment. rewrite (proj2 (Z.eqb_neq _ _) Ht). split; [done|]. split; [by apply goes_on_refl|]. split; [done|]. by right. }
  destruct Hseg as (r & s1 & P1 & E & Hg & Hl & Hres). rewrite (bind_done _ _ _ _ _ E).
  destruct Hres as [->|[-> Hd]]; cbn [Z.eqb negb].
  { exists (-1), s1, P1. split; [done|]. split; [done|]. split; [|by left]. intros a Ha. apply Hl, Ha. lia. }
  assert (Hpage : ∀ j w, i ≤ j < e_phnum img → in_seg (phdr_nth img j) w → vpn (w * PAGE_SIZE) = w).
  { intros j w Hj [Ht Hw]. destruct (Hok j Hj Ht) as [Ho _ Hu _]. unfold vpn. rewrite Z.div_mul by done. apply Z.mod_small.
    unfold seg_lo, seg_hi in Hw. change PAGE_SIZE with 4096 in *. change (2 ^ 47) with (34359738368 * 4096) in Hu.
    change (2 ^ 36) with 68719476736. Z.div_mod_to_equations. lia. }
  destruct (IH s1 P1 (i + 1) (go_ready _ _ _ _ Hg) (image_goes_on _ _ _ _ Hg Hi)) as (r & s2 & P2 & E2 & Hg2 & Hl2 & Hres2);
    [lia|lia|intros j Hj; apply Hok; lia|intros j k w Hj; apply Hdis; lia| |].
  { intros j w e Hj Hw. rewrite Hl; [apply (Hh j); [lia|done]|]. rewrite (Hpage j) by (done || lia). intros Hw'.
    by apply (Hdis i j w ltac:(lia) ltac:(lia) Hw'). }
  exists r, s2, P2. split; [done|]. split; [by eapply goes_on_trans|]. split.
  - intros a Ha. rewrite Hl2 by (intros j Hj; apply Ha; lia). apply Hl, Ha. lia.
  - destruct Hres2 as [->|[-> Hd2]]; [by left|]. right. split; [done|]. intros j a Hj Ht Ha.
    destruct (decide (j = i)) as [->|Hne]; [|apply Hd2; (done || lia)].
    eapply loaded_goes_on; [exact Hg2| |by apply Hd]. apply Hl2. intros k Hk Hin.
    apply (Hdis i k (vpn a) ltac:(lia) ltac:(lia)); [|done]. destruct (Hok i ltac:(lia) Ht) as [Ho _ Hu _]. split; [done|].
    fold ph in Ho, Hu, Ha |- *. rewrite vpn_user by lia. unfold seg_lo, seg_hi. change PAGE_SIZE with 4096. Z.div_mod_to_equations. lia.
Qed.
End headers.
End load.

(** An image that [elf_load] can make sense of: its program headers lie in the file,
    its segments satisfy [seg_ok], and no two of them share a page. *)
Record elf_wf (img : Z → Z) (size : Z) : Prop := ElfWf {
  ew_table : e_phoff img + e_phnum img * SIZEOF_PHDR ≤ size;
  ew_segments : ∀ j, 0 ≤ j < e_phnum img → p_type (phdr_nth img j) = PT_LOAD → seg_ok size (phdr_nth img j);
  ew_disjoint : ∀ j k w, 0 ≤ j < k → k < e_phnum img → in_seg (phdr_nth img j) w → ¬ in_seg (phdr_nth img k) w;
}.

(** C7: [elf_load] of an image in memory that is neither free nor a page table: a
    header that fails the checks is refused and nothing changes; otherwise, on every
    outcome, the address space stays consistent, frames are only taken from the free
    ones, data already there (the image included) is intact and addresses outside the
    segments translate as before; and when it succeeds, every byte of every loadable
    segment is mapped with the protection of the segment and holds the byte of the
    image, or zero beyond the part that is in the file. *)
Theorem elf_load_spec {T} `{!PageAllocator T} p pm (s : pstate T) P elf size :
  p ≠ PmapNull → ps_pmaps s !! p = Some pm → lock_free (pm_lock pm) → space pm s P → 0 ≤ size < U64 →
  (∀ i, 0 ≤ i < size → data_frame (pm_root_phys pm) s P (virt_to_phys (wrap64 (elf + i)) / PAGE_SIZE)) →
  (elf_check (image elf s) size = 0 → elf_wf (image elf s) size) →
  (∀ j w e, 0 ≤ j < e_phnum (image elf s) → in_seg (phdr_nth (image elf s) j) w →
     leaf (ps_mem s) (pm_root_phys pm) (w * PAGE_SIZE) ≠ Some (true, e)) →
  ∃ r entry s' P', elf_load p elf size s = Done (r, entry) s' ∧
    (elf_check (image elf s) size ≠ 0 → r = -1 ∧ s' = s) ∧
    goes_on p (pm_root_phys pm) s s' P P' ∧
    (∀ a, (∀ j, 0 ≤ j < e_phnum (image elf s) → ¬ in_seg (phdr_nth (image elf s) j) (vpn a)) →
       leaf (ps_mem s') (pm_root_phys pm) a = leaf (ps_mem s) (pm_root_phys pm) a) ∧
    (r = -1 ∨ r = 0 ∧ entry = e_entry (image elf s) ∧
       ∀ j a, 0 ≤ j < e_phnum (image elf s) → p_type (phdr_nth (image elf s) j) = PT_LOAD →
         p_vaddr (phdr_nth (image elf s) j) ≤ a < p_vaddr (phdr_nth (image elf s) j) + p_memsz (phdr_nth (image elf s) j) →
         loaded (pm_root_phys pm) (image elf s) s' P' (phdr_nth (image elf s) j) a).
Proof.
  intros Hp Ep Hl Hsp Hsz Hd Hwf Hh. set (img := image elf s) in *. set (R := pm_root_phys pm) in *.
  assert (Hr : ready p R s P) by by exists pm.
  assert (Hi : image_ok R elf size img s P) by by intros i Hi; split; [apply Hd|].
  unfold elf_load. rewrite (bind_done _ _ _ (elf_check img size) s) by done.
  destruct (Z.eqb_spec (elf_check img size) 0) as [Hc|Hc]; cbn [negb].
  2: { exists (-1), 0, s, P. split; [done|]. split; [done|]. split; [by apply goes_on_refl|]. split; [done|by left]. }
  assert (Hs64 : SIZEOF_EHDR ≤ size).
  { apply Z.nlt_ge. intros Hlt. unfold elf_check in Hc. by rewrite (proj2 (Z.ltb_lt _ _) Hlt) in Hc. }
  destruct (Hwf Hc) as [Htab Hseg Hdis].
  assert (Hby : ∀ i, 0 ≤ img i < 256) by (intros i; apply get_byte_range).
  assert (Hn : 0 ≤ e_phnum img) by by apply field_range.
  rewrite (bind_done _ _ _ (e_phnum img) s) by done.
  destruct (load_segments_run p Hp R elf size img Hby ltac:(lia) Htab (Z.to_nat (e_phnum img)) s P 0 Hr Hi) as (r & s' & P' & E & Hg & Hlf & Hres);
    [done|lia|done|done|done|].
  rewrite (bind_done _ _ _ _ _ E).
  destruct Hres as [->|[-> Hload]]; cbn [Z.eqb negb].
  { exists (-1), 0, s', P'. split; [done|]. split; [done|]. split; [done|]. split; [done|by left]. }
  assert (Hent : e_entry (image elf s') = e_entry img).
  { apply (header_same size img ltac:(lia)). intros i Hi'. by apply (image_goes_on p R elf size img s s' P P'). }
  exists 0, (e_entry img), s', P'. split; [|split; [done|split; [done|split; [done|by right]]]].
  rewrite (bind_done _ _ _ (e_entry (image elf s')) s') by done. by rewrite Hent.
Qed.
