(* ===== verification/ElfExamples.v ===== *)
(** * An ELF image on a concrete machine *)

From S2P Require Export ElfSpec PmapExamples.

(** The [n] bytes of a little-endian number. *)
Fixpoint le (n : nat) (v : Z) : list Z := match n with O => [] | S n' => Z.land v 0xFF :: le n' (Z.shiftr v 8) end.

(** One segment, for reading and execution: eight bytes of the file at 0x400078, then
    zeroes up to 0x401078, on the next page. *)
Definition elf_header : list Z :=
  [0x7F; 69; 76; 70; 2; 1; 1; 0] ++ le 8 0 ++ le 2 2 ++ le 2 62 ++ le 4 1 ++ le 8 0x400078 ++ le 8 64 ++ le 8 0 ++ le 4 0 ++
  le 2 64 ++ le 2 56 ++ le 2 1 ++ le 6 0.
Definition elf_segment : list Z :=
  le 4 1 ++ le 4 5 ++ le 8 120 ++ le 8 0x400078 ++ le 8 0 ++ le 8 8 ++ le 8 0x1000 ++ le 8 0x1000.
Definition elf_file : list Z := elf_header ++ elf_segment ++ [11; 12; 13; 14; 15; 16; 17; 18].

(** The image is in frame 40, the root table in frame 1; frames 2 to 31 are free. *)
Definition elf_at : Z := phys_to_virt (40 * PAGE_SIZE).
Definition elf_pmap : pmap_t := Pmap (phys_to_virt (1 * PAGE_SIZE)) (1 * PAGE_SIZE) SPINLOCK_INITIALIZER.
Definition elf_machine : pstate (list Z) :=
  PState (seqZ 2 30) (mem_write (40 * PAGE_SIZE) elf_file ∅) 0 true [] {[ PmapKernel := elf_pmap ]} ∅.

Lemma elf_machine_root :
  pt_wf (ps_mem elf_machine) (1 * PAGE_SIZE) (λ x, x ∈ seqZ 2 30) ∧
  (∀ p, wf_path p → p ≠ [] → tbl (ps_mem elf_machine) (1 * PAGE_SIZE) p = None) ∧
  ∀ va, leaf (ps_mem elf_machine) (1 * PAGE_SIZE) va = None.
Proof.
  apply empty_root; [done|intros ?%elem_of_seqZ; lia|]. intros i Hi. unfold elf_machine, ps_mem.
  rewrite (mem_write_frame elf_file (40 * PAGE_SIZE) ∅ 1); [reflexivity| |done].
  intros j Hj. rewrite (in_page 40 j); [done|]. change (Z.of_nat (length elf_file)) with 128 in Hj. change PAGE_SIZE with 4096. lia.
Qed.

Lemma elf_load_spec_witness :
  ∃ s' pa, elf_load PmapKernel elf_at 128 elf_machine = Done (0, 0x400078) s' ∧
    translate (ps_mem s') (1 * PAGE_SIZE) 0x40007A = Some pa ∧ get_byte (ps_mem s') pa = 13.
Proof.
  destruct elf_machine_root as (Hwf & Ht & Hlf).
  assert (Hn : e_phnum (image elf_at elf_machine) = 1) by (vm_compute; reflexivity).
  assert (Hph : phdr_nth (image elf_at elf_machine) 0 = Phdr 1 5 120 0x400078 8 0x1000) by (vm_compute; reflexivity).
  assert (Hoff : e_phoff (image elf_at elf_machine) = 64) by (vm_compute; reflexivity).
  destruct (elf_load_spec PmapKernel elf_pmap elf_machine (λ x, x ∈ seqZ 2 30) elf_at 128) as (r & entry & s' & P' & E & _ & _ & _ & Hres).
  - discriminate.
  - apply lookup_singleton_eq.
  - reflexivity.
  - split; [reflexivity|exact Hwf|]. split; [apply NoDup_seqZ|]. split; [done|]. intros x Hx%elem_of_seqZ.
    change (2 ^ 40) with 0x10000000000. lia.
  - unfold U64. lia.
  - intros i Hi. replace (virt_to_phys (wrap64 (elf_at + i)) / PAGE_SIZE) with 40.
    + split; [intros ?%elem_of_seqZ; lia|]. intros va (q & Hq & Hqt). destruct q as [|a q]; [by injection Hqt|].
      rewrite Ht in Hqt; [done| |done]. eapply wf_path_prefix; [exact Hq|apply idx3_wf].
    + unfold elf_at. rewrite wrap64_small.
      * replace (phys_to_virt (40 * PAGE_SIZE) + i) with (phys_to_virt (40 * PAGE_SIZE + i)).
        -- rewrite virt_phys by (change PAGE_SIZE with 4096; unfold U64; lia). rewrite in_page; [done|]. change PAGE_SIZE with 4096. lia.
        -- unfold phys_to_virt. rewrite !wrap64_small; [lia|..]; unfold HHDM_OFFSET, U64; change PAGE_SIZE with 4096; lia.
      * change (phys_to_virt (40 * PAGE_SIZE)) with 0xFFFF800000028000. unfold U64. lia.
  - intros _. split; rewrite ?Hn, ?Hoff; [unfold SIZEOF_PHDR; lia| |lia]. intros j Hj _. replace j with 0 by lia. rewrite Hph. split; cbn [p_vaddr p_filesz p_memsz p_offset]; try change (2 ^ 47) with 0x800000000000; lia.
  - intros j w e _ _. rewrite Hlf. discriminate.
  - assert (Hv : value_of (elf_load PmapKernel elf_at 128 elf_machine) = Some (0, 0x400078)) by (vm_compute; reflexivity).
    rewrite E in Hv. injection Hv as -> ->. destruct Hres as [[=]|(_ & _ & Hload)].
    specialize (Hload 0 0x40007A). rewrite Hn, Hph in Hload.
    destruct (loaded_translate (1 * PAGE_SIZE) _ s' P' _ _ (Hload ltac:(lia) eq_refl ltac:(simpl; lia))) as (pa & Hpa & Hb).
    exists s', pa. split; [exact E|]. split; [exact Hpa|]. rewrite Hb. vm_compute. reflexivity.
Defined.
