(* ===== verification/Init.v ===== *)
(** * Booting the system (kernel/task/init.c, kernel/generic.c)

    The init calls run by level; then the root server's address space and first
    thread are made and the scheduler starts. *)

From S2P Require Export Elf Syscall.

Definition ROOT_BOOT_VA : Z := 0x700010001000.
Definition ROOT_POOL_VA : Z := 0x700020000000.
Definition ROOT_INITRD_VA : Z := 0x700030000000.

(** The parts of [boot_info_t] that are read here. *)
Record boot_info := BootInfo {
  init_addr : Z; init_size : Z;
  fb_address : Z; fb_width : Z; fb_height : Z; fb_pitch : Z;
  initrd_addr : Z; initrd_size : Z;
}.

(** Offsets in [struct root_boot] (its [fb] and [initrd] are packed) and its size. *)
Definition RB_SELF_TID : Z := 0.
Definition RB_FB : Z := 8.
Definition RB_INITRD : Z := 22.
Definition RB_POOL_BYTES : Z := 40.
Definition RB_FRAME_COUNT : Z := 48.
Definition SIZEOF_ROOT_BOOT : Z := 56.

(** The [n] little-endian bytes of [v]. *)
Definition le_bytes (n v : Z) : list Z := (λ i, Z.land (Z.shiftr v (8 * i)) 0xFF) <$> seqZ 0 n.

Section boot.
Context {T : Type} `{!PageAllocator T, !KernelHeap T, !FramePool T}.
Implicit Types (s : sys T).

Variable xsave_size : Z.
Variable info : boot_info.

(** [boot_fail] halts. *)
Definition boot_fail {A} : K (sys T) A := khalt.
Definition unless_fail (err : Z) : K (sys T) unit := if err =? 0 then mret tt else boot_fail.

(** [boot->field = v], with [boot] in the page at physical address [pg]. *)
Definition boot_store (pg off n v : Z) : K (sys T) unit :=
  in_mm (kmodify (λ m, set_mem (mem_write (pg + off) (le_bytes n v) (ps_mem m)) m)).

Definition fb_bytes : Z := wrap64 (fb_height info * fb_pitch info * 4).

Definition grant_fb (p : pmap_ref) : K (sys T) Z :=
  if fb_address info =? 0 then mret 0 else
  let fb_phys := virt_to_phys (fb_address info) in
  ok ← for_pages fb_phys (wrap64 (fb_phys + fb_bytes)) (λ pa,
         err ← in_grants (grant_add p (phys_to_pfn pa) (Z.lor (Z.lor GRANT_READ GRANT_WRITE) GRANT_GRANT));
         mret (err =? 0));
  if (ok : bool) then mret fb_phys else boot_fail.

Definition map_initrd (p : pmap_ref) (boot_pg : Z) : K (sys T) unit :=
  if initrd_size info =? 0 then
    boot_store boot_pg RB_INITRD 8 0;;
    boot_store boot_pg (RB_INITRD + 8) 8 0
  else
    let phys := virt_to_phys (initrd_addr info) in
    err ← in_mm (pmap_map p ROOT_INITRD_VA phys (ALIGN_UP (initrd_size info) PAGE_SIZE) (Z.lor PROT_READ PROT_USER));
    unless_fail err;;
    boot_store boot_pg RB_INITRD 8 (ROOT_INITRD_VA + Z.land phys (PAGE_SIZE - 1));;
    boot_store boot_pg (RB_INITRD + 8) 8 (initrd_size info).

Definition rootserver_boot : K (sys T) unit :=
  p ← in_mm (pmap_create Task.kmalloc);
  (if bool_decide (p = PmapNull) then boot_fail else mret tt);;
  boot_pg ← in_mm (on_pages (pa_alloc 0));
  (if boot_pg =? 0 then boot_fail else mret tt);;
  in_mm (kmodify (λ m, set_mem (mem_fill (Z.to_nat SIZEOF_ROOT_BOOT) boot_pg 0 (ps_mem m)) m));;
  r ← in_mm (elf_load p (init_addr info) (init_size info));
  let '(err, entry) := r in
  unless_fail err;;
  in_grants (grant_set_root p);;
  fb_phys ← grant_fb p;
  boot_store boot_pg RB_FB 8 fb_phys;;
  boot_store boot_pg (RB_FB + 8) 2 (fb_width info);;
  boot_store boot_pg (RB_FB + 10) 2 (fb_height info);;
  boot_store boot_pg (RB_FB + 12) 2 (fb_pitch info);;
  t ← in_kernel (thread_create xsave_size p entry ROOT_BOOT_VA 0);
  (if t =? 0 then boot_fail else mret tt);;
  th ← sget t;
  boot_store boot_pg RB_SELF_TID 8 (tid th);;
  in_grants grant_pool_build;;
  g ← kget sg;
  boot_store boot_pg RB_POOL_BYTES 8 (grant_pool_bytes g);;
  boot_store boot_pg RB_FRAME_COUNT 8 (grant_frame_count g);;
  err ← in_mm (pmap_map p ROOT_BOOT_VA boot_pg PAGE_SIZE (Z.lor PROT_READ PROT_USER));
  unless_fail err;;
  err ← in_mm (pmap_map p ROOT_POOL_VA (grant_pool_phys g) (grant_pool_bytes g)
                 (Z.lor (Z.lor PROT_READ PROT_WRITE) PROT_USER));
  unless_fail err;;
  map_initrd p boot_pg.

(** ** Init calls *)

(** [run_initcalls]: an entry without a function is skipped, a failing one halts. *)
Fixpoint run_initcalls (entries : list (option (K (sys T) Z))) : K (sys T) unit :=
  match entries with
  | [] => mret tt
  | None :: es => run_initcalls es
  | Some fn :: es => r ← fn; if negb (r =? 0) then khalt else run_initcalls es
  end.

(** The early, core, arch, sys and late tables, in this order; the first thread
    runs when [sched_boot] dispatches it, and the processor halts otherwise. *)
Definition generic_entry (early core arch sys_calls late : list (option (K (sys T) Z))) : K (sys T) unit :=
  run_initcalls early;;
  run_initcalls core;;
  run_initcalls arch;;
  run_initcalls sys_calls;;
  run_initcalls late;;
  rootserver_boot;;
  in_kernel sched_boot;;
  c ← kget (λ s, current (sk s));
  if c =? 0 then khalt else mret tt.
End boot.
