(* ===== verification/Cpu.v ===== *)
(** * The processor (kernel/arch/x86_64/cpu.c, kernel/arch/x86_64/lapic.c)

    The state of one processor that the kernel's set-up code reads and writes: its
    model specific registers, its control registers, and the [struct cpu]s of the
    machine.  An access to a model specific register that the processor does not
    have faults, which is [Undef] here; what [cpuid] returns is a parameter. *)

From S2P Require Export Sched.

Definition IA32_EFER_MSR : Z := 0xC0000080.
Definition EFER_NXE : Z := bit 11.
Definition IA32_STAR : Z := 0xC0000081.
Definition IA32_LSTAR : Z := 0xC0000082.
Definition IA32_SFMASK : Z := 0xC0000084.
Definition IA32_GS_BASE : Z := 0xC0000101.
Definition IA32_KERNEL_GS_BASE : Z := 0xC0000102.
Definition IA32_APIC_BASE : Z := 0x1B.
Definition IA32_XSS : Z := 0xDA0.
Definition MSR_PLATFORM_INFO : Z := 0xCE.
Definition MSR_PSTATE0 : Z := 0xC0010064.
Definition MAX_CPUS : Z := 255.

(** [struct cpu], without the scheduler's and the heap's fields, and [struct arch_cpu]. *)
Record cpu := Cpu { c_self : Z; c_id : Z; c_hw_id : Z; tsc_freq_hz : Z; arch_cpu_data : Z }.
Record arch_cpu := ArchCpu { tss : Z; xsave_size : Z }.
Definition SIZEOF_CPU : Z := 192.
Definition SIZEOF_ARCH_CPU : Z := 16.

(** The structures are addressed by their pointers. *)
Record machine := Machine {
  msrs : gmap Z Z; cr4 : Z; xcr0 : Z;
  cpus : gmap Z cpu; arch_cpus : gmap Z arch_cpu; logic_id : Z }.

Definition set_msrs m s := Machine m (cr4 s) (xcr0 s) (cpus s) (arch_cpus s) (logic_id s).
Definition set_cr4 c s := Machine (msrs s) c (xcr0 s) (cpus s) (arch_cpus s) (logic_id s).
Definition set_xcr0 x s := Machine (msrs s) (cr4 s) x (cpus s) (arch_cpus s) (logic_id s).
Definition set_cpus c s := Machine (msrs s) (cr4 s) (xcr0 s) c (arch_cpus s) (logic_id s).
Definition set_arch_cpus a s := Machine (msrs s) (cr4 s) (xcr0 s) (cpus s) a (logic_id s).
Definition set_logic_id l s := Machine (msrs s) (cr4 s) (xcr0 s) (cpus s) (arch_cpus s) l.

Definition the_cpu (c : Z) : K machine cpu := kread (λ s, cpus s !! c).
Definition upd_cpu (c : Z) (f : cpu → cpu) : K machine unit :=
  kupdate (λ s, x ← cpus s !! c; Some (set_cpus (<[c := f x]> (cpus s)) s)).
Definition upd_arch_cpu (a : Z) (f : arch_cpu → arch_cpu) : K machine unit :=
  kupdate (λ s, x ← arch_cpus s !! a; Some (set_arch_cpus (<[a := f x]> (arch_cpus s)) s)).
Definition set_tsc hz c := Cpu (c_self c) (c_id c) (c_hw_id c) hz (arch_cpu_data c).
Definition set_xsave_size n a := ArchCpu (tss a) n.

Definition rdmsr (msr : Z) : K machine Z := kread (λ s, msrs s !! msr).
Definition wrmsr (msr val : Z) : K machine unit :=
  kupdate (λ s, _ ← msrs s !! msr; Some (set_msrs (<[msr := wrap64 val]> (msrs s)) s)).

(** [mov %cr4, x; x |= bits; mov x, %cr4]. *)
Definition or_cr4 (bits : Z) : K machine unit := kmodify (λ s, set_cr4 (Z.lor (cr4 s) bits) s).

Record cpuid_regs := CpuidRegs { eax : Z; ebx : Z; ecx : Z; edx : Z }.

Section setup.
Variable cpuid : Z → Z → cpuid_regs.
(** The addresses of the arrays [cpus] and [arch_cpus], and of [syscall_entry]. *)
Variable cpus_base arch_cpus_base syscall_entry : Z.

Definition is_intel : bool :=
  let r := cpuid 0 0 in (ebx r =? 0x756e6547) && (edx r =? 0x49656e69) && (ecx r =? 0x6c65746e).
Definition get_apic_id : Z := Z.land (Z.shiftr (ebx (cpuid 1 0)) 24) 0xFF.

Definition id_to_cpu (cpu_id : Z) : Z := cpus_base + SIZEOF_CPU * cpu_id.
Definition arch_cpu_of (cpu_id : Z) : Z := arch_cpus_base + SIZEOF_ARCH_CPU * cpu_id.

Definition init_cpu_gs (cpu_ptr : Z) : K machine unit :=
  wrmsr IA32_GS_BASE cpu_ptr;;
  wrmsr IA32_KERNEL_GS_BASE cpu_ptr.

(** [movq %gs:0]: the field [self] of the [struct cpu] that GS points to. *)
Definition get_this_core : K machine Z := gs ← rdmsr IA32_GS_BASE; c ← the_cpu gs; mret (c_self c).

Definition init_percpu : K machine Z :=
  my_id ← kget logic_id;
  kmodify (set_logic_id (wrap32 (my_id + 1)));;
  let c := id_to_cpu my_id in
  upd_cpu c (λ x, Cpu c my_id get_apic_id (tsc_freq_hz x) (arch_cpu_of my_id));;
  init_cpu_gs c;;
  mret 0.

Definition enable_nx : K machine Z :=
  efer ← rdmsr IA32_EFER_MSR;
  wrmsr IA32_EFER_MSR (Z.lor efer EFER_NXE);;
  mret 0.

Definition enable_pge : K machine Z :=
  if negb (has_flag (edx (cpuid 1 0)) (bit 13)) then mret (-1) else
  or_cr4 (bit 7);;
  mret 0.

Definition enable_smepsmap : K machine Z :=
  let r := cpuid 7 0 in
  if negb (has_flag (ebx r) (bit 7)) || negb (has_flag (ebx r) (bit 20)) then mret (-1) else
  or_cr4 (Z.lor (bit 20) (bit 21));;
  mret 0.

Definition enable_xsaves : K machine Z :=
  if negb (has_flag (ecx (cpuid 1 0)) (bit 26)) then mret (-1) else
  or_cr4 (bit 18);;
  kmodify (set_xcr0 0x7);;
  let r := cpuid 0xD 1 in
  if negb (has_flag (eax r) (bit 3)) then mret (-1) else
  wrmsr IA32_XSS 0;;
  cur ← get_this_core;
  c ← the_cpu cur;
  upd_arch_cpu (arch_cpu_data c) (set_xsave_size (ebx r));;
  mret 0.

Definition enable_fsgsbase : K machine Z :=
  if negb (has_flag (ebx (cpuid 7 0)) (bit 0)) then mret (-1) else
  or_cr4 (bit 16);;
  mret 0.

Definition enable_x2apic : K machine Z :=
  if negb (has_flag (ecx (cpuid 1 0)) (bit 21)) then mret (-1) else
  apic_base ← rdmsr IA32_APIC_BASE;
  if Z.land apic_base (Z.shiftl 3 10) =? Z.shiftl 3 10 then mret 0 else
  wrmsr IA32_APIC_BASE (Z.lor apic_base (Z.lor (bit 11) (bit 10)));;
  mret 0.

Definition enable_syscalls : K machine Z :=
  wrmsr IA32_STAR 0x0013000800000000;;
  wrmsr IA32_LSTAR syscall_entry;;
  wrmsr IA32_SFMASK 0x40700;;
  efer ← rdmsr IA32_EFER_MSR;
  wrmsr IA32_EFER_MSR (Z.lor efer (bit 0));;
  mret 0.

(** [curcpu->tsc_freq_hz = hz]. *)
Definition store_tsc (hz : Z) : K machine Z :=
  cur ← get_this_core; upd_cpu cur (set_tsc (wrap64 hz));; mret 0.

(** The part for Intel processors, and the part for the others. *)
Definition tsc_intel : K machine Z :=
  let r := cpuid 0x16 0 in
  if negb (eax r =? 0) then store_tsc (eax r * 1000000) else
  platform_info ← rdmsr MSR_PLATFORM_INFO;
  let ratio := Z.land (Z.shiftr platform_info 8) 0xFF in
  if negb (ratio =? 0) then store_tsc (ratio * 100000000) else mret (-1).
Definition tsc_other : K machine Z :=
  pstate0 ← rdmsr MSR_PSTATE0;
  if negb (has_flag pstate0 (bit 63)) then mret (-1) else
  let cpu_fid := Z.land (Z.shiftr pstate0 8) 0x3F in
  let cpu_did := Z.land pstate0 0x3F in
  if negb (cpu_did =? 0) then store_tsc (200 * cpu_fid / cpu_did * 1000000) else mret (-1).

Definition set_tsc_frequency : K machine Z :=
  let hyp := cpuid 0x40000010 0 in
  if negb (eax hyp =? 0) then store_tsc (eax hyp * 1000) else
  let clk := cpuid 0x15 0 in
  if negb (eax clk =? 0) && negb (ebx clk =? 0) && negb (ecx clk =? 0) then
    store_tsc (wrap64 (ecx clk * ebx clk) / eax clk)
  else if is_intel then tsc_intel else tsc_other.

(** The early init calls of cpu.c, in the order of their levels. *)
Definition early_cpu_calls : list (K machine Z) :=
  [init_percpu; enable_nx; enable_pge; enable_smepsmap; enable_xsaves; enable_fsgsbase; enable_x2apic; enable_syscalls;
   set_tsc_frequency].

(** ** The local interrupt controller (lapic.c) *)

Definition IA32_X2APIC_ID : Z := 0x802.
Definition IA32_X2APIC_TPR : Z := 0x808.
Definition IA32_X2APIC_EOI : Z := 0x80B.
Definition IA32_X2APIC_SIVR : Z := 0x80F.
Definition IA32_X2APIC_LVT_TIMER : Z := 0x832.
Definition IA32_X2APIC_TIMER_INIT : Z := 0x838.
Definition IA32_X2APIC_TIMER_DIV : Z := 0x83E.
Definition LAPIC_TIMER_ONESHOT : Z := Z.shiftl 0 17.
Definition LAPIC_TIMER_PERIODIC : Z := Z.shiftl 1 17.
Definition LAPIC_TIMER_MASKED : Z := Z.shiftl 1 16.

Definition x2apic_eoi : K machine unit := wrmsr IA32_X2APIC_EOI 0.
Definition x2apic_get_id : K machine Z := v ← rdmsr IA32_X2APIC_ID; mret (wrap32 v).
Definition lapic_timer_stop : K machine unit := wrmsr IA32_X2APIC_LVT_TIMER LAPIC_TIMER_MASKED.

(** The count and the mode are written last, after the divider. *)
Definition timer_start (mode vector ticks : Z) : K machine unit :=
  wrmsr IA32_X2APIC_TIMER_INIT (wrap32 ticks);;
  wrmsr IA32_X2APIC_LVT_TIMER (Z.lor mode vector).
Definition cur_tsc : K machine Z := cur ← get_this_core; c ← the_cpu cur; mret (tsc_freq_hz c).

Definition lapic_timer_oneshot (vector us : Z) : K machine unit :=
  lapic_timer_stop;;
  wrmsr IA32_X2APIC_TIMER_DIV 0x0B;;
  hz ← cur_tsc;
  timer_start LAPIC_TIMER_ONESHOT vector (wrap64 (hz / 1000000 * us)).

(** The division by [hz] traps when it is 0. *)
Definition lapic_timer_periodic (vector hz : Z) : K machine unit :=
  lapic_timer_stop;;
  wrmsr IA32_X2APIC_TIMER_DIV 0x0B;;
  tsc ← cur_tsc;
  if hz =? 0 then kundef else timer_start LAPIC_TIMER_PERIODIC vector (tsc / hz).

Definition lapic_init : K machine Z :=
  wrmsr IA32_X2APIC_TPR 0;;
  sivr ← rdmsr IA32_X2APIC_SIVR;
  wrmsr IA32_X2APIC_SIVR (Z.lor sivr (Z.lor (bit 8) 0xFF));;
  mret 0.
End setup.
