(* ===== verification/Descriptors.v ===== *)
(** * Descriptor tables (kernel/arch/x86_64/gdt.c, kernel/arch/x86_64/idt.c)

    The tables are written field by field; what the processor reads from a
    descriptor is the reassembled address. *)

From S2P Require Export Cpu.

(** ** Segments and the task state (gdt.c) *)

Record gdt_entry := GdtEntry { limit_low : Z; base_low : Z; base_mid : Z; access : Z; flags : Z; base_high : Z }.
Record tss_descriptor := TssDescriptor {
  tss_length : Z; tss_base_low : Z; tss_base_middle1 : Z; tss_flags1 : Z; tss_flags2 : Z; tss_base_middle2 : Z;
  tss_base_high : Z; tss_reserved : Z }.
(** The fields of [tss_entry_t] that are set: [rsp[0]] and [ist[0]]. *)
Record tss_entry := TssEntry { rsp0 : Z; ist1 : Z }.
Record gdtr := Gdtr { gdtr_limit : Z; gdtr_base : Z }.

(** [GDT] of one processor: entries 1 to 4, the descriptor in 5 and 6, and the rest. *)
Record gdt := Gdt { segments : gmap Z gdt_entry; tss_desc : tss_descriptor; pointer : gdtr; gdt_tss : tss_entry }.

(** Offsets in the packed [GDT] and its size; the stacks are aligned to 16. *)
Definition SIZEOF_GDT_ENTRIES : Z := 56.
Definition SIZEOF_TSS : Z := 100.
Definition GDT_TSS : Z := 66.
Definition GDT_DF_STACK : Z := 176.
Definition SIZEOF_DF_STACK : Z := 8192.
Definition GDT_KSTACK : Z := 8368.
Definition SIZEOF_KSTACK : Z := 16384.
Definition SIZEOF_GDT : Z := 24752.

Definition set_gdt_entry (acc fl : Z) : gdt_entry := GdtEntry 0xFFFF 0 0 acc fl 0.

Definition make_tss_desc (tss_base tss_limit : Z) : tss_descriptor :=
  TssDescriptor (Z.land tss_limit 0xFFFF) (Z.land tss_base 0xFFFF) (Z.land (Z.shiftr tss_base 16) 0xFF) 0x89
    (Z.land (Z.shiftr tss_limit 16) 0x0F) (Z.land (Z.shiftr tss_base 24) 0xFF) (Z.land (Z.shiftr tss_base 32) 0xFFFFFFFF) 0.

(** The body of the loop of [init_gdt], for the structure at [g]. *)
Definition make_gdt (g : Z) : gdt :=
  Gdt (list_to_map [(1, set_gdt_entry 0x9A 0x20); (2, set_gdt_entry 0x92 0x00); (3, set_gdt_entry 0xF3 0x00);
                    (4, set_gdt_entry 0xFA 0x20)])
    (make_tss_desc (g + GDT_TSS) (SIZEOF_TSS - 1))
    (Gdtr (SIZEOF_GDT_ENTRIES - 1) g)
    (TssEntry (g + GDT_KSTACK + SIZEOF_KSTACK) (g + GDT_DF_STACK + SIZEOF_DF_STACK)).

(** The tables, the descriptor registers, and the processors. *)
Record tables := Tables {
  gdts : gmap Z gdt; gdt_ready : bool; gdtr_reg : option gdtr; mach : machine }.
Definition on_machine {A} : K machine A → K tables A :=
  klift mach (λ m s, Tables (gdts s) (gdt_ready s) (gdtr_reg s) m).
Definition set_tss p a := ArchCpu p (xsave_size a).

Section gdt.
Variable gdt_base arch_cpus_base : Z.
Definition gdt_of (i : Z) : Z := gdt_base + SIZEOF_GDT * i.

Definition init_gdt : K tables Z :=
  kfor (Z.to_nat MAX_CPUS) 0 (λ i,
    kmodify (λ s, Tables (<[i := make_gdt (gdt_of i)]> (gdts s)) (gdt_ready s) (gdtr_reg s) (mach s));;
    on_machine (upd_arch_cpu (arch_cpu_of arch_cpus_base i) (set_tss (gdt_of i + GDT_TSS))));;
  mret 0.

(** [lgdt] and the reloads of the segment registers are the processor's; the
    register is recorded. *)
Definition load_gdt : K tables Z :=
  ready ← kget gdt_ready;
  (if negb ready then init_gdt;; mret tt else mret tt);;
  kmodify (λ s, Tables (gdts s) true (gdtr_reg s) (mach s));;
  cur ← on_machine get_this_core;
  c ← on_machine (the_cpu cur);
  g ← kread (λ s, gdts s !! c_id c);
  kmodify (λ s, Tables (gdts s) (gdt_ready s) (Some (pointer g)) (mach s));;
  mret 0.
End gdt.

(** ** Interrupts (idt.c) *)

Record idt_entry := IdtEntry {
  isr_low : Z; kernel_cs : Z; idt_ist : Z; attributes : Z; isr_mid : Z; isr_high : Z; reserved : Z }.
(** A handler is a function pointer, [0] when there is none. *)
Record isr_slot := IsrSlot { slot_func : Z; slot_data : Z }.

(** The registers the assembly entry saves, as far as C reads them. *)
Record trapframe := Trapframe { vector : Z; error : Z; tf_cs : Z; tf_rip : Z; tf_rsp : Z; tf_rflags : Z }.

Record idt := Idt { idt_entries : gmap Z idt_entry; handlers : gmap Z isr_slot; idt_ready : bool; idtr_reg : option (Z * Z) }.
Definition set_idt_entries e s := Idt e (handlers s) (idt_ready s) (idtr_reg s).
Definition set_handlers h s := Idt (idt_entries s) h (idt_ready s) (idtr_reg s).

Definition make_idt_entry (addr flags ist : Z) : idt_entry :=
  IdtEntry (Z.land addr 0xFFFF) 0x08 (Z.land ist 0x07) flags (Z.land (Z.shiftr addr 16) 0xFFFF)
    (Z.land (Z.shiftr addr 32) 0xFFFFFFFF) 0.
Definition idt_set_descriptor (vector isr flags ist : Z) : K idt unit :=
  kmodify (λ s, set_idt_entries (<[vector := make_idt_entry isr flags ist]> (idt_entries s)) s).

Definition register_handler (vector handler data : Z) : K idt unit :=
  kmodify (λ s, set_handlers (<[vector := IsrSlot handler data]> (handlers s)) s).

Section idt.
(** The addresses of [isr0] .. [isr31], of the entries of [isr_stub_table], and of
    the table itself. *)
Variable isr isr_stub_table : Z → Z.
Variable idt_base : Z.

(** The double fault runs on a stack of its own. *)
Definition init_idt : K idt Z :=
  kfor 32 0 (λ i, idt_set_descriptor i (isr i) 0x8E (if i =? 8 then 1 else 0));;
  kfor (Z.to_nat (255 - 31)) 0 (λ i, idt_set_descriptor (i + 32) (isr_stub_table i) 0x8E 0);;
  mret 0.

Definition SIZEOF_IDT : Z := 256 * 16.
Definition load_idt : K idt Z :=
  ready ← kget idt_ready;
  (if negb ready then init_idt;; mret tt else mret tt);;
  kmodify (λ s, Idt (idt_entries s) (handlers s) true (Some (SIZEOF_IDT - 1, idt_base)));;
  mret 0.
End idt.

Section dispatch.
Context {S : Type}.
(** What a handler does, by its address; the state the handlers work on; and the
    messages of the panic. *)
Variable call : Z → trapframe → Z → K S unit.
Variable slots : S → gmap Z isr_slot.
Variable report : trapframe → K S unit.

(** A slot that was never registered is zero. *)
Definition isr_handler (tf : trapframe) : K S unit :=
  if negb (vector tf <? 256) then kundef else
  slot ← kget (λ s, default (IsrSlot 0 0) (slots s !! vector tf));
  if negb (slot_func slot =? 0) then call (slot_func slot) tf (slot_data slot) else
  report tf;;
  if negb (vector tf =? 3) then khalt else mret tt.
End dispatch.

(** ** Laws *)

Lemma land_low x n : 0 ≤ n → Z.land x (Z.ones n) = x mod 2 ^ n.
Proof. intros. by apply Z.land_ones. Qed.

(** The address the processor reads from an interrupt descriptor. *)
Definition idt_target (e : idt_entry) : Z := isr_low e + Z.shiftl (isr_mid e) 16 + Z.shiftl (isr_high e) 32.
Lemma idt_target_make addr fl ist : 0 ≤ addr < U64 → idt_target (make_idt_entry addr fl ist) = addr.
Proof.
  intros Ha. unfold idt_target, make_idt_entry. cbn [isr_low isr_mid isr_high].
  change 0xFFFFFFFF with (Z.ones 32). change 0xFFFF with (Z.ones 16). rewrite !Z.land_ones, !Z.shiftr_div_pow2, !Z.shiftl_mul_pow2 by lia.
  change (2 ^ 16) with 65536. change (2 ^ 32) with 4294967296. unfold U64 in Ha. Z.div_mod_to_equations. lia.
Qed.
Definition tss_target (d : tss_descriptor) : Z :=
  tss_base_low d + Z.shiftl (tss_base_middle1 d) 16 + Z.shiftl (tss_base_middle2 d) 24 + Z.shiftl (tss_base_high d) 32.
Lemma tss_target_make base lim : 0 ≤ base < U64 → tss_target (make_tss_desc base lim) = base.
Proof.
  intros Ha. unfold tss_target, make_tss_desc. cbn [tss_base_low tss_base_middle1 tss_base_middle2 tss_base_high].
  change 0xFFFFFFFF with (Z.ones 32). change 0xFFFF with (Z.ones 16). change 0xFF with (Z.ones 8).
  rewrite !Z.land_ones, !Z.shiftr_div_pow2, !Z.shiftl_mul_pow2 by lia.
  change (2 ^ 8) with 256. change (2 ^ 16) with 65536. change (2 ^ 24) with 16777216. change (2 ^ 32) with 4294967296.
  unfold U64 in Ha. Z.div_mod_to_equations. lia.
Qed.

(** After [init_idt] every vector leads to its stub. *)
Lemma init_idt_run isr stub s :
  (∀ v, 0 ≤ v < 32 → 0 ≤ isr v < U64) → (∀ i, 0 ≤ i < 224 → 0 ≤ stub i < U64) →
  ∃ s', init_idt isr stub s = Done 0 s' ∧ handlers s' = handlers s ∧
    ∀ v, 0 ≤ v < 256 → idt_target <$> idt_entries s' !! v = Some (if v <? 32 then isr v else stub (v - 32)).
Proof.
  intros Hi Hs. set (I := λ (n : Z) (t : idt), handlers t = handlers s ∧
    ∀ v, 0 ≤ v < n → idt_target <$> idt_entries t !! v = Some (if v <? 32 then isr v else stub (v - 32))).
  destruct (kfor_inv 32 0 (λ i, idt_set_descriptor i (isr i) 0x8E (if i =? 8 then 1 else 0)) I s) as (s1 & E1 & H1 & I1).
  { split; [done|lia]. }
  { intros j t Hj (Ht & It). eexists. split; [done|]. split; [done|]. intros v Hv. simpl. destruct (decide (v = j)) as [->|Hn].
    - rewrite lookup_insert_eq. simpl. f_equal. rewrite (proj2 (Z.ltb_lt _ _)) by lia. apply idt_target_make. apply Hi. lia.
    - rewrite lookup_insert_ne by done. apply It. lia. }
  destruct (kfor_inv 224 0 (λ i, idt_set_descriptor (i + 32) (stub i) 0x8E 0) (λ n, I (n + 32)) s1) as (s2 & E2 & H2 & I2).
  { by split. }
  { intros j t Hj (Ht & It). eexists. split; [done|]. split; [done|]. intros v Hv. simpl. destruct (decide (v = j + 32)) as [->|Hn].
    - rewrite lookup_insert_eq. simpl. f_equal. rewrite (proj2 (Z.ltb_ge _ _)) by lia. replace (j + 32 - 32) with j by lia. apply idt_target_make. apply Hs. lia.
    - rewrite lookup_insert_ne by done. apply It. lia. }
  exists s2. split; [|done]. unfold init_idt. rewrite (bind_done _ _ _ _ _ E1). change (Z.to_nat (255 - 31)) with 224%nat.
  by rewrite (bind_done _ _ _ _ _ E2).
Qed.
