(* ===== verification/Acpi.v ===== *)
(** * ACPI tables (kernel/dev/acpi.c)

    The tables lie in physical memory and are read through the direct map, as
    packed little-endian structures. *)

From S2P Require Export Elf.

Definition SIZEOF_SDT_HEADER : Z := 36.
Definition SIZEOF_RSDP : Z := 36.
Definition SDT_LENGTH : Z := 4.
Definition RSDP_XSDT : Z := 24.

(** [g_xsdt] beside the memory; [0] is [NULL]. *)
Record acpi T := Acpi { g_xsdt : Z; acpi_mm : pstate T }.
Arguments Acpi {T} _ _.
Arguments g_xsdt {T} _.
Arguments acpi_mm {T} _.

Section acpi.
Context {T : Type} `{!PageAllocator T}.
Implicit Types (s : acpi T) (m : pstate T).

Definition on_mm {A} : K (pstate T) A → K (acpi T) A := klift acpi_mm (λ m s, Acpi (g_xsdt s) m).
(** The bytes at the kernel address [a]. *)
Definition bytes_at m (a i : Z) : Z := get_byte (ps_mem m) (virt_to_phys (wrap64 (a + i))).

(** The sum of [n] bytes, in a [uint8_t]. *)
Fixpoint byte_sum (n : nat) (b : Z → Z) (i sum : Z) : Z :=
  match n with O => sum | S n' => byte_sum n' b (i + 1) (wrap8 (sum + b i)) end.

Definition sdt_length m (header : Z) : Z := u32 (bytes_at m header) SDT_LENGTH.
Definition validate_checksum m (header : Z) : bool :=
  byte_sum (Z.to_nat (sdt_length m header)) (bytes_at m header) 0 0 =? 0.

(** [memcmp(header->signature, signature, 4) == 0]. *)
Definition has_signature m (header : Z) (signature : list Z) : bool :=
  bool_decide ((λ i, bytes_at m header i) <$> seqZ 0 4 = signature).

(** [g_xsdt->tables[i]], as a kernel address. *)
Definition sdt_nth m (xsdt i : Z) : Z := phys_to_virt (u64 (bytes_at m xsdt) (SIZEOF_SDT_HEADER + 8 * i)).

(** [for (i = 0; i < entries; i++)]. *)
Fixpoint find_from (n : nat) m (xsdt i : Z) (signature : list Z) : Z :=
  match n with
  | O => 0
  | S n' =>
      let header := sdt_nth m xsdt i in
      if has_signature m header signature && validate_checksum m header then header
      else find_from n' m xsdt (i + 1) signature
  end.
Definition sdt_entries m (xsdt : Z) : Z := wrap64 (sdt_length m xsdt - SIZEOF_SDT_HEADER) / 8.
Definition acpi_find_table (signature : list Z) : K (acpi T) Z :=
  x ← kget g_xsdt;
  if x =? 0 then mret 0 else
  kget (λ s, find_from (Z.to_nat (sdt_entries (acpi_mm s) x)) (acpi_mm s) x 0 signature).

(** The result of [pmap_map] is not looked at. *)
Definition acpi_init (rsdp_virt : Z) : K (acpi T) Z :=
  on_mm (pmap_map PmapKernel rsdp_virt (virt_to_phys rsdp_virt) SIZEOF_RSDP PROT_READ);;
  ok ← kget (λ s, byte_sum (Z.to_nat SIZEOF_RSDP) (bytes_at (acpi_mm s) rsdp_virt) 0 0 =? 0);
  if negb ok then mret (-1) else
  xsdt_phys ← kget (λ s, u64 (bytes_at (acpi_mm s) rsdp_virt) RSDP_XSDT);
  let xsdt_virt := phys_to_virt xsdt_phys in
  on_mm (pmap_map PmapKernel xsdt_virt xsdt_phys SIZEOF_SDT_HEADER PROT_READ);;
  len ← kget (λ s, sdt_length (acpi_mm s) xsdt_virt);
  on_mm (pmap_map PmapKernel xsdt_virt xsdt_phys len PROT_READ);;
  ok ← kget (λ s, validate_checksum (acpi_mm s) xsdt_virt);
  if negb ok then mret (-1) else
  kmodify (λ s, Acpi xsdt_virt (acpi_mm s));;
  mret 0.

(** ** Laws *)

Definition bytes_sum (b : Z → Z) (n : Z) : Z := foldr Z.add 0 (b <$> seqZ 0 n).
Lemma foldr_add_acc (l : list Z) a : foldr Z.add a l = foldr Z.add 0 l + a.
Proof. induction l as [|x l IH]; simpl; [lia|]. rewrite IH. lia. Qed.
Lemma byte_sum_run n b i sum :
  0 ≤ sum < 256 → byte_sum n b i sum = wrap8 (sum + foldr Z.add 0 (b <$> seqZ i (Z.of_nat n))).
Proof.
  revert i sum. induction n as [|n IH]; intros i sum Hs.
  - simpl. rewrite Z.add_0_r. unfold wrap8. by rewrite Z.mod_small.
  - cbn [byte_sum]. rewrite IH by (unfold wrap8; apply Z.mod_pos_bound; lia). rewrite (seqZ_cons i (Z.of_nat (S n))) by lia.
    rewrite fmap_cons. cbn [foldr]. replace (Z.pred (Z.of_nat (S n))) with (Z.of_nat n) by lia. change (Z.succ i) with (i + 1).
    unfold wrap8. rewrite Zplus_mod_idemp_l. f_equal. lia.
Qed.
(** The checksum test: the bytes of the table add up to a multiple of 256. *)
Lemma validate_checksum_spec m header :
  validate_checksum m header = true ↔ bytes_sum (bytes_at m header) (Z.of_nat (Z.to_nat (sdt_length m header))) mod 256 = 0.
Proof. unfold validate_checksum, bytes_sum. rewrite byte_sum_run by lia. rewrite Z.eqb_eq. done. Qed.

(** The search gives the first table of the signature whose checksum is right. *)
Lemma find_from_run n m xsdt i sig :
  find_from n m xsdt i sig =
    default 0 (head (filter (λ h, has_signature m h sig && validate_checksum m h = true) (sdt_nth m xsdt <$> seqZ i (Z.of_nat n)))).
Proof.
  revert i. induction n as [|n IH]; intros i; [done|]. cbn [find_from]. rewrite (seqZ_cons i (Z.of_nat (S n))) by lia.
  rewrite fmap_cons, filter_cons. replace (Z.pred (Z.of_nat (S n))) with (Z.of_nat n) by lia. change (Z.succ i) with (i + 1). rewrite IH.
  by destruct (has_signature m (sdt_nth m xsdt i) sig && validate_checksum m (sdt_nth m xsdt i)).
Qed.
End acpi.
