(* ===== verification/Uart.v ===== *)
(** * The console (kernel/arch/x86_64/uart.c, kernel/misc/kprintf.c)

    The serial port, over the ports of the machine; and the sink of the kernel's
    messages. *)

From S2P Require Export Lock.

(** [inb] and [outb] (io.c), which a device answers. *)
Class Ports (D : Type) := { inb : Z → K D Z; outb : Z → Z → K D unit }.

Definition SERIAL_UART : Z := 0x3F8.

Record uart D := Uart { initialized : bool; uart_lock : spinlock; uart_irq : bool; klog_putc : bool; device : D }.
Arguments Uart {D} _ _ _ _ _.
Arguments initialized {D} _.
Arguments uart_lock {D} _.
Arguments uart_irq {D} _.
Arguments klog_putc {D} _.
Arguments device {D} _.

Section uart.
Context {D : Type} `{!Ports D}.

Definition on_device {A} : K D A → K (uart D) A :=
  klift device (λ d s, Uart (initialized s) (uart_lock s) (uart_irq s) (klog_putc s) d).
Definition on_uart_lock {A} : K (bool * spinlock) A → K (uart D) A :=
  klift (λ s, (uart_irq s, uart_lock s)) (λ '(f, l) s, Uart (initialized s) l f (klog_putc s) (device s)).

(** [while ((inb(SERIAL_UART + 5) & 0x20) == 0);], for at most [polls] reads. *)
Fixpoint wait_ready (polls : nat) : K (uart D) unit :=
  match polls with
  | O => kspin
  | S polls' => st ← on_device (inb (SERIAL_UART + 5)); if Z.land st 0x20 =? 0 then wait_ready polls' else mret tt
  end.

Definition uart_putc (polls : nat) (c : Z) : K (uart D) unit :=
  up ← kget initialized;
  if negb up then mret tt else
  flags ← on_uart_lock spin_lock_irqsave;
  wait_ready polls;;
  on_device (outb 0x3F8 c);;
  on_uart_lock (spin_unlock_irqrestore flags).

(** The divisor and the line mode, as (offset of the register, value). *)
Definition uart_setup : list (Z * Z) := [(1, 0x00); (3, 0x80); (0, 0x01); (1, 0x00); (3, 0x03); (2, 0xC7); (4, 0x0B)].
Fixpoint out_all (l : list (Z * Z)) : K (uart D) unit :=
  match l with [] => mret tt | (r, v) :: l' => on_device (outb (SERIAL_UART + r) v);; out_all l' end.
Definition uart_init : K (uart D) Z :=
  up ← kget initialized;
  if (up : bool) then mret 0 else
  out_all uart_setup;;
  kmodify (λ s, Uart true (uart_lock s) (uart_irq s) (klog_putc s) (device s));;
  mret 0.

(** [klog_putc] says whether a sink is set; the only one is [uart_putc]. *)
Definition set_log_putc (on : bool) : K (uart D) unit :=
  kmodify (λ s, Uart (initialized s) (uart_lock s) (uart_irq s) on (device s)).
Definition early_log_init : K (uart D) Z := set_log_putc true;; mret 0.
Definition kputc (polls : nat) (c : Z) : K (uart D) unit :=
  set ← kget klog_putc; if (set : bool) then uart_putc polls c else mret tt.
(** A message, which [npf_vpprintf] has turned into the characters [cs]. *)
Fixpoint dprintf (polls : nat) (cs : list Z) : K (uart D) unit :=
  match cs with [] => mret tt | c :: cs' => kputc polls (wrap8 c);; dprintf polls cs' end.
End uart.

(** ** A device that is ready after some polls *)

(** What was sent, and for how many reads of the status it is still busy. *)
Record line := Line { sent : list (Z * Z); busy : nat }.
#[export] Instance line_ports : Ports line := {|
  inb port := λ d, match busy d with O => Done 0x20 d | S n => Done 0 (Line (sent d) n) end;
  outb port v := λ d, Done tt (Line (sent d ++ [(port, v)]) (busy d)) |}.

Lemma wait_ready_run n : ∀ (s : uart line) polls,
  busy (device s) = n → (n < polls)%nat →
  wait_ready polls s = Done tt (Uart (initialized s) (uart_lock s) (uart_irq s) (klog_putc s) (Line (sent (device s)) 0)).
Proof.
  induction n as [|n IH]; intros [up lk ir set [ss b]] [|polls] Hb Hp; simpl in Hb; subst b; try lia; cbn [wait_ready]; [done|].
  rewrite (bind_done _ _ _ 0 (Uart up lk ir set (Line ss n))) by done. rewrite Z.eqb_refl. rewrite IH; [done|done|lia].
Qed.

(** With the lock free, a character is sent after the polls, and the lock and the
    interrupt flag are as they were but for the tickets. *)
Lemma uart_putc_run (s : uart line) polls c :
  initialized s = true → lock_free (uart_lock s) → (busy (device s) < polls)%nat →
  uart_putc polls c s =
    Done tt (Uart true (bump (uart_lock s)) (uart_irq s) (klog_putc s) (Line (sent (device s) ++ [(0x3F8, c)]) 0)).
Proof.
  destruct s as [up lk ir set d]. simpl. intros -> Hl Hb. unfold uart_putc. rewrite (bind_done _ _ _ true (Uart true lk ir set d)) by done.
  cbn [negb]. rewrite (bind_done _ _ _ ir (Uart true (take lk) false set d)).
  2: { unfold on_uart_lock, klift. simpl. by rewrite (spin_lock_irqsave_free ir lk Hl). }
  rewrite (bind_done _ _ _ _ _ (wait_ready_run (busy d) (Uart true (take lk) false set d) polls eq_refl Hb)). reflexivity.
Qed.
