(* ===== verification/Hhdm.v ===== *)
(** * The boot loader's page tables (boot/arch/x86_64/hhdm.c)

    The tables are words of physical memory, which the firmware maps one to one;
    pages come from the firmware. *)

From S2P Require Export PageTable.

(** [BS->AllocatePages(AllocateMaxAddress, EfiLoaderData, 1, &addr)], the address of
    a page or [None] for an error, and the memory it comes from. *)
Class BootPages (F : Type) := {
  fw_words : F → gmap Z Z;
  fw_set_words : gmap Z Z → F → F;
  fw_alloc_page : Z → K F (option Z);
}.

Definition PAGE_PRESENT : Z := bit 0.
Definition PAGE_WRITE : Z := bit 1.
Definition PAGE_HUGE : Z := bit 7.
Definition TABLE_FLAGS : Z := Z.lor PAGE_PRESENT PAGE_WRITE.
Definition LARGE_PAGE : Z := 0x200000.

Section hhdm.
Context {F : Type} `{!BootPages F}.
Implicit Types (s : F).

Definition ld_entry (t i : Z) : K F Z := kget (λ s, entry (fw_words s) t i).
Definition st_entry (t i e : Z) : K F unit := kmodify (λ s, fw_set_words (<[t + 8 * i := e]> (fw_words s)) s).

(** [0] is [NULL]. *)
Definition alloc_page : K F Z :=
  p ← fw_alloc_page 0xFFFFFFFF;
  match p with
  | None => mret 0
  | Some addr => kmodify (λ s, fw_set_words (zero_page addr (fw_words s)) s);; mret addr
  end.

(** A new table, entered into [t]; [0] when there is no page. *)
Definition new_table (t i : Z) : K F Z :=
  p ← alloc_page;
  if p =? 0 then mret 0 else
  st_entry t i (Z.lor p TABLE_FLAGS);;
  mret p.
Definition boot_table (t i : Z) : K F Z :=
  e ← ld_entry t i;
  if has_flag e PAGE_PRESENT then mret (Z.land e (bnot64 0xFFF)) else new_table t i.

Definition large_entry (addr : Z) : Z := Z.lor addr (Z.lor TABLE_FLAGS PAGE_HUGE).

(** [for (addr = ...; addr < image_base + image_size; addr += 2 MiB)]: the boot
    loader itself, one to one.  The results say whether the pages sufficed. *)
Fixpoint identity_map (fuel : nat) (pml4 addr fin : Z) : K F bool :=
  match fuel with
  | O => kspin
  | S fuel' =>
      if negb (addr <? fin) then mret true else
      pdpt ← boot_table pml4 (PML4_INDEX addr);
      if pdpt =? 0 then mret false else
      pd ← boot_table pdpt (PDPT_INDEX addr);
      if pd =? 0 then mret false else
      st_entry pd (PD_INDEX addr) (large_entry addr);;
      identity_map fuel' pml4 (wrap64 (addr + LARGE_PAGE)) fin
  end.

(** [for (k = 0; k < 512; k++)]: [n] entries from [k] on; the number of the next page. *)
Fixpoint fill_pd (n : nat) (pd k pdes total : Z) : K F Z :=
  match n with
  | O => mret pdes
  | S n' =>
      if total <=? pdes then mret pdes else
      st_entry pd k (large_entry (wrap64 (pdes * LARGE_PAGE)));;
      fill_pd n' pd (k + 1) (pdes + 1) total
  end.

(** [for (j = 0; j < 512; j++)]: the numbers of tables and of pages so far; [None]
    when there is no page. *)
Fixpoint fill_pdpt (n : nat) (pdpt j pdts pdes total_pdts total_pdes : Z) : K F (option (Z * Z)) :=
  match n with
  | O => mret (Some (pdts, pdes))
  | S n' =>
      if total_pdts <=? pdts then mret (Some (pdts, pdes)) else
      pd ← new_table pdpt j;
      if pd =? 0 then mret None else
      pdes ← fill_pd 512 pd 0 pdes total_pdes;
      fill_pdpt n' pdpt (j + 1) (pdts + 1) pdes total_pdts total_pdes
  end.

(** [for (i = 0; i < total_pdpts && 256 + i < 512; i++)]. *)
Fixpoint fill_hhdm (n : nat) (pml4 i pdts pdes total_pdpts total_pdts total_pdes : Z) : K F bool :=
  match n with
  | O => mret true
  | S n' =>
      if negb (i <? total_pdpts) then mret true else
      pdpt ← new_table pml4 (256 + i);
      if pdpt =? 0 then mret false else
      r ← fill_pdpt 512 pdpt 0 pdts pdes total_pdts total_pdes;
      match r with
      | None => mret false
      | Some (pdts, pdes) => fill_hhdm n' pml4 (i + 1) pdts pdes total_pdpts total_pdts total_pdes
      end
  end.

Definition map_hhdm (pml4 max_phys_addr : Z) : K F bool :=
  let total_pdes := Z.shiftr (wrap64 (max_phys_addr + 0x1FFFFF)) 21 in
  let total_pdts := Z.shiftr (wrap64 (total_pdes + 511)) 9 in
  let total_pdpts := Z.shiftr (wrap64 (total_pdts + 511)) 9 in
  fill_hhdm 256 pml4 0 0 0 total_pdpts total_pdts total_pdes.

(** The two GiB at the top of the address space: [for (pde_idx = 0; ...)], and the
    loop over 510 and 511. *)
Definition fill_kernel_pd (pd pdpt_idx : Z) : K F unit :=
  kfor 512 0 (λ i, st_entry pd i (large_entry ((pdpt_idx - 510) * 0x40000000 + i * LARGE_PAGE))).
Fixpoint fill_kernel (n : nat) (pdpt pdpt_idx : Z) : K F bool :=
  match n with
  | O => mret true
  | S n' =>
      pd ← new_table pdpt pdpt_idx;
      if pd =? 0 then mret false else
      fill_kernel_pd pd pdpt_idx;;
      fill_kernel n' pdpt (pdpt_idx + 1)
  end.
Definition map_kernel_image (pml4 : Z) : K F bool :=
  pdpt ← new_table pml4 511;
  if pdpt =? 0 then mret false else fill_kernel 2 pdpt 510.

(** [*out_root_phys], or [None] for [EFI_OUT_OF_RESOURCES]. *)
Definition init_hhdm (max_phys_addr image_base image_size : Z) : K F (option Z) :=
  pml4 ← alloc_page;
  if pml4 =? 0 then mret None else
  let start := Z.land image_base (bnot64 0x1FFFFF) in
  let fin := wrap64 (image_base + image_size) in
  ok ← identity_map (S (Z.to_nat ((fin - start) / LARGE_PAGE + 1))) pml4 start fin;
  if negb ok then mret None else
  ok ← map_hhdm pml4 max_phys_addr;
  if negb ok then mret None else
  ok ← map_kernel_image pml4;
  if negb ok then mret None else
  mret (Some pml4).
End hhdm.
