(* ===== verification/HhdmSpec.v ===== *)
(** * What the boot loader's page tables translate (boot/arch/x86_64/hhdm.c)

    The tables [init_hhdm] builds, with pages from a firmware that keeps
    [BootLaws], translate exactly the image of the loader one to one, the physical
    memory at [HHDM_OFFSET], and the last 2 GiB for the kernel; no memory that was
    in use changes. *)

From S2P Require Export Hhdm.

(** What the loader relies on: the frames [fw_free] that the firmware can still hand
    out are not in use, so writing to a page it gave out is harmless. *)
Class BootLaws (F : Type) `{!BootPages F} := {
  fw_free : F → Z → Prop;
  fw_words_set m s : fw_words (fw_set_words m s) = m;
  fw_free_set m s f : fw_free (fw_set_words m s) f ↔ fw_free s f;
  fw_alloc_page_law s : ∃ r s', fw_alloc_page 0xFFFFFFFF s = Done r s' ∧
    (∀ a, ¬ fw_free s (a / PAGE_SIZE) → fw_words s' !! a = fw_words s !! a) ∧
    (∀ x, fw_free s' x → fw_free s x) ∧
    match r with
    | None => ∀ f, ¬ fw_free s f
    | Some a => ∃ f, a = f * PAGE_SIZE ∧ 0 < f < 2 ^ 20 ∧ fw_free s f ∧ ¬ fw_free s' f
    end;
}.

(** ** Numbers of large pages *)

(** The number of the 2 MiB page of an address, and the entry for page [n]. *)
Definition lpn (va : Z) : Z := (va / LARGE_PAGE) mod 2 ^ 27.
Definition large (n : Z) : bool * Z := (true, large_entry (n * LARGE_PAGE)).
(** The tables are made in the order of [key] of their paths. *)
Definition key (p : list Z) : Z := match p with [] => -1 | [a] => a * 513 | a :: b :: _ => a * 513 + b + 1 end.

Lemma index_land x k : 0 ≤ k → Z.land (Z.shiftr x k) 0x1FF = (x / 2 ^ k) mod 512.
Proof. intros Hk. change 0x1FF with (Z.ones 9). by rewrite Z.land_ones, Z.shiftr_div_pow2 by lia. Qed.

Lemma lpn_idx va : idx3 va = [lpn va / 262144; (lpn va / 512) mod 512; lpn va mod 512].
Proof.
  unfold idx3, PML4_INDEX, PDPT_INDEX, PD_INDEX, lpn. rewrite !index_land by lia.
  change (2 ^ 39) with (2 ^ 21 * 262144). change (2 ^ 30) with (2 ^ 21 * 512). rewrite <- !Z.div_div by lia.
  change LARGE_PAGE with (2 ^ 21). change (2 ^ 27) with 134217728. set (w := va / 2 ^ 21).
  f_equal; [|f_equal; [|f_equal]]; Z.div_mod_to_equations; lia.
Qed.
Lemma lpn_idx_iff va a b k : index a → index b → index k → idx3 va = [a; b] ++ [k] ↔ lpn va = a * 262144 + b * 512 + k.
Proof.
  unfold index. intros Ha Hb Hk. rewrite lpn_idx. simpl. assert (Hv : 0 ≤ lpn va < 134217728) by (apply Z.mod_pos_bound; lia).
  split; [intros [= E1 E2 E3]|intros ->; f_equal; [|f_equal; [|f_equal]]]; Z.div_mod_to_equations; lia.
Qed.

Lemma large_entry_spec n : 0 ≤ n < 2 ^ 31 →
  present (large_entry (n * LARGE_PAGE)) = true ∧ huge (large_entry (n * LARGE_PAGE)) = true ∧
  Z.land (large_entry (n * LARGE_PAGE)) PD_ADDR_MASK = n * LARGE_PAGE.
Proof.
  intros Hn. unfold present, huge, large_entry, PTE_PRESENT, PDE_HUGE, TABLE_FLAGS, PAGE_PRESENT, PAGE_WRITE, PAGE_HUGE.
  rewrite !has_flag_bit, !Z.lor_spec by lia. split; [apply orb_true_r|]. split; [apply orb_true_r|].
  rewrite Z.land_lor_distr_l. replace (Z.land (Z.lor (Z.lor (bit 0) (bit 1)) (bit 7)) PD_ADDR_MASK) with 0 by done.
  rewrite Z.lor_0_r. change PD_ADDR_MASK with (Z.shiftl (Z.ones 31) 21).
  replace (n * LARGE_PAGE) with (Z.shiftl n 21) by by rewrite Z.shiftl_mul_pow2.
  rewrite <- Z.shiftl_land, Z.land_ones by lia. by rewrite Z.mod_small.
Qed.

(** The entry the loader makes for a table. *)
Lemma boot_entry_spec n : 0 ≤ n < 2 ^ 40 → table_ptr (Z.lor (n * PAGE_SIZE) TABLE_FLAGS) n.
Proof.
  intros Hn. unfold table_ptr, present, huge, PTE_PRESENT, PDE_HUGE, TABLE_FLAGS, PAGE_PRESENT, PAGE_WRITE.
  rewrite !has_flag_bit, !Z.lor_spec, !page_low_bits by lia. split; [done|]. split; [done|]. by rewrite mask_flags, mask_page.
Qed.
Lemma lor_bound a b n : 0 ≤ n → 0 ≤ a < 2 ^ n → 0 ≤ b < 2 ^ n → 0 ≤ Z.lor a b < 2 ^ n.
Proof.
  intros Hn Ha Hb. split; [apply Z.lor_nonneg; lia|].
  rewrite <- (Z.mod_small a (2 ^ n)), <- (Z.mod_small b (2 ^ n)), <- !Z.land_ones, <- Z.land_lor_distr_l, Z.land_ones by lia.
  apply Z.mod_pos_bound. lia.
Qed.
(** Clearing the low bits of a small entry is taking its address. *)
Lemma clear_low_mask e : 0 ≤ e < 2 ^ 52 → Z.land e (bnot64 0xFFF) = Z.land e PTE_ADDR_MASK.
Proof.
  intros He. rewrite <- (Z.mod_small e (2 ^ 52)) by done. rewrite <- Z.land_ones by lia. rewrite <- !Z.land_assoc. f_equal.
Qed.

(** The first page of the kernel's 2 GiB. *)
#[local] Abbreviation KP := 134216704.

Section building.
Context {F : Type} `{!BootPages F} `{!BootLaws F}.
Implicit Types (s : F).

(** [s0] is where the loader starts, [R] the root, [M] the pages mapped so far, and
    [n] bounds the keys of the tables made so far. *)
Record building (s0 s : F) (R : Z) (M : Z → option Z) (n : Z) : Prop := Building {
  b_wf : pt_wf (fw_words s) R (λ x, fw_free s x ∨ ¬ fw_free s0 x);
  b_leaf : ∀ va, leaf (fw_words s) R va = large <$> M (lpn va);
  b_small : ∀ p t i, wf_path p → (length p ≤ 1)%nat → index i → tbl (fw_words s) R p = Some t →
    0 ≤ entry (fw_words s) t i < 2 ^ 52;
  b_dom : ∀ p, wf_path p → p ≠ [] → is_Some (tbl (fw_words s) R p) → (length p ≤ 2)%nat ∧ key p < n;
  b_frame : ∀ a, ¬ fw_free s0 (a / PAGE_SIZE) → fw_words s !! a = fw_words s0 !! a;
  b_sub : ∀ x, fw_free s x → fw_free s0 x;
}.
(** The firmware ran out of pages; memory in use is as it was. *)
Definition exhausted (s0 s : F) : Prop :=
  (∀ f, ¬ fw_free s f) ∧ ∀ a, ¬ fw_free s0 (a / PAGE_SIZE) → fw_words s !! a = fw_words s0 !! a.
(** Tables stay where they are. *)
Definition keeps (s s' : F) (R : Z) : Prop :=
  ∀ p t, wf_path p → tbl (fw_words s) R p = Some t → tbl (fw_words s') R p = Some t.

Lemma keeps_refl s R : keeps s s R.
Proof. intros p t. done. Qed.
Lemma keeps_trans s1 s2 s3 R : keeps s1 s2 R → keeps s2 s3 R → keeps s1 s3 R.
Proof. intros H1 H2 p t Hp Ht. auto. Qed.

Lemma building_ext s0 s R M M' n n' :
  (∀ v, 0 ≤ v < 2 ^ 27 → M v = M' v) → n ≤ n' → building s0 s R M n → building s0 s R M' n'.
Proof.
  intros HM Hn [Hw Hl Hs Hd Hf Hb]. split; try done.
  - intros va. rewrite Hl, HM; [done|]. apply Z.mod_pos_bound. lia.
  - intros p Hp Hne Ht. destruct (Hd p Hp Hne Ht). split; [done|lia].
Qed.

Lemma page_of t f i : t = f * PAGE_SIZE → index i → (t + 8 * i) / PAGE_SIZE = f.
Proof. intros -> Hi. unfold index in Hi. change PAGE_SIZE with 4096. Z.div_mod_to_equations. lia. Qed.

(** Memory that is not free keeps the tree. *)
Lemma agree_tables s0 s R M n m' :
  building s0 s R M n → (∀ a, ¬ fw_free s (a / PAGE_SIZE) → m' !! a = fw_words s !! a) →
  ∀ p t i, wf_path p → tbl (fw_words s) R p = Some t → index i → entry m' t i = entry (fw_words s) t i.
Proof.
  intros Hb Hm p t i Hp Ht Hi. destruct (table_page _ _ _ (b_wf _ _ _ _ _ Hb) p t Hp Ht) as (f & E & _ & Hf).
  unfold entry, rd. rewrite Hm; [done|]. rewrite (page_of t f i E Hi). tauto.
Qed.

Lemma alloc_page_run s : ∃ r s', alloc_page s = Done r s' ∧
  (∀ x, fw_free s' x → fw_free s x) ∧ (∀ a, ¬ fw_free s (a / PAGE_SIZE) → fw_words s' !! a = fw_words s !! a) ∧
  if r =? 0 then ∀ f, ¬ fw_free s f
  else ∃ f m, r = f * PAGE_SIZE ∧ 0 < f < 2 ^ 20 ∧ fw_free s f ∧ ¬ fw_free s' f ∧
    (∀ a, ¬ fw_free s (a / PAGE_SIZE) → m !! a = fw_words s !! a) ∧ fw_words s' = zero_page r m.
Proof.
  destruct (fw_alloc_page_law s) as (r & s1 & E & Hag & Hsub & Hr). unfold alloc_page. rewrite (bind_done _ _ _ _ _ E).
  destruct r as [a|]; [|by exists 0, s1].
  destruct Hr as (f & -> & Hf & Hfree & Hn). eexists _, _. split; [reflexivity|]. split; [by intros x Hx%fw_free_set; auto|].
  rewrite fw_words_set. split.
  { intros b Hb. rewrite zero_page_other; [by apply Hag|]. by intros <-. }
  rewrite (proj2 (Z.eqb_neq _ _)) by (change PAGE_SIZE with 4096; lia).
  exists f, (fw_words s1). split_and!; try done; try lia. by intros Hx%fw_free_set.
Qed.

(** A new empty root. *)
Lemma root_building s : ∃ r s', alloc_page s = Done r s' ∧
  if r =? 0 then exhausted s s' else building s s' r (λ _, None) 0.
Proof.
  destruct (alloc_page_run s) as (r & s' & E & Hsub & Hag & Hr). exists r, s'. split; [done|].
  destruct (r =? 0); [by split; [intros g Hg%Hsub; apply (Hr g)|]|].
  destruct Hr as (f & m & -> & Hf & Hfree & Hn & _ & Hw).
  assert (He : ∀ i, index i → entry (fw_words s') (f * PAGE_SIZE) i = 0).
  { intros i Hi. by rewrite Hw, entry_zero, decide_True. }
  destruct (empty_root (fw_words s') f (λ x, fw_free s' x ∨ ¬ fw_free s x)) as (Hwf & Ht & Hlf); [lia|naive_solver|done|].
  split; try done.
  - intros [|i p] t j Hp Hl Hj Hpt; [|by rewrite Ht in Hpt]. injection Hpt as <-. rewrite He by done. lia.
  - intros p Hp Hne [t Hpt]. by rewrite Ht in Hpt.
Qed.

Lemma absent_entry s0 s R M n p t i :
  building s0 s R M n → wf_path p → (length p ≤ 1)%nat → index i →
  tbl (fw_words s) R p = Some t → tbl (fw_words s) R (p ++ [i]) = None → present (entry (fw_words s) t i) = false.
Proof.
  intros Hb Hp Hl Hi Ht Hn. destruct (present _) eqn:E; [exfalso|done].
  pose proof (wf_upper _ _ _ (b_wf _ _ _ _ _ Hb) p t i Hl Hp Hi Ht E) as Hh.
  rewrite tbl_snoc, Ht in Hn. simpl in Hn. unfold sub in Hn. by rewrite E, Hh in Hn.
Qed.

(** A write to a table is not a write to memory in use. *)
Lemma table_frame_used s0 s R M n p f t i a :
  building s0 s R M n → wf_path p → index i → tbl (fw_words s) R p = Some t → t = f * PAGE_SIZE →
  ¬ fw_free s0 (a / PAGE_SIZE) → t + 8 * i ≠ a.
Proof.
  intros Hb Hp Hi Ht Et Ha <-. rewrite (page_of t f i Et Hi) in Ha.
  destruct (table_page _ _ _ (b_wf _ _ _ _ _ Hb) p t Hp Ht) as (g & E & _ & Hg).
  replace g with f in Hg by (rewrite Et in E; change PAGE_SIZE with 4096 in E; lia). tauto.
Qed.

Section new_table.
Context (s0 s : F) (R : Z) (M : Z → option Z) (n n' : Z).
Hypothesis Hb : building s0 s R M n.
Context (p : list Z) (f i : Z).
Hypothesis Hp : wf_path p.
Hypothesis Hl : (length p ≤ 1)%nat.
Hypothesis Hi : index i.
Hypothesis Ht : tbl (fw_words s) R p = Some (f * PAGE_SIZE).
Hypothesis Hno : tbl (fw_words s) R (p ++ [i]) = None.
Hypothesis Hn : n ≤ n'.
Hypothesis Hk : key (p ++ [i]) < n'.
Context (s1 s2 : F) (fr : Z) (m : gmap Z Z).
Hypothesis Hsub : ∀ x, fw_free s1 x → fw_free s x.
Hypothesis Hfr : 0 < fr < 2 ^ 20.
Hypothesis Hfree : fw_free s fr.
Hypothesis Hused : ¬ fw_free s1 fr.
Hypothesis Hm : ∀ a, ¬ fw_free s (a / PAGE_SIZE) → m !! a = fw_words s !! a.
Hypothesis Hs2 : ∀ x, fw_free s2 x ↔ fw_free s1 x.
Abbreviation en := (Z.lor (fr * PAGE_SIZE) TABLE_FLAGS).
Hypothesis Hw2 : fw_words s2 = <[f * PAGE_SIZE + 8 * i := en]> (zero_page (fr * PAGE_SIZE) m).
Abbreviation P := (λ x, fw_free s x ∨ ¬ fw_free s0 x).

Lemma nt_agree p' t j : wf_path p' → tbl (fw_words s) R p' = Some t → index j → entry m t j = entry (fw_words s) t j.
Proof. by apply (agree_tables s0 s R M n). Qed.
Lemma nt_tbl q : wf_path q → tbl m R q = tbl (fw_words s) R q.
Proof. apply (tbl_agree (fw_words s) R m), nt_agree. Qed.
Lemma nt_wf : pt_wf m R P.
Proof. apply (pt_wf_agree (fw_words s) R P (b_wf _ _ _ _ _ Hb)), nt_agree. Qed.
Lemma nt_absent : present (entry m (f * PAGE_SIZE) i) = false.
Proof. rewrite (nt_agree p) by done. by apply (absent_entry s0 s R M n p). Qed.
Lemma nt_frame : 0 < fr < 2 ^ 40.
Proof. lia. Qed.
Lemma nt_len : (length p ≤ 2)%nat.
Proof. lia. Qed.
Lemma nt_entry : table_ptr en fr.
Proof. apply boot_entry_spec. lia. Qed.
Lemma nt_root : tbl m R p = Some (f * PAGE_SIZE).
Proof. by rewrite nt_tbl. Qed.

Lemma nt_tables q : wf_path q →
  tbl (fw_words s2) R q = if decide (q = p ++ [i]) then Some (fr * PAGE_SIZE) else tbl (fw_words s) R q.
Proof.
  intros Hq. rewrite Hw2, <- (nt_tbl q) by done.
  by apply (tbl_attach m R P nt_wf p f i fr nt_len Hp nt_root Hi nt_absent nt_frame (or_introl Hfree) en nt_entry).
Qed.

Lemma nt_small q t j : wf_path q → (length q ≤ 1)%nat → index j → tbl (fw_words s2) R q = Some t →
  0 ≤ entry (fw_words s2) t j < 2 ^ 52.
Proof.
  intros Hq Hlq Hj. rewrite nt_tables by done. rewrite Hw2. case_decide as Eq.
  - intros [= <-].
    rewrite (new_entry m R P nt_wf p f i fr nt_len Hp nt_root Hi nt_absent (or_introl Hfree)) by done. lia.
  - intros Htq. rewrite (old_entry m R P nt_wf p f i fr Hp nt_root Hi nt_frame (or_introl Hfree) en nt_entry q) by (done || by rewrite nt_tbl).
    case_decide; [|rewrite (nt_agree q) by done; by apply (b_small _ _ _ _ _ Hb q)].
    apply lor_bound; [lia|change PAGE_SIZE with 4096; lia|]. by vm_compute.
Qed.

Lemma nt_building : building s0 s2 R M n'.
Proof.
  split.
  - rewrite Hw2. apply (pt_wf_attach m R P nt_wf p f i fr nt_len Hp nt_root Hi nt_absent nt_frame (or_introl Hfree) en nt_entry).
    intros x [Hx%Hs2|Hx]; (split; [auto|intros ->]); [done|]. by apply Hx, (b_sub _ _ _ _ _ Hb).
  - intros va. rewrite Hw2, (leaf_attach m R P nt_wf p f i fr nt_len Hp nt_root Hi nt_absent nt_frame (or_introl Hfree) en nt_entry).
    rewrite (leaf_agree (fw_words s) R m) by apply nt_agree. apply Hb.
  - apply nt_small.
  - intros q Hq Hne. rewrite nt_tables by done. case_decide as Eq.
    + intros _. subst q. rewrite length_app. simpl. split; [lia|done].
    + intros Ho. destruct (b_dom _ _ _ _ _ Hb q Hq Hne Ho). split; [done|lia].
  - intros a Ha. rewrite Hw2, lookup_insert_ne by by apply (table_frame_used s0 s R M n p f).
    rewrite zero_page_other; [|intros <-; by apply Ha, (b_sub _ _ _ _ _ Hb)].
    rewrite Hm by (intros Hx; by apply Ha, (b_sub _ _ _ _ _ Hb)). by apply Hb.
  - intros x Hx%Hs2%Hsub. by apply Hb.
Qed.
End new_table.

Lemma new_table_run s0 s R M n n' p t i :
  building s0 s R M n → wf_path p → (length p ≤ 1)%nat → index i →
  tbl (fw_words s) R p = Some t → tbl (fw_words s) R (p ++ [i]) = None → n ≤ n' → key (p ++ [i]) < n' →
  ∃ r s', new_table t i s = Done r s' ∧
    if r =? 0 then exhausted s0 s'
    else building s0 s' R M n' ∧ tbl (fw_words s') R (p ++ [i]) = Some r ∧ keeps s s' R.
Proof.
  intros Hb Hp Hl Hi Ht Hno Hn Hk. destruct (table_page _ _ _ (b_wf _ _ _ _ _ Hb) p t Hp Ht) as (f & -> & _ & _).
  destruct (alloc_page_run s) as (r & s1 & E & Hsub & Hag & Hr). unfold new_table. rewrite (bind_done _ _ _ _ _ E).
  destruct (Z.eqb_spec r 0) as [->|Hr0].
  - exists 0, s1. split; [done|]. split; [intros g Hg%Hsub; by apply (Hr g)|]. intros a Ha. rewrite Hag by (intros Hx; by apply Ha, (b_sub _ _ _ _ _ Hb)).
    by apply Hb.
  - destruct Hr as (fr & m & -> & Hfr & Hfree & Hused & Hm & Hw). eexists _, _. split; [reflexivity|].
    rewrite (proj2 (Z.eqb_neq _ _)) by done. cbn.
    set (s2 := fw_set_words _ s1).
    assert (Hw2 : fw_words s2 = <[f * PAGE_SIZE + 8 * i := Z.lor (fr * PAGE_SIZE) TABLE_FLAGS]> (zero_page (fr * PAGE_SIZE) m)).
    { unfold s2. by rewrite fw_words_set, Hw. }
    assert (Hs2 : ∀ x, fw_free s2 x ↔ fw_free s1 x) by (intros x; apply fw_free_set).
    pose proof (nt_tables s0 s R M n Hb p f i Hp Hl Hi Ht Hno s2 fr m Hfr Hfree Hm Hw2) as HT.
    split; [by eapply nt_building|]. split.
    + rewrite HT by (apply wf_path_snoc; (done || lia)). by rewrite decide_True.
    + intros q u Hq Hqt. rewrite HT by done. rewrite decide_False; [done|]. intros ->. by rewrite Hno in Hqt.
Qed.

Lemma boot_table_run s0 s R M n p t i :
  building s0 s R M n → wf_path p → (length p ≤ 1)%nat → index i →
  tbl (fw_words s) R p = Some t → key (p ++ [i]) < n →
  ∃ r s', boot_table t i s = Done r s' ∧
    if r =? 0 then exhausted s0 s'
    else building s0 s' R M n ∧ tbl (fw_words s') R (p ++ [i]) = Some r ∧ keeps s s' R.
Proof.
  intros Hb Hp Hl Hi Ht Hk. unfold boot_table, ld_entry. rewrite (bind_done _ _ _ (entry (fw_words s) t i) s) by done.
  change (has_flag _ PAGE_PRESENT) with (present (entry (fw_words s) t i)).
  destruct (present (entry (fw_words s) t i)) eqn:Ep.
  - pose proof (wf_upper _ _ _ (b_wf _ _ _ _ _ Hb) p t i Hl Hp Hi Ht Ep) as Hh.
    assert (Hs : tbl (fw_words s) R (p ++ [i]) = Some (Z.land (entry (fw_words s) t i) PTE_ADDR_MASK)).
    { rewrite tbl_snoc, Ht. simpl. unfold sub. by rewrite Ep, Hh. }
    rewrite clear_low_mask by by apply (b_small _ _ _ _ _ Hb p). eexists _, s. split; [done|].
    destruct (table_page _ _ _ (b_wf _ _ _ _ _ Hb) (p ++ [i]) _ ltac:(apply wf_path_snoc; (done || lia)) Hs) as (f & E & Hf & _).
    rewrite (proj2 (Z.eqb_neq _ _)) by (rewrite E; change PAGE_SIZE with 4096; lia). split; [done|]. split; [done|apply keeps_refl].
  - apply (new_table_run s0 s R M n); try done; try lia. rewrite tbl_snoc, Ht. simpl. unfold sub. by rewrite Ep.
Qed.

(** A large page entered into a directory. *)
Lemma large_run s0 s R M n a b k pd v :
  building s0 s R M n → index a → index b → index k → tbl (fw_words s) R [a; b] = Some pd → 0 ≤ v < 2 ^ 31 →
  ∃ s', st_entry pd k (large_entry (v * LARGE_PAGE)) s = Done tt s' ∧
    building s0 s' R (λ x, if x =? a * 262144 + b * 512 + k then Some v else M x) n ∧ keeps s s' R.
Proof.
  intros Hb Ha Hbi Hk Ht Hv. eexists. split; [reflexivity|]. set (s' := fw_set_words _ s).
  assert (Hp : wf_path [a; b]) by (split; [simpl; lia|repeat (apply Forall_cons; split; [done|]); done]).
  destruct (table_page _ _ _ (b_wf _ _ _ _ _ Hb) _ _ Hp Ht) as (f & Ef & _ & _).
  destruct (large_entry_spec v Hv) as (Hpr & Hhu & _). set (e := large_entry (v * LARGE_PAGE)) in *.
  assert (Hw : fw_words s' = <[f * PAGE_SIZE + 8 * k := e]> (fw_words s)) by (unfold s'; by rewrite fw_words_set, Ef).
  assert (He0 : (length [a; b] ≤ 2)%nat → present e && negb (huge e) = false) by by rewrite Hpr, Hhu.
  assert (Hup : (length [a; b] ≤ 1)%nat → present e = false) by (simpl; lia).
  assert (Ht' : tbl (fw_words s) R [a; b] = Some (f * PAGE_SIZE)) by by rewrite Ht, Ef.
  pose proof (b_wf _ _ _ _ _ Hb) as Hwf.
  assert (HT : ∀ q, wf_path q → tbl (fw_words s') R q = tbl (fw_words s) R q).
  { intros q Hq. rewrite Hw, (tbl_cut _ _ _ Hwf [a; b] f k e Hp Ht' Hk He0) by done. case_decide as Hpre; [|done].
    destruct (tbl (fw_words s) R q) eqn:Eq; [exfalso|done].
    assert (Hlq : (3 ≤ length q)%nat) by (apply prefix_length in Hpre; done).
    destruct (b_dom _ _ _ _ _ Hb q Hq) as [Hl2 _]; [by destruct q; [simpl in Hlq; lia|]|by eexists|lia]. }
  split; [|by intros q t Hq; rewrite HT].
  split.
  - rewrite Hw. eapply pt_wf_mono; [by apply (pt_wf_cut _ _ _ Hwf [a; b] f k e)|]. cbn. intros x [Hx|Hx]; [left|by right].
    unfold s' in Hx. by apply fw_free_set in Hx.
  - intros va. rewrite Hw, (leaf_cut_pd _ _ _ Hwf [a; b] f k e Hp Ht' Hk He0) by done. rewrite Hpr.
    case_decide as Hv'.
    + apply lpn_idx_iff in Hv'; [|done..]. by rewrite (proj2 (Z.eqb_eq _ _)).
    + rewrite (proj2 (Z.eqb_neq _ _)); [apply Hb|]. intros E. apply Hv', lpn_idx_iff; done.
  - intros q t i Hq Hl Hi. rewrite HT by done. intros Hqt. rewrite Hw.
    rewrite (entry_cut _ _ _ Hwf [a; b] f k e Hp Ht' Hk q) by done. rewrite decide_False; [by apply (b_small _ _ _ _ _ Hb q)|].
    intros [-> _]. simpl in Hl. lia.
  - intros q Hq Hne. rewrite HT by done. by apply Hb.
  - intros x Hx. rewrite Hw, lookup_insert_ne; [by apply Hb|]. by apply (table_frame_used s0 s R M n [a; b] f).
  - intros x Hx. unfold s' in Hx. apply fw_free_set in Hx. by apply Hb.
Qed.

(** The pages from [lo] to [hi] mapped to the frames from [lo - d] on. *)
Definition map_to (M : Z → option Z) (lo hi d : Z) (v : Z) : option Z :=
  if (lo <=? v) && (v <? hi) then Some (v - d) else M v.
Lemma map_to_empty M lo hi d v : hi ≤ lo → map_to M lo hi d v = M v.
Proof. intros H. unfold map_to. destruct (Z.leb_spec lo v), (Z.ltb_spec v hi); try done. lia. Qed.
Lemma map_to_first M lo hi d v :
  lo < hi → map_to (λ x, if x =? lo then Some (lo - d) else M x) (lo + 1) hi d v = map_to M lo hi d v.
Proof.
  intros H. unfold map_to. destruct (Z.leb_spec (lo + 1) v), (Z.leb_spec lo v), (Z.ltb_spec v hi), (Z.eqb_spec v lo); simpl; subst; try done; lia.
Qed.
Lemma map_to_last M lo hi d v :
  lo ≤ hi → (if v =? hi then Some (hi - d) else map_to M lo hi d v) = map_to M lo (hi + 1) d v.
Proof.
  intros H. unfold map_to. destruct (Z.leb_spec lo v), (Z.ltb_spec v hi), (Z.ltb_spec v (hi + 1)), (Z.eqb_spec v hi); simpl; subst; try done; lia.
Qed.
Lemma map_to_join M lo mid hi d v :
  lo ≤ mid ≤ hi → map_to (map_to M lo mid d) mid hi d v = map_to M lo hi d v.
Proof.
  intros H. unfold map_to. destruct (Z.leb_spec mid v), (Z.leb_spec lo v), (Z.ltb_spec v mid), (Z.ltb_spec v hi); simpl; try done; lia.
Qed.

(** ** The loops *)

Lemma lpn_page u : 0 ≤ u < 2 ^ 27 → lpn (u * LARGE_PAGE) = u.
Proof. intros Hu. unfold lpn. rewrite Z.div_mul by done. by apply Z.mod_small. Qed.
Lemma page_idx u : 0 ≤ u < 2 ^ 27 →
  PML4_INDEX (u * LARGE_PAGE) = u / 262144 ∧ PDPT_INDEX (u * LARGE_PAGE) = (u / 512) mod 512 ∧
  PD_INDEX (u * LARGE_PAGE) = u mod 512.
Proof. intros Hu. pose proof (lpn_idx (u * LARGE_PAGE)) as H. rewrite lpn_page in H by done. by injection H. Qed.
Lemma index_parts u : 0 ≤ u < 2 ^ 27 → index (u / 262144) ∧ index ((u / 512) mod 512) ∧ index (u mod 512).
Proof. change (2 ^ 27) with 134217728. unfold index. intros. Z.div_mod_to_equations. lia. Qed.
Lemma lpn_parts u : u = u / 262144 * 262144 + (u / 512) mod 512 * 512 + u mod 512.
Proof. Z.div_mod_to_equations. lia. Qed.

Definition pages_up (a : Z) : Z := (a + 0x1FFFFF) / LARGE_PAGE.
Lemma pages_up_lt u a : u * LARGE_PAGE < a ↔ u < pages_up a.
Proof. unfold pages_up. change LARGE_PAGE with 2097152. split; intros; Z.div_mod_to_equations; lia. Qed.

Lemma wf_path_1 i : index i → wf_path [i].
Proof. intros. split; [simpl; lia|]. by apply Forall_singleton. Qed.
Lemma wf_path_2 a b : index a → index b → wf_path [a; b].
Proof. intros. split; [simpl; lia|]. by repeat (apply Forall_cons; split; [done|]). Qed.
Lemma wf_path_0 : wf_path [].
Proof. split; [simpl; lia|done]. Qed.

Definition LOWER : Z := 256 * 513.

Lemma identity_run s0 R fin fuel : ∀ s M u,
  building s0 s R M LOWER → 0 ≤ u ≤ pages_up fin → fin ≤ 2 ^ 47 → pages_up fin - u < Z.of_nat fuel →
  ∃ r s', identity_map fuel R (u * LARGE_PAGE) fin s = Done r s' ∧
    if r then building s0 s' R (map_to M u (pages_up fin) 0) LOWER else exhausted s0 s'.
Proof.
  induction fuel as [|fuel IH]; intros s M u Hb Hu Hfin Hf; cbn [identity_map].
  - exfalso. lia.
  - destruct (Z.ltb_spec (u * LARGE_PAGE) fin) as [Hlt|Hge]; cbn [negb].
    2: { exists true, s. split; [done|]. eapply building_ext; [|done|done]. intros v _. rewrite map_to_empty; [done|].
         apply Z.nlt_ge. intros Hx%pages_up_lt. lia. }
    assert (Hu2 : u < 2 ^ 26) by (change LARGE_PAGE with 2097152 in Hlt; lia).
    assert (Hu3 : 0 ≤ u < 2 ^ 27) by lia.
    destruct (page_idx u Hu3) as (-> & -> & ->). destruct (index_parts u Hu3) as (Ha & Hbi & Hk).
    assert (Ha2 : u / 262144 < 256) by (change (2 ^ 26) with 67108864 in Hu2; Z.div_mod_to_equations; lia).
    destruct (boot_table_run s0 s R M LOWER [] R (u / 262144) Hb wf_path_0 ltac:(simpl; lia) Ha eq_refl ltac:(simpl; unfold LOWER; lia))
      as (t1 & s1 & E1 & H1). rewrite (bind_done _ _ _ _ _ E1).
    destruct (t1 =? 0); [by exists false, s1|]. destruct H1 as (Hb1 & Ht1 & _).
    destruct (boot_table_run s0 s1 R M LOWER [u / 262144] t1 _ Hb1 (wf_path_1 _ Ha) ltac:(simpl; lia) Hbi Ht1
                ltac:(simpl; unfold LOWER, index in *; lia)) as (t2 & s2 & E2 & H2). rewrite (bind_done _ _ _ _ _ E2).
    destruct (t2 =? 0); [by exists false, s2|]. destruct H2 as (Hb2 & Ht2 & _).
    destruct (large_run s0 s2 R M LOWER _ _ _ t2 u Hb2 Ha Hbi Hk Ht2 ltac:(lia)) as (s3 & E3 & Hb3 & _).
    rewrite (bind_done _ _ _ _ _ E3).
    rewrite wrap64_small by (change LARGE_PAGE with 2097152; unfold U64; lia).
    replace (u * LARGE_PAGE + LARGE_PAGE) with ((u + 1) * LARGE_PAGE) by lia.
    pose proof (proj1 (pages_up_lt u fin) Hlt) as Hup.
    destruct (IH s3 _ (u + 1) Hb3 ltac:(lia) Hfin ltac:(lia)) as (r & s4 & E4 & H4). exists r, s4. split; [done|].
    destruct r; [|done]. eapply building_ext; [|done|exact H4]. intros v _. rewrite <- lpn_parts.
    rewrite <- (map_to_first M u) by by apply pages_up_lt. by rewrite Z.sub_0_r.
Qed.

Section direct_map.
Context (s0 : F) (R total : Z).
Hypothesis Htot : 0 ≤ total ≤ 255 * 262144.
(** The first page of the direct map. *)
Abbreviation B := 0x4000000.

Lemma fill_pd_run a b pd n : ∀ s M key0 k pdes,
  building s0 s R M key0 → index a → index b → tbl (fw_words s) R [a; b] = Some pd → 0 ≤ k → k + Z.of_nat n ≤ 512 →
  0 ≤ pdes → B + pdes = a * 262144 + b * 512 + k → pdes ≤ total →
  ∃ s', fill_pd n pd k pdes total s = Done (Z.min total (pdes + Z.of_nat n)) s' ∧ keeps s s' R ∧
    building s0 s' R (map_to M (B + pdes) (B + Z.min total (pdes + Z.of_nat n)) B) key0.
Proof.
  induction n as [|n IH]; intros s M key0 k pdes Hb Ha Hbi Ht Hk Hkn Hp E Hle; cbn [fill_pd].
  - exists s. replace (Z.min total (pdes + Z.of_nat 0)) with pdes by lia. split; [done|]. split; [apply keeps_refl|].
    eapply building_ext; [|done|done]. intros v _. by rewrite map_to_empty by lia.
  - destruct (Z.leb_spec total pdes) as [Hge|Hlt].
    + exists s. replace (Z.min total (pdes + Z.of_nat (S n))) with pdes by lia. split; [done|]. split; [apply keeps_refl|].
      eapply building_ext; [|done|done]. intros v _. by rewrite map_to_empty by lia.
    + rewrite wrap64_small by (change LARGE_PAGE with 2097152; unfold U64; lia).
      destruct (large_run s0 s R M key0 a b k pd pdes Hb Ha Hbi ltac:(unfold index; lia) Ht ltac:(lia)) as (s1 & E1 & Hb1 & Hk1).
      rewrite (bind_done _ _ _ _ _ E1).
      destruct (IH s1 _ key0 (k + 1) (pdes + 1) Hb1 Ha Hbi) as (s2 & E2 & Hk2 & Hb2); try lia.
      { apply Hk1; [by apply wf_path_2|done]. }
      replace (pdes + 1 + Z.of_nat n) with (pdes + Z.of_nat (S n)) in * by lia.
      exists s2. split; [done|]. split; [by eapply keeps_trans|]. eapply building_ext; [|done|exact Hb2]. intros v _.
      rewrite <- E, Z.add_assoc. rewrite <- (map_to_first M (B + pdes)) by lia. by replace (B + pdes - B) with pdes by lia.
Qed.

Definition up512 (n : Z) : Z := (n + 511) / 512.
Lemma up512_lt i n : i * 512 < n ↔ i < up512 n.
Proof. unfold up512. split; intros; Z.div_mod_to_equations; lia. Qed.
Lemma up512_le n : n ≤ up512 n * 512.
Proof. apply Z.nlt_ge. intros H%up512_lt. lia. Qed.

Lemma fill_pdpt_run a pdpt n : ∀ s M j pdts pdes,
  building s0 s R M (a * 513 + j + 1) → index a → tbl (fw_words s) R [a] = Some pdpt → 0 ≤ j → j + Z.of_nat n ≤ 512 →
  pdts = (a - 256) * 512 + j → 0 ≤ pdts ≤ up512 total → pdes = Z.min total (pdts * 512) →
  ∃ r s', fill_pdpt n pdpt j pdts pdes (up512 total) total s = Done r s' ∧
    match r with
    | None => exhausted s0 s'
    | Some (pdts', pdes') => pdts' = Z.min (up512 total) (pdts + Z.of_nat n) ∧ pdes' = Z.min total (pdts' * 512) ∧
        building s0 s' R (map_to M (B + pdes) (B + pdes') B) ((a + 1) * 513)
    end.
Proof.
  induction n as [|n IH]; intros s M j pdts pdes Hb Ha Ht Hj Hjn Ep Hle Ee; cbn [fill_pdpt].
  - eexists _, s. split; [done|]. cbn. split; [lia|]. split; [lia|]. refine (building_ext _ _ _ _ _ _ _ _ _ Hb); [|lia]. intros v _. by rewrite map_to_empty by lia.
  - destruct (Z.leb_spec (up512 total) pdts) as [Hge|Hlt].
    { eexists _, s. split; [done|]. cbn. split; [lia|]. split; [lia|]. refine (building_ext _ _ _ _ _ _ _ _ _ Hb); [|lia]. intros v _. by rewrite map_to_empty by lia. }
    assert (Hmore : pdts * 512 < total) by by apply up512_lt.
    assert (Hjx : index j) by (unfold index; lia).
    destruct (new_table_run s0 s R M _ (a * 513 + (j + 1) + 1) [a] pdpt j Hb (wf_path_1 a Ha) ltac:(simpl; lia) Hjx Ht) as (t & s1 & E1 & H1);
      [|lia|simpl; lia|].
    { destruct (tbl _ _ ([a] ++ [j])) eqn:Et; [exfalso|done].
      destruct (b_dom _ _ _ _ _ Hb ([a] ++ [j])) as [_ Hk]; [by apply wf_path_2|done|by eexists|simpl in Hk; lia]. }
    rewrite (bind_done _ _ _ _ _ E1). destruct (t =? 0); [by exists None, s1|]. destruct H1 as (Hb1 & Ht1 & Hk1).
    destruct (fill_pd_run a j t 512 s1 M _ 0 pdes Hb1 Ha Hjx Ht1) as (s2 & E2 & Hk2 & Hb2); try lia.
    rewrite (bind_done _ _ _ _ _ E2).
    assert (Hnext : Z.min total (pdes + Z.of_nat 512) = Z.min total ((pdts + 1) * 512)) by lia.
    destruct (IH s2 _ (j + 1) (pdts + 1) _ Hb2 Ha (Hk2 _ _ (wf_path_1 a Ha) (Hk1 _ _ (wf_path_1 a Ha) Ht)) ltac:(lia) ltac:(lia) ltac:(lia) ltac:(lia) Hnext)
      as (r & s3 & E3 & H3).
    exists r, s3. split; [exact E3|]. destruct r as [[pdts' pdes']|]; [|done]. destruct H3 as (Hd & He & Hb3).
    split; [lia|]. split; [done|]. eapply building_ext; [|done|exact Hb3]. intros v _. by apply map_to_join; lia.
Qed.

Lemma fill_hhdm_run n : ∀ s M i pdts pdes,
  building s0 s R M ((256 + i) * 513) → 0 ≤ i ≤ up512 (up512 total) → up512 (up512 total) - i ≤ Z.of_nat n →
  pdts = Z.min (up512 total) (i * 512) → pdes = Z.min total (pdts * 512) →
  ∃ r s', fill_hhdm n R i pdts pdes (up512 (up512 total)) (up512 total) total s = Done r s' ∧
    if r then building s0 s' R (map_to M (B + pdes) (B + total) B) (511 * 513) else exhausted s0 s'.
Proof.
  assert (Hpp : up512 (up512 total) ≤ 255) by (unfold up512; Z.div_mod_to_equations; lia).
  pose proof (up512_le total). pose proof (up512_le (up512 total)).
  induction n as [|n IH]; intros s M i pdts pdes Hb Hi Hn Ep Ee; cbn [fill_hhdm].
  - exists true, s. split; [done|]. refine (building_ext _ _ _ _ _ _ _ _ _ Hb); [|lia]. intros v _. by rewrite map_to_empty by lia.
  - destruct (Z.ltb_spec i (up512 (up512 total))) as [Hlt|Hge]; cbn [negb].
    2: { exists true, s. split; [done|]. refine (building_ext _ _ _ _ _ _ _ _ _ Hb); [|lia]. intros v _. by rewrite map_to_empty by lia. }
    assert (Hmore : i * 512 < up512 total) by by apply up512_lt.
    assert (Hx : index (256 + i)) by (unfold index; lia).
    destruct (new_table_run s0 s R M _ ((256 + i) * 513 + 0 + 1) [] R (256 + i) Hb wf_path_0 ltac:(simpl; lia) Hx eq_refl) as (t & s1 & E1 & H1);
      [|lia|simpl; lia|].
    { destruct (tbl _ _ ([] ++ [256 + i])) eqn:Et; [exfalso|done].
      destruct (b_dom _ _ _ _ _ Hb ([] ++ [256 + i])) as [_ Hk]; [by apply wf_path_1|done|by eexists|simpl in Hk; lia]. }
    rewrite (bind_done _ _ _ _ _ E1). destruct (t =? 0); [by exists false, s1|]. destruct H1 as (Hb1 & Ht1 & Hk1).
    destruct (fill_pdpt_run (256 + i) t 512 s1 M 0 pdts pdes Hb1 Hx Ht1) as (r & s2 & E2 & H2); try lia.
    rewrite (bind_done _ _ _ _ _ E2). destruct r as [[pdts' pdes']|]; [|by exists false, s2]. destruct H2 as (Hd & He & Hb2).
    replace ((256 + i + 1) * 513) with ((256 + (i + 1)) * 513) in Hb2 by lia.
    destruct (IH s2 _ (i + 1) pdts' pdes' Hb2) as (r & s3 & E3 & H3); try lia.
    exists r, s3. split; [done|]. destruct r; [|done]. eapply building_ext; [|done|exact H3]. intros v _. by apply map_to_join; lia.
Qed.
End direct_map.

Lemma fill_kernel_pd_run s0 s R M n j pd :
  building s0 s R M n → 510 ≤ j < 512 → tbl (fw_words s) R [511; j] = Some pd →
  ∃ s', fill_kernel_pd pd j s = Done tt s' ∧ keeps s s' R ∧
    building s0 s' R (map_to M (KP + (j - 510) * 512) (KP + (j + 1 - 510) * 512) KP) n.
Proof.
  intros Hb Hj Ht. set (lo := KP + (j - 510) * 512).
  destruct (kfor_inv 512 0 (λ i, st_entry pd i (large_entry ((j - 510) * 0x40000000 + i * LARGE_PAGE)))
    (λ k t, keeps s t R ∧ building s0 t R (map_to M lo (lo + k) KP) n) s) as (s' & E & Hk & Hb').
  - split; [apply keeps_refl|]. refine (building_ext _ _ _ _ _ _ _ _ _ Hb); [|lia]. intros v _. by rewrite map_to_empty by lia.
  - intros k t Hk (Hkt & Hbt). replace ((j - 510) * 0x40000000 + k * LARGE_PAGE) with ((lo + k - KP) * LARGE_PAGE) by (unfold lo; change LARGE_PAGE with 2097152; lia).
    assert (Hjx : index j) by (unfold index; lia).
    destruct (large_run s0 t R _ n 511 j k pd (lo + k - KP) Hbt ltac:(unfold index; lia) Hjx ltac:(unfold index; lia)) as (t' & E' & Hb' & Hk').
    { apply Hkt; [apply wf_path_2; [unfold index; lia|done]|done]. }
    { unfold lo. lia. }
    exists t'. split; [done|]. split; [by eapply keeps_trans|].
    refine (building_ext _ _ _ _ _ _ _ _ _ Hb'); [|lia]. intros v _. rewrite Z.add_assoc.
    rewrite <- (map_to_last M lo (lo + k)) by lia. by replace (511 * 262144 + j * 512 + k) with (lo + k) by (unfold lo; lia).
  - exists s'. split; [done|]. split; [done|]. refine (building_ext _ _ _ _ _ _ _ _ _ Hb'); [|lia]. intros v _.
    by replace (KP + (j + 1 - 510) * 512) with (lo + (0 + Z.of_nat 512)) by (unfold lo; lia).
Qed.

Lemma fill_kernel_run s0 R pdpt n : ∀ s M j,
  building s0 s R M (511 * 513 + j + 1) → 510 ≤ j → j + Z.of_nat n = 512 → tbl (fw_words s) R [511] = Some pdpt →
  ∃ r s', fill_kernel n pdpt j s = Done r s' ∧
    if r then building s0 s' R (map_to M (KP + (j - 510) * 512) (2 ^ 27) KP) (512 * 513) else exhausted s0 s'.
Proof.
  assert (H511 : index 511) by (unfold index; lia).
  induction n as [|n IH]; intros s M j Hb Hj Hn Ht; cbn [fill_kernel].
  - exists true, s. split; [done|]. refine (building_ext _ _ _ _ _ _ _ _ _ Hb); [|lia]. intros v _. by rewrite map_to_empty by lia.
  - assert (Hjx : index j) by (unfold index; lia).
    destruct (new_table_run s0 s R M _ (511 * 513 + (j + 1) + 1) [511] pdpt j Hb (wf_path_1 _ H511) ltac:(simpl; lia) Hjx Ht) as (t & s1 & E1 & H1);
      [|lia|simpl; lia|].
    { destruct (tbl _ _ ([511] ++ [j])) eqn:Et; [exfalso|done].
      destruct (b_dom _ _ _ _ _ Hb ([511] ++ [j])) as [_ Hk]; [by apply wf_path_2|done|by eexists|simpl in Hk; lia]. }
    rewrite (bind_done _ _ _ _ _ E1). destruct (t =? 0); [by exists false, s1|]. destruct H1 as (Hb1 & Ht1 & Hk1).
    destruct (fill_kernel_pd_run s0 s1 R M _ j t Hb1 ltac:(lia) Ht1) as (s2 & E2 & Hk2 & Hb2). rewrite (bind_done _ _ _ _ _ E2).
    destruct (IH s2 _ (j + 1) Hb2 ltac:(lia) ltac:(lia)) as (r & s3 & E3 & H3).
    { apply Hk2; [by apply wf_path_1|]. apply Hk1; [by apply wf_path_1|done]. }
    exists r, s3. split; [done|]. destruct r; [|done]. refine (building_ext _ _ _ _ _ _ _ _ _ H3); [|lia]. intros v _. apply map_to_join. lia.
Qed.

Lemma map_kernel_run s0 s R M :
  building s0 s R M (511 * 513) →
  ∃ r s', map_kernel_image R s = Done r s' ∧
    if r then building s0 s' R (map_to M KP (2 ^ 27) KP) (512 * 513) else exhausted s0 s'.
Proof.
  intros Hb. assert (H511 : index 511) by (unfold index; lia). unfold map_kernel_image.
  destruct (new_table_run s0 s R M _ (511 * 513 + 510 + 1) [] R 511 Hb wf_path_0 ltac:(simpl; lia) H511 eq_refl) as (t & s1 & E1 & H1);
    [|lia|simpl; lia|].
  { destruct (tbl _ _ ([] ++ [511])) eqn:Et; [exfalso|done].
    destruct (b_dom _ _ _ _ _ Hb ([] ++ [511])) as [_ Hk]; [by apply wf_path_1|done|by eexists|simpl in Hk; lia]. }
  rewrite (bind_done _ _ _ _ _ E1). destruct (t =? 0); [by exists false, s1|]. destruct H1 as (Hb1 & Ht1 & _).
  by apply (fill_kernel_run s0 R t 2).
Qed.
End building.

(** ** The theorem *)

(** Where an address of 48 bits leads: the pages of the image to themselves, the
    direct map to all of physical memory, and the last 2 GiB to the first. *)
Definition boot_map (max_phys image_base image_size va : Z) : option Z :=
  let v := va mod 2 ^ 48 in
  if (image_base / LARGE_PAGE * LARGE_PAGE <=? v) && (v <? pages_up (image_base + image_size) * LARGE_PAGE) then Some v
  else if (2 ^ 47 <=? v) && (v <? 2 ^ 47 + pages_up max_phys * LARGE_PAGE) then Some (v - 2 ^ 47)
  else if 2 ^ 48 - 2 ^ 31 <=? v then Some (v - (2 ^ 48 - 2 ^ 31))
  else None.

(** The same on page numbers. *)
Definition boot_pages (max_phys image_base image_size : Z) : Z → option Z :=
  map_to (map_to (map_to (λ _, None) (image_base / LARGE_PAGE) (pages_up (image_base + image_size)) 0)
    0x4000000 (0x4000000 + pages_up max_phys) 0x4000000) KP (2 ^ 27) KP.

Lemma boot_pages_map max_phys image_base image_size va :
  0 ≤ max_phys ≤ 255 * 2 ^ 39 → 0 ≤ image_base → image_base + image_size ≤ 2 ^ 47 →
  match boot_pages max_phys image_base image_size (lpn va) with
  | Some n => 0 ≤ n < 2 ^ 31 ∧ boot_map max_phys image_base image_size va = Some (n * LARGE_PAGE + va mod LARGE_PAGE)
  | None => boot_map max_phys image_base image_size va = None
  end.
Proof.
  intros Hm Hb Hs.
  assert (Hv : va mod 2 ^ 48 = lpn va * LARGE_PAGE + va mod LARGE_PAGE).
  { unfold lpn. change LARGE_PAGE with 2097152. change (2 ^ 27) with 134217728. change (2 ^ 48) with 281474976710656. Z.div_mod_to_equations. lia. }
  assert (Hn : 0 ≤ lpn va < 134217728) by (apply Z.mod_pos_bound; lia).
  assert (Hr : 0 ≤ va mod LARGE_PAGE < 2097152) by (apply Z.mod_pos_bound; done).
  assert (Hp : 0 ≤ pages_up max_phys ≤ 66846720) by (unfold pages_up; change LARGE_PAGE with 2097152; Z.div_mod_to_equations; lia).
  assert (Hi : pages_up (image_base + image_size) ≤ 67108864) by (unfold pages_up; change LARGE_PAGE with 2097152; Z.div_mod_to_equations; lia).
  assert (Hb0 : 0 ≤ image_base / LARGE_PAGE) by by apply Z.div_pos.
  unfold boot_map, boot_pages, map_to. rewrite Hv. set (b := image_base / LARGE_PAGE) in *. set (e := pages_up (image_base + image_size)) in *.
  set (p := pages_up max_phys) in *. set (w := lpn va) in *. set (r := va mod LARGE_PAGE) in *. change LARGE_PAGE with 2097152 in *.
  change (2 ^ 27) with 134217728. change (2 ^ 47) with (67108864 * 2097152). change (2 ^ 48 - 2 ^ 31) with (134216704 * 2097152).
  repeat match goal with |- context [?x <=? ?y] => destruct (Z.leb_spec x y) | |- context [?x <? ?y] => destruct (Z.ltb_spec x y) end; cbn [andb];
    try (split; [lia|f_equal; lia]); try done; lia.
Qed.

Lemma init_hhdm_run {F} `{!BootPages F} `{!BootLaws F} max_phys image_base image_size (s : F) :
  0 ≤ max_phys ≤ 255 * 2 ^ 39 → 0 ≤ image_base → 0 ≤ image_size → image_base + image_size ≤ 2 ^ 47 →
  ∃ r s', init_hhdm max_phys image_base image_size s = Done r s' ∧
    match r with
    | None => exhausted s s'
    | Some R => building s s' R (boot_pages max_phys image_base image_size) (512 * 513)
    end.
Proof.
  intros Hm Hb Hz Hs. unfold init_hhdm. destruct (root_building s) as (R & s1 & E1 & H1). rewrite (bind_done _ _ _ _ _ E1).
  destruct (R =? 0); [by exists None, s1|].
  assert (Hst : Z.land image_base (bnot64 0x1FFFFF) = image_base / LARGE_PAGE * LARGE_PAGE).
  { change 0x1FFFFF with (Z.ones 21). rewrite bnot64_ones by (unfold U64; lia). change LARGE_PAGE with (2 ^ 21). pose proof (Z.div_mod image_base (2 ^ 21)). lia. }
  rewrite Hst, (wrap64_small (image_base + image_size)) by (unfold U64; lia).
  set (u := image_base / LARGE_PAGE). set (fin := image_base + image_size).
  assert (Hu : 0 ≤ u ≤ pages_up fin ∧ pages_up fin - u < Z.of_nat (S (Z.to_nat ((fin - u * LARGE_PAGE) / LARGE_PAGE + 1)))).
  { unfold u, pages_up, fin. change LARGE_PAGE with 2097152. Z.div_mod_to_equations. lia. }
  destruct (identity_run s R fin _ s1 (λ _, None) u (building_ext _ _ _ _ _ 0 LOWER (λ _ _, eq_refl) ltac:(done) H1) (proj1 Hu) Hs (proj2 Hu))
    as (r2 & s2 & E2 & H2). rewrite (bind_done _ _ _ _ _ E2).
  destruct r2; [|by exists None, s2]. cbn [negb].
  assert (Ht : 0 ≤ pages_up max_phys ≤ 255 * 262144) by (unfold pages_up; change LARGE_PAGE with 2097152; Z.div_mod_to_equations; lia).
  destruct (fill_hhdm_run s R (pages_up max_phys) Ht 256 s2 _ 0 0 0 H2) as (r3 & s3 & E3 & H3);
    [unfold up512; Z.div_mod_to_equations; lia..|].
  assert (Em : map_hhdm R max_phys s2 = Done r3 s3).
  { unfold map_hhdm. rewrite (wrap64_small (max_phys + 0x1FFFFF)), !Z.shiftr_div_pow2 by (unfold U64; lia).
    fold (pages_up max_phys). change ((max_phys + 0x1FFFFF) / 2 ^ 21) with (pages_up max_phys).
    rewrite (wrap64_small (pages_up max_phys + 511)) by (unfold U64; lia). change ((pages_up max_phys + 511) / 2 ^ 9) with (up512 (pages_up max_phys)).
    rewrite wrap64_small by (unfold U64, up512; Z.div_mod_to_equations; lia). exact E3. }
  rewrite (bind_done _ _ _ _ _ Em). destruct r3; [|by exists None, s3]. cbn [negb].
  destruct (map_kernel_run s s3 R _ H3) as (r4 & s4 & E4 & H4). rewrite (bind_done _ _ _ _ _ E4).
  destruct r4; [|by exists None, s4]. exists (Some R), s4. split; [done|]. exact H4.
Qed.

(** C18: [init_hhdm] returns; it fails only when the firmware has no page left, and
    otherwise the tables are well formed, consist of pages the firmware gave out, and
    translate every address exactly as [boot_map] says.  No memory in use changes. *)
Theorem init_hhdm_spec {F} `{!BootPages F} `{!BootLaws F} max_phys image_base image_size (s : F) :
  0 ≤ max_phys ≤ 255 * 2 ^ 39 → 0 ≤ image_base → 0 ≤ image_size → image_base + image_size ≤ 2 ^ 47 →
  ∃ r s', init_hhdm max_phys image_base image_size s = Done r s' ∧
    (∀ a, ¬ fw_free s (a / PAGE_SIZE) → fw_words s' !! a = fw_words s !! a) ∧
    match r with
    | None => ∀ f, ¬ fw_free s' f
    | Some R => pt_wf (fw_words s') R (λ x, fw_free s' x ∨ ¬ fw_free s x) ∧
        ∀ va, translate (fw_words s') R va = boot_map max_phys image_base image_size va
    end.
Proof.
  intros Hm Hb Hz Hs. destruct (init_hhdm_run max_phys image_base image_size s Hm Hb Hz Hs) as (r & s' & E & H).
  exists r, s'. split; [done|]. destruct r as [R|]; [|by destruct H]. split; [apply H|]. split; [apply H|].
  intros va. unfold translate. rewrite (b_leaf _ _ _ _ _ H). pose proof (boot_pages_map max_phys image_base image_size va Hm Hb Hs) as Hv.
  destruct (boot_pages max_phys image_base image_size (lpn va)) as [n|]; [|done]. destruct Hv as (Hn & ->). cbn.
  destruct (large_entry_spec n Hn) as (_ & _ & ->). f_equal. change 0x1FFFFF with (Z.ones 21). by rewrite Z.land_ones.
Qed.

(** ** A small machine *)

(** Its firmware hands out the frames from [bf_next] to [bf_last]. *)
Record bump_fw := BumpFw { bf_words : gmap Z Z; bf_next : Z; bf_last : Z }.
#[export] Instance bump_pages : BootPages bump_fw := {|
  fw_words := bf_words;
  fw_set_words m s := BumpFw m (bf_next s) (bf_last s);
  fw_alloc_page _ s :=
    let f := Z.max 1 (bf_next s) in
    if f <? Z.min (bf_last s) (2 ^ 20) then Done (Some (f * PAGE_SIZE)) (BumpFw (bf_words s) (f + 1) (bf_last s)) else Done None s |}.
#[export, refine] Instance bump_laws : BootLaws bump_fw := {|
  fw_free s f := Z.max 1 (bf_next s) ≤ f < Z.min (bf_last s) (2 ^ 20) |}.
Proof.
  - done.
  - done.
  - intros [m a b]. simpl. destruct (Z.ltb_spec (Z.max 1 a) (Z.min b (2 ^ 20))).
    + eexists _, _. split; [reflexivity|]. split; [done|]. simpl. split; [intros x; lia|]. eexists. split; [done|]. lia.
    + eexists _, _. split; [reflexivity|]. split; [done|]. simpl. split; [done|]. lia.
Defined.

(** 16 MiB of memory, the loader at 4 MiB. *)
Definition small_fw : bump_fw := BumpFw ∅ 16 32.

Lemma init_hhdm_spec_witness : ∃ R s',
  init_hhdm 0x1000000 0x400000 0x180000 small_fw = Done (Some R) s' ∧
  ∀ va, translate (fw_words s') R va = boot_map 0x1000000 0x400000 0x180000 va.
Proof.
  destruct (init_hhdm_spec 0x1000000 0x400000 0x180000 small_fw) as (r & s' & E & _ & H);
    [split; vm_compute; congruence|vm_compute; congruence|vm_compute; congruence|vm_compute; congruence|].
  assert (Hr : value_of (init_hhdm 0x1000000 0x400000 0x180000 small_fw) = Some (Some 0x10000)) by (vm_compute; reflexivity).
  rewrite E in Hr. injection Hr as ->. exists 0x10000, s'. split; [done|]. apply H.
Defined.

Example boot_map_values :
  boot_map 0x1000000 0x400000 0x180000 0x401234 = Some 0x401234 ∧
  boot_map 0x1000000 0x400000 0x180000 0xFFFF800000ABCDEF = Some 0xABCDEF ∧
  boot_map 0x1000000 0x400000 0x180000 0xFFFFFFFF80100010 = Some 0x100010 ∧
  boot_map 0x1000000 0x400000 0x180000 0xFFFF800001000000 = None ∧
  boot_map 0x1000000 0x400000 0x180000 0x600000 = None.
Proof. by vm_compute. Qed.
