(* ===== verification/Boot.v ===== *)
(** * The boot loader (boot/main.c, boot/loader.c)

    A UEFI program.  The services of the firmware, which is not part of the
    repository, are the interface [Firmware]; what the loader does with their
    results is modelled. *)

From stdpp Require Export strings.
From S2P Require Export Cpio Elf Hhdm.
#[local] Open Scope Z_scope.

(** The status codes the loader returns or tests for, and all others. *)
Inductive efi_status :=
| EFI_SUCCESS | EFI_LOAD_ERROR | EFI_INVALID_PARAMETER | EFI_BUFFER_TOO_SMALL | EFI_OUT_OF_RESOURCES | EFI_NOT_FOUND
| EFI_OTHER (code : Z).
#[export] Instance efi_status_eq_dec : EqDecision efi_status.
Proof. solve_decision. Defined.
(** Errors have the top bit set. *)
Definition EFI_ERROR (st : efi_status) : bool :=
  match st with EFI_SUCCESS => false | EFI_OTHER code => bit 63 <=? code | _ => true end.

(** A memory descriptor, and an entry of the configuration table with its GUID. *)
Record efi_descriptor := EfiDescriptor { d_type : Z; d_start : Z; d_pages : Z; d_attribute : Z }.
Record efi_guid := EfiGuid { Data1 : Z; Data2 : Z; Data3 : Z; Data4 : Z }.
Record efi_config := EfiConfig { VendorGuid : efi_guid; VendorTable : Z }.
(** What the firmware says about the screen. *)
Record efi_mode := EfiMode { FrameBufferBase : Z; HorizontalResolution : Z; VerticalResolution : Z; PixelsPerScanLine : Z }.

(** The services.  A service with an out-parameter returns its status and, when
    there is one, the value. *)
Class Firmware (F : Type) `{!BootPages F} := {
  fw_bytes : F → bmem;
  fw_set_bytes : bmem → F → F;
  (** the loaded image: its device, base and size *)
  fw_loaded_image : K F (efi_status * (Z * Z * Z));
  fw_file_system : Z → K F (efi_status * Z);
  fw_open_volume : Z → K F (efi_status * Z);
  fw_open : Z → string → K F (efi_status * Z);
  fw_close : Z → K F unit;
  fw_set_position : Z → Z → K F unit;
  fw_get_position : Z → K F Z;
  fw_read : Z → Z → Z → K F (efi_status * Z);
  fw_allocate_pool : Z → K F (efi_status * Z);
  fw_free_pool : Z → K F unit;
  (** [AllocatePages(AllocateAddress, ...)]: a number of pages at an address *)
  fw_allocate_at : Z → Z → K F efi_status;
  (** [GetMemoryMap] without a buffer, and with one of a size: the size of a
      descriptor, the descriptors and the key *)
  fw_map_size : K F (efi_status * (Z * Z));
  fw_memory_map : Z → Z → K F (efi_status * (list efi_descriptor * Z));
  fw_locate_gop : K F (efi_status * option efi_mode);
  fw_config_tables : F → list efi_config;
  fw_exit_boot_services : Z → K F efi_status;
}.

(** ** The memory map (main.c) *)

Definition MMAP_TYPE_USABLE : Z := 1.
Definition MMAP_TYPE_RESERVED : Z := 2.
Definition MMAP_TYPE_ACPI_RECLAIMABLE : Z := 3.
Definition MMAP_TYPE_ACPI_NVS : Z := 4.
Definition MMAP_TYPE_BAD_MEM : Z := 5.
Definition MMAP_TYPE_BOOTLOADER_RECLAIMABLE : Z := 6.

Section types.
(** The firmware's numbers of the memory types. *)
Variable EfiLoaderCode EfiLoaderData EfiBootServicesCode EfiBootServicesData EfiConventionalMemory EfiUnusableMemory
  EfiACPIReclaimMemory EfiACPIMemoryNVS : Z.

Definition convert_mmap_type (uefi_type : Z) : Z :=
  if uefi_type =? EfiConventionalMemory then MMAP_TYPE_USABLE
  else if (uefi_type =? EfiLoaderCode) || (uefi_type =? EfiLoaderData) || (uefi_type =? EfiBootServicesCode)
          || (uefi_type =? EfiBootServicesData) then MMAP_TYPE_BOOTLOADER_RECLAIMABLE
  else if uefi_type =? EfiACPIReclaimMemory then MMAP_TYPE_ACPI_RECLAIMABLE
  else if uefi_type =? EfiACPIMemoryNVS then MMAP_TYPE_ACPI_NVS
  else if uefi_type =? EfiUnusableMemory then MMAP_TYPE_BAD_MEM
  else MMAP_TYPE_RESERVED.

Record mmap_entry := MmapEntry { e_phys_start : Z; e_length : Z; e_mtype : Z; e_mflags : Z }.
(** [mmap_info_t]: the array and the address it is at. *)
Record mmap_info := MmapInfo { total_usable : Z; max_phys_addr : Z; mm_entries : Z; mm_list : list mmap_entry }.

Definition size_bytes (d : efi_descriptor) : Z := wrap64 (d_pages d * 4096).
Definition convert_entry (d : efi_descriptor) : mmap_entry :=
  MmapEntry (d_start d) (size_bytes d) (convert_mmap_type (d_type d)) (wrap32 (d_attribute d)).
(** The loop over the descriptors: the highest end and the usable bytes so far. *)
Fixpoint sum_map (ds : list efi_descriptor) (max_phys usable : Z) : Z * Z :=
  match ds with
  | [] => (max_phys, usable)
  | d :: ds' =>
      let fin := wrap64 (d_start d + size_bytes d) in
      sum_map ds' (if max_phys <? fin then fin else max_phys)
        (if d_type d =? EfiConventionalMemory then wrap64 (usable + size_bytes d) else usable)
  end.

(** [sizeof(mmap_entry_t)]. *)
Definition SIZEOF_MMAP_ENTRY : Z := 24.

Section boot.
Context {F : Type} `{!BootPages F, !Firmware F}.
Variable lit : string → Z.

Definition on_bytes {A} : K bmem A → K F A := klift fw_bytes fw_set_bytes.

(** The status, and the map with its key. *)
Definition init_mmap : K F (efi_status * option (mmap_info * Z)) :=
  r ← fw_map_size;
  let '(st, (map_size, desc_size)) := r in
  if negb (bool_decide (st = EFI_BUFFER_TOO_SMALL)) then mret (st, None) else
  let map_size := wrap64 (map_size + 16 * desc_size) in
  if desc_size =? 0 then kundef else
  let total_entries := map_size / desc_size in
  r ← fw_allocate_pool map_size;
  let '(st, map) := r in
  if EFI_ERROR st then mret (st, None) else
  r ← fw_allocate_pool (wrap64 (SIZEOF_MMAP_ENTRY * total_entries));
  let '(st, entries) := r in
  if EFI_ERROR st then fw_free_pool map;; mret (st, None) else
  r ← fw_memory_map map_size map;
  let '(st, (ds, key)) := r in
  if negb (bool_decide (st = EFI_SUCCESS)) then fw_free_pool map;; mret (st, None) else
  let '(max_phys, usable) := sum_map ds 0 0 in
  mret (EFI_SUCCESS, Some (MmapInfo usable max_phys entries (convert_entry <$> ds), key)).

Record framebuffer := Framebuffer { fb_addr : Z; fb_w : Z; fb_h : Z; fb_p : Z }.
Definition init_gop : K F (efi_status * option framebuffer) :=
  r ← fw_locate_gop;
  let '(st, gop) := r in
  match gop with
  | None => mret (st, None)
  | Some m =>
      if EFI_ERROR st then mret (st, None) else
      mret (EFI_SUCCESS, Some (Framebuffer (FrameBufferBase m) (wrap16 (HorizontalResolution m)) (wrap16 (VerticalResolution m))
                                 (wrap16 (PixelsPerScanLine m * 4))))
  end.

Definition get_me : K F (efi_status * (Z * Z)) :=
  r ← fw_loaded_image;
  let '(st, (_, base, size)) := r in
  if EFI_ERROR st then mret (st, (0, 0)) else mret (EFI_SUCCESS, (base, size)).

(** The first table with the GUID; [acpi_guid] is [ACPI_20_TABLE_GUID]. *)
Definition same_guid (a b : efi_guid) : bool :=
  (Data1 a =? Data1 b) && (Data2 a =? Data2 b) && (Data3 a =? Data3 b) && (Data4 a =? Data4 b).
Definition init_acpi (acpi_guid : efi_guid) : K F (efi_status * Z) :=
  tables ← kget fw_config_tables;
  let rsdp := match filter (λ t, same_guid (VendorGuid t) acpi_guid = true) tables with t :: _ => VendorTable t | [] => 0 end in
  mret (if rsdp =? 0 then (EFI_NOT_FOUND, 0) else (EFI_SUCCESS, rsdp)).

(** ** Loading (loader.c) *)

Record kernel_files := KernelFiles {
  kernel_src : Z; kernel_size : Z; f_init_addr : Z; f_init_size : Z; f_initrd_addr : Z; f_initrd_size : Z }.

Definition extract (base : Z) (name : string) : K F (efi_status * (Z * Z)) :=
  r ← on_bytes (efi_cpio_extract (lit "070701") (lit "TRAILER!!!") base (lit name));
  mret (match r with
        | inl true => (EFI_LOAD_ERROR, (0, 0))
        | inl false => (EFI_NOT_FOUND, (0, 0))
        | inr x => (EFI_SUCCESS, x)
        end).

(** The archive as a whole in a new buffer; the files and the volume are closed. *)
Definition read_archive (root file : Z) : K F (efi_status * Z) :=
  fw_set_position file 0xFFFFFFFFFFFFFFFF;;
  file_size ← fw_get_position file;
  fw_set_position file 0;;
  if file_size =? 0 then fw_close file;; fw_close root;; mret (EFI_LOAD_ERROR, 0) else
  r ← fw_allocate_pool file_size;
  let '(st, base) := r in
  if EFI_ERROR st then fw_close file;; fw_close root;; mret (st, 0) else
  r ← fw_read file file_size base;
  let '(st, read_bytes) := r in
  fw_close file;;
  fw_close root;;
  if EFI_ERROR st || negb (read_bytes =? file_size) then fw_free_pool base;; mret (EFI_LOAD_ERROR, 0) else
  mret (EFI_SUCCESS, base).

(** The kernel and the initial archive must be there; [init.elf] may be missing. *)
Definition find_files (bootbin_base : Z) : K F (efi_status * option kernel_files) :=
  r ← extract bootbin_base "kernel.elf";
  let '(st, (kb, ks)) := r in
  if EFI_ERROR st then fw_free_pool bootbin_base;; mret (st, None) else
  r ← extract bootbin_base "initrd.cpio";
  let '(st, (rb, rs)) := r in
  if EFI_ERROR st then fw_free_pool bootbin_base;; mret (st, None) else
  r ← extract rb "init.elf";
  let '(st, (ib, isz)) := r in
  let '(ib, isz) := if EFI_ERROR st then (0, 0) else (ib, isz) in
  mret (EFI_SUCCESS, Some (KernelFiles kb ks ib isz rb rs)).

Definition load_bootbin : K F (efi_status * option kernel_files) :=
  r ← fw_loaded_image;
  let '(st, (device, _, _)) := r in
  if EFI_ERROR st then mret (st, None) else
  r ← fw_file_system device;
  let '(st, fs) := r in
  if EFI_ERROR st then mret (st, None) else
  r ← fw_open_volume fs;
  let '(st, root) := r in
  if EFI_ERROR st then mret (st, None) else
  r ← fw_open root "bootbin.cpio";
  let '(st, file) := r in
  if EFI_ERROR st then fw_close root;; mret (st, None) else
  r ← read_archive root file;
  let '(st, base) := r in
  if EFI_ERROR st then mret (st, None) else find_files base.

(** The body of the loop of [load_elf_kernel_uefi] for a loadable segment. *)
Definition load_kernel_segment (src vaddr offset filesz memsz : Z) : K F efi_status :=
  let phys_start := wrap64 (vaddr - 0xFFFFFFFF80000000) in
  let page_start := Z.land phys_start (bnot64 0xFFF) in
  let page_end := Z.land (wrap64 (wrap64 (phys_start + memsz) + 0xFFF)) (bnot64 0xFFF) in
  let num_pages := wrap64 (page_end - page_start) / 4096 in
  st ← fw_allocate_at num_pages page_start;
  if EFI_ERROR st then mret st else
  (if 0 <? filesz then on_bytes (memcpy phys_start (src + offset) filesz);; mret tt else mret tt);;
  (if filesz <? memsz then on_bytes (memset (phys_start + filesz) 0 (memsz - filesz));; mret tt else mret tt);;
  mret EFI_SUCCESS.

Fixpoint load_kernel_segments (n : nat) (src phdr : Z) : K F efi_status :=
  match n with
  | O => mret EFI_SUCCESS
  | S n' =>
      ty ← on_bytes (ld 4 phdr);
      if negb (ty =? PT_LOAD) then load_kernel_segments n' src (phdr + SIZEOF_PHDR) else
      offset ← on_bytes (ld 8 (phdr + 8));
      vaddr ← on_bytes (ld 8 (phdr + 16));
      filesz ← on_bytes (ld 8 (phdr + 32));
      memsz ← on_bytes (ld 8 (phdr + 40));
      st ← load_kernel_segment src vaddr offset filesz memsz;
      if EFI_ERROR st then mret st else load_kernel_segments n' src (phdr + SIZEOF_PHDR)
  end.

(** The status and the entry point. *)
Definition load_elf_kernel_uefi (src : Z) : K F (efi_status * Z) :=
  b0 ← on_bytes (rdb src); b1 ← on_bytes (rdb (src + 1)); b2 ← on_bytes (rdb (src + 2)); b3 ← on_bytes (rdb (src + 3));
  if negb ((b0 =? 0x7F) && (b1 =? 69) && (b2 =? 76) && (b3 =? 70)) then mret (EFI_INVALID_PARAMETER, 0) else
  off ← on_bytes (ld 8 (src + 32));
  n ← on_bytes (ld 2 (src + 56));
  st ← load_kernel_segments (Z.to_nat n) src (src + off);
  if EFI_ERROR st then mret (st, 0) else
  entry ← on_bytes (ld 8 (src + 24));
  mret (EFI_SUCCESS, entry).

(** ** The whole program (main.c) *)

(** What the kernel is entered with: the entry point, the root table, and the
    structure, whose pointers are in the direct map. *)
Record handover := Handover {
  h_entry : Z; h_root : Z; h_fb : framebuffer; h_memory : mmap_info; h_files : kernel_files; h_rsdp : Z }.

Definition hhdm (a : Z) : Z := wrap64 (0xFFFF800000000000 + a).
Definition hand_over (entry root : Z) (fb : framebuffer) (mm : mmap_info) (kf : kernel_files) (rsdp : Z) : handover :=
  Handover entry root (Framebuffer (hhdm (fb_addr fb)) (fb_w fb) (fb_h fb) (fb_p fb))
    (MmapInfo (total_usable mm) (max_phys_addr mm) (hhdm (mm_entries mm)) (mm_list mm))
    (KernelFiles (hhdm (kernel_src kf)) (kernel_size kf) (hhdm (f_init_addr kf)) (f_init_size kf)
       (hhdm (f_initrd_addr kf)) (f_initrd_size kf))
    (hhdm rsdp).

(** [init_mmap] into [g_boot_info.memory] and [map_key], which it leaves alone when it
    does not succeed. *)
Definition refresh (cur : mmap_info * Z) : K F (efi_status * (mmap_info * Z)) :=
  r ← init_mmap; mret (r.1, default cur r.2).

(** The boot services end with the key of the newest map; when it is stale, once
    more, whatever the second [init_mmap] says. *)
Definition leave_firmware (cur : mmap_info * Z) : K F (option mmap_info) :=
  st ← fw_exit_boot_services cur.2;
  if negb (EFI_ERROR st) then mret (Some cur.1) else
  r ← refresh cur;
  st ← fw_exit_boot_services (r.2).2;
  mret (if EFI_ERROR st then None else Some (r.2).1).

(** [None] is [return 1], before the jump. *)
Definition boot_main (acpi_guid : efi_guid) : K F (option handover) :=
  r ← get_me;
  let '(st, (image_base, image_size)) := r in
  if EFI_ERROR st then mret None else
  r ← init_gop;
  let '(st, fb) := r in
  if EFI_ERROR st then mret None else
  r ← init_acpi acpi_guid;
  let '(st, rsdp) := r in
  if EFI_ERROR st then mret None else
  r ← refresh (MmapInfo 0 0 0 [], 0);
  let '(st, mm) := r in
  if EFI_ERROR st then mret None else
  r ← load_bootbin;
  let '(st, kf) := r in
  match kf with
  | None => mret None
  | Some kf =>
      r ← load_elf_kernel_uefi (kernel_src kf);
      let '(st, entry) := r in
      if EFI_ERROR st then mret None else
      root ← init_hhdm (max_phys_addr mm.1) image_base image_size;
      match root with
      | None => mret None
      | Some root =>
          r ← refresh mm;
          let '(st, mm) := r in
          if EFI_ERROR st then mret None else
          m ← leave_firmware mm;
          mret ((λ mm, hand_over entry root (default (Framebuffer 0 0 0 0) fb) mm kf rsdp) <$> m)
      end
  end.
End boot.
End types.
