(* ===== verification/Pager.v ===== *)
(** * The root server (user/main.c, user/pager.c, user/console.c, user/elf.c)

    The server runs in user mode: it reads and writes its own memory, and
    everything else it asks of the kernel.  The interface [UserWorld] is what it
    sees of the world: the bytes of its address space and the effect of a system
    call (the functions of user/include/syscall.h). *)

From stdpp Require Export strings.
From S2P Require Export Cpio Vma Elf Syscall.
#[local] Open Scope Z_scope.

Class UserWorld (W : Type) := {
  (** the bytes that are mapped, which system calls change *)
  u_bytes : W → bmem;
  u_set_bytes : bmem → W → W;
  (** [syscall0] .. [syscall5]: the number and the arguments that are passed *)
  usyscall : Z → list Z → K W Z;
  (** [koharu_ipc]: the packed target, the words sent and the words received *)
  uipc : Z → list Z → K W (Z * list Z);
  u_bytes_set m w : u_bytes (u_set_bytes m w) = m;
  u_set_same w : u_set_bytes (u_bytes w) w = w;
}.

(** The constants of user/include/root.h. *)
Definition ROOT_BOOT_VA : Z := 0x700010001000.
Definition ROOT_POOL_VA : Z := 0x700020000000.
Definition SHARED_VA : Z := 0x700040000000.
Definition SCRATCH_VA : Z := 0x710000000000.
Definition UTBC_VA : Z := 0x7ffffffde000.
Definition CHILD_STACK_SIZE : Z := 128 * 1024.
Definition CHILD_STACK_TOP : Z := 0x7ffffffff000.
Definition CHILD_HEAP_VA : Z := 0x700000000000.
Definition KOHARU_REQ_ALLOC : Z := 1.
Definition KOHARU_REQ_READY : Z := 2.
Definition KOHARU_REQ_MAP : Z := 3.
Definition KOHARU_REQ_EXIT : Z := 4.
Definition VMA_CODE : Z := 1.
Definition VMA_DATA : Z := 2.
Definition VMA_HEAP : Z := 4.
Definition VMA_STACK : Z := 3.
(** [root_boot]: the offsets of its fields. *)
Definition BOOT_SELF_TID : Z := 0.
Definition BOOT_INITRD_ADDR : Z := 22.
Definition BOOT_INITRD_SIZE : Z := 30.
Definition BOOT_POOL_BYTES : Z := 40.
Definition BOOT_FRAME_COUNT : Z := 48.

Definition IPC_PACK (op target : Z) : Z := Z.lor (wrap64 (Z.shiftl op 32)) target.

(** The static variables of pager.c and vma.c, and the world. *)
Record pager (W : Type) := PagerState {
  self_tid : Z; pool : Z; pool_bits : Z; pool_bit : Z; heap : Z; child_vmas : vmas; world : W }.
Arguments PagerState {W} _ _ _ _ _ _ _.
Arguments self_tid {W} _.
Arguments pool {W} _.
Arguments pool_bits {W} _.
Arguments pool_bit {W} _.
Arguments heap {W} _.
Arguments child_vmas {W} _.
Arguments world {W} _.

(** [elf_check] of user/elf.c on the memory of the server; the literal is at
    [magic]. *)
Definition user_elf_check (magic elf size : Z) : K bmem Z :=
  if size <? SIZEOF_EHDR then mret (-1) else
  d ← memcmp elf magic 4;
  if negb (d =? 0) then mret (-1) else
  c ← rdb (elf + 4);
  if negb (c =? ELFCLASS64) then mret (-1) else
  c ← rdb (elf + 5);
  if negb (c =? ELFDATA2LSB) then mret (-1) else
  ty ← ld 2 (elf + 16);
  if negb (ty =? ET_EXEC) then mret (-1) else
  ma ← ld 2 (elf + 18);
  if negb (ma =? EM_X86_64) then mret (-1) else
  es ← ld 2 (elf + 54);
  if negb (es =? SIZEOF_PHDR) then mret (-1) else
  off ← ld 8 (elf + 32);
  n ← ld 2 (elf + 56);
  if size <? wrap64 (off + n * SIZEOF_PHDR) then mret (-1) else mret 0.

(** The fields of the program header at [a] that are used. *)
Definition ld_phdr (a : Z) : K bmem phdr :=
  ty ← ld 4 a; fl ← ld 4 (a + 4); off ← ld 8 (a + 8); va ← ld 8 (a + 16); fs ← ld 8 (a + 32); ms ← ld 8 (a + 40);
  mret (Phdr ty fl off va fs ms).

Section server.
Context {W : Type} `{!UserWorld W}.
Implicit Types (s : pager W).

(** The addresses of the string literals, of [vma_pool] and of the buffers of
    [log_hex] and [log_ulong] on the stack. *)
Variable lit : string → Z.
Variable vma_pool hex_buf dec_buf : Z.

Definition set_pool_bit b s := PagerState (self_tid s) (pool s) (pool_bits s) b (heap s) (child_vmas s) (world s).
Definition set_heap h s := PagerState (self_tid s) (pool s) (pool_bits s) (pool_bit s) h (child_vmas s) (world s).
Definition set_world (w : W) s := PagerState (self_tid s) (pool s) (pool_bits s) (pool_bit s) (heap s) (child_vmas s) w.
Definition on_vmas {A} : K vmas A → K (pager W) A :=
  klift child_vmas (λ v s, PagerState (self_tid s) (pool s) (pool_bits s) (pool_bit s) (heap s) v (world s)).
Definition on_world {A} : K W A → K (pager W) A := klift world set_world.
Definition on_mem {A} : K bmem A → K (pager W) A :=
  klift (λ s, u_bytes (world s)) (λ m s, set_world (u_set_bytes m (world s)) s).
Definition syscall (num : Z) (args : list Z) : K (pager W) Z := on_world (usyscall num args).

(** ** Logging (user/console.c) *)

Definition log_str (p : Z) : K (pager W) unit :=
  n ← on_mem (strlen p);
  syscall SYS_WRITE [1; p; n];;
  mret tt.
Definition log (msg : string) : K (pager W) unit := log_str (lit msg).
Definition nl : string := String (Ascii.ascii_of_nat 10) EmptyString.

(** [for (i = 15; i >= 0; i--)]. *)
Fixpoint hex_digits (n : nat) (v : Z) : K bmem unit :=
  match n with
  | O => mret tt
  | S n' =>
      let d := Z.land v 0xF in
      wrb (hex_buf + Z.of_nat n') (if d <? 10 then 48 + d else 97 + d - 10);;
      hex_digits n' (Z.shiftr v 4)
  end.
Definition log_hex (v : Z) : K (pager W) unit :=
  on_mem (hex_digits 16 v);;
  log "0x";;
  syscall SYS_WRITE [1; hex_buf; 16];;
  mret tt.

(** [do ... while (v > 0)], the final [i]; 20 digits are enough for 64 bits, the
    buffer ends at index 20. *)
Fixpoint dec_digits (fuel : nat) (i v : Z) : K bmem Z :=
  match fuel with
  | O => kspin
  | S fuel' =>
      wrb (dec_buf + i) (48 + v mod 10);;
      if 0 <? v / 10 then dec_digits fuel' (i - 1) (v / 10) else mret (i - 1)
  end.
Definition log_ulong (v : Z) : K (pager W) unit :=
  on_mem (wrb (dec_buf + 20) 0);;
  i ← on_mem (dec_digits 20 19 v);
  log_str (dec_buf + i + 1).

(** [vma_dump] of user/vma.c. *)
Fixpoint vma_dump_from (fuel : nat) (v : Z) : K (pager W) unit :=
  match fuel with
  | O => kspin
  | S fuel' =>
      if v =? 0 then mret tt else
      x ← on_vmas (the_vma v);
      log "[vma] ";; log_hex (v_start x);; log " - ";; log_hex (v_end x);;
      log " prot=";; log_ulong (v_prot x);; log " kind=";; log_ulong (v_kind x);;
      log nl;;
      vma_dump_from fuel' (v_next x)
  end.
Definition vma_dump : K (pager W) unit :=
  fuel ← kget (λ s, S (size (vm_pool (child_vmas s))));
  v ← kget (λ s, vs_first (child_vmas s));
  vma_dump_from fuel v.

(** ** Frames and pages (user/pager.c) *)

Definition pager_init (tid frame_count : Z) : K (pager W) unit :=
  kmodify (λ s, PagerState tid ROOT_POOL_VA frame_count 0 (heap s) (child_vmas s) (world s));;
  on_vmas (vma_set_init vma_pool).

(** [while (scanned < pool_bits)]: [n] is [pool_bits - scanned]. *)
Fixpoint pool_scan (n : nat) : K (pager W) (option Z) :=
  match n with
  | O => mret None
  | S n' =>
      bits ← kget pool_bits;
      b ← kget pool_bit;
      let b := if bits <=? b then 0 else b in
      p ← kget pool;
      byte ← on_mem (rdb (p + b / 8));
      kmodify (set_pool_bit (wrap64 (b + 1)));;
      if has_flag byte (bit (b mod 8)) then mret (Some b) else pool_scan n'
  end.
(** [Some pfn] is [return 0] with [*pfn_out = pfn], [None] is [return -1]. *)
Definition pool_alloc : K (pager W) (option Z) :=
  bits ← kget pool_bits; pool_scan (Z.to_nat bits).

Definition map_page (target va phys prot : Z) : K (pager W) Z :=
  r ← syscall SYS_MAP [target; va; phys; PAGE_SIZE; prot];
  mret (if r =? 0 then 0 else -1).

Definition unmap_scratch : K (pager W) Z :=
  self ← kget self_tid; syscall SYS_UNMAP [self; SCRATCH_VA; PAGE_SIZE].
Definition map_self (va phys : Z) : K (pager W) Z :=
  self ← kget self_tid; map_page self va phys (Z.lor PROT_READ PROT_WRITE).

Definition frame_zero (phys : Z) : K (pager W) Z :=
  err ← map_self SCRATCH_VA phys;
  if negb (err =? 0) then mret (-1) else
  on_mem (memset SCRATCH_VA 0 PAGE_SIZE);;
  unmap_scratch;;
  mret 0.

(** A frame of the pool, zeroed: how every new page starts.  [None] is the
    caller's [return -1]. *)
Definition zeroed_frame : K (pager W) (option Z) :=
  pfn ← pool_alloc;
  match pfn with
  | None => mret None
  | Some pfn =>
      let phys := wrap64 (Z.shiftl pfn 12) in
      err ← frame_zero phys;
      mret (if negb (err =? 0) then None else Some phys)
  end.

Definition user_prot (ph : phdr) : Z :=
  let f := 0 in
  let f := if has_flag (p_flags ph) PF_R then Z.lor f PROT_READ else f in
  let f := if has_flag (p_flags ph) PF_W then Z.lor f PROT_WRITE else f in
  if has_flag (p_flags ph) PF_X then Z.lor f PROT_EXEC else f.

(** The bytes of the file that belong to the page at [va], through the scratch
    mapping. *)
Definition copy_page (elf : Z) (ph : phdr) (va : Z) : K (pager W) unit :=
  let f_lo := clip_lo va (p_vaddr ph) in
  let f_hi := clip_hi va (file_end ph) in
  if f_lo <? f_hi then
    on_mem (memcpy (SCRATCH_VA + (f_lo - va)) (elf + p_offset ph + (f_lo - p_vaddr ph)) (f_hi - f_lo));;
    mret tt
  else mret tt.

(** [for (; va < va_end; va += PAGE_SIZE)]; both are multiples of the page size,
    [fuel] is the number of pages. *)
Fixpoint segment_pages (fuel : nat) (child elf : Z) (ph : phdr) (va va_end : Z) : K (pager W) Z :=
  match fuel with
  | O => kspin
  | S fuel' =>
      if negb (va <? va_end) then mret 0 else
      f ← zeroed_frame;
      match f with
      | None => mret (-1)
      | Some phys =>
          err ← map_self SCRATCH_VA phys;
          if negb (err =? 0) then mret (-1) else
          copy_page elf ph va;;
          unmap_scratch;;
          err ← map_page child va phys (user_prot ph);
          if negb (err =? 0) then mret (-1) else
          segment_pages fuel' child elf ph (wrap64 (va + PAGE_SIZE)) va_end
      end
  end.

Definition segment_start (ph : phdr) : Z := Z.land (p_vaddr ph) (bnot64 (PAGE_SIZE - 1)).
Definition segment_end (ph : phdr) : Z :=
  Z.land (wrap64 (wrap64 (wrap64 (p_vaddr ph + p_memsz ph) + PAGE_SIZE) - 1)) (bnot64 (PAGE_SIZE - 1)).

Definition load_segment (child elf : Z) (ph : phdr) : K (pager W) Z :=
  let va_start := segment_start ph in
  let va_end := segment_end ph in
  err ← segment_pages (S (Z.to_nat ((va_end - va_start) / PAGE_SIZE))) child elf ph va_start va_end;
  if negb (err =? 0) then mret (-1) else
  on_vmas (vma_insert va_start va_end (user_prot ph) (if has_flag (p_flags ph) PF_X then VMA_CODE else VMA_DATA)).

Definition map_shared (child : Z) : K (pager W) Z :=
  f ← zeroed_frame;
  match f with
  | None => mret (-1)
  | Some phys =>
      err ← map_self SHARED_VA phys;
      if negb (err =? 0) then mret (-1) else
      err ← map_page child SHARED_VA phys (Z.lor PROT_READ PROT_WRITE);
      mret (if negb (err =? 0) then -1 else 0)
  end.

Definition map_utcb (child child_tid pager_tid : Z) : K (pager W) Z :=
  f ← zeroed_frame;
  match f with
  | None => mret (-1)
  | Some phys =>
      err ← map_page child UTBC_VA phys (Z.lor PROT_READ PROT_WRITE);
      if negb (err =? 0) then mret (-1) else
      err ← map_self SCRATCH_VA phys;
      if negb (err =? 0) then mret (-1) else
      on_mem (st 8 SCRATCH_VA child_tid);;
      on_mem (st 8 (SCRATCH_VA + 8) pager_tid);;
      unmap_scratch;;
      mret 0
  end.

(** [n] pages of the child from [va] on, each with a frame of its own: the loops
    of [map_stack] and of the requests for memory in [serve]. *)
Fixpoint fresh_pages (n : nat) (child va : Z) : K (pager W) Z :=
  match n with
  | O => mret 0
  | S n' =>
      f ← zeroed_frame;
      match f with
      | None => mret (-1)
      | Some phys =>
          err ← map_page child va phys (Z.lor PROT_READ PROT_WRITE);
          if negb (err =? 0) then mret (-1) else
          fresh_pages n' child (wrap64 (va + PAGE_SIZE))
      end
  end.

Definition map_stack (child : Z) : K (pager W) Z :=
  let bottom := CHILD_STACK_TOP - CHILD_STACK_SIZE in
  err ← fresh_pages (Z.to_nat (CHILD_STACK_SIZE / PAGE_SIZE)) child bottom;
  if negb (err =? 0) then mret (-1) else
  on_vmas (vma_insert bottom CHILD_STACK_TOP (Z.lor PROT_READ PROT_WRITE) VMA_STACK).

(** ** The server loop *)

(** A request for [len] bytes: the word of the reply, the address of the new
    pages or [0].  The reply is the address even when the range could not be
    entered into the table, as in the code. *)
Definition serve_alloc (child len : Z) : K (pager W) Z :=
  let pages := Z.shiftr (wrap64 (wrap64 (len + PAGE_SIZE) - 1)) 12 in
  h ← kget heap;
  err ← fresh_pages (Z.to_nat pages) child h;
  if negb (err =? 0) then mret 0 else
  ins ← on_vmas (vma_insert h (wrap64 (h + pages * PAGE_SIZE)) (Z.lor PROT_READ PROT_WRITE) VMA_HEAP);
  (if ins =? 0 then kmodify (set_heap (wrap64 (h + pages * PAGE_SIZE))) else mret tt);;
  mret h.

Definition no_reply : list Z := [0; 0; 0; 0; 0].

(** One round: the reply to the last request goes out, a request comes in and is
    handled; the reply to it, or [None] when the child has exited. *)
Definition serve_round (child : Z) (reply : list Z) : K (pager W) (option (list Z)) :=
  r ← on_world (uipc (IPC_PACK IPC_REPLY_AND_WAIT 0) reply);
  let '(sender, msg) := r in
  if (sender <=? 0) || (child =? 0) then mret (Some no_reply) else
  let req := msg !!! 0%nat in
  if req =? KOHARU_REQ_READY then log ("[root] child ready" +:+ nl);; mret (Some no_reply)
  else if req =? KOHARU_REQ_EXIT then log ("[root] child exited" +:+ nl);; mret None
  else if (req =? KOHARU_REQ_ALLOC) || (req =? KOHARU_REQ_MAP) then
    a ← serve_alloc child (msg !!! 1%nat);
    mret (Some [a; 0; 0; 0; 0])
  else mret (Some no_reply).

(** [for (;;)]: [rounds] rounds of it. *)
Fixpoint serve_loop (rounds : nat) (child : Z) (reply : list Z) : K (pager W) unit :=
  match rounds with
  | O => kspin
  | S rounds' =>
      next ← serve_round child reply;
      match next with None => mret tt | Some reply' => serve_loop rounds' child reply' end
  end.
Definition serve (rounds : nat) (child : Z) : K (pager W) unit := vma_dump;; serve_loop rounds child no_reply.

(** ** The first thread (user/main.c) *)

(** [while (i + 1 < e_phnum && ...)]: the segments that continue [ph] are joined
    to it; the last index taken. *)
Fixpoint join_segments (fuel : nat) (phdrs n i : Z) (ph : phdr) : K (pager W) (phdr * Z) :=
  match fuel with
  | O => mret (ph, i)
  | S fuel' =>
      if negb (i + 1 <? n) then mret (ph, i) else
      nx ← on_mem (ld_phdr (phdrs + (i + 1) * SIZEOF_PHDR));
      if (p_type nx =? PT_LOAD) && (p_flags nx =? p_flags ph) && (p_vaddr nx =? mem_end ph)
         && (p_offset nx =? wrap64 (p_offset ph + p_filesz ph)) then
        join_segments fuel' phdrs n (i + 1)
          (Phdr (p_type ph) (p_flags ph) (p_offset ph) (p_vaddr ph)
             (wrap64 (p_offset nx + p_filesz nx - p_offset ph)) (wrap64 (p_vaddr nx + p_memsz nx - p_vaddr ph)))
      else mret (ph, i)
  end.

Section boot.
(** How many requests the server is followed for. *)
Variable rounds : nat.

(** A failing step is reported, and the server entered. *)
Definition serve_failed (msg : string) (child : Z) : K (pager W) unit := log (msg +:+ nl);; serve rounds child.

(** [for (i = 0; i < e_phnum; i++)]. *)
Fixpoint load_all (fuel : nat) (child elf phdrs n i : Z) : K (pager W) unit :=
  match fuel with
  | O => mret tt
  | S fuel' =>
      if negb (i <? n) then mret tt else
      ph ← on_mem (ld_phdr (phdrs + i * SIZEOF_PHDR));
      if negb (p_type ph =? PT_LOAD) then load_all fuel' child elf phdrs n (i + 1) else
      j ← join_segments (Z.to_nat n) phdrs n i ph;
      let '(ph, i) := j in
      err ← load_segment child elf ph;
      (if negb (err =? 0) then serve_failed "[root] segment load failed" child else mret tt);;
      load_all fuel' child elf phdrs n (i + 1)
  end.

Definition step_or_serve (msg : string) (child : Z) (step : K (pager W) Z) : K (pager W) unit :=
  err ← step; if negb (err =? 0) then serve_failed msg child else mret tt.

(** From the creation of the child on; [elf] has been checked. *)
Definition start_child (boot elf : Z) : K (pager W) unit :=
  self ← on_mem (ld 8 (boot + BOOT_SELF_TID));
  child ← syscall SYS_THREAD_CONTROL [TC_CREATE; 0; 0; self; 0];
  (if child <=? 0 then serve_failed "[root] child create failed" 0 else mret tt);;
  log "[root] child tid=";; log_ulong (wrap64 child);; log nl;;
  off ← on_mem (ld 8 (elf + 32));
  n ← on_mem (ld 2 (elf + 56));
  load_all (Z.to_nat n) (wrap64 child) elf (elf + off) n 0;;
  step_or_serve "[root] stack map failed" (wrap64 child) (map_stack (wrap64 child));;
  step_or_serve "[root] shared map failed" (wrap64 child) (map_shared (wrap64 child));;
  step_or_serve "[root] utcb map failed" (wrap64 child) (map_utcb (wrap64 child) (wrap64 child) self);;
  entry ← on_mem (ld 8 (elf + 24));
  step_or_serve "[root] child register write failed" (wrap64 child)
    (syscall SYS_EXCHANGE_REGISTERS [wrap64 child; entry; UTBC_VA; UTBC_VA; EXR_SET_ENTRY]);;
  step_or_serve "[root] child start failed" (wrap64 child)
    (syscall SYS_EXCHANGE_REGISTERS [wrap64 child; 0; 0; 0; EXR_ACTIVATE]);;
  log ("[root] child started" +:+ nl);;
  serve rounds (wrap64 child).

(** [root_main]; the [for (;;);] at its end is [kspin].  [serve(0)] does not
    return, so what follows it is not reached. *)
Definition root_main : K (pager W) unit :=
  self ← on_mem (ld 8 (ROOT_BOOT_VA + BOOT_SELF_TID));
  frames ← on_mem (ld 8 (ROOT_BOOT_VA + BOOT_FRAME_COUNT));
  pager_init self frames;;
  log "[root] tid=";; log_ulong self;; log nl;;
  bytes ← on_mem (ld 8 (ROOT_BOOT_VA + BOOT_POOL_BYTES));
  log "[root] pool ";; log_ulong bytes;; log " bytes / ";; log_ulong frames;; log (" frames" +:+ nl);;
  addr ← on_mem (ld 8 (ROOT_BOOT_VA + BOOT_INITRD_ADDR));
  sz ← on_mem (ld 8 (ROOT_BOOT_VA + BOOT_INITRD_SIZE));
  log "[root] initrd ";; log_hex addr;; log " size=";; log_ulong sz;; log nl;;
  (if (addr =? 0) || (sz =? 0) then serve_failed "[root] no initrd" 0 else mret tt);;
  found ← on_mem (cpio_extract (lit "070701") (lit "TRAILER!!!") addr (lit "child.elf"));
  match found with
  | None => serve_failed "[root] child.elf not found" 0
  | Some (elf, size) =>
      log "[root] child.elf ";; log_hex elf;; log " size=";; log_ulong size;; log nl;;
      bad ← on_mem (user_elf_check (lit (String (Ascii.ascii_of_nat 127) "ELF")) elf size);
      (if negb (bad =? 0) then serve_failed "[root] bad elf" 0 else mret tt);;
      start_child ROOT_BOOT_VA elf
  end;;
  kspin.
End boot.
End server.
