(* ===== verification/PagerSpec.v ===== *)
(** * What the root server's frame pool promises

    [pool_alloc] against the bitmap it reads: it looks at every frame once, in
    cyclic order from where the last call stopped. *)

From S2P Require Export Pager.

Section pool.
Context {W : Type} `{!UserWorld W}.
Implicit Types (s : pager W) (m : bmem).

(** The bitmap at [p] in [m] offers frame [b]. *)
Definition offers m (p b : Z) : bool :=
  match m !! (p + b / 8) with Some byte => has_flag byte (bit (b mod 8)) | None => false end.
(** The whole bitmap can be read. *)
Definition bitmap_mapped m (p bits : Z) : Prop := ∀ b, 0 ≤ b < bits → is_Some (m !! (p + b / 8)).
(** The frames in the order in which they are looked at. *)
Definition from_cursor (bits b : Z) : list Z := seqZ b (bits - b) ++ seqZ 0 b.

(** [pool_scan] as a function of the bitmap. *)
Fixpoint scan m (p bits : Z) (n : nat) (b : Z) : option Z * Z :=
  match n with
  | O => (None, b)
  | S n' => let b := if bits <=? b then 0 else b in
            if offers m p b then (Some b, b + 1) else scan m p bits n' (b + 1)
  end.

Lemma scan_app m (p bits : Z) n1 n2 b :
  scan m p bits (n1 + n2) b = match scan m p bits n1 b with (None, b') => scan m p bits n2 b' | r => r end.
Proof.
  revert b. induction n1 as [|n1 IH]; intros b; [done|]. simpl. by destruct (offers _ _ _).
Qed.

(** A run of frames without wrap-around. *)
Lemma scan_run m p bits n b :
  0 ≤ b → b + Z.of_nat n ≤ bits →
  scan m p bits n b =
    match filter (λ b, offers m p b = true) (seqZ b (Z.of_nat n)) with f :: _ => (Some f, f + 1) | [] => (None, b + Z.of_nat n) end.
Proof.
  revert b. induction n as [|n IH]; intros b H0 Hb; [by rewrite Z.add_0_r|].
  simpl scan. rewrite (proj2 (Z.leb_gt bits b)) by lia.
  rewrite (seqZ_cons b (Z.of_nat (S n))) by lia. rewrite filter_cons.
  destruct (offers m p b) eqn:E; [by rewrite decide_True|]. rewrite decide_False by done.
  rewrite IH by lia. replace (Z.pred (Z.of_nat (S n))) with (Z.of_nat n) by lia.
  change (Z.succ b) with (b + 1). replace (b + 1 + Z.of_nat n) with (b + Z.of_nat (S n)) by lia. done.
Qed.

Lemma filter_app_head {A} (P : A → Prop) `{!∀ x, Decision (P x)} (l1 l2 : list A) :
  head (filter P (l1 ++ l2)) = match filter P l1 with x :: _ => Some x | [] => head (filter P l2) end.
Proof. rewrite filter_app. by destruct (filter P l1). Qed.

(** All of them, once. *)
Lemma scan_cycle m p bits b :
  0 ≤ b ≤ bits → let r := head (filter (λ b, offers m p b = true) (from_cursor bits b)) in
  ∃ b', scan m p bits (Z.to_nat bits) b = (r, b') ∧ 0 ≤ b' ≤ bits ∧ ∀ f, r = Some f → b' = f + 1.
Proof.
  intros Hb r. unfold r, from_cursor. rewrite filter_app_head.
  replace (Z.to_nat bits) with (Z.to_nat (bits - b) + Z.to_nat b)%nat by lia.
  rewrite scan_app, scan_run by lia. rewrite Z2Nat.id by lia.
  destruct (filter _ (seqZ b (bits - b))) as [|f l] eqn:E.
  - destruct (decide (b = 0)) as [->|]; [exists bits; split_and!; try done; try lia; f_equal; lia|].
    assert (Es : scan m p bits (Z.to_nat b) (b + (bits - b)) = scan m p bits (Z.to_nat b) 0).
    { destruct (Z.to_nat b) as [|k] eqn:En; [lia|]. simpl. rewrite (proj2 (Z.leb_le _ _)) by lia.
      by rewrite (proj2 (Z.leb_gt _ _)) by lia. }
    rewrite Es, scan_run by lia. rewrite Z2Nat.id by lia.
    destruct (filter _ (seqZ 0 b)) as [|f l] eqn:E2; [exists (0 + b); split_and!; try done; lia|].
    exists (f + 1). split_and!; [done| | |by intros ? [= <-]].
    all: assert (Hf : f ∈ f :: l) by left; rewrite <- E2 in Hf; apply list_elem_of_filter in Hf as [_ Hf%elem_of_seqZ]; lia.
  - exists (f + 1). assert (Hf : f ∈ f :: l) by left. rewrite <- E in Hf.
    apply list_elem_of_filter in Hf as [_ Hf%elem_of_seqZ].
    split_and!; [done|lia|lia|intros ? [= <-]; done].
Qed.

Lemma on_mem_read {A} (c : K bmem A) s a :
  c (u_bytes (world s)) = Done a (u_bytes (world s)) → on_mem c s = Done a s.
Proof. intros E. unfold on_mem. rewrite (klift_done (λ s, u_bytes (world s)) _ c s a (u_bytes (world s)) E), u_set_same. by destruct s. Qed.

Lemma pool_scan_run n : ∀ s,
  bitmap_mapped (u_bytes (world s)) (pool s) (pool_bits s) → 0 < pool_bits s < U64 → 0 ≤ pool_bit s ≤ pool_bits s →
  let r := scan (u_bytes (world s)) (pool s) (pool_bits s) n (pool_bit s) in
  pool_scan n s = Done (r.1) (set_pool_bit (r.2) s).
Proof.
  induction n as [|n IH]; intros s Hm H0 Hb; [by destruct s|]. simpl.
  set (b := if pool_bits s <=? pool_bit s then 0 else pool_bit s).
  assert (Hr : 0 ≤ b < pool_bits s) by (unfold b; destruct (Z.leb_spec (pool_bits s) (pool_bit s)); lia).
  destruct (Hm b Hr) as [byte Eb].
  rewrite (bind_done _ _ s (pool_bits s) s) by done. rewrite (bind_done _ _ s (pool_bit s) s) by done. fold b.
  rewrite (bind_done _ _ s (pool s) s) by done.
  rewrite (bind_done _ _ s byte s) by (apply on_mem_read, kread_done; exact Eb).
  rewrite wrap64_small by lia. rewrite (bind_done _ _ s tt (set_pool_bit (b + 1) s)) by done.
  unfold offers. rewrite Eb. destruct (has_flag byte (bit (b mod 8))); [done|].
  rewrite IH; simpl; [|done|lia|lia]. done.
Qed.

Lemma pool_alloc_run s :
  bitmap_mapped (u_bytes (world s)) (pool s) (pool_bits s) → 0 ≤ pool_bit s ≤ pool_bits s → pool_bits s < U64 →
  let r := head (filter (λ b, offers (u_bytes (world s)) (pool s) b = true) (from_cursor (pool_bits s) (pool_bit s))) in
  ∃ b', pool_alloc s = Done r (set_pool_bit b' s) ∧ 0 ≤ b' ≤ pool_bits s ∧ (∀ f, r = Some f → b' = f + 1).
Proof.
  intros Hm Hb HU r. destruct (scan_cycle (u_bytes (world s)) (pool s) (pool_bits s) (pool_bit s) Hb) as (b' & E & Hb' & Hf).
  exists b'. split; [|done]. unfold pool_alloc. rewrite (bind_done _ _ s (pool_bits s) s) by done.
  destruct (decide (pool_bits s = 0)) as [H0|H0].
  - rewrite H0 in *. simpl in E |- *. injection E as Er <-. unfold r. rewrite H0, <- Er. by destruct s.
  - rewrite pool_scan_run; [|done|lia|done]. by rewrite E.
Qed.

(** The only frame on offer is the first of any order. *)
Lemma only_one (P : Z → Prop) `{!∀ x, Decision (P x)} l f :
  f ∈ l → (∀ b, b ∈ l → P b ↔ b = f) → head (filter P l) = Some f.
Proof.
  intros Hf HP. destruct (filter P l) as [|x k] eqn:E.
  - assert (Hin : f ∈ filter P l) by (apply list_elem_of_filter; split; [by apply HP|done]). rewrite E in Hin. by apply not_elem_of_nil in Hin.
  - assert (Hx : x ∈ x :: k) by left. rewrite <- E in Hx. apply list_elem_of_filter in Hx as [Hx Hl]. simpl. f_equal. by apply HP.
Qed.
Lemma from_cursor_elem bits c b : 0 ≤ c ≤ bits → b ∈ from_cursor bits c ↔ 0 ≤ b < bits.
Proof. intros Hc. unfold from_cursor. rewrite elem_of_app, !elem_of_seqZ. lia. Qed.

(** C40: a frame of the pool.  [pool_alloc] returns, after at most one look at every
    frame: the first frame the bitmap offers in cyclic order from the cursor, or
    failure exactly when it offers none.  Only the cursor moves: the frame stays
    in the bitmap, and once the others have been handed out it is handed out
    again. *)
Theorem pool_alloc_spec s :
  bitmap_mapped (u_bytes (world s)) (pool s) (pool_bits s) → 0 ≤ pool_bit s ≤ pool_bits s → pool_bits s < U64 →
  let r := head (filter (λ b, offers (u_bytes (world s)) (pool s) b = true) (from_cursor (pool_bits s) (pool_bit s))) in
  ∃ b', pool_alloc s = Done r (set_pool_bit b' s) ∧ 0 ≤ b' ≤ pool_bits s ∧ (∀ f, r = Some f → b' = f + 1) ∧
    (∀ f, (∀ b, 0 ≤ b < pool_bits s → offers (u_bytes (world s)) (pool s) b = bool_decide (b = f)) → 0 ≤ f < pool_bits s →
      r = Some f ∧ value_of (pool_alloc (set_pool_bit b' s)) = Some (Some f)).
Proof.
  intros Hm Hb HU r. destruct (pool_alloc_run s Hm Hb HU) as (b' & E & Hb' & Hf). exists b'. split_and!; try done; [lia..|].
  intros f Ho Hr. assert (Hone : ∀ c, 0 ≤ c ≤ pool_bits s →
    head (filter (λ b, offers (u_bytes (world s)) (pool s) b = true) (from_cursor (pool_bits s) c)) = Some f).
  { intros c Hc. apply only_one; [by apply from_cursor_elem|]. intros b Hi%from_cursor_elem; [|done].
    rewrite Ho by done. by rewrite bool_decide_eq_true. }
  split; [by apply Hone|]. destruct (pool_alloc_run (set_pool_bit b' s)) as (b2 & E2 & _); [done..|].
  rewrite E2. simpl. by rewrite Hone.
Qed.
End pool.

(** ** A world of its own memory, whose system calls fail *)

#[local] Instance alone : UserWorld bmem := {|
  u_bytes m := m; u_set_bytes m _ := m; usyscall _ _ := mret (-1); uipc _ _ := mret (-1, []);
  u_bytes_set _ _ := eq_refl; u_set_same _ := eq_refl |}.

(** Eleven frames of which the tenth is in the pool; the cursor is behind it. *)
Definition one_frame : pager bmem := PagerState 1 16 11 10 0 (Vmas ∅ 0 (RbTree 0 ∅) 0 0) {[ 16 := 0; 17 := 2 ]}.

Lemma pool_alloc_spec_witness :
  bitmap_mapped (u_bytes (world one_frame)) 16 11 ∧
  value_of (pool_alloc one_frame) = Some (Some 9) ∧ value_of (pool_alloc (state_of one_frame (pool_alloc one_frame))) = Some (Some 9).
Proof.
  assert (Hm : bitmap_mapped (u_bytes (world one_frame)) (pool one_frame) (pool_bits one_frame)).
  { intros b Hb. cbn in Hb. assert (Hd : b / 8 = 0 ∨ b / 8 = 1) by (Z.div_mod_to_equations; lia). destruct Hd as [-> | ->]; by eexists. }
  assert (Ho : ∀ b, 0 ≤ b < pool_bits one_frame → offers (u_bytes (world one_frame)) (pool one_frame) b = bool_decide (b = 9)).
  { intros b Hb. assert (Hi : b ∈ seqZ 0 11) by (apply elem_of_seqZ; cbn in Hb; lia).
    assert (Hall : Forall (λ b, offers (u_bytes (world one_frame)) (pool one_frame) b = bool_decide (b = 9)) (seqZ 0 11)) by (vm_compute; repeat constructor).
    rewrite Forall_forall in Hall. by apply Hall. }
  assert (Hc : 0 ≤ pool_bit one_frame ≤ pool_bits one_frame) by (cbn; lia).
  assert (Hu : pool_bits one_frame < U64) by done.
  destruct (pool_alloc_spec one_frame Hm Hc Hu) as (b' & E & _ & _ & H).
  destruct (H 9 Ho ltac:(cbn; lia)) as [Hr E2]. clear H.
  split; [exact Hm|]. rewrite E. split; [exact (f_equal Some Hr)|exact E2].
Defined.
